(* ===== verification/_CoqProject ===== *)
-Q . S2P
Prelude.v
RustStd.v
Core.v
Breaker.v
Singleflight.v
Log.v
Redis.v
RedisClock.v
Snapbi.v
Primitives.v
Ciphers.v
Codecs.v
Http.v
Auth.v
Replay.v
IdemWindow.v
Discovery.v
Grpc.v
Amqp.v
AuditTrail.v
AuditPool.v
AuditAmqp.v
Config.v
Health.v
Db.v
Sentry.v
S3minio.v
Trace.v
Lint.v
Logging.v
Reports.v
Umbrella.v
Router.v
UnitTests.v
CrateTests.v
Vectors.v
AlgorithmVectors.v
AsyncTests.v
