(* ===== verification/Prelude.v ===== *)
(** * A verification library for paycloudhelper-rs

    The program is a family of Rust crates ([src/crates/pc-*]) that PayCloud services share: request
    guards, signatures, a Redis client, a RabbitMQ client, gRPC channels with DNS discovery, audit
    trails, logging and error reporting, and the resilience primitives under them. This library
    models the crates' own logic as executable Rocq definitions and proves what makes them correct.

    ** Files

    - [Prelude]: results, the state-passing effect [io W A := W -> A * W] with the notations
      [let!], [let?] and [let!?] (sequencing, [?] on values, [?] on effects), the awaited effect
      [aio W A := io W (option A)] of an operation that may never answer, with [await!] and
      [await?], traces, closures of step relations, tactics, and the hint database [rust].
    - [RustStd]: the standard-library operations the crates call: [str] on UTF-8 bytes (searches,
      splits, Unicode trimming, UTF-8 validity), fixed-width integers, decimal parsing and
      printing of integers and IEEE floats, [Duration] as nanoseconds.
    - [Core]: [pc-core] (environment names, Go booleans, the log prefix, the identity globals,
      errors, and the JSON compactor [compact_bytes] of [json.rs]).
    - [Breaker], [Singleflight]: [pc-resilience], [breaker.rs] and [singleflight.rs].
    - [Log]: [pc-log] (sampler, window limiter, context, golog line format, forwarding).
    - [Redis]: [pc-redis] (keys, TTL clamp, deadlines, pool operations, locks). [RedisClock]: the
      same operations on a server whose keys expire, in milliseconds of its clock.
    - [Snapbi]: [pc-snapbi] (strings to sign, HMAC and RSA signatures, AES framing, JWT checks).
    - [Codecs]: [pc-json] and [pc-validate]. [Http]: [pc-http]. [Auth]: [pc-auth].
    - [Discovery], [Grpc]: [pc-grpc], [discovery.rs] and [lib.rs].
    - [Amqp]: [pc-amqp]. [AuditTrail], [AuditPool]: [pc-audit], the wire objects with their builders
      and the derived reader of a trace, and the worker pool. [AuditAmqp]: the pool publishing
      through [Amqp]. [Config]: [pc-config]. [Health]: [pc-health].
    - [Db]: [pc-db]. [Sentry]: [pc-sentry]. [S3minio]: [pc-s3minio]. [Trace]: [pc-trace].
    - [Router]: [base_router] of [pc-http], layer by layer, and its graceful shutdown.
    - [Replay]: the idempotency guard of [Auth] in two phases, and two requests that overlap in it.
      [IdemWindow]: requests repeated one after the other, in time, over [RedisClock].
    - [Logging]: the emit macros of [pc-log] over one process state, [init], the keyed limiters of
      [pc-log] and [pc-resilience], and the timestamp format. [Reports]: [Logging] with [Sentry]'s
      hook behind it. [Umbrella]: [paycloudhelper::init].
    - [Lint]: [xtask], the lint of the mirror annotations and its baseline.
    - [UnitTests], [CrateTests]: the repository's deterministic unit tests as booleans over the
      definitions, evaluated by the kernel; they tie the model to what the code's own tests say.
      [AsyncTests]: the tests of the concurrent and timed parts, as schedules.
      [Vectors], [AlgorithmVectors]: the golden vectors of the [tests] directories; the model
      reproduces the signatures, plaintexts and tokens captured from the Go program.
    - [Primitives], [Ciphers]: published algorithms (SHA-2, HMAC, Base64, AES-256-GCM, RSA, DER and
      PEM, JWT) as a concrete instance of [Snapbi]'s parameters, with a proof of the laws its
      theorems assume. The vectors run on it; no model of the crates depends on it.

    ** How the parts interact

    [Auth] runs over [Redis] (through the class [RedisStore], whose laws [Redis.pool_store_laws]
    discharges for the pooled client), [Snapbi] (JWT), [Http] (envelopes, request ids) and [Codecs]
    (key syntax). [AuditPool] publishes through the class [Publisher], which [Amqp] implements;
    [AuditAmqp] runs the two together, with reconnections at any point. The laws of [RedisStore] are
    those of a standing clock, for one request of a guard; [RedisClock] gives the store a second
    contract, [RedisStoreClockLaws], that [IdemWindow] uses for the guard of [Auth] over time.
    [Grpc] starts the [Discovery] refresher on exactly what its connect functions queued.
    [Health] probes [Redis] and [Amqp]. [Sentry] receives the lines [Log] forwards, and
    [Reports] runs [Logging] into it. [S3minio]'s
    facade is a client of the class [Client], with a gRPC and an HTTP instance. [Logging] puts
    [Log]'s sampler and limiters in front of two sinks, the event formatter and the forwarding
    hook; [Umbrella] starts [Config] and [Logging] together. [Router] wraps any handler in the
    layers of [Http] over the class [Framework].

    ** Conventions

    A definition has the name of the Rust item it models, and its branches are the code's, in its
    order; a method becomes a function of its receiver. Shared mutable state is an explicit record
    (the breaker's mutex contents, the singleflight map, the refresher's fields, the publisher's
    atomics and workers, the process globals). Code that interleaves is a step relation whose steps
    are the code's atomic sections ([Singleflight.step], [AuditPool.step]), each with an executable
    scheduler proved to run exactly the relation's steps ([exec], [exec_all]); code under one mutex is
    a function per call, and an interleaving is a list of calls ([Breaker.step]). Third-party code
    (brokers, Redis, ciphers, HTTP, the Sentry and OpenTelemetry SDKs, the regular-expression
    engine, the JSON parser) is a type class of operations, with a second class [...Laws] of the
    documented facts a theorem uses; every theorem that has such a hypothesis is applied to a
    concrete instance in its witness. The process environment is [Env := string -> option string].

    ** What the theorems show

    - Safety of the guards: a guarded handler runs only for requests that pass every check, and
      every refusal has its status, the revocation guard deciding as the function
      [Auth.revoke_verdict] does ([Auth]); signatures accept exactly what signing produces, the
      string to sign is unambiguous, and a body matters only through its compact form ([Snapbi],
      [Core]); a token past its [exp] is refused, as are the others [Auth.authentic] leaves out;
      a request repeated under the idempotency guard runs its handler at most once within the
      session it names, up to the ceiling on TTLs ([IdemWindow]), unless the two overlap
      ([Replay.idempotency_race]); every answer of the router is one of the
      layers' refusals or the handler's, with its headers ([Router]).
      The compactor is exactly the relation [Core.Elides]. The assumptions on the signature and
      encryption primitives hold of the published algorithms ([Ciphers.Laws.suite_laws]).
    - Invariants of the concurrent parts under every interleaving: the breaker's well-formedness,
      its single probe and its recovery ([Breaker]); one execution per key at a time, no leaked or
      re-joined flight, no stranded caller, one result per flight, a panic that stays within its
      flight ([Singleflight]); every accepted audit message accounted for, and the queue drained
      within a bounded number of steps once stopped, unless every worker left waits on a publish
      that is never answered ([AuditPool]), the broker receiving each at most once ([AuditAmqp]); a
      balancer that is never emptied, and that converges to the last answer ([Discovery], [Grpc]).
      The breaker refines an abstract gate ([Breaker.breaker_refines_gate]).
    - Functional laws, bounds and round trips: sampling and window limiting ([Log]), TTLs and the
      store ([Redis]), the life of a stored value between its call and its expiry ([RedisClock]),
      the number of issues an error storm opens ([Reports]), backoff, deadlines, prewarming and
      host-port parsing ([Grpc]), reconnection, retries and correlation as the exact calls made on
      the broker ([Amqp]), traces read back ([AuditTrail]), pool sizes ([Db]), issue contents
      ([Sentry]), what telemetry is started with, its shutdown and its header and attribute formats
      ([Trace]), readiness ([S3minio], [Health]), configuration ([Config]); the two log sinks agree
      on what was emitted ([Logging]), start-up may be repeated ([Umbrella]), and the lint reports
      exactly the unannotated exports outside test code and fails exactly on what its baseline does
      not list ([Lint]).

    ** Bounds, fuel and idealisations

    - Integers are [Z] with their width written out: wrapping additions are the release build's
      ([u32_add], [u64_add], [i64_add]), saturating and checked ones are the code's; [usize] is 64
      bits wide. Doubling a retry delay is not wrapped, being capped by a configured interval.
      A theorem about counters states the number of events below which no counter wraps.
    - Floats are the Standard Library's IEEE binary64 and binary32 values, with correct rounding.
    - Loops are structural recursion over what they consume: attempts left ([Grpc.prewarm_from],
      [Amqp.push_loop]), lookup answers ([Discovery.run_loop]), deliveries or turns until the
      deadline ([Amqp.wait_reply], [Amqp.ready_loop]: the deadline passes after [n] of them at the
      latest). Fuel is only used where its bound is plain: four digits for a 16-bit group
      ([Discovery.hex_digits]), the bytes left in a name of [Lint.take_while_chars], and the bytes
      left to the JSON parsers of the reference algorithms.
    - Instants are nanoseconds on the monotonic clock, and every reading is an input.
    - A turn of the discovery refresher reads the certificate file once. A [timeout] is an operation
      that either returns what its body does or gives up; nothing is assumed of when. In [Amqp] and
      [AuditPool] a body that is given up, or never answers, is one whose awaited operations end in
      [None]: what was done until then stays done, and where the code has no [timeout] its caller
      waits for ever.

    ** Not modelled

    Third-party code (axum, tonic, lapin, fred, reqwest, governor, tracing, the ciphers) is reached
    only through its interface. Re-exports and [Debug] implementations have no behaviour; log lines
    inside the other crates are dropped unless a theorem is about them. Of the tests, those that
    open a listening socket or a live connection are left out. Which error a derived reader reports
    is not modelled, nor whether the Sentry SDK sends what it is handed. The RSA instance computes
    with machine words; that a key's two exponents undo each other is a hypothesis of its law. *)
From stdpp Require Export base option list strings gmap sorting.
From Stdlib Require Export ZArith Lia Bool Ascii String.
#[export] Set Default Proof Using "Type".

(** [length] is the length of a list; strings use [String.length]. *)
Abbreviation length := Datatypes.length.

Declare Scope rust_scope.
Delimit Scope rust_scope with rust.

(** ** Results and the state-passing effect *)

(** Rust's [Result<T, E>]. *)
Inductive result (A E : Type) : Type :=
| Ok (a : A)
| Err (e : E).
Arguments Ok {A E} a.
Arguments Err {A E} e.

Definition res_bind {A B E : Type} (r : result A E) (k : A -> result B E) : result B E :=
  match r with Ok a => k a | Err e => Err e end.

Definition res_map_err {A E F : Type} (f : E -> F) (r : result A E) : result A F :=
  match r with Ok a => Ok a | Err e => Err (f e) end.

Definition is_ok {A E : Type} (r : result A E) : bool :=
  match r with Ok _ => true | Err _ => false end.

Definition res_ok {A E : Type} (r : result A E) : option A :=
  match r with Ok a => Some a | Err _ => None end.

Definition ok_or {A E : Type} (o : option A) (e : E) : result A E :=
  match o with Some a => Ok a | None => Err e end.

(** An effectful computation over a world [W] (explicit state passing). *)
Definition io (W A : Type) : Type := W -> A * W.
Definition io_ret {W A : Type} (a : A) : io W A := fun w => (a, w).
Definition io_bind {W A B : Type} (m : io W A) (k : A -> io W B) : io W B :=
  fun w => let '(a, w') := m w in k a w'.

(** Sequencing of a fallible effect: the [?] operator in an async body. *)
Definition io_try {W A B E : Type} (m : io W (result A E)) (k : A -> io W (result B E))
  : io W (result B E) :=
  fun w => match m w with
           | (Ok a, w') => k a w'
           | (Err e, w') => (Err e, w')
           end.

(** An awaited operation: [None] when it gives no answer before its caller is given up, or ever;
    what it did to the world until then stays done. *)
Definition aio (W A : Type) : Type := io W (option A).
Definition aio_ret {W A : Type} (a : A) : aio W A := io_ret (Some a).
Definition aio_bind {W A B : Type} (m : aio W A) (k : A -> aio W B) : aio W B :=
  fun w => match m w with
           | (Some a, w') => k a w'
           | (None, w') => (None, w')
           end.
Definition aio_try {W A B E : Type} (m : aio W (result A E)) (k : A -> aio W (result B E))
  : aio W (result B E) :=
  fun w => match m w with
           | (Some (Ok a), w') => k a w'
           | (Some (Err e), w') => (Some (Err e), w')
           | (None, w') => (None, w')
           end.

(** An operation that is not awaited always answers. *)
Definition at_once {W A : Type} (m : io W A) : aio W A :=
  fun w => let '(a, w') := m w in (Some a, w').

Notation "'let?' x ':=' m 'in' k" := (res_bind m (fun x => k))
  (at level 10, x pattern, m at level 100, k at level 200) : rust_scope.
Notation "'let!' x ':=' m 'in' k" := (io_bind m (fun x => k))
  (at level 10, x pattern, m at level 100, k at level 200) : rust_scope.
Notation "'let!?' x ':=' m 'in' k" := (io_try m (fun x => k))
  (at level 10, x pattern, m at level 100, k at level 200) : rust_scope.
Notation "'await!' x ':=' m 'in' k" := (aio_bind m (fun x => k))
  (at level 10, x pattern, m at level 100, k at level 200) : rust_scope.
Notation "'await?' x ':=' m 'in' k" := (aio_try m (fun x => k))
  (at level 10, x pattern, m at level 100, k at level 200) : rust_scope.

(** ** Traces of a deterministic component *)

(** Run a component over a list of events, collecting one answer per event. *)
Fixpoint run_trace {S Ev Out : Type} (step : Ev -> S -> Out * S) (evs : list Ev) (s : S)
  : list Out * S :=
  match evs with
  | [] => ([], s)
  | e :: rest =>
      let '(o, s1) := step e s in
      let '(os, s2) := run_trace step rest s1 in
      (o :: os, s2)
  end.

(** Run a schedule of a partial component: an act that cannot run yet is skipped. *)
Fixpoint run_acts {A S L : Type} (exec : A -> S -> option (L * S)) (acts : list A) (s : S)
  : list L * S :=
  match acts with
  | [] => ([], s)
  | a :: acts =>
      match exec a s with
      | Some (l, s1) => let '(ls, s2) := run_acts exec acts s1 in (l :: ls, s2)
      | None => run_acts exec acts s
      end
  end.

(** Reflexive-transitive closure of a labelled step relation. *)
Inductive steps {S L : Type} (step : S -> L -> S -> Prop) : S -> list L -> S -> Prop :=
| steps_nil s : steps step s [] s
| steps_cons s l s1 ls s2 : step s l s1 -> steps step s1 ls s2 -> steps step s (l :: ls) s2.

(** ** Tactics *)

(** Split conjunctions of the goal and destruct boolean tests, then arithmetic. *)
Ltac split_and_lia := repeat split; try lia.

(** Turn boolean comparisons on [Z] in hypotheses and goal into propositions. *)
Ltac zbool :=
  repeat match goal with
  | H : (_ <? _)%Z = true |- _ => apply Z.ltb_lt in H
  | H : (_ <? _)%Z = false |- _ => apply Z.ltb_ge in H
  | H : (_ <=? _)%Z = true |- _ => apply Z.leb_le in H
  | H : (_ <=? _)%Z = false |- _ => apply Z.leb_gt in H
  | H : (_ =? _)%Z = true |- _ => apply Z.eqb_eq in H
  | H : (_ =? _)%Z = false |- _ => apply Z.eqb_neq in H
  | H : (_ && _) = true |- _ => apply andb_true_iff in H as [? ?]
  | H : (_ || _) = false |- _ => apply orb_false_iff in H as [? ?]
  | H : negb _ = true |- _ => apply negb_true_iff in H
  | H : negb _ = false |- _ => apply negb_false_iff in H
  end.

(** Case analysis on the first test of the goal, keeping its equation. *)
Ltac test_case :=
  match goal with
  | |- context [if ?b then _ else _] => destruct b eqn:?
  end.

(** ** Generic lemmas *)

Create HintDb rust.

Lemma res_bind_ok {A B E : Type} (r : result A E) (k : A -> result B E) b :
  res_bind r k = Ok b <-> exists a, r = Ok a /\ k a = Ok b.
Proof. destruct r; simpl; naive_solver. Qed.

Lemma run_trace_app {S Ev Out} (step : Ev -> S -> Out * S) e1 e2 s :
  run_trace step (e1 ++ e2) s =
  let '(o1, s1) := run_trace step e1 s in
  let '(o2, s2) := run_trace step e2 s1 in (o1 ++ o2, s2).
Proof.
  revert s. induction e1 as [|e e1 IH]; intros s; simpl.
  - by destruct (run_trace step e2 s).
  - destruct (step e s) as [o s1]. rewrite IH.
    destruct (run_trace step e1 s1) as [os s2].
    by destruct (run_trace step e2 s2).
Qed.

(** An invariant kept by the steps of some events holds after any trace of them. *)
Lemma run_trace_inv_on {S Ev Out} (step : Ev -> S -> Out * S) (Q : Ev -> Prop) (I : S -> Prop) :
  (forall e s, Q e -> I s -> I (step e s).2) ->
  forall evs s, Forall Q evs -> I s -> I (run_trace step evs s).2.
Proof.
  intros Hstep evs s Hevs. revert s. induction Hevs as [|e evs He _ IH]; intros s Hs; simpl; [done|].
  specialize (Hstep e s He Hs). destruct (step e s) as [o s1]; simpl in *.
  specialize (IH s1 Hstep). by destruct (run_trace step evs s1).
Qed.

(** An invariant kept by every step of a deterministic component holds after any trace. *)
Lemma run_trace_inv {S Ev Out} (step : Ev -> S -> Out * S) (I : S -> Prop) :
  (forall e s, I s -> I (step e s).2) ->
  forall evs s, I s -> I (run_trace step evs s).2.
Proof.
  intros Hstep evs s. apply (run_trace_inv_on step (fun _ => True)); [auto|]. by apply Forall_forall.
Qed.

(** An invariant kept by every step of a relation holds in every reachable state. *)
Lemma steps_inv {S L} (step : S -> L -> S -> Prop) (I : S -> Prop) :
  (forall s l s', step s l s' -> I s -> I s') ->
  forall s ls s', steps step s ls s' -> I s -> I s'.
Proof. intros Hstep s ls s'. induction 1; eauto. Qed.

Lemma steps_app {S L} (step : S -> L -> S -> Prop) s l1 s1 l2 s2 :
  steps step s l1 s1 -> steps step s1 l2 s2 -> steps step s (l1 ++ l2) s2.
Proof. induction 1; simpl; [done|]. intros. econstructor; eauto. Qed.

(** A schedule whose acts are steps of a relation runs a trace of it. *)
Lemma run_acts_steps {A S L} (exec : A -> S -> option (L * S)) (step : S -> L -> S -> Prop) acts :
  Forall (fun a => forall s l s1, exec a s = Some (l, s1) -> step s l s1) acts ->
  forall s, steps step s (run_acts exec acts s).1 (run_acts exec acts s).2.
Proof.
  induction 1 as [|a acts Ha _ IH]; intros s; cbn [run_acts]; [constructor|].
  destruct (exec a s) as [[l s1]|] eqn:He; [|apply IH].
  specialize (IH s1). destruct (run_acts exec acts s1) as [ls s2].
  econstructor; [by apply Ha|exact IH].
Qed.

#[export] Hint Resolve steps_nil : rust.
#[export] Hint Constructors steps : rust.
