(* ===== verification/RustStd.v ===== *)
(** The parts of the Rust standard library the crates use: [str] operations on UTF-8 byte
    strings, integer parsing and printing, [Duration] as whole nanoseconds, and the
    fixed-width arithmetic helpers. A [string] is the UTF-8 encoding of a [str]; a byte slice
    is a [list ascii]. *)
From Stdlib Require Import DecimalString DecimalN DecimalZ DecimalPos.
From Stdlib Require DecimalFacts.
From Stdlib Require Export Floats.SpecFloat.
From S2P Require Export Prelude.
Local Open Scope string_scope.
Local Open Scope Z_scope.

#[global] Arguments String.append !_ _ : simpl nomatch.

Abbreviation bytes := (list ascii).

Definition as_bytes (s : string) : bytes := list_ascii_of_string s.
Definition of_bytes (b : bytes) : string := string_of_list_ascii b.
Definition byte_of (a : ascii) : Z := Z.of_N (N_of_ascii a).

(** ** Prefixes, searches and splits *)

(** [str::is_empty]. *)
Definition is_empty (s : string) : bool :=
  match s with EmptyString => true | String _ _ => false end.

(** [str::strip_prefix]. *)
Fixpoint strip_prefix (p s : string) {struct p} : option string :=
  match p, s with
  | EmptyString, _ => Some s
  | String a p', String b s' => if Ascii.eqb a b then strip_prefix p' s' else None
  | String _ _, EmptyString => None
  end.

(** [str::starts_with]. *)
Definition starts_with (p s : string) : bool :=
  match strip_prefix p s with Some _ => true | None => false end.

(** [str::contains] and [str::find] for one ASCII character. *)
Fixpoint contains_char (c : ascii) (s : string) : bool :=
  match s with
  | EmptyString => false
  | String a s' => Ascii.eqb a c || contains_char c s'
  end.

(** [str::split_once] with a string pattern: the first match splits. *)
Fixpoint split_once (p s : string) : option (string * string) :=
  match strip_prefix p s with
  | Some r => Some (EmptyString, r)
  | None =>
      match s with
      | EmptyString => None
      | String a s' =>
          match split_once p s' with
          | Some (l, r) => Some (String a l, r)
          | None => None
          end
      end
  end.

(** [str::split_once] with a character: the first occurrence splits. *)
Fixpoint split_once_char (c : ascii) (s : string) : option (string * string) :=
  match s with
  | EmptyString => None
  | String a s' =>
      if Ascii.eqb a c then Some (EmptyString, s')
      else match split_once_char c s' with
           | Some (l, r) => Some (String a l, r)
           | None => None
           end
  end.

(** [str::rsplit_once] with a character: the last occurrence splits. *)
Fixpoint rsplit_once (c : ascii) (s : string) : option (string * string) :=
  match s with
  | EmptyString => None
  | String a s' =>
      match rsplit_once c s' with
      | Some (l, r) => Some (String a l, r)
      | None => if Ascii.eqb a c then Some (EmptyString, s') else None
      end
  end.

(** [str::split] on one character: always at least one piece. *)
Fixpoint split_char (c : ascii) (s : string) : list string :=
  match s with
  | EmptyString => [EmptyString]
  | String a s' =>
      if Ascii.eqb a c then EmptyString :: split_char c s'
      else match split_char c s' with
           | piece :: rest => String a piece :: rest
           | [] => [String a EmptyString]
           end
  end.

(** [str::strip_suffix]. *)
Definition strip_suffix (p s : string) : option string :=
  option_map (fun r => of_bytes (rev (as_bytes r)))
    (strip_prefix (of_bytes (rev (as_bytes p))) (of_bytes (rev (as_bytes s)))).

(** [str::trim_end_matches] with one character. *)
Fixpoint drop_char (c : ascii) (l : bytes) : bytes :=
  match l with a :: l' => if Ascii.eqb a c then drop_char c l' else l | [] => [] end.
Definition trim_end_matches (c : ascii) (s : string) : string :=
  of_bytes (rev (drop_char c (rev (as_bytes s)))).

(** ** Whitespace: [str::trim] removes Unicode [White_Space], here on its UTF-8 bytes *)

Definition ws1 (a : ascii) : bool :=
  let n := byte_of a in ((9 <=? n) && (n <=? 13)) || (n =? 32).

(** U+0085 and U+00A0. *)
Definition ws2 (a b : ascii) : bool :=
  (byte_of a =? 194) && ((byte_of b =? 133) || (byte_of b =? 160)).

(** U+1680, U+2000..U+200A, U+2028, U+2029, U+202F, U+205F and U+3000. *)
Definition ws3 (a b c : ascii) : bool :=
  let x := byte_of a in let y := byte_of b in let z := byte_of c in
  ((x =? 225) && (y =? 154) && (z =? 128))
  || ((x =? 226) && (y =? 128)
      && (((128 <=? z) && (z <=? 138)) || (z =? 168) || (z =? 169) || (z =? 175)))
  || ((x =? 226) && (y =? 129) && (z =? 159))
  || ((x =? 227) && (y =? 128) && (z =? 128)).

(** Drop the whitespace characters a byte list starts with; [f2] and [f3] recognise the
    two- and three-byte encodings in the direction the list is read. *)
Fixpoint drop_ws (f2 : ascii -> ascii -> bool) (f3 : ascii -> ascii -> ascii -> bool)
  (l : bytes) : bytes :=
  match l with
  | [] => []
  | a :: l1 =>
      if ws1 a then drop_ws f2 f3 l1
      else match l1 with
           | [] => l
           | b :: l2 =>
               if f2 a b then drop_ws f2 f3 l2
               else match l2 with
                    | [] => l
                    | c :: l3 => if f3 a b c then drop_ws f2 f3 l3 else l
                    end
           end
  end.

Definition trim_start_b (l : bytes) : bytes := drop_ws ws2 ws3 l.
Definition trim_end_b (l : bytes) : bytes :=
  rev (drop_ws (fun a b => ws2 b a) (fun a b c => ws3 c b a) (rev l)).

Definition trim_start (s : string) : string := of_bytes (trim_start_b (as_bytes s)).
Definition trim_end (s : string) : string := of_bytes (trim_end_b (as_bytes s)).
Definition trim (s : string) : string := of_bytes (trim_end_b (trim_start_b (as_bytes s))).

(** [str::split_whitespace().count()] on the bytes of the string: [inside] says the previous
    character belongs to a word. *)
Fixpoint count_words (inside : bool) (l : bytes) : Z :=
  match l with
  | [] => 0
  | a :: l1 =>
      if ws1 a then count_words false l1
      else
        let word := (if inside then 0 else 1) + count_words true l1 in
        match l1 with
        | [] => word
        | b :: l2 =>
            if ws2 a b then count_words false l2
            else match l2 with
                 | [] => word
                 | c :: l3 => if ws3 a b c then count_words false l3 else word
                 end
        end
  end.

(** ** UTF-8 validity: what [String::from_utf8] and [std::str::from_utf8] accept *)

Definition in_range (lo hi : Z) (a : ascii) : bool := (lo <=? byte_of a) && (byte_of a <=? hi).

(** Continuation byte. *)
Definition cont (a : ascii) : bool := in_range 128 191 a.

Fixpoint utf8_valid (l : bytes) : bool :=
  match l with
  | [] => true
  | a :: l1 =>
      if in_range 0 127 a then utf8_valid l1
      else match l1 with
           | [] => false
           | b :: l2 =>
               if in_range 194 223 a then cont b && utf8_valid l2
               else match l2 with
                    | [] => false
                    | c :: l3 =>
                        if in_range 224 239 a then
                          in_range (if byte_of a =? 224 then 160 else 128)
                                   (if byte_of a =? 237 then 159 else 191) b
                          && cont c && utf8_valid l3
                        else match l3 with
                             | [] => false
                             | d :: l4 =>
                                 in_range 240 244 a
                                 && in_range (if byte_of a =? 240 then 144 else 128)
                                             (if byte_of a =? 244 then 143 else 191) b
                                 && cont c && cont d && utf8_valid l4
                             end
                    end
           end
  end.

(** [String::from_utf8]. *)
Definition from_utf8 (b : bytes) : option string :=
  if utf8_valid b then Some (of_bytes b) else None.

(** ** ASCII case *)

Definition lower_ascii (a : ascii) : ascii :=
  let n := N_of_ascii a in
  if ((65 <=? n) && (n <=? 90))%N then ascii_of_N (n + 32) else a.

(** [str::to_ascii_lowercase]. *)
Fixpoint to_ascii_lowercase (s : string) : string :=
  match s with
  | EmptyString => EmptyString
  | String a s' => String (lower_ascii a) (to_ascii_lowercase s')
  end.

(** [str::eq_ignore_ascii_case]. *)
Definition eq_ignore_ascii_case (a b : string) : bool :=
  String.eqb (to_ascii_lowercase a) (to_ascii_lowercase b).

(** ** Machine-width integers *)

Definition U16_MAX : Z := 2 ^ 16 - 1.
Definition U32_MAX : Z := 2 ^ 32 - 1.
Definition U64_MAX : Z := 2 ^ 64 - 1.
Definition I64_MAX : Z := 2 ^ 63 - 1.
Definition I64_MIN : Z := - 2 ^ 63.

(** Wrapping addition on [u32], [u64] and [i64]: arithmetic of a build without overflow checks
    and of the atomic [fetch_add]s. *)
Definition u32_add (a b : Z) : Z := (a + b) mod 2 ^ 32.
Definition u64_add (a b : Z) : Z := (a + b) mod 2 ^ 64.
Definition u64_mul (a b : Z) : Z := (a * b) mod 2 ^ 64.
Definition i64_add (a b : Z) : Z := (a + b + 2 ^ 63) mod 2 ^ 64 - 2 ^ 63.

Definition saturating_sub (a b : Z) : Z := Z.max 0 (a - b).
Definition saturating_mul (lo hi a b : Z) : Z := Z.max lo (Z.min hi (a * b)).

(** [TryFrom] between integer types: the value when it fits. *)
Definition try_from (lo hi n : Z) : option Z :=
  if (lo <=? n) && (n <=? hi) then Some n else None.

(** ** Parsing and printing integers *)

(** A non-empty run of decimal digits. *)
Definition parse_digits (s : string) : option Z :=
  match NilZero.uint_of_string s with
  | Some u => Some (Z.of_N (N.of_uint u))
  | None => None
  end.

(** [FromStr] of an unsigned type with maximum [hi]: an optional plus sign, then digits. *)
Definition parse_unsigned (hi : Z) (s : string) : option Z :=
  let digits := match strip_prefix "+" s with Some r => r | None => s end in
  match parse_digits digits with
  | Some n => try_from 0 hi n
  | None => None
  end.

(** [FromStr] of a signed type: an optional sign, then digits. *)
Definition parse_signed (lo hi : Z) (s : string) : option Z :=
  let value :=
    match strip_prefix "-" s with
    | Some r => option_map Z.opp (parse_digits r)
    | None => parse_digits (match strip_prefix "+" s with Some r => r | None => s end)
    end in
  match value with
  | Some n => try_from lo hi n
  | None => None
  end.

Definition parse_i64 : string -> option Z := parse_signed I64_MIN I64_MAX.
Definition parse_u16 : string -> option Z := parse_unsigned U16_MAX.
Definition parse_u32 : string -> option Z := parse_unsigned U32_MAX.
Definition parse_u64 : string -> option Z := parse_unsigned U64_MAX.

(** [Display] of an integer. *)
Definition show_Z (n : Z) : string := NilZero.string_of_int (Z.to_int n).

(** ** Parsing floats

    [str::parse::<f64>] and [str::parse::<f32>] on the IEEE values of the Standard Library: an
    optional sign, then [inf], [infinity] or [nan] in any case, or decimal digits with an optional
    point and an optional exponent, correctly rounded. [prec] and [emax] are the format's. *)

(** The leading decimal digits of a string, their value appended to [acc], and their number. *)
Fixpoint take_digits (acc : Z) (n : Z) (s : string) : Z * Z * string :=
  match s with
  | String a s' =>
      if (48 <=? byte_of a) && (byte_of a <=? 57)
      then take_digits (acc * 10 + (byte_of a - 48)) (n + 1) s' else (acc, n, s)
  | EmptyString => (acc, n, s)
  end.

(** [m * 10 ^ k] rounded to nearest, ties to even. *)
Definition float_of_decimal (prec emax : Z) (neg : bool) (m k : Z) : spec_float :=
  if m =? 0 then S754_zero neg
  else
    let num := if 0 <=? k then m * 10 ^ k else m in
    let den := if 0 <=? k then 1 else 10 ^ (- k) in
    let '(q, e, l) := SFdiv_core_binary prec emax num 0 den 0 in
    binary_round_aux prec emax neg q e l.

(** What follows the mantissa digits: nothing, or an exponent. *)
Definition parse_exponent (s : string) : option Z :=
  match s with
  | EmptyString => Some 0
  | String a s' =>
      if (byte_of a =? 101) || (byte_of a =? 69) then
        let '(neg, s'') :=
          match s' with
          | String b r => if byte_of b =? 45 then (true, r)
                          else if byte_of b =? 43 then (false, r) else (false, s')
          | EmptyString => (false, s')
          end in
        let '(v, n, rest) := take_digits 0 0 s'' in
        if (n =? 0) || negb (is_empty rest) then None else Some (if neg then - v else v)
      else None
  end.

Definition parse_float (prec emax : Z) (s : string) : option spec_float :=
  let '(neg, s) :=
    match s with
    | String b r => if byte_of b =? 45 then (true, r)
                    else if byte_of b =? 43 then (false, r) else (false, s)
    | EmptyString => (false, s)
    end in
  let low := to_ascii_lowercase s in
  if String.eqb low "inf" || String.eqb low "infinity" then Some (S754_infinity neg)
  else if String.eqb low "nan" then Some S754_nan
  else
    let '(int, n1, rest) := take_digits 0 0 s in
    let '(m, n2, rest) :=
      match rest with
      | String b r => if byte_of b =? 46 then take_digits int 0 r else (int, 0, rest)
      | EmptyString => (int, 0, rest)
      end in
    if n1 + n2 =? 0 then None
    else option_map (fun e => float_of_decimal prec emax neg m (e - n2)) (parse_exponent rest).

Definition parse_f64 : string -> option spec_float := parse_float 53 1024.
Definition parse_f32 : string -> option spec_float := parse_float 24 128.

Example parse_f64_half : parse_f64 "0.5" = Some (S754_finite false 4503599627370496 (-53)).
Proof. reflexivity. Qed.

Example parse_f64_tenth : parse_f64 "1e-1" = Some (S754_finite false 7205759403792794 (-56)).
Proof. reflexivity. Qed.

Example parse_f64_bad : parse_f64 "." = None /\ parse_f64 "1e" = None /\ parse_f64 "" = None.
Proof. done. Qed.

(** ** Durations: whole nanoseconds, at most [u64::MAX] seconds and 999999999 ns *)

Definition NANOS : Z := 1000000000.
Definition DUR_MAX : Z := U64_MAX * NANOS + (NANOS - 1).
Definition from_secs (s : Z) : Z := s * NANOS.
Definition from_millis (ms : Z) : Z := ms * 1000000.
Definition as_millis (d : Z) : Z := d / 1000000.
Definition as_secs (d : Z) : Z := d / NANOS.
Definition dur_checked_sub (a b : Z) : option Z := if b <=? a then Some (a - b) else None.
Definition dur_saturating_mul (d n : Z) : Z := Z.min DUR_MAX (d * n).

(** [n / d] rounded to the nearest integer, ties to even. *)
Definition round_half_even (n d : Z) : Z :=
  let q := n / d in let r := n mod d in
  if 2 * r <? d then q else if d <? 2 * r then q + 1 else if Z.even q then q else q + 1.

(** [n as f64]. *)
Definition f64_of_Z (n : Z) : spec_float := binary_normalize 53 1024 n 0 false.

(** [Duration::as_secs_f64]. *)
Definition as_secs_f64 (d : Z) : spec_float :=
  SFadd 53 1024 (f64_of_Z (d / NANOS)) (SFdiv 53 1024 (f64_of_Z (d mod NANOS)) (f64_of_Z NANOS)).

(** [Duration::try_from_secs_f64]: the nearest whole number of nanoseconds; negative, infinite,
    too long and not-a-number are errors. *)
Definition try_from_secs_f64 (x : spec_float) : option Z :=
  match x with
  | S754_zero _ => Some 0
  | S754_finite false m e =>
      try_from 0 DUR_MAX
        (if 0 <=? e then Z.pos m * 2 ^ e * NANOS else round_half_even (Z.pos m * NANOS) (2 ^ (- e)))
  | _ => None
  end.

(** [Duration::mul_f64]; [None] is its panic. *)
Definition mul_f64 (d : Z) (x : spec_float) : option Z :=
  try_from_secs_f64 (SFmul 53 1024 x (as_secs_f64 d)).

(** [f64::clamp] to [0, 1]; a NaN is left alone. *)
Definition clamp01 (x : spec_float) : spec_float :=
  if SFltb x (f64_of_Z 0) then f64_of_Z 0
  else if SFltb (f64_of_Z 1) x then f64_of_Z 1 else x.

(** [Instant::elapsed] and [Instant::duration_since]: saturating at zero. *)
Definition elapsed (now t : Z) : Z := Z.max 0 (now - t).

(** [Debug] of a [Duration]: the largest unit that fits, the fraction without trailing zeros. *)
Fixpoint zeros (n : nat) : string :=
  match n with O => EmptyString | S n' => String "0" (zeros n') end.

Fixpoint drop_zeros (l : bytes) : bytes :=
  match l with
  | a :: rest => if Ascii.eqb a "0" then drop_zeros rest else l
  | [] => []
  end.

Definition fmt_decimal (int frac : Z) (width : nat) (suffix : string) : string :=
  if frac =? 0 then show_Z int +:+ suffix
  else
    let digits := show_Z frac in
    let padded := zeros (width - String.length digits) +:+ digits in
    show_Z int +:+ "." +:+ of_bytes (rev (drop_zeros (rev (as_bytes padded)))) +:+ suffix.

Definition micro_sign : string :=
  String (ascii_of_N 194) (String (ascii_of_N 181) EmptyString).

Definition duration_debug (d : Z) : string :=
  let secs := d / NANOS in
  let nanos := d mod NANOS in
  if 0 <? secs then fmt_decimal secs nanos 9 "s"
  else if 1000000 <=? nanos then fmt_decimal (nanos / 1000000) (nanos mod 1000000) 6 "ms"
  else if 1000 <=? nanos then fmt_decimal (nanos / 1000) (nanos mod 1000) 3 (micro_sign +:+ "s")
  else fmt_decimal nanos 0 1 "ns".

Example duration_debug_examples :
  map duration_debug [from_secs 1; from_millis 1500; from_millis 700; 0] =
  ["1s"; "1.5s"; "700ms"; "0ns"].
Proof. reflexivity. Qed.

(** ** Lemmas *)

Lemma of_as_bytes s : of_bytes (as_bytes s) = s.
Proof. apply string_of_list_ascii_of_string. Qed.

Lemma as_of_bytes b : as_bytes (of_bytes b) = b.
Proof. apply list_ascii_of_string_of_list_ascii. Qed.

Lemma as_bytes_app a b : as_bytes (a +:+ b) = (as_bytes a ++ as_bytes b)%list.
Proof. induction a as [|c a IH]; simpl; [done|]. by rewrite IH. Qed.

Lemma is_empty_true s : is_empty s = true <-> s = EmptyString.
Proof. by destruct s. Qed.

Lemma is_empty_false s : is_empty s = false <-> s <> EmptyString.
Proof. by destruct s. Qed.

Lemma strip_prefix_app p s : strip_prefix p (p +:+ s) = Some s.
Proof. induction p as [|a p IH]; simpl; [done|]. by rewrite Ascii.eqb_refl. Qed.

Lemma strip_prefix_Some p s r : strip_prefix p s = Some r -> s = p +:+ r.
Proof.
  revert s. induction p as [|a p IH]; intros s H; simpl in H; [naive_solver|].
  destruct s as [|b s]; [done|]. destruct (Ascii.eqb_spec a b) as [->|]; [|done].
  simpl. f_equal. by apply IH.
Qed.

Lemma app_assoc_s a b c : a +:+ (b +:+ c) = (a +:+ b) +:+ c.
Proof. induction a as [|x a IH]; simpl; [done|]. by rewrite <- IH. Qed.

Lemma app_nil_r_s a : a +:+ EmptyString = a.
Proof. induction a as [|x a IH]; simpl; [done|]. by f_equal. Qed.

Lemma app_cons_s x a b : String x a +:+ b = String x (a +:+ b).
Proof. done. Qed.

Lemma app_inj_l_s p a b : p +:+ a = p +:+ b -> a = b.
Proof. induction p as [|x p IH]; simpl; [done|]. intros [=]. auto. Qed.

Lemma contains_char_app c a b :
  contains_char c (a +:+ b) = contains_char c a || contains_char c b.
Proof. induction a as [|x a IH]; simpl; [done|]. by rewrite IH, orb_assoc. Qed.

Lemma rsplit_once_None c s : rsplit_once c s = None <-> contains_char c s = false.
Proof.
  induction s as [|a s IH]; simpl; [done|].
  destruct (rsplit_once c s) as [[l r]|] eqn:E.
  - rewrite orb_false_iff. split; [done|]. intros [_ H]. apply IH in H. done.
  - destruct (Ascii.eqb_spec a c); simpl; [done|]. naive_solver.
Qed.

Lemma rsplit_once_app c l r :
  contains_char c r = false -> rsplit_once c (l +:+ String c r) = Some (l, r).
Proof.
  intros Hr. induction l as [|a l IH]; simpl.
  - rewrite (proj2 (rsplit_once_None c r)) by done. by rewrite Ascii.eqb_refl.
  - by rewrite IH.
Qed.

Lemma rsplit_once_Some c s l r :
  rsplit_once c s = Some (l, r) -> s = l +:+ String c r /\ contains_char c r = false.
Proof.
  revert l r. induction s as [|a s IH]; intros l r; simpl; [done|].
  destruct (rsplit_once c s) as [[l' r']|] eqn:E.
  - intros [= <- <-]. destruct (IH _ _ eq_refl) as [-> ?]. done.
  - destruct (Ascii.eqb_spec a c) as [->|]; [|done]. intros [= <- <-].
    split; [done|]. by apply rsplit_once_None.
Qed.

Lemma split_once_char_None c s : split_once_char c s = None <-> contains_char c s = false.
Proof.
  induction s as [|a s IH]; simpl; [done|].
  destruct (Ascii.eqb a c) eqn:E; simpl; [done|].
  destruct (split_once_char c s) as [[l r]|]; naive_solver.
Qed.

Lemma split_once_char_app c l r :
  contains_char c l = false -> split_once_char c (l +:+ String c r) = Some (l, r).
Proof.
  induction l as [|a l IH]; simpl.
  - intros _. by rewrite Ascii.eqb_refl.
  - rewrite orb_false_iff. intros [-> Hl]. by rewrite IH.
Qed.

Lemma split_once_char_Some c s l r :
  split_once_char c s = Some (l, r) -> s = l +:+ String c r /\ contains_char c l = false.
Proof.
  revert l r. induction s as [|a s IH]; intros l r; simpl; [done|].
  destruct (Ascii.eqb_spec a c) as [->|Hne].
  - intros [= <- <-]. done.
  - destruct (split_once_char c s) as [[l' r']|] eqn:E; [|done].
    intros [= <- <-]. destruct (IH _ _ eq_refl) as [-> Hl]. split; [done|].
    simpl. rewrite Hl. destruct (Ascii.eqb_spec a c); naive_solver.
Qed.

Lemma split_once_Some p s l r : split_once p s = Some (l, r) -> s = l +:+ (p +:+ r).
Proof.
  revert l r. induction s as [|a s IH]; intros l r; simpl.
  - destruct (strip_prefix p _) as [q|] eqn:E; [|done].
    intros [= <- <-]. by apply strip_prefix_Some in E.
  - destruct (strip_prefix p _) as [q|] eqn:E.
    + intros [= <- <-]. by apply strip_prefix_Some in E.
    + destruct (split_once p s) as [[l' r']|]; [|done].
      intros [= <- <-]. simpl. f_equal. by apply IH.
Qed.

(** A digit string never starts with a sign. *)
Lemma string_of_uint_head u :
  u <> Decimal.Nil ->
  strip_prefix "+" (NilZero.string_of_uint u) = None /\
  strip_prefix "-" (NilZero.string_of_uint u) = None.
Proof. by destruct u. Qed.

Lemma N_to_uint_nonnil n : N.to_uint n <> Decimal.Nil.
Proof.
  destruct n as [|p]; [done|]. simpl. apply DecimalPos.Unsigned.to_uint_nonnil.
Qed.

Lemma show_Z_nonneg n : 0 <= n -> show_Z n = NilZero.string_of_uint (N.to_uint (Z.to_N n)).
Proof. intros Hn. unfold show_Z. by destruct n. Qed.

Lemma show_Z_neg p : show_Z (Z.neg p) = String "-" (NilZero.string_of_uint (Pos.to_uint p)).
Proof. done. Qed.

Lemma parse_digits_uint u :
  u <> Decimal.Nil -> parse_digits (NilZero.string_of_uint u) = Some (Z.of_N (N.of_uint u)).
Proof. intros Hu. unfold parse_digits. by rewrite NilZero.usu. Qed.

Lemma parse_unsigned_show hi n :
  0 <= n <= hi -> parse_unsigned hi (show_Z n) = Some n.
Proof.
  intros Hn. rewrite show_Z_nonneg by lia. unfold parse_unsigned.
  pose proof (N_to_uint_nonnil (Z.to_N n)) as Hu.
  destruct (string_of_uint_head _ Hu) as [-> _].
  rewrite parse_digits_uint, DecimalN.Unsigned.of_to, Z2N.id by (done || lia).
  unfold try_from. rewrite (proj2 (Z.leb_le 0 n)), (proj2 (Z.leb_le n hi)) by lia. done.
Qed.

Lemma parse_signed_show lo hi n : lo <= n <= hi -> parse_signed lo hi (show_Z n) = Some n.
Proof.
  intros Hn. unfold parse_signed, try_from.
  assert (forall m, lo <= m <= hi -> (lo <=? m) && (m <=? hi) = true) as Hb
    by (intros m Hm; rewrite (proj2 (Z.leb_le lo m)), (proj2 (Z.leb_le m hi)) by lia; done).
  destruct (Z_le_gt_dec 0 n) as [Hp|Hp].
  - rewrite show_Z_nonneg by lia. pose proof (N_to_uint_nonnil (Z.to_N n)) as Hu.
    destruct (string_of_uint_head _ Hu) as [-> ->].
    rewrite parse_digits_uint, DecimalN.Unsigned.of_to, Z2N.id, Hb by (done || lia). done.
  - destruct n as [|p|p]; [lia|lia|]. rewrite show_Z_neg. simpl.
    rewrite parse_digits_uint by apply DecimalPos.Unsigned.to_uint_nonnil. simpl.
    unfold N.of_uint. rewrite DecimalPos.Unsigned.of_to. simpl. by rewrite Hb.
Qed.

Lemma show_Z_inj n m : show_Z n = show_Z m -> n = m.
Proof.
  intros H. pose proof (parse_signed_show (Z.min n m) (Z.max n m) n ltac:(lia)) as Hn.
  pose proof (parse_signed_show (Z.min n m) (Z.max n m) m ltac:(lia)) as Hm.
  rewrite H in Hn. congruence.
Qed.

(** Every character of a digit string is an ASCII digit. *)
Definition is_digit (a : ascii) : bool := (48 <=? byte_of a) && (byte_of a <=? 57).

Lemma string_of_uint_digits u c :
  is_digit c = false -> contains_char c (NilEmpty.string_of_uint u) = false.
Proof.
  intros Hc. induction u as [|u IH|u IH|u IH|u IH|u IH|u IH|u IH|u IH|u IH|u IH];
    cbn [NilEmpty.string_of_uint contains_char]; [done|..]; rewrite IH, orb_false_r;
    (apply Ascii.eqb_neq; intros <-; vm_compute in Hc; discriminate).
Qed.

Lemma show_Z_digits n c :
  0 <= n -> is_digit c = false -> contains_char c (show_Z n) = false.
Proof.
  intros Hn Hc. rewrite show_Z_nonneg by done. pose proof (N_to_uint_nonnil (Z.to_N n)).
  destruct (N.to_uint (Z.to_N n)) eqn:E; [done|..];
    unfold NilZero.string_of_uint; by apply string_of_uint_digits.
Qed.

Lemma try_from_Some lo hi n m : try_from lo hi n = Some m <-> n = m /\ lo <= n <= hi.
Proof.
  unfold try_from. destruct (lo <=? n) eqn:E1, (n <=? hi) eqn:E2; simpl; zbool;
    split; intros; simplify_eq; try lia; naive_solver lia.
Qed.

Lemma parse_unsigned_bounds hi s n : parse_unsigned hi s = Some n -> 0 <= n <= hi.
Proof.
  unfold parse_unsigned. intros H. repeat case_match; simplify_eq; apply try_from_Some in H; lia.
Qed.

Lemma parse_signed_bounds lo hi s n : parse_signed lo hi s = Some n -> lo <= n <= hi.
Proof.
  unfold parse_signed. intros H. destruct (match strip_prefix "-" s with Some _ => _ | _ => _ end)
    as [m|]; [|done]. apply try_from_Some in H. lia.
Qed.

(** ** Splitting on one character *)

Lemma split_char_app c a b :
  contains_char c a = false -> split_char c (a +:+ String c b) = a :: split_char c b.
Proof.
  induction a as [|d a IH]; simpl; [by rewrite Ascii.eqb_refl|].
  intros [Hd Ha]%orb_false_iff. rewrite Hd. by rewrite (IH Ha).
Qed.

Lemma split_char_free c a : contains_char c a = false -> split_char c a = [a].
Proof. induction a as [|d a IH]; simpl; [done|]. intros [-> Ha]%orb_false_iff. by rewrite (IH Ha). Qed.

(** The last piece of a split grows with the string. *)
Lemma split_char_snoc c a b :
  contains_char c b = false ->
  exists l p, split_char c a = (l ++ [p])%list /\ split_char c (a +:+ String c b) = (l ++ [p; b])%list.
Proof.
  intros Hb. induction a as [|d a (l & p & H1 & H2)].
  - exists [], "". simpl. rewrite Ascii.eqb_refl, (split_char_free c b Hb). done.
  - simpl. destruct (Ascii.eqb d c).
    + exists ("" :: l), p. by rewrite H1, H2.
    + destruct l as [|x l]; simpl in *.
      * exists [], (String d p). by rewrite H1, H2.
      * exists (String d x :: l), p. by rewrite H1, H2.
Qed.

Lemma split_char_join c s ss :
  Forall (fun x => contains_char c x = false) (s :: ss) ->
  split_char c (String.concat (String c EmptyString) (s :: ss)) = s :: ss.
Proof.
  revert s. induction ss as [|x ss IH]; intros s Hall; apply Forall_cons in Hall as [Hs Hss].
  - by apply split_char_free.
  - change (String.concat (String c EmptyString) (s :: x :: ss))
      with (s +:+ String c (String.concat (String c EmptyString) (x :: ss))).
    rewrite split_char_app by done. f_equal. by apply IH.
Qed.

(** ** Trimming around a printable character

    Whitespace does not reach across a printable ASCII character: its encodings start and continue
    with other bytes. *)

Definition printable (c : ascii) : bool := in_range 33 126 c.

Lemma printable_ws c :
  printable c = true ->
  ws1 c = false /\ (forall a, ws2 a c = false) /\ (forall b, ws2 c b = false) /\
  (forall a b, ws3 a b c = false) /\ (forall a b, ws3 a c b = false) /\
  (forall a b, ws3 c a b = false).
Proof.
  unfold printable, in_range, ws1, ws2, ws3. intros H. zbool.
  split_and!; intros;
    repeat match goal with
    | |- context [byte_of c =? ?k] => rewrite (proj2 (Z.eqb_neq (byte_of c) k)) by lia
    | |- context [?k <=? byte_of c] =>
        first [rewrite (proj2 (Z.leb_gt k (byte_of c))) by lia
              |rewrite (proj2 (Z.leb_le k (byte_of c))) by lia]
    | |- context [byte_of c <=? ?k] =>
        first [rewrite (proj2 (Z.leb_gt (byte_of c) k)) by lia
              |rewrite (proj2 (Z.leb_le (byte_of c) k)) by lia]
    end; simpl; rewrite ?andb_false_r; done.
Qed.

Lemma drop_ws_stop f2 f3 c l r :
  ws1 c = false -> (forall a, f2 a c = false) -> (forall b, f2 c b = false) ->
  (forall a b, f3 a b c = false) -> (forall a b, f3 a c b = false) ->
  (forall a b, f3 c a b = false) ->
  drop_ws f2 f3 (l ++ c :: r) = (drop_ws f2 f3 l ++ c :: r)%list.
Proof.
  intros H1 H2 H2' H3 H3' H3''.
  induction l as [l IH] using (induction_ltof1 _ (@length ascii)). unfold ltof in IH.
  destruct l as [|a [|b [|d l]]]; simpl.
  - rewrite H1. destruct r as [|d [|e r]]; rewrite ?H2', ?H3''; done.
  - destruct (ws1 a); [exact (IH [] ltac:(simpl; lia))|]. rewrite H2. destruct r; [done|].
    by rewrite H3'.
  - destruct (ws1 a); [exact (IH [b] ltac:(simpl; lia))|].
    destruct (f2 a b); [exact (IH [] ltac:(simpl; lia))|]. by rewrite H3.
  - destruct (ws1 a); [exact (IH (b :: d :: l) ltac:(simpl; lia))|].
    destruct (f2 a b); [exact (IH (d :: l) ltac:(simpl; lia))|].
    destruct (f3 a b d); [exact (IH l ltac:(simpl; lia))|done].
Qed.

Lemma trim_start_stop c l r :
  printable c = true ->
  trim_start_b (l ++ c :: r) = (trim_start_b l ++ c :: r)%list.
Proof. intros (?&?&?&?&?&?)%printable_ws. by apply drop_ws_stop. Qed.

Lemma trim_end_stop c l r :
  printable c = true ->
  trim_end_b (l ++ c :: r) = (l ++ c :: trim_end_b r)%list.
Proof.
  intros (?&?&?&?&?&?)%printable_ws. unfold trim_end_b.
  rewrite rev_app_distr. simpl. rewrite <- app_assoc. simpl.
  rewrite drop_ws_stop by done. rewrite rev_app_distr. simpl.
  by rewrite <- app_assoc, rev_involutive.
Qed.

(** The same on strings. *)
Lemma as_bytes_String c r : as_bytes (String c r) = c :: as_bytes r.
Proof. done. Qed.

Lemma of_bytes_app a b : of_bytes (a ++ b)%list = of_bytes a +:+ of_bytes b.
Proof. unfold of_bytes. induction a as [|x a IH]; [done|]. simpl. by rewrite IH. Qed.

Lemma trim_end_stop_s (l r : string) c :
  printable c = true -> trim_end (l +:+ String c r) = l +:+ String c (trim_end r).
Proof.
  intros Hc. unfold trim_end. rewrite as_bytes_app, as_bytes_String, trim_end_stop by done.
  rewrite of_bytes_app, of_as_bytes. reflexivity.
Qed.

Lemma trim_stop (l r : string) c :
  printable c = true -> trim (l +:+ String c r) = trim_start l +:+ String c (trim_end r).
Proof.
  intros Hc. unfold trim, trim_start, trim_end.
  rewrite as_bytes_app, as_bytes_String, trim_start_stop, trim_end_stop by done.
  by rewrite of_bytes_app.
Qed.

Lemma elapsed_nonneg now t : 0 <= elapsed now t.
Proof. unfold elapsed. lia. Qed.

#[export] Hint Resolve elapsed_nonneg : rust.
Create Rewrite HintDb rust.
#[export] Hint Rewrite strip_prefix_app of_as_bytes as_of_bytes as_bytes_app
  app_nil_r_s : rust.
