(* ===== verification/Core.v ===== *)
(** [pc-core]: the deployment environment, the boolean grammar of environment flags, the log
    prefix, the process identity, the error type, and the JSON compactor whose output is the
    input of every SNAP-BI body hash ([crates/pc-core/src]). *)
From S2P Require Export RustStd.
Local Open Scope string_scope.
Local Open Scope Z_scope.

(** Whether [s] is one of the given literals (a [match] on string patterns). *)
Definition one_of (l : list string) (s : string) : bool := existsb (String.eqb s) l.

(** [std::env::var(..).ok()]: the process environment. *)
Definition Env : Type := string -> option string.

(** ** Deployment environment ([lib.rs]) *)

Inductive AppEnv : Type := Develop | Staging | Production.

#[global] Instance AppEnv_eq_dec : EqDecision AppEnv.
Proof. solve_decision. Defined.

Definition AppEnv_parse (s : string) : option AppEnv :=
  if one_of ["develop"; "developement"; "dev"] s then Some Develop
  else if one_of ["staging"; "stg"] s then Some Staging
  else if one_of ["production"; "prod"] s then Some Production
  else None.

Definition AppEnv_as_str (e : AppEnv) : string :=
  match e with
  | Develop => "develop"
  | Staging => "staging"
  | Production => "production"
  end.

Definition parse_bool_go (value : string) : option bool :=
  if one_of ["1"; "t"; "T"; "TRUE"; "true"; "True"] value then Some true
  else if one_of ["0"; "f"; "F"; "FALSE"; "false"; "False"] value then Some false
  else None.

Definition LOG_MODULE_PREFIX : string := "pchelper".

Definition build_log_prefix (function_name : string) : string :=
  let fn_name := trim function_name in
  let fn_name := if is_empty fn_name then "Log" else fn_name in
  if is_empty LOG_MODULE_PREFIX then "[" +:+ fn_name +:+ "]"
  else "[" +:+ LOG_MODULE_PREFIX +:+ "." +:+ fn_name +:+ "]".

(** [AppError]: the payload of [System] is [anyhow::Error], a parameter. *)
Inductive AppError (AnyErr : Type) : Type :=
| Business (status : string)
| System (e : AnyErr).
Arguments Business {AnyErr} status.
Arguments System {AnyErr} e.

Definition is_business {AnyErr : Type} (e : AppError AnyErr) : bool :=
  match e with Business _ => true | System _ => false end.

(** ** Process identity ([identity.rs]) *)

(** The two process-global locks, as one explicit state. *)
Record Identity : Type := mkIdentity { APP_NAME : string; APP_ENV : string }.

Definition identity_initial : Identity := mkIdentity "" "".

Definition app_name (st : Identity) : string := APP_NAME st.
Definition set_app_name (v : string) (st : Identity) : Identity := mkIdentity v (APP_ENV st).
Definition app_env_raw (st : Identity) : string := APP_ENV st.
Definition set_app_env_raw (v : string) (st : Identity) : Identity := mkIdentity (APP_NAME st) v.
Definition app_env (st : Identity) : option AppEnv := AppEnv_parse (app_env_raw st).
Definition set_app_env (v : AppEnv) (st : Identity) : Identity :=
  set_app_env_raw (AppEnv_as_str v) st.

(** ** JSON compaction ([json.rs]) *)

Definition QUOTE : ascii := ascii_of_N 34.
Definition BACKSLASH : ascii := ascii_of_N 92.

(** The bytes dropped outside strings: space, tab, line feed, carriage return. *)
Definition is_json_ws (b : ascii) : bool :=
  let n := byte_of b in (n =? 32) || (n =? 9) || (n =? 10) || (n =? 13).

(** The loop variables of [compact_bytes]. *)
Record CompactState : Type := mkCompact { c_out : bytes; in_string : bool; escaped : bool }.

Definition compact_step (st : CompactState) (b : ascii) : CompactState :=
  if in_string st then
    let out := (c_out st ++ [b])%list in
    if escaped st then mkCompact out true false
    else if Ascii.eqb b BACKSLASH then mkCompact out true true
    else if Ascii.eqb b QUOTE then mkCompact out false false
    else mkCompact out true false
  else if is_json_ws b then st
  else if Ascii.eqb b QUOTE then mkCompact (c_out st ++ [b])%list true (escaped st)
  else mkCompact (c_out st ++ [b])%list false (escaped st).

Definition compact_bytes (raw : bytes) : bytes :=
  c_out (fold_left compact_step raw (mkCompact [] false false)).

Inductive JsonMinifyError : Type := Compact (msg : string).

(** [json_minify]; [valid] is [serde_json::from_slice::<IgnoredAny>], a third-party gate that
    answers whether the bytes are one well-formed JSON value. *)
Definition json_minify (valid : bytes -> result unit string) (raw : bytes)
  : result bytes JsonMinifyError :=
  res_bind (res_map_err Compact (valid raw)) (fun _ => Ok (compact_bytes raw)).

(** ** What compaction promises

    [Elides raw out]: [out] is [raw] with the insignificant whitespace left out. A string
    literal, quotes included, is copied verbatim; outside literals whitespace disappears and
    every other byte is copied. *)

(** The inside of a string literal: escape pairs and plain bytes. *)
Inductive StringBody : bytes -> Prop :=
| body_nil : StringBody []
| body_plain b l : b <> QUOTE -> b <> BACKSLASH -> StringBody l -> StringBody (b :: l)
| body_escape b l : StringBody l -> StringBody (BACKSLASH :: b :: l).

Inductive Elides : bytes -> bytes -> Prop :=
| elides_nil : Elides [] []
| elides_ws b raw out : is_json_ws b = true -> Elides raw out -> Elides (b :: raw) out
| elides_byte b raw out :
    is_json_ws b = false -> b <> QUOTE -> Elides raw out -> Elides (b :: raw) (b :: out)
| elides_string body raw out :
    StringBody body -> Elides raw out ->
    Elides (QUOTE :: body ++ QUOTE :: raw)%list (QUOTE :: body ++ QUOTE :: out)%list.

(** Every string literal of [raw] is closed. *)
Definition lexically_closed (raw : bytes) : bool :=
  negb (in_string (fold_left compact_step raw (mkCompact [] false false))).

(** ** Lemmas *)

(** The scanner without its output buffer. *)
Fixpoint scan (ins esc : bool) (raw : bytes) : bytes :=
  match raw with
  | [] => []
  | b :: rest =>
      if ins then
        b :: (if esc then scan true false rest
              else if Ascii.eqb b BACKSLASH then scan true true rest
              else if Ascii.eqb b QUOTE then scan false false rest
              else scan true false rest)
      else if is_json_ws b then scan false esc rest
      else if Ascii.eqb b QUOTE then b :: scan true esc rest
      else b :: scan false esc rest
  end.

Ltac scan_cases :=
  repeat match goal with
  | |- context [if ?b then _ else _] => destruct b eqn:?; simpl
  end.

Lemma compact_fold raw out ins esc :
  c_out (fold_left compact_step raw (mkCompact out ins esc)) = (out ++ scan ins esc raw)%list.
Proof.
  revert out ins esc. induction raw as [|b raw IH]; intros out ins esc; simpl.
  - by rewrite app_nil_r.
  - unfold compact_step at 2. simpl.
    scan_cases; rewrite IH; rewrite <- ?app_assoc; done.
Qed.

Lemma compact_bytes_scan raw : compact_bytes raw = scan false false raw.
Proof. unfold compact_bytes. by rewrite compact_fold. Qed.

(** The control state after a prefix does not depend on the output. *)
Lemma compact_ctrl raw out out' ins esc :
  in_string (fold_left compact_step raw (mkCompact out ins esc)) =
  in_string (fold_left compact_step raw (mkCompact out' ins esc)) /\
  escaped (fold_left compact_step raw (mkCompact out ins esc)) =
  escaped (fold_left compact_step raw (mkCompact out' ins esc)).
Proof.
  revert out out' ins esc. induction raw as [|b raw IH]; intros out out' ins esc; simpl; [done|].
  unfold compact_step at 2 4 6 8; simpl. scan_cases; apply IH.
Qed.

(** [escaped] is only ever set inside a string. *)
Lemma compact_escaped_in raw out ins esc :
  (esc = true -> ins = true) ->
  let st := fold_left compact_step raw (mkCompact out ins esc) in
  escaped st = true -> in_string st = true.
Proof.
  revert out ins esc. induction raw as [|b raw IH]; intros out ins esc Hinv; simpl; [done|].
  unfold compact_step at 2 4; simpl.
  scan_cases; apply IH; simpl; naive_solver.
Qed.

Lemma compact_bytes_app a b :
  lexically_closed a = true ->
  compact_bytes (a ++ b) = (compact_bytes a ++ compact_bytes b)%list.
Proof.
  intros Ha. unfold lexically_closed in Ha. apply negb_true_iff in Ha.
  pose proof (compact_escaped_in a [] false false ltac:(done)) as He. simpl in He.
  unfold compact_bytes. rewrite fold_left_app.
  destruct (fold_left compact_step a (mkCompact [] false false)) as [out ins esc]; simpl in *.
  subst ins. destruct esc; [naive_solver|]. by rewrite !compact_fold.
Qed.

Lemma scan_body body rest :
  StringBody body -> scan true false (body ++ QUOTE :: rest)%list =
                     (body ++ QUOTE :: scan false false rest)%list.
Proof.
  induction 1 as [|b l Hq Hb _ IH|b l _ IH]; simpl; [done|..].
  - apply Ascii.eqb_neq in Hq, Hb. by rewrite Hq, Hb, IH.
  - by rewrite IH.
Qed.

Lemma scan_body_inv ins_rest :
  forall out, in_string (fold_left compact_step ins_rest (mkCompact out true false)) = false ->
  exists body rest, ins_rest = (body ++ QUOTE :: rest)%list /\ StringBody body /\
    exists out', in_string (fold_left compact_step rest (mkCompact out' false false)) = false.
Proof.
  remember (length ins_rest) as n eqn:Hn. revert ins_rest Hn.
  induction (lt_wf n) as [n _ IH]. intros raw -> out H.
  destruct raw as [|b raw]; simpl in H; [done|].
  unfold compact_step at 2 in H; simpl in H.
  destruct (Ascii.eqb_spec b BACKSLASH) as [->|Hb].
  - destruct raw as [|c raw]; simpl in H; [done|].
    unfold compact_step at 2 in H; simpl in H.
    destruct (IH (length raw) ltac:(simpl; lia) raw eq_refl _ H) as (body & rest & -> & Hbody & Hout).
    exists (BACKSLASH :: c :: body)%list, rest. split; [done|]. split; [by constructor|done].
  - destruct (Ascii.eqb_spec b QUOTE) as [->|Hq].
    + exists [], raw. split; [done|]. split; [constructor|]. eauto.
    + destruct (IH (length raw) ltac:(simpl; lia) raw eq_refl _ H) as (body & rest & -> & Hbody & Hout).
      exists (b :: body), rest. split; [done|]. split; [by constructor|done].
Qed.

Lemma elides_compact raw out : Elides raw out -> compact_bytes raw = out.
Proof.
  rewrite compact_bytes_scan. induction 1 as [|b raw out Hw _ IH|b raw out Hw Hq _ IH|body raw out Hb _ IH];
    simpl; [done|..].
  - by rewrite Hw.
  - apply Ascii.eqb_neq in Hq. by rewrite Hw, Hq, IH.
  - by rewrite scan_body, IH.
Qed.

(** A literal is left at its closing quote. *)
Lemma body_ctrl body raw out :
  StringBody body -> exists out',
    fold_left compact_step (body ++ QUOTE :: raw)%list (mkCompact out true false) =
    fold_left compact_step raw (mkCompact out' false false).
Proof.
  intros Hb. revert out. induction Hb as [|b l Hq Hb _ IH|b l _ IH]; intros out; simpl.
  - by eexists.
  - apply Ascii.eqb_neq in Hq, Hb. unfold compact_step at 2. simpl. rewrite Hb, Hq. apply IH.
  - unfold compact_step at 3. simpl. apply IH.
Qed.

Lemma elides_closed raw out : Elides raw out -> lexically_closed raw = true.
Proof.
  intros He. unfold lexically_closed. apply negb_true_iff. generalize (@nil ascii).
  induction He as [|b raw out Hw _ IH|b raw out Hw Hq _ IH|body raw out Hb _ IH]; intros acc; simpl;
    [done|..].
  - unfold compact_step at 2. simpl. rewrite Hw. apply IH.
  - apply Ascii.eqb_neq in Hq. unfold compact_step at 2. simpl. rewrite Hw, Hq. apply IH.
  - unfold compact_step at 2. simpl. destruct (body_ctrl body raw (acc ++ [QUOTE])%list Hb) as [out' ->].
    apply IH.
Qed.

(** On every input whose string literals are closed the specification has an answer. *)
Lemma closed_elides raw :
  lexically_closed raw = true -> Elides raw (compact_bytes raw).
Proof.
  unfold lexically_closed. rewrite negb_true_iff, compact_bytes_scan.
  remember (length raw) as n eqn:Hn.
  assert (forall out, in_string (fold_left compact_step raw (mkCompact out false false)) = false ->
    Elides raw (scan false false raw)) as Hgen; [|by apply Hgen].
  revert raw Hn. induction (lt_wf n) as [n _ IH]. intros raw -> out H.
  destruct raw as [|b raw]; simpl in *; [constructor|].
  unfold compact_step at 2 in H; simpl in H.
  destruct (is_json_ws b) eqn:Hw.
  - constructor; [done|]. eapply IH; [|done|exact H]. simpl. lia.
  - destruct (Ascii.eqb_spec b QUOTE) as [->|Hq].
    + destruct (scan_body_inv _ _ H) as (body & rest & -> & Hb & out' & Hr).
      rewrite scan_body by done. constructor; [done|].
      eapply IH; [|done|exact Hr]. rewrite length_app; simpl; lia.
    + constructor; [done..|]. eapply IH; [|done|exact H]. simpl. lia.
Qed.

Lemma scan_idempotent raw ins esc :
  (esc = true -> ins = true) ->
  scan ins esc (scan ins esc raw) = scan ins esc raw.
Proof.
  revert ins esc. induction raw as [|b raw IH]; intros ins esc Hinv; simpl; [done|].
  destruct ins.
  - cbn [scan]. f_equal. scan_cases; apply IH; naive_solver.
  - destruct esc; [naive_solver|]. destruct (is_json_ws b) eqn:Hw; [by apply IH|].
    destruct (Ascii.eqb b QUOTE) eqn:Hq; cbn [scan]; rewrite Hw, Hq; f_equal; apply IH; done.
Qed.

Lemma one_of_spec l s : one_of l s = true <-> In s l.
Proof.
  unfold one_of. rewrite existsb_exists. split.
  - intros (x & Hx & H). by apply String.eqb_eq in H as ->.
  - intros H. exists s. split; [done|]. apply String.eqb_refl.
Qed.

(** ** Theorems *)

(** C16: The compactor implements [Elides], and nothing else does: the specification covers exactly
    the inputs whose string literals are closed, and what it says of each of them is the one output
    of [compact_bytes]: the insignificant whitespace removed, every other byte in place. *)
Theorem compact_bytes_elides raw out :
  Elides raw out <-> lexically_closed raw = true /\ compact_bytes raw = out.
Proof.
  split; [intros He; split; [by eapply elides_closed|by apply elides_compact]|].
  intros [Hc <-]. by apply closed_elides.
Qed.

(** Compaction is idempotent on every byte sequence. *)
Theorem compact_bytes_idempotent raw : compact_bytes (compact_bytes raw) = compact_bytes raw.
Proof. rewrite !compact_bytes_scan. by apply scan_idempotent. Qed.

(** ** Witnesses *)

(** The document [{ Q b 'x y' Q : 1 }] with Q the quote: the space inside the string stays. *)
Definition sample_raw : bytes :=
  (as_bytes "{ " ++ QUOTE :: as_bytes "x y" ++ QUOTE :: as_bytes " : 1 }")%list.
Definition sample_compact : bytes :=
  (as_bytes "{" ++ QUOTE :: as_bytes "x y" ++ QUOTE :: as_bytes ":1}")%list.

Lemma sample_elides : Elides sample_raw sample_compact.
Proof.
  unfold sample_raw, sample_compact. simpl.
  apply elides_byte; [done..|]. apply elides_ws; [done|].
  change (Elides (QUOTE :: (["x"; " "; "y"]%char) ++ QUOTE :: as_bytes " : 1 }")%list
                 (QUOTE :: (["x"; " "; "y"]%char) ++ QUOTE :: as_bytes ":1}")%list).
  apply elides_string; [repeat (apply body_plain; [done..|]); constructor|]. simpl.
  repeat first [apply elides_nil | apply elides_ws; [done|] | apply elides_byte; [done..|]].
Qed.

