(* ===== verification/Breaker.v ===== *)
(** [pc-resilience::CircuitBreaker] ([crates/pc-resilience/src/breaker.rs]).

    The mutex makes every method atomic, so an interleaving of concurrent callers is a sequence
    of method calls; instants are nanoseconds on the monotonic clock, read inside the lock.
    The failure counter is a [u32] and wraps. *)
From S2P Require Export RustStd.
Local Open Scope Z_scope.
Local Open Scope rust_scope.

Definition DEFAULT_THRESHOLD : Z := 10.
Definition DEFAULT_COOLDOWN : Z := from_secs 30.

Inductive State : Type := Closed | Open | HalfOpen.

#[global] Instance State_eq_dec : EqDecision State.
Proof. solve_decision. Defined.

(** [BreakerError<E>]. *)
Inductive BreakerError (E : Type) : Type :=
| ErrOpen
| ErrInner (e : E).
Arguments ErrOpen {E}.
Arguments ErrInner {E} e.

Definition is_open {E : Type} (e : BreakerError E) : bool :=
  match e with ErrOpen => true | ErrInner _ => false end.

Record Inner : Type := mkInner {
  state : State;
  consecutive_failures : Z;
  opened_at : option Z;
  probe_started_at : option Z;
}.

Record CircuitBreaker : Type := mkBreaker {
  threshold : Z;
  cooldown : Z;
  inner : Inner;
}.

Definition new (threshold cooldown : Z) : CircuitBreaker :=
  mkBreaker (Z.max threshold 1) cooldown (mkInner Closed 0 None None).

Definition default : CircuitBreaker := new DEFAULT_THRESHOLD DEFAULT_COOLDOWN.

Definition with_inner (cb : CircuitBreaker) (g : Inner) : CircuitBreaker :=
  mkBreaker (threshold cb) (cooldown cb) g.

(** [o.is_none_or(|t| t.elapsed() >= cooldown)]. *)
Definition cooled_down (cd : Z) (now : Z) (o : option Z) : bool :=
  match o with
  | None => true
  | Some t => cd <=? elapsed now t
  end.

(** [try_acquire]: [now] is the clock read by [elapsed], [now'] the later [Instant::now()]. *)
Definition try_acquire (now now' : Z) (cb : CircuitBreaker) : bool * CircuitBreaker :=
  let g := inner cb in
  match state g with
  | Closed => (true, cb)
  | Open =>
      if cooled_down (cooldown cb) now (opened_at g) then
        (true, with_inner cb
                 (mkInner HalfOpen (consecutive_failures g) (opened_at g) (Some now')))
      else (false, cb)
  | HalfOpen =>
      if cooled_down (cooldown cb) now (probe_started_at g) then
        (true, with_inner cb
                 (mkInner HalfOpen (consecutive_failures g) (opened_at g) (Some now')))
      else (false, cb)
  end.

Definition record_success (cb : CircuitBreaker) : CircuitBreaker :=
  with_inner cb (mkInner Closed 0 None None).

Definition record_failure (now : Z) (cb : CircuitBreaker) : CircuitBreaker :=
  let g := inner cb in
  let n := u32_add (consecutive_failures g) 1 in
  if bool_decide (state g = HalfOpen) || (threshold cb <=? n) then
    with_inner cb (mkInner Open n (Some now) None)
  else with_inner cb (mkInner (state g) n (opened_at g) (probe_started_at g)).

Definition record_cancel (cb : CircuitBreaker) : CircuitBreaker := cb.

(** [call]: the world pairs the breaker with everything the guarded operation [f] can touch,
    so [f] may run while other tasks use the same breaker. *)
Section Call.
Context {W T E : Type} (clock : W -> Z) (is_cancellation : E -> bool).

Definition acquire_io : io (CircuitBreaker * W) bool :=
  fun '(cb, w) => let '(ok, cb') := try_acquire (clock w) (clock w) cb in (ok, (cb', w)).

Definition update_io (f : W -> CircuitBreaker -> CircuitBreaker) : io (CircuitBreaker * W) unit :=
  fun '(cb, w) => (tt, (f w cb, w)).

Definition call (f : io (CircuitBreaker * W) (result T E))
  : io (CircuitBreaker * W) (result T (BreakerError E)) :=
  let! admitted := acquire_io in
  if negb admitted then io_ret (Err ErrOpen)
  else
    let! r := f in
    match r with
    | Ok v => let! _ := update_io (fun _ => record_success) in io_ret (Ok v)
    | Err e =>
        if is_cancellation e then
          let! _ := update_io (fun _ => record_cancel) in io_ret (Err (ErrInner e))
        else
          let! _ := update_io (fun w => record_failure (clock w)) in io_ret (Err (ErrInner e))
    end.
End Call.

(** One method call of some task. *)
Inductive event : Type :=
| EvAcquire (now now' : Z)
| EvSuccess
| EvFailure (now : Z)
| EvCancel.

(** The answer of an acquire; [false] for the calls that return nothing. *)
Definition step (e : event) (cb : CircuitBreaker) : bool * CircuitBreaker :=
  match e with
  | EvAcquire now now' => try_acquire now now' cb
  | EvSuccess => (false, record_success cb)
  | EvFailure now => (false, record_failure now cb)
  | EvCancel => (false, record_cancel cb)
  end.

Definition acquires (ts : list (Z * Z)) : list event := map (fun '(t, t') => EvAcquire t t') ts.

Definition admitted (os : list bool) : nat := count_occ Bool.bool_dec os true.

(** ** Well-formedness *)

Record wf (cb : CircuitBreaker) : Prop := {
  wf_threshold : 1 <= threshold cb <= U32_MAX;
  wf_count : 0 <= consecutive_failures (inner cb) <= U32_MAX;
  wf_closed : state (inner cb) = Closed ->
    consecutive_failures (inner cb) < threshold cb /\
    opened_at (inner cb) = None /\ probe_started_at (inner cb) = None;
  wf_open : state (inner cb) = Open ->
    is_Some (opened_at (inner cb)) /\ probe_started_at (inner cb) = None;
  wf_half_open : state (inner cb) = HalfOpen ->
    is_Some (opened_at (inner cb)) /\ is_Some (probe_started_at (inner cb));
}.

(** ** Abstract specification: a gate

    Two states are enough to say what callers see. [GClosed n] has counted [n] failures in a row;
    [GGated t] last tripped, failed or admitted a probe at [t] and admits the next caller one
    cooldown later. *)

Inductive Gate : Type := GClosed (n : Z) | GGated (since : Z).

Definition gate_step (th cd : Z) (e : event) (g : Gate) : bool * Gate :=
  match e, g with
  | EvAcquire _ _, GClosed n => (true, g)
  | EvAcquire now now', GGated t => if cd <=? elapsed now t then (true, GGated now') else (false, g)
  | EvSuccess, _ => (false, GClosed 0)
  | EvFailure now, GClosed n => (false, if th <=? n + 1 then GGated now else GClosed (n + 1))
  | EvFailure now, GGated _ => (false, GGated now)
  | EvCancel, _ => (false, g)
  end.

(** The breaker states a gate state stands for. *)
Definition represents (th cd : Z) (g : Gate) (cb : CircuitBreaker) : Prop :=
  threshold cb = th /\ cooldown cb = cd /\
  match g with
  | GClosed n => state (inner cb) = Closed /\ consecutive_failures (inner cb) = n /\ 0 <= n < th
  | GGated t =>
      th <= consecutive_failures (inner cb) /\
      (state (inner cb) = Open /\ opened_at (inner cb) = Some t \/
       state (inner cb) = HalfOpen /\ probe_started_at (inner cb) = Some t)
  end.

Definition failures (evs : list event) : Z :=
  fold_right (fun e n => match e with EvFailure _ => 1 | _ => 0 end + n) 0 evs.

(** The event reads the clock no later than [T], and so did everything the breaker remembers. *)
Definition read_by (T : Z) (e : event) : Prop :=
  match e with
  | EvAcquire now now' => now' <= T
  | EvFailure now => now <= T
  | EvSuccess | EvCancel => True
  end.

Definition stamped_by (cd T : Z) (cb : CircuitBreaker) : Prop :=
  cooldown cb = cd /\
  (forall t, opened_at (inner cb) = Some t -> t <= T) /\
  (forall t, probe_started_at (inner cb) = Some t -> t <= T).

(** A call within one cooldown from [T] that is no success. *)
Definition within (T cd : Z) (e : event) : Prop :=
  match e with
  | EvAcquire now now' => T <= now <= now' /\ now < T + cd
  | EvFailure now => T <= now
  | EvSuccess => False
  | EvCancel => True
  end.

(** The one slot was taken at [T] or later: by a probe, or by a failure that opened again. *)
Definition taken (T : Z) (cb : CircuitBreaker) : Prop :=
  (state (inner cb) = HalfOpen /\ exists t, probe_started_at (inner cb) = Some t /\ T <= t) \/
  (state (inner cb) = Open /\ exists t, opened_at (inner cb) = Some t /\ T <= t).

(** ** Lemmas *)

Lemma failures_nonneg evs : 0 <= failures evs.
Proof. induction evs as [|[] evs IH]; simpl; lia. Qed.

Lemma u32_add_range a b : 0 <= u32_add a b <= U32_MAX.
Proof. unfold u32_add, U32_MAX. pose proof (Z.mod_pos_bound (a + b) (2 ^ 32)). lia. Qed.

Lemma u32_add_small a : 0 <= a < U32_MAX -> u32_add a 1 = a + 1.
Proof. unfold u32_add, U32_MAX. intros. apply Z.mod_small. lia. Qed.

Lemma new_wf th cd : 0 <= th <= U32_MAX -> wf (new th cd).
Proof.
  unfold U32_MAX. constructor; simpl; unfold U32_MAX; split_and?; try done; try lia;
    intros _; split_and!; [lia|done|done].
Qed.

Lemma try_acquire_wf now now' cb : wf cb -> wf (try_acquire now now' cb).2.
Proof.
  intros Hwf. pose proof Hwf as [H1 H2 H3 H4 H5]. unfold try_acquire.
  destruct (state (inner cb)) eqn:Hs; [done|..];
    destruct (cooled_down _ _ _); try done;
    constructor; simpl; try done; intros _; split; try done; [apply H4|apply H5]; done.
Qed.

Lemma record_success_wf cb : wf cb -> wf (record_success cb).
Proof.
  intros [H1 H2 H3 H4 H5]. constructor; simpl; try done.
  intros _. split_and!; [lia|done|done].
Qed.

Lemma record_failure_wf now cb : wf cb -> wf (record_failure now cb).
Proof.
  intros [H1 H2 H3 H4 H5]. unfold record_failure.
  pose proof (u32_add_range (consecutive_failures (inner cb)) 1).
  destruct (bool_decide _ || _) eqn:Hb; [constructor; simpl; try done; by eauto|].
  apply orb_false_iff in Hb as [Hb Hle]. apply bool_decide_eq_false in Hb. zbool.
  constructor; simpl; try done. intros Hs. destruct (H3 Hs) as (_ & ? & ?). done.
Qed.

Lemma step_wf e cb : wf cb -> wf (step e cb).2.
Proof.
  destruct e; simpl; auto using try_acquire_wf, record_success_wf, record_failure_wf.
Qed.

(** One method call preserves the representation and gives the gate's answer. *)
Lemma step_represents th cd e g cb :
  1 <= th -> represents th cd g cb ->
  consecutive_failures (inner cb) + match e with EvFailure _ => 1 | _ => 0 end <= U32_MAX ->
  (step e cb).1 = (gate_step th cd e g).1 /\
  represents th cd (gate_step th cd e g).2 (step e cb).2 /\
  consecutive_failures (inner (step e cb).2) <=
    consecutive_failures (inner cb) + match e with EvFailure _ => 1 | _ => 0 end.
Proof.
  intros Hth (Ht & Hc & Hg) Hn. destruct e as [now now'| |now|]; simpl.
  - unfold try_acquire. destruct g as [n|t].
    + destruct Hg as (Hs & Hcf & Hr). rewrite Hs. unfold represents. simpl. naive_solver lia.
    + destruct Hg as (Hcf & [[Hs Ho]|[Hs Ho]]); rewrite Hs, Ho; simpl; rewrite Hc;
        destruct (cd <=? elapsed now t); unfold represents; simpl; naive_solver lia.
  - unfold represents. destruct g; simpl; naive_solver lia.
  - unfold record_failure. assert (0 <= consecutive_failures (inner cb)) as H0
      by (destruct g; [destruct Hg as (_ & -> & ?)|destruct Hg as [? _]]; lia).
    rewrite u32_add_small, Ht by lia. destruct g as [n|t].
    + destruct Hg as (Hs & Hcf & Hr). rewrite Hs, Hcf. simpl.
      destruct (Z.leb_spec th (n + 1)); unfold represents; simpl; naive_solver lia.
    + destruct Hg as (Hcf & _).
      rewrite (proj2 (Z.leb_le th _)), orb_true_r by lia.
      unfold represents; simpl. split_and!; try done; try lia. by left.
  - unfold represents, record_cancel. destruct g; simpl; (split; [done|]; split; [done|lia]).
Qed.

Lemma run_represents th cd evs : forall g cb,
  1 <= th -> represents th cd g cb ->
  consecutive_failures (inner cb) + failures evs <= U32_MAX ->
  (run_trace step evs cb).1 = (run_trace (gate_step th cd) evs g).1 /\
  represents th cd (run_trace (gate_step th cd) evs g).2 (run_trace step evs cb).2.
Proof.
  induction evs as [|e evs IH]; intros g cb Hth Hr Hb; [done|]. cbn [run_trace].
  pose proof (failures_nonneg evs) as Hf. cbn [failures fold_right] in Hb. fold (failures evs) in Hb.
  destruct (step_represents th cd e g cb Hth Hr ltac:(lia)) as (Ho & Hr' & Hle).
  destruct (step e cb) as [o cb1], (gate_step th cd e g) as [o' g1]. simpl in *.
  destruct (IH g1 cb1 Hth Hr' ltac:(lia)) as [IH1 IH2].
  destruct (run_trace step evs cb1), (run_trace (gate_step th cd) evs g1). simpl in *.
  by rewrite Ho, IH1.
Qed.

#[export] Hint Resolve new_wf try_acquire_wf record_success_wf record_failure_wf step_wf : rust.

Lemma admitted_cons e evs cb :
  admitted (run_trace step (e :: evs) cb).1 =
  ((if (step e cb).1 then 1 else 0) + admitted (run_trace step evs (step e cb).2).1)%nat.
Proof.
  simpl. destruct (step e cb) as [o cb1]; simpl.
  destruct (run_trace step evs cb1) as [os s2]; simpl. by destruct o.
Qed.

(** A call of the window keeps a breaker that is not closed so, and once its slot was taken in the
    window, admits nobody. *)
Lemma window_step T cd e cb :
  state (inner cb) <> Closed -> cooldown cb = cd -> within T cd e ->
  state (inner (step e cb).2) <> Closed /\ cooldown (step e cb).2 = cd /\
  ((step e cb).1 = true -> taken T (step e cb).2) /\
  (taken T cb -> (step e cb).1 = false /\ taken T (step e cb).2).
Proof.
  intros Hs Hcd He. unfold taken. destruct e as [now now'| |now|]; simpl in *; try done.
  - unfold try_acquire, cooled_down, elapsed. rewrite Hcd.
    destruct (state (inner cb)) eqn:Hst; [done|..]; test_case; simpl; split_and!;
      rewrite ?Hst; try done; try (intros Ht; split; [done|exact Ht]).
    all: try (intros _; left; split; [done|]; exists now'; split; [done|lia]).
    all: intros [[? (t & Ht & ?)]|[? (t & Ht & ?)]]; try congruence; rewrite Ht in *; zbool; lia.
  - unfold record_failure. test_case; simpl; (split_and!; [done|done|done|]);
      (intros Ht; split; [done|]); [naive_solver lia|].
    destruct Ht as [[Hh _]|?]; [|naive_solver]. by rewrite Hh in *.
Qed.

(** Once the slot was taken in the window, nobody is admitted any more. *)
Lemma window_closed T cd evs : forall cb,
  state (inner cb) <> Closed -> cooldown cb = cd -> taken T cb -> Forall (within T cd) evs ->
  admitted (run_trace step evs cb).1 = 0%nat.
Proof.
  induction evs as [|e evs IH]; intros cb Hs Hcd Ht Hevs; [done|].
  inversion Hevs as [|? ? He Hrest]; subst.
  destruct (window_step T _ e cb Hs eq_refl He) as (Hs' & Hcd' & _ & Hout).
  destruct (Hout Ht) as [Hno Ht']. rewrite admitted_cons, Hno. by apply IH.
Qed.

Lemma try_acquire_rejected_same t t' cb :
  (try_acquire t t' cb).1 = false -> (try_acquire t t' cb).2 = cb.
Proof.
  unfold try_acquire. destruct (state (inner cb)); [done|..]; by destruct (cooled_down _ _ _).
Qed.

Lemma new_stamped_by th cd T : stamped_by cd T (new th cd).
Proof. done. Qed.

Lemma step_stamped_by cd T e cb : read_by T e -> stamped_by cd T cb -> stamped_by cd T (step e cb).2.
Proof.
  intros He (Hcd & Ho & Hp).
  destruct e as [now now'| |now|]; simpl in *; try done.
  - unfold try_acquire.
    destruct (state (inner cb)); [done|..]; test_case; simpl; try done;
      (split_and!; [done|done|]; by intros t [= <-]).
  - unfold record_failure. test_case; simpl; [|done]. split_and!; [done| |done]. by intros t [= <-].
Qed.

(** ** Theorems *)

(** C1: Whatever sequence of calls the tasks make, a breaker built by [new] keeps its invariant:
    the counter is below the threshold while closed, an open breaker knows when it opened, and a
    half-open one knows when its probe started. *)
Theorem breaker_reachable_wf th cd evs :
  0 <= th <= U32_MAX -> wf (run_trace step evs (new th cd)).2.
Proof. intros. apply run_trace_inv; auto with rust. Qed.

(** C2: The breaker implements the gate: over any calls of any tasks, as long as the failure counter
    does not wrap, callers get exactly the gate's answers, and the breaker ends in a state the
    gate's state stands for. *)
Theorem breaker_refines_gate th cd evs :
  0 <= th <= U32_MAX -> failures evs <= U32_MAX ->
  (run_trace step evs (new th cd)).1 =
    (run_trace (gate_step (Z.max th 1) cd) evs (GClosed 0)).1 /\
  represents (Z.max th 1) cd (run_trace (gate_step (Z.max th 1) cd) evs (GClosed 0)).2
    (run_trace step evs (new th cd)).2.
Proof.
  intros Hth Hf. apply run_represents; [lia| |simpl; lia].
  unfold represents. simpl. split_and!; lia || done.
Qed.

(** From a fresh breaker exactly [threshold] consecutive failures trip it: before that it is
    closed and counts them, from then on it is open. *)
Theorem breaker_trips_at_threshold th cd (ts : list Z) :
  1 <= th <= U32_MAX -> Z.of_nat (length ts) <= U32_MAX ->
  let cb := (run_trace step (map EvFailure ts) (new th cd)).2 in
  consecutive_failures (inner cb) = Z.of_nat (length ts) /\
  (state (inner cb) = Closed <-> Z.of_nat (length ts) < th) /\
  (state (inner cb) = Open <-> th <= Z.of_nat (length ts)).
Proof.
  intros Hth. induction ts as [|t ts IH] using rev_ind; intros Hlen; cbv zeta.
  - simpl. naive_solver lia.
  - rewrite length_app in Hlen |- *. simpl in *. specialize (IH ltac:(lia)). cbv zeta in IH.
    rewrite map_app, run_trace_app. simpl.
    assert (threshold (run_trace step (map EvFailure ts) (new th cd)).2 = th) as Htr.
    { apply (run_trace_inv step (fun cb => threshold cb = th)); [|simpl; lia].
      intros [] cb <-; simpl; try done; unfold try_acquire, record_failure;
        repeat case_match; done. }
    destruct (run_trace step (map EvFailure ts) (new th cd)) as [os cb]; simpl in *.
    destruct IH as (Hn & Hc & Ho). unfold record_failure. rewrite Hn, Htr.
    rewrite u32_add_small by (unfold U32_MAX in *; lia).
    destruct (bool_decide_reflect (state (inner cb) = HalfOpen)) as [Hs|Hs].
    { destruct (Z.lt_ge_cases (Z.of_nat (length ts)) th); naive_solver congruence. }
    simpl. replace (Z.of_nat (length ts + 1)) with (Z.of_nat (length ts) + 1) by lia.
    destruct (Z.leb_spec th (Z.of_nat (length ts) + 1)); simpl; [naive_solver lia|].
    assert (state (inner cb) = Closed) by (apply Hc; lia). naive_solver lia.
Qed.

(** C18: One probe at a time: among any calls of any tasks within one cooldown, until one of them
    reports a success, a breaker that is not closed admits at most one caller; failures and
    cancellations reported meanwhile, by probes or by callers from before it opened, do not make
    room for another. *)
Theorem breaker_one_probe T evs cb :
  state (inner cb) <> Closed -> Forall (within T (cooldown cb)) evs ->
  (admitted (run_trace step evs cb).1 <= 1)%nat.
Proof.
  remember (cooldown cb) as cd eqn:Hcd. intros Hs Hevs. symmetry in Hcd. revert cb Hs Hcd.
  induction Hevs as [|e evs He Hevs IH]; intros cb Hs Hcd; [unfold admitted; simpl; lia|].
  destruct (window_step T cd e cb Hs Hcd He) as (Hs' & Hcd' & Hin & _).
  rewrite admitted_cons. destruct (step e cb).1; [|by apply IH].
  rewrite (window_closed T cd); auto.
Qed.

(** C19: The breaker never wedges: whatever the tasks did until time [T], whoever held the probe and
    never reported back, a caller arriving one cooldown later is admitted; and if its operation
    succeeds, everybody is. *)
Theorem breaker_never_wedged th cd evs T now now' later later' :
  Forall (read_by T) evs -> T + cd <= now ->
  let cb := (run_trace step evs (new th cd)).2 in
  (try_acquire now now' cb).1 = true /\
  (try_acquire later later' (record_success (try_acquire now now' cb).2)).1 = true.
Proof.
  intros Hevs Hnow cb. split; [|done].
  destruct (run_trace_inv_on step _ (stamped_by cd T) (step_stamped_by cd T) evs _ Hevs
              (new_stamped_by th cd T)) as (Hcd & Ho & Hp). fold cb in Hcd, Ho, Hp.
  unfold try_acquire, cooled_down, elapsed. rewrite Hcd.
  destruct (state (inner cb)); [done|..].
  - destruct (opened_at (inner cb)) as [t|]; [|done]. specialize (Ho t eq_refl).
    destruct (Z.leb_spec cd (Z.max 0 (now - t))); [done|lia].
  - destruct (probe_started_at (inner cb)) as [t|]; [|done]. specialize (Hp t eq_refl).
    destruct (Z.leb_spec cd (Z.max 0 (now - t))); [done|lia].
Qed.

(** [call] short-circuits or classifies: a rejected call never runs the operation and
    changes nothing; an admitted one records success, nothing on cancellation, or a failure,
    and hands the operation's own outcome back. *)
Theorem breaker_call_outcome {W T E : Type} (clock : W -> Z) (is_cancellation : E -> bool)
  (f : io (CircuitBreaker * W) (result T E)) cb w :
  call clock is_cancellation f (cb, w) =
  let '(ok, cb1) := try_acquire (clock w) (clock w) cb in
  if ok then
    match f (cb1, w) with
    | (Ok v, (cb2, w2)) => (Ok v, (record_success cb2, w2))
    | (Err e, (cb2, w2)) =>
        (Err (ErrInner e),
         (if is_cancellation e then cb2 else record_failure (clock w2) cb2, w2))
    end
  else (Err ErrOpen, (cb, w)).
Proof.
  unfold call, io_bind, acquire_io, update_io, io_ret.
  pose proof (try_acquire_rejected_same (clock w) (clock w) cb) as Hrej.
  destruct (try_acquire (clock w) (clock w) cb) as [ok cb1]; simpl in *.
  destruct ok; simpl; [|by rewrite Hrej].
  destruct (f (cb1, w)) as [[v|e] [cb2 w2]]; [done|]. by destruct (is_cancellation e).
Qed.

(** ** Witnesses *)

Lemma breaker_reachable_wf_witness :
  wf (run_trace step [EvFailure 5; EvAcquire 6 7; EvFailure 9] (new 1 2)).2.
Proof. apply (breaker_reachable_wf 1 2). unfold U32_MAX. lia. Defined.

Lemma breaker_refines_gate_witness :
  (run_trace step [EvFailure 5; EvAcquire 6 6; EvAcquire 8 9; EvAcquire 10 10] (new 1 2)).1 =
  [false; false; true; false].
Proof.
  destruct (breaker_refines_gate 1 2 [EvFailure 5; EvAcquire 6 6; EvAcquire 8 9; EvAcquire 10 10])
    as [-> _]; [unfold U32_MAX; lia|vm_compute; done|vm_compute; reflexivity].
Defined.

Lemma breaker_trips_at_threshold_witness :
  let cb := (run_trace step (map EvFailure [10; 20; 30]) (new 3 100)).2 in
  consecutive_failures (inner cb) = 3 /\ state (inner cb) = Open.
Proof.
  destruct (breaker_trips_at_threshold 3 100 [10; 20; 30]) as (Hn & _ & Ho);
    [unfold U32_MAX; lia|vm_compute; done|].
  split; [exact Hn|]. apply Ho. vm_compute. done.
Defined.

Lemma breaker_one_probe_witness :
  (admitted (run_trace step
     [EvAcquire 100 100; EvFailure 102; EvAcquire 105 105; EvCancel; EvAcquire 140 141]
     (mkBreaker 1 50 (mkInner Open 1 (Some 10%Z) None))).1 <= 1)%nat.
Proof.
  apply (breaker_one_probe 100); [done|]. repeat constructor; simpl; lia.
Defined.

(** Opened at 10, probed at 60 by a task that vanished: the caller at 100 is turned away, the one at
    111 is admitted. *)
Definition lost_probe : list event := [EvFailure 10; EvAcquire 15 15; EvAcquire 60 61].

Lemma breaker_never_wedged_witness :
  let cb := (run_trace step lost_probe (new 1 50)).2 in
  (try_acquire 100 100 cb).1 = false /\ (try_acquire 111 111 cb).1 = true.
Proof.
  split; [reflexivity|].
  apply (breaker_never_wedged 1 50 lost_probe 61 111 111 0 0); [|lia].
  repeat constructor; simpl; lia.
Defined.
