(* ===== verification/Singleflight.v ===== *)
(** [pc-resilience::Singleflight] ([crates/pc-resilience/src/singleflight.rs]).

    The [DashMap] entry lock makes registration and the guard's removal atomic; between them
    callers interleave freely, so the group is a step relation over a state holding the map, the
    id counter, the shared futures and the drop guards of the callers still awaiting.
    [futures::future::Shared] is third-party: a clone is a handle to one future whose output is
    produced at most once and read by every clone; when the future panics it is poisoned, and a
    poll of any clone panics. *)
From S2P Require Export RustStd.
Local Open Scope Z_scope.

(** How a shared future ended. *)
Inductive Output (T : Type) : Type := Done (v : T) | Poisoned.
Arguments Done {T} v.
Arguments Poisoned {T}.

Section Singleflight.
Context {K Fut T C : Type} `{Countable K, Countable C}.

(** [Flight<T>]; [future] is a handle into the store of shared futures. *)
Record Flight : Type := mkFlight { f_id : Z; f_future : nat; f_waiters : Z }.

(** [FlightGuard] without the [finished] flag, which is the argument of the drop, together
    with the caller's clone of the shared future. *)
Record Guard : Type := mkGuard { g_key : K; g_id : Z; g_future : nat }.

Record Group : Type := mkGroup {
  calls : gmap K Flight;
  next_id : Z;
  futures : list (Fut * option (Output T));
  guards : gmap C Guard;
}.

Definition new : Group := mkGroup ∅ 0 [] ∅.

Definition in_flight (s : Group) : nat := size (calls s).

(** The first half of [do_call], up to the construction of the guard: join the flight of
    [key] or register [fut] as a new one. *)
Definition register (c : C) (key : K) (fut : Fut) (s : Group) : Group :=
  match calls s !! key with
  | Some flight =>
      mkGroup
        (<[key := mkFlight (f_id flight) (f_future flight) (f_waiters flight + 1)]> (calls s))
        (next_id s) (futures s)
        (<[c := mkGuard key (f_id flight) (f_future flight)]> (guards s))
  | None =>
      let id := next_id s in
      let future := length (futures s) in
      mkGroup (<[key := mkFlight id future 1]> (calls s))
              (u64_add (next_id s) 1) (futures s ++ [(fut, None)])
              (<[c := mkGuard key id future]> (guards s))
  end.

(** [Drop for FlightGuard]: [remove_if_mut] on the guard's key. *)
Definition drop_guard (key : K) (id : Z) (finished : bool) (m : gmap K Flight)
  : gmap K Flight :=
  match m !! key with
  | None => m
  | Some flight =>
      if f_id flight =? id then
        let waiters := saturating_sub (f_waiters flight) 1 in
        if finished || (waiters =? 0) then delete key m
        else <[key := mkFlight (f_id flight) (f_future flight) waiters]> m
      else m
  end.

(** The caller [c] leaves [do_call], dropping its guard. *)
Definition leave (c : C) (finished : bool) (g : Guard) (s : Group) : Group :=
  mkGroup (drop_guard (g_key g) (g_id g) finished (calls s))
          (next_id s) (futures s) (delete c (guards s)).

(** The shared future behind [h] ends. *)
Definition resolve (h : nat) (fut : Fut) (o : Output T) (s : Group) : Group :=
  mkGroup (calls s) (next_id s) (<[h := (fut, Some o)]> (futures s)) (guards s).

Inductive label : Type :=
| LCall (c : C) (key : K)
| LResolve (h : nat) (v : T)
| LPoison (h : nat)
| LReturn (c : C) (id : Z) (v : T)
| LPanic (c : C) (id : Z)
| LCancel (c : C) (id : Z).

(** What can happen: a call starts; the shared work completes, or panics, under the poll of a
    caller awaiting it; a caller returns the shared result; a caller that polls poisoned work
    panics; a caller is dropped. *)
Inductive step : Group -> label -> Group -> Prop :=
| step_call c key fut s :
    guards s !! c = None ->
    step s (LCall c key) (register c key fut s)
| step_resolve c g fut v s :
    guards s !! c = Some g ->
    futures s !! g_future g = Some (fut, None) ->
    step s (LResolve (g_future g) v) (resolve (g_future g) fut (Done v) s)
| step_poison c g fut s :
    guards s !! c = Some g ->
    futures s !! g_future g = Some (fut, None) ->
    step s (LPoison (g_future g)) (resolve (g_future g) fut Poisoned s)
| step_return c g fut v s :
    guards s !! c = Some g ->
    futures s !! g_future g = Some (fut, Some (Done v)) ->
    step s (LReturn c (g_id g) v) (leave c true g s)
| step_panic c g fut s :
    guards s !! c = Some g ->
    futures s !! g_future g = Some (fut, Some Poisoned) ->
    step s (LPanic c (g_id g)) (leave c false g s)
| step_cancel c g s :
    guards s !! c = Some g ->
    step s (LCancel c (g_id g)) (leave c false g s).

(** ** A scheduler *)

(** What a runtime may do next: start a call, poll one so that the shared work yields [v] or
    panics, let a caller return or panic with its work, drop one. *)
Inductive act : Type :=
| ACall (c : C) (key : K) (fut : Fut)
| APoll (c : C) (v : T)
| APoison (c : C)
| AReturn (c : C)
| APanic (c : C)
| ACancel (c : C).

(** The guard of a caller and the work it awaits. *)
Definition awaited (c : C) (s : Group) : option (Guard * (Fut * option (Output T))) :=
  match guards s !! c with
  | Some g => (fun f => (g, f)) <$> futures s !! g_future g
  | None => None
  end.

Definition exec (a : act) (s : Group) : option (label * Group) :=
  match a with
  | ACall c key fut =>
      match guards s !! c with
      | None => Some (LCall c key, register c key fut s)
      | Some _ => None
      end
  | APoll c v =>
      match awaited c s with
      | Some (g, (fut, None)) => Some (LResolve (g_future g) v, resolve (g_future g) fut (Done v) s)
      | _ => None
      end
  | APoison c =>
      match awaited c s with
      | Some (g, (fut, None)) => Some (LPoison (g_future g), resolve (g_future g) fut Poisoned s)
      | _ => None
      end
  | AReturn c =>
      match awaited c s with
      | Some (g, (_, Some (Done v))) => Some (LReturn c (g_id g) v, leave c true g s)
      | _ => None
      end
  | APanic c =>
      match awaited c s with
      | Some (g, (_, Some Poisoned)) => Some (LPanic c (g_id g), leave c false g s)
      | _ => None
      end
  | ACancel c =>
      match guards s !! c with
      | Some g => Some (LCancel c (g_id g), leave c false g s)
      | None => None
      end
  end.

(** Run a schedule, skipping what cannot run: the labels, and the group at the end. *)
Definition exec_all : list act -> Group -> list label * Group := run_acts exec.

(** The shared futures some entry or some caller still holds: the work that is not dropped. *)
Definition alive (h : nat) (s : Group) : Prop :=
  (exists k fl, calls s !! k = Some fl /\ f_future fl = h) \/
  (exists c g, guards s !! c = Some g /\ g_future g = h).

(** Every caller whose work is not done awaits the flight registered for its key. *)
Definition driven (s : Group) : Prop :=
  forall c g fut, guards s !! c = Some g -> futures s !! g_future g = Some (fut, None) ->
  exists fl, calls s !! g_key g = Some fl /\ f_id fl = g_id g /\ f_future fl = g_future g.

(** ** Invariant *)

(** The callers awaiting flight [id] of [key]. *)
Definition waiting (key : K) (id : Z) (gs : gmap C Guard) : gmap C Guard :=
  filter (fun '(_, g) => g_key g = key /\ g_id g = id) gs.

Record inv (n : Z) (s : Group) : Prop := {
  inv_next : 0 <= next_id s <= n;
  inv_guard : forall c g, guards s !! c = Some g ->
    g_id g < next_id s /\ (g_future g < length (futures s))%nat;
  inv_same : forall c1 c2 g1 g2,
    guards s !! c1 = Some g1 -> guards s !! c2 = Some g2 -> g_id g1 = g_id g2 ->
    g_key g1 = g_key g2 /\ g_future g1 = g_future g2;
  inv_entry : forall k fl, calls s !! k = Some fl ->
    f_id fl < next_id s /\
    f_waiters fl = Z.of_nat (size (waiting k (f_id fl) (guards s))) /\ 0 < f_waiters fl /\
    forall c g, guards s !! c = Some g -> g_id g = f_id fl ->
      g_key g = k /\ g_future g = f_future fl;
}.

(** No flight of the map carries [i] any more, nor can a new one. *)
Definition retired (i : Z) (s : Group) : Prop :=
  i < next_id s /\ forall k fl, calls s !! k = Some fl -> f_id fl <> i.

(** Everyone on flight [i] shares one future, which ended as [o]. *)
Definition served (i : Z) (o : Output T) (s : Group) : Prop :=
  exists h fut, futures s !! h = Some (fut, Some o) /\ i < next_id s /\
    (forall c g, guards s !! c = Some g -> g_id g = i -> g_future g = h) /\
    (forall k fl, calls s !! k = Some fl -> f_id fl = i -> f_future fl = h).

(** ** Lemmas *)

Lemma new_inv : inv 0 new.
Proof.
  constructor; simpl; try lia.
  - intros c g Hg. by rewrite lookup_empty in Hg.
  - intros c1 c2 g1 g2 Hg. by rewrite lookup_empty in Hg.
  - intros k fl Hf. by rewrite lookup_empty in Hf.
Qed.

Lemma waiting_insert c g (gs : gmap C Guard) :
  gs !! c = None ->
  size (waiting (g_key g) (g_id g) (<[c := g]> gs)) = S (size (waiting (g_key g) (g_id g) gs)).
Proof.
  intros Hc. unfold waiting. rewrite map_filter_insert_True by done.
  rewrite map_size_insert_None; [done|]. rewrite map_lookup_filter, Hc. done.
Qed.

Lemma waiting_insert_other c g k i (gs : gmap C Guard) :
  gs !! c = None -> ~ (g_key g = k /\ g_id g = i) ->
  waiting k i (<[c := g]> gs) = waiting k i gs.
Proof.
  intros Hc Hne. unfold waiting. apply map_filter_insert_not'; [done|].
  intros y Hy. congruence.
Qed.

Lemma waiting_delete c g (gs : gmap C Guard) :
  gs !! c = Some g ->
  size (waiting (g_key g) (g_id g) gs) = S (size (waiting (g_key g) (g_id g) (delete c gs))).
Proof.
  intros Hc. rewrite <- (insert_delete_id gs c g Hc) at 1.
  apply waiting_insert. apply lookup_delete_eq.
Qed.

Lemma waiting_delete_other c g k i (gs : gmap C Guard) :
  gs !! c = Some g -> ~ (g_key g = k /\ g_id g = i) ->
  waiting k i (delete c gs) = waiting k i gs.
Proof.
  intros Hc Hne. rewrite <- (insert_delete_id gs c g Hc) at 2.
  symmetry. apply waiting_insert_other; [apply lookup_delete_eq|done].
Qed.

Lemma waiting_fresh k i (gs : gmap C Guard) :
  (forall c g, gs !! c = Some g -> g_id g <> i) -> waiting k i gs = ∅.
Proof. intros Hf. apply map_empty_filter. intros c g Hg [_ E]. by eapply Hf. Qed.

(** Somebody waits on every flight of the map. *)
Lemma entry_guard n s k fl :
  inv n s -> calls s !! k = Some fl ->
  exists c g, guards s !! c = Some g /\ g_key g = k /\ g_id g = f_id fl /\
              g_future g = f_future fl.
Proof.
  intros Hinv Hk. destruct (inv_entry n s Hinv k fl Hk) as (_ & Hw & Hpos & Hfl).
  destruct (decide (waiting k (f_id fl) (guards s) = ∅)) as [E|E];
    [rewrite E, map_size_empty in Hw; lia|].
  apply map_choose in E as (c & g & [Hg [Hgk Hgi]]%map_lookup_filter_Some).
  exists c, g. destruct (Hfl _ _ Hg Hgi). done.
Qed.

(** Joining a flight keeps the invariant. *)
Lemma join_inv c key fut n s fl :
  inv n s -> guards s !! c = None -> calls s !! key = Some fl ->
  inv n (register c key fut s).
Proof.
  intros Hinv Hc Hk. unfold register. rewrite Hk.
  destruct (entry_guard n s key fl Hinv Hk) as (c0 & g0 & Hg0 & Hk0 & Hi0 & Hf0).
  pose proof Hinv as [Hn Hg Hs He]. destruct (He key fl Hk) as (Hid & Hw & Hpos & Hfl).
  destruct (Hg _ _ Hg0) as [Hb1 Hb2]. constructor; simpl; [done|..].
  - intros c' g' [[<- <-]|[_ Hg']]%lookup_insert_Some; simpl; [|by eauto].
    split; congruence.
  - intros c1 c2 g1 g2 [[<- <-]|[_ H1]]%lookup_insert_Some
      [[<- <-]|[_ H2]]%lookup_insert_Some; simpl; intros E; try done.
    + symmetry in E. destruct (Hfl _ _ H2 E). done.
    + destruct (Hfl _ _ H1 E). done.
    + by eapply Hs.
  - intros k fl' [[<- <-]|[Hne Hfl']]%lookup_insert_Some; simpl.
    + split_and!; [done| |lia|].
      * pose proof (waiting_insert c (mkGuard key (f_id fl) (f_future fl)) _ Hc) as E.
        simpl in E. rewrite E. lia.
      * intros c' g' [[<- <-]|[_ Hg']]%lookup_insert_Some; simpl; [done|]. apply (Hfl _ _ Hg').
    + destruct (He k fl' Hfl') as (Hid' & Hw' & Hpos' & Hfl2).
      split_and!; [done| |done|].
      * rewrite waiting_insert_other by (done || (simpl; naive_solver)). done.
      * intros c' g' [[<- <-]|[_ Hg']]%lookup_insert_Some; simpl; intros E; [|by eauto].
        destruct (Hfl2 _ _ Hg0 ltac:(congruence)). congruence.
Qed.

(** Registering a new flight keeps the invariant, its id being new. *)
Lemma lead_inv c key fut n s :
  inv n s -> n + 1 < 2 ^ 64 -> guards s !! c = None -> calls s !! key = None ->
  next_id (register c key fut s) = next_id s + 1 /\ inv (n + 1) (register c key fut s).
Proof.
  intros Hinv Hb Hc Hk. unfold register. rewrite Hk.
  pose proof Hinv as [Hn Hg Hs He].
  assert (u64_add (next_id s) 1 = next_id s + 1) as Hnx
    by (unfold u64_add; apply Z.mod_small; lia).
  split; [done|]. constructor; simpl; rewrite ?Hnx; [lia|..].
  - intros c' g' [[<- <-]|[_ Hg']]%lookup_insert_Some; simpl; rewrite length_app; simpl; [lia|].
    destruct (Hg _ _ Hg'). lia.
  - intros c1 c2 g1 g2 [[<- <-]|[_ H1]]%lookup_insert_Some
      [[<- <-]|[_ H2]]%lookup_insert_Some; simpl; intros E; try done.
    + destruct (Hg _ _ H2). lia.
    + destruct (Hg _ _ H1). lia.
    + by eapply Hs.
  - intros k fl' [[<- <-]|[Hne Hfl']]%lookup_insert_Some; simpl.
    + split_and!; [lia| |lia|].
      * pose proof (waiting_insert c (mkGuard key (next_id s) (length (futures s))) _ Hc) as E.
        simpl in E. rewrite E, waiting_fresh, map_size_empty; [done|].
        intros c' g' Hg'. destruct (Hg _ _ Hg'). lia.
      * intros c' g' [[<- <-]|[_ Hg']]%lookup_insert_Some; simpl; [done|].
        intros E. destruct (Hg _ _ Hg'). lia.
    + destruct (He k fl' Hfl') as (Hid' & Hw' & Hpos' & Hfl2). split_and!; [lia| |done|].
      * rewrite waiting_insert_other by (done || (simpl; naive_solver)). done.
      * intros c' g' [[<- <-]|[_ Hg']]%lookup_insert_Some; simpl; intros E; [lia|by eauto].
Qed.

Lemma drop_guard_lookup key id fin m k fl :
  drop_guard key id fin m !! k = Some fl ->
  exists fl0, m !! k = Some fl0 /\ f_id fl = f_id fl0 /\ f_future fl = f_future fl0 /\
    (k = key -> f_id fl0 = id ->
     fin = false /\ f_waiters fl = saturating_sub (f_waiters fl0) 1 /\ f_waiters fl <> 0) /\
    (k <> key \/ f_id fl0 <> id -> fl = fl0).
Proof.
  unfold drop_guard. destruct (m !! key) as [fl1|] eqn:Hk; [|intros; exists fl; naive_solver].
  destruct (Z.eqb_spec (f_id fl1) id) as [<-|Hne].
  - destruct fin; simpl.
    { intros [? ?]%lookup_delete_Some. exists fl. naive_solver. }
    destruct (Z.eqb_spec (saturating_sub (f_waiters fl1) 1) 0).
    + intros [? ?]%lookup_delete_Some. exists fl. naive_solver.
    + intros [[<- <-]|[? ?]]%lookup_insert_Some; [exists fl1|exists fl]; naive_solver.
  - intros Hfl. exists fl. naive_solver.
Qed.

(** A caller leaving, for whatever reason, keeps the invariant. *)
Lemma leave_inv c fin g n s : inv n s -> guards s !! c = Some g -> inv n (leave c fin g s).
Proof.
  intros Hinv Hc. pose proof Hinv as [Hn Hg Hs He]. constructor; simpl; [done|..].
  - intros c' g' [_ Hg']%lookup_delete_Some. by eauto.
  - intros c1 c2 g1 g2 [_ H1]%lookup_delete_Some [_ H2]%lookup_delete_Some. by eapply Hs.
  - intros k fl Hfl. apply drop_guard_lookup in Hfl as (fl0 & Hk & Hid & Hfut & Hsame & Hother).
    destruct (He k fl0 Hk) as (Hid0 & Hw & Hpos & Hfl0). rewrite Hid, Hfut.
    split_and!; [done|..].
    + destruct (decide (g_key g = k /\ g_id g = f_id fl0)) as [[Hgk Hgi]|Hne].
      * destruct Hsame as (_ & -> & _); [done..|]. rewrite <- Hgk, <- Hgi in Hw |- *.
        rewrite (waiting_delete c g) in Hw by done. unfold saturating_sub. lia.
      * rewrite (waiting_delete_other c g) by done. rewrite Hother; [done|].
        destruct (decide (k = g_key g)); naive_solver.
    + destruct (decide (k = g_key g /\ f_id fl0 = g_id g)) as [[? ?]|Hne].
      * destruct Hsame as (_ & E & ?); [done..|]. unfold saturating_sub in E. lia.
      * rewrite Hother; [done|]. destruct (decide (k = g_key g)); naive_solver.
    + intros c' g' [_ Hg']%lookup_delete_Some. by eauto.
Qed.

Lemma step_inv n s l s' : step s l s' -> inv n s -> n + 1 < 2 ^ 64 -> inv (n + 1) s'.
Proof.
  assert (forall s, inv n s -> inv (n + 1) s) as Hmono.
  { intros s0 [Hn Hg Hs He]. constructor; [lia|done..]. }
  intros Hstep Hinv Hb. destruct Hstep as [c key fut s Hc|c0 g0 fut v s Hc0 Hh|c0 g0 fut s Hc0 Hh
    |c g fut v s Hc _|c g fut s Hc _|c g s Hc].
  2,3: apply Hmono; destruct Hinv as [Hn Hg Hs He]; constructor; simpl; try done;
    intros c g Hcg; rewrite length_insert; by eauto.
  2-4: eauto using leave_inv.
  destruct (calls s !! key) as [fl|] eqn:Hk; [eauto using join_inv|].
  by apply lead_inv.
Qed.

Lemma steps_inv_count n s ls s' :
  steps step s ls s' -> inv n s -> n + Z.of_nat (length ls) < 2 ^ 64 ->
  inv (n + Z.of_nat (length ls)) s'.
Proof.
  intros Hsteps. revert n. induction Hsteps as [s|s l s1 ls s2 Hstep _ IH]; intros n Hinv Hb;
    simpl length in *; [by rewrite Z.add_0_r|].
  replace (n + Z.of_nat (S (length ls))) with (n + 1 + Z.of_nat (length ls)) by lia.
  apply IH; [|lia]. eapply step_inv; [done..|lia].
Qed.

Lemma next_id_mono n s l s' : step s l s' -> inv n s -> n + 1 < 2 ^ 64 -> next_id s <= next_id s'.
Proof.
  intros Hstep Hinv Hb. destruct Hstep as [c key fut s Hc| | | | |]; simpl; try lia.
  destruct (calls s !! key) as [fl|] eqn:Hk.
  - unfold register. rewrite Hk. simpl. lia.
  - destruct (lead_inv c key fut n s) as [-> _]; try done. lia.
Qed.

Lemma retired_step n i s l s' :
  step s l s' -> inv n s -> n + 1 < 2 ^ 64 -> retired i s -> retired i s'.
Proof.
  intros Hstep Hinv Hb [Hi Hr]. pose proof (next_id_mono n s l s' Hstep Hinv Hb) as Hmono.
  split; [lia|]. destruct Hstep as [c key fut s Hc|c0 g0 fut v s Hc0 Hh|c0 g0 fut s Hc0 Hh|c g fut v s Hc _
    |c g fut s Hc _|c g s Hc]; simpl.
  2,3: done.
  2-4: intros k fl (fl0 & Hk & -> & _)%drop_guard_lookup; eauto.
  intros k fl. unfold register. destruct (calls s !! key) as [fl0|] eqn:Hk; simpl;
      intros [[<- <-]|[_ Hfl]]%lookup_insert_Some; simpl; eauto. lia.
Qed.

(** Returning retires the flight: the entry goes whichever waiter finished it. *)
Lemma return_retires n c g s : inv n s -> guards s !! c = Some g -> retired (g_id g) (leave c true g s).
Proof.
  intros Hinv Hc. destruct Hinv as [Hn Hg Hs He]. split; [by eapply Hg|]. simpl.
  intros k fl (fl0 & Hk & -> & _ & Hsame & _)%drop_guard_lookup E.
  destruct (He k fl0 Hk) as (_ & _ & _ & Hfl). destruct (Hfl c g Hc (eq_sym E)) as [<- _].
  destruct Hsame as [? _]; done.
Qed.

Lemma served_step n i v s l s' :
  step s l s' -> inv n s -> n + 1 < 2 ^ 64 -> served i v s -> served i v s'.
Proof.
  intros Hstep Hinv Hb (h & fut0 & Hh & Hi & Hgs & Hcs).
  pose proof (next_id_mono n s l s' Hstep Hinv Hb) as Hmono. exists h, fut0.
  destruct Hstep as [c key fut s Hc|c0 g0 fut v' s Hc0 Hh'|c0 g0 fut s Hc0 Hh'|c g fut v' s Hc _
    |c g fut s Hc _|c g s Hc]; simpl in *.
  2,3: split_and!; try done; rewrite list_lookup_insert_ne; [done|]; congruence.
  2-4: split_and!; try done;
    [intros c' g' [_ Hg']%lookup_delete_Some; eauto
    |intros k fl (fl0 & Hk & -> & -> & _)%drop_guard_lookup; eauto].
  unfold register in *. destruct (calls s !! key) as [fl0|] eqn:Hk; simpl in *.
  - split_and!; [done|lia|..].
  + intros c' g' [[<- <-]|[_ Hg']]%lookup_insert_Some; simpl; eauto.
  + intros k fl [[<- <-]|[_ Hfl]]%lookup_insert_Some; simpl; eauto.
  - split_and!; [by apply lookup_app_l_Some|lia|..].
  + intros c' g' [[<- <-]|[_ Hg']]%lookup_insert_Some; simpl; [lia|eauto].
  + intros k fl [[<- <-]|[_ Hfl]]%lookup_insert_Some; simpl; [lia|eauto].
Qed.

Lemma return_served n c g fut v s :
  inv n s -> guards s !! c = Some g -> futures s !! g_future g = Some (fut, Some (Done v)) ->
  served (g_id g) (Done v) (leave c true g s).
Proof.
  intros Hinv Hc Hf. pose proof (return_retires n c g s Hinv Hc) as [Hi Hr].
  exists (g_future g), fut. split_and!; simpl in *; try done.
  - intros c' g' [_ Hg']%lookup_delete_Some E. by eapply (inv_same n s Hinv).
  - intros k fl Hfl E. by destruct (Hr k fl Hfl).
Qed.

(** A property kept by every step while ids do not wrap holds to the end of a trace. *)
Lemma steps_keep (P : Group -> Prop) :
  (forall n s l s', step s l s' -> inv n s -> n + 1 < 2 ^ 64 -> P s -> P s') ->
  forall s ls s', steps step s ls s' -> forall n, inv n s -> n + Z.of_nat (length ls) < 2 ^ 64 ->
  P s -> P s'.
Proof.
  intros Hkeep s ls s' Hsteps. induction Hsteps as [s|s l s1 ls s2 Hstep _ IH];
    intros n Hinv Hb HP; simpl length in *; [done|].
  apply (IH (n + 1)); [apply (step_inv n s l s1 Hstep Hinv); lia|lia|].
  apply (Hkeep n s l s1 Hstep Hinv); [lia|done].
Qed.

Lemma drop_guard_keeps key id m k fl :
  m !! k = Some fl -> (k = key -> f_id fl <> id) -> forall fin, drop_guard key id fin m !! k = Some fl.
Proof.
  intros Hk Hne fin. unfold drop_guard. destruct (m !! key) as [fl1|] eqn:E; [|done].
  destruct (Z.eqb_spec (f_id fl1) id) as [Heq|]; [|done].
  assert (key <> k) as Hk' by (intros ->; simplify_eq; by destruct Hne).
  destruct (_ || _); [rewrite lookup_delete_ne|rewrite lookup_insert_ne]; done.
Qed.

(** A flight that another caller still awaits survives a cancellation. *)
Lemma drop_guard_shared n s c g c' g' fl :
  inv n s -> guards s !! c = Some g -> guards s !! c' = Some g' -> c <> c' ->
  g_id g' = g_id g -> calls s !! g_key g = Some fl -> f_id fl = g_id g ->
  drop_guard (g_key g) (g_id g) false (calls s) !! g_key g =
    Some (mkFlight (f_id fl) (f_future fl) (f_waiters fl - 1)).
Proof.
  intros Hinv Hc Hc' Hne Hid Hk Hfl. unfold drop_guard. rewrite Hk, Hfl, Z.eqb_refl. simpl.
  destruct (inv_entry _ _ Hinv _ _ Hk) as (_ & Hw & Hpos & _). rewrite Hfl in Hw.
  destruct (inv_same _ _ Hinv _ _ _ _ Hc' Hc Hid) as [Hkey _].
  rewrite (waiting_delete c g) in Hw by done.
  assert (0 < size (waiting (g_key g) (g_id g) (delete c (guards s))))%nat as Hs.
  { destruct (decide (waiting (g_key g) (g_id g) (delete c (guards s)) = ∅)) as [E|E];
      [|apply map_size_non_empty_iff in E; lia].
    assert (waiting (g_key g) (g_id g) (delete c (guards s)) !! c' = Some g') as Hin
      by (apply map_lookup_filter_Some; rewrite lookup_delete_ne by done; done).
    by rewrite E, lookup_empty in Hin. }
  unfold saturating_sub. rewrite Z.max_r by lia. destruct (Z.eqb_spec (f_waiters fl - 1) 0); [lia|].
  by rewrite lookup_insert_eq.
Qed.

Lemma driven_leave n s c g fin :
  inv n s -> driven s -> guards s !! c = Some g ->
  (fin = true -> exists fut o, futures s !! g_future g = Some (fut, Some o)) ->
  driven (leave c fin g s).
Proof.
  intros Hinv Hd Hc Hfin c' g' fut. simpl. intros [Hcc Hg']%lookup_delete_Some Hf.
  destruct (Hd c' g' fut Hg' Hf) as (fl & Hk & Hid & Hfut).
  destruct (decide (g_id g' = g_id g)) as [E|Hne].
  - destruct (inv_same _ _ Hinv _ _ _ _ Hg' Hc E) as [Ek Ef].
    destruct fin; [destruct Hfin as (? & ? & Hv); [done|]; rewrite Ef in Hf; congruence|].
    rewrite Ek in Hk |- *. exists (mkFlight (f_id fl) (f_future fl) (f_waiters fl - 1)).
    split; [|done]. apply (drop_guard_shared n s c g c' g'); congruence.
  - exists fl. split; [|done]. apply drop_guard_keeps; [done|]. congruence.
Qed.

Lemma driven_step n s l s' : step s l s' -> inv n s -> n + 1 < 2 ^ 64 -> driven s -> driven s'.
Proof.
  intros Hstep Hinv _ Hd.
  destruct Hstep as [c key fut s Hc|c0 g0 fut v s Hc0 Hh|c0 g0 fut s Hc0 Hh|c g fut v s Hc Hv
    |c g fut s Hc Hv|c g s Hc].
  2,3: intros c' g' fut' Hg' Hf; simpl in *;
    apply list_lookup_insert_Some in Hf as [(? & ? & _)|[_ Hf]]; [congruence|]; by eapply Hd.
  2: apply (driven_leave n); eauto.
  2,3: apply (driven_leave n); [done..|discriminate].
  unfold register. destruct (calls s !! key) as [fl|] eqn:Hk; intros c' g' fut'; simpl;
    intros [[<- <-]|[_ Hg']]%lookup_insert_Some Hf; simpl.
  - rewrite lookup_insert_eq. by eexists.
  - destruct (Hd _ _ _ Hg' Hf) as (fl' & Hk' & Hid & Hfut). destruct (decide (key = g_key g')) as [->|].
  + rewrite lookup_insert_eq. simplify_eq. by eexists.
  + rewrite lookup_insert_ne by done. by exists fl'.
  - rewrite lookup_insert_eq. by eexists.
  - destruct (inv_guard _ _ Hinv _ _ Hg') as [_ Hlt]. rewrite lookup_app_l in Hf by done.
    destruct (Hd _ _ _ Hg' Hf) as (fl' & Hk' & Hid & Hfut).
    rewrite lookup_insert_ne by congruence. by exists fl'.
Qed.

(** After any trace from the empty group, every caller is driven. *)
Lemma reachable_driven ls s :
  steps step new ls s -> Z.of_nat (length ls) < 2 ^ 64 -> driven s.
Proof.
  intros Hs Hb. apply (steps_keep driven driven_step _ _ _ Hs 0 new_inv); [lia|].
  intros c g fut. simpl. by rewrite lookup_empty.
Qed.

Lemma flight_exec_sound a s l s' : exec a s = Some (l, s') -> step s l s'.
Proof.
  destruct a as [c key fut|c v|c|c|c|c]; simpl; unfold awaited;
    repeat case_match; intros ?; simplify_option_eq; by econstructor.
Qed.

Lemma flight_exec_complete s l s' : step s l s' -> exists a, exec a s = Some (l, s').
Proof.
  intros [c key fut ? Hc|c g fut v ? Hc Hf|c g fut ? Hc Hf|c g fut v ? Hc Hf|c g fut ? Hc Hf|c g ? Hc];
    [exists (ACall c key fut)|exists (APoll c v)|exists (APoison c)|exists (AReturn c)|exists (APanic c)
    |exists (ACancel c)]; simpl; unfold awaited; rewrite ?Hc, ?Hf; done.
Qed.

Lemma flight_exec_all_steps acts : forall s,
  steps step s (exec_all acts s).1 (exec_all acts s).2.
Proof.
  apply run_acts_steps, Forall_forall. intros a _. apply flight_exec_sound.
Qed.

(** *** Panics *)

(** The step a label of a trace stands for. *)
Lemma steps_elem_of s ls s' l :
  steps step s ls s' -> l ∈ ls -> exists l1 s1 s2 l2, ls = (l1 ++ l :: l2)%list /\
    steps step s l1 s1 /\ step s1 l s2 /\ steps step s2 l2 s'.
Proof.
  induction 1 as [s|s l0 s1 ls s2 Hstep Hs IH]; intros Hin; [by apply elem_of_nil in Hin|].
  apply elem_of_cons in Hin as [->|Hin].
  - exists [], s, s1, ls. split_and!; [done|constructor|done|done].
  - destruct (IH Hin) as (l1 & sa & sb & l2 & -> & H1 & H2 & H3).
    exists (l0 :: l1), sa, sb, l2. split_and!; [done|by econstructor|done|done].
Qed.

(** A poisoned future stays poisoned. *)
Definition poisoned (h : nat) (s : Group) : Prop :=
  exists fut, futures s !! h = Some (fut, Some Poisoned).

Lemma poisoned_by s h s' : step s (LPoison h) s' -> poisoned h s'.
Proof.
  intros Hp. inversion Hp as [| |c g fut s0 Hc Hf| | |]; subst. exists fut. simpl.
  rewrite list_lookup_insert_eq; [done|]. by eapply lookup_lt_Some.
Qed.

Lemma poison_future s ls s' h : steps step s ls s' -> poisoned h s -> poisoned h s'.
Proof.
  apply steps_inv. clear. intros s l s' Hstep [fut Hh]. exists fut.
  destruct Hstep as [c key fut0 s Hc|c0 g0 fut0 v s Hc0 Hh'|c0 g0 fut0 s Hc0 Hh'| | |]; simpl; try done.
  - unfold register. destruct (calls s !! key); [done|]. by apply lookup_app_l_Some.
  - rewrite list_lookup_insert_ne; [done|]. congruence.
  - rewrite list_lookup_insert_ne; [done|]. congruence.
Qed.

Lemma poison_served n c g s h s' :
  inv n s -> guards s !! c = Some g -> step s (LPoison h) s' -> h = g_future g ->
  served (g_id g) Poisoned s'.
Proof.
  intros Hinv Hc Hp ->. destruct (poisoned_by _ _ _ Hp) as [fut Hfut].
  assert (calls s' = calls s /\ guards s' = guards s /\ next_id s' = next_id s) as (Ec & Eg & En)
    by (inversion Hp; subst; done).
  exists (g_future g), fut. rewrite Ec, Eg, En. split_and!; [done|by eapply inv_guard|..].
  - intros c' g' Hg' Hi. by eapply (inv_same n s Hinv).
  - intros k fl Hk Hi. destruct (inv_entry n s Hinv k fl Hk) as (_ & _ & _ & Hfl).
    symmetry. by apply (Hfl c g Hc).
Qed.

(** Nobody returns from a flight that was poisoned, nor has from one still pending. *)
Lemma served_returns n i s ls s' c v :
  steps step s ls s' -> inv n s -> n + Z.of_nat (length ls) < 2 ^ 64 -> served i Poisoned s ->
  LReturn c i v ∉ ls.
Proof.
  intros Hs Hinv Hb Hsv Hin.
  destruct (steps_elem_of _ _ _ _ Hs Hin) as (l1 & s1 & s2 & l2 & -> & H1 & H2 & _).
  rewrite length_app in Hb. simpl in Hb.
  pose proof (steps_keep (served i Poisoned) (fun n => served_step n _ _) _ _ _ H1 _ Hinv ltac:(lia) Hsv)
    as (h & fut & Hh & _ & Hgs & _).
  inversion H2 as [| | |c0 g fut0 v0 s0 Hc Hf| |]; subst. rewrite (Hgs _ _ Hc eq_refl) in Hf. congruence.
Qed.

Lemma pending_unreturned ls s c g fut c' v :
  steps step new ls s -> Z.of_nat (length ls) < 2 ^ 64 -> guards s !! c = Some g ->
  futures s !! g_future g = Some (fut, None) -> LReturn c' (g_id g) v ∉ ls.
Proof.
  intros Hs Hb Hc Hf Hin.
  destruct (steps_elem_of _ _ _ _ Hs Hin) as (l1 & s1 & s2 & l2 & -> & H1 & H2 & H3).
  rewrite length_app in Hb. simpl in Hb.
  pose proof (steps_inv_count 0 _ _ _ H1 new_inv ltac:(lia)) as Hinv1.
  pose proof (step_inv _ _ _ _ H2 Hinv1 ltac:(lia)) as Hinv2.
  assert (served (g_id g) (Done v) s2) as Hsv by (inversion H2; subst; by eapply return_served).
  pose proof (steps_keep (served (g_id g) (Done v)) (fun n => served_step n _ _) _ _ _ H3 _ Hinv2
    ltac:(lia) Hsv) as (h & fut' & Hh & _ & Hgs & _).
  rewrite (Hgs _ _ Hc eq_refl) in Hf. congruence.
Qed.

(** What may happen to a caller of poisoned work. *)
Lemma poisoned_moves c g fut s l s' :
  guards s !! c = Some g -> futures s !! g_future g = Some (fut, Some Poisoned) -> step s l s' ->
  l = LPanic c (g_id g) \/ guards s' !! c = Some g \/ l = LCancel c (g_id g).
Proof.
  intros Hc Hf Hstep.
  assert (forall c' (g' : Guard) fin, c' <> c -> guards (leave c' fin g' s) !! c = Some g) as Hother
    by (intros c' g' fin Hne; simpl; by rewrite lookup_delete_ne).
  destruct Hstep as [c' key fut' s Hc'| | |c' g' fut' v s Hc' Hf'|c' g' fut' s Hc' Hf'|c' g' s Hc'];
    try (right; left; done).
  - right; left. unfold register. destruct (calls s !! key); simpl; by rewrite lookup_insert_ne by congruence.
  - destruct (decide (c' = c)) as [->|Hne]; [congruence|right; left; by apply Hother].
  - destruct (decide (c' = c)) as [->|Hne]; [left; congruence|right; left; by apply Hother].
  - destruct (decide (c' = c)) as [->|Hne]; [do 2 right; congruence|right; left; by apply Hother].
Qed.

(** ** Theorems *)

(** C3: One execution per key at a time. After any interleaving, all the callers awaiting unfinished
    work for a key await one shared future, and it is the one a newcomer for that key joins
    without starting its own; and work is kept exactly while some caller awaits it, so what every
    caller abandoned is dropped. *)
Theorem singleflight_exclusive ls s :
  steps step new ls s -> Z.of_nat (length ls) < 2 ^ 64 ->
  (forall c g fut, guards s !! c = Some g -> futures s !! g_future g = Some (fut, None) ->
     (forall c' g' fut', guards s !! c' = Some g' -> g_key g' = g_key g ->
        futures s !! g_future g' = Some (fut', None) -> g_future g' = g_future g) /\
     (forall c' fut', let s' := register c' (g_key g) fut' s in
        futures s' = futures s /\ g_future <$> guards s' !! c' = Some (g_future g))) /\
  (forall h, alive h s <-> exists c g, guards s !! c = Some g /\ g_future g = h).
Proof.
  intros Hs Hb. pose proof (reachable_driven ls s Hs Hb) as Hd.
  pose proof (steps_inv_count 0 _ _ _ Hs new_inv ltac:(lia)) as Hinv. split.
  - intros c g fut Hc Hf. destruct (Hd c g fut Hc Hf) as (fl & Hk & Hid & Hfut). split.
    + intros c' g' fut' Hc' Hkey Hf'. destruct (Hd c' g' fut' Hc' Hf') as (fl' & Hk' & Hid' & Hfut').
      rewrite Hkey in Hk'. congruence.
    + intros c' fut'. unfold register. rewrite Hk. simpl. by rewrite lookup_insert_eq, <- Hfut.
  - intros h. split; [|by right]. intros [(k & fl & Hk & <-)|?]; [|done].
    destruct (entry_guard _ _ _ _ Hinv Hk) as (c & g & Hc & _ & _ & Hf). eauto.
Qed.

(** The scheduler runs exactly the steps of the relation. *)
Theorem flight_exec_iff s l s' : step s l s' <-> exists a, exec a s = Some (l, s').
Proof. split; [apply flight_exec_complete|]. intros [a Ha]. by eapply flight_exec_sound. Qed.

(** C20: A panic of the shared work stays within its flight. Once the work of a flight has panicked
    nobody ever got, or will get, a value from that flight: all that its callers can do is panic or
    be dropped, each at once, and no poll runs the work again. Its entry is there only as long as
    one of those callers is still inside [do_call]; then the next call for any key is on another
    flight, and starts its own work unless that key has a newer one. *)
Theorem singleflight_panic_contained l1 c g s1 s2 l2 s3 :
  steps step new l1 s1 -> guards s1 !! c = Some g -> step s1 (LPoison (g_future g)) s2 ->
  steps step s2 l2 s3 -> Z.of_nat (length l1 + length l2) + 2 < 2 ^ 64 ->
  let i := g_id g in
  (forall c' v, LReturn c' i v ∉ (l1 ++ l2)%list) /\ (forall v, LResolve (g_future g) v ∉ l2) /\
  (forall c' g', guards s3 !! c' = Some g' -> g_id g' = i ->
     (forall l s', step s3 l s' -> l = LPanic c' i \/ guards s' !! c' = Some g' \/ l = LCancel c' i) /\
     is_Some (exec (APanic c') s3) /\ is_Some (exec (ACancel c') s3)) /\
  (forall k fl, calls s3 !! k = Some fl -> f_id fl = i ->
     exists c' g', guards s3 !! c' = Some g' /\ g_id g' = i) /\
  ((forall c' g', guards s3 !! c' = Some g' -> g_id g' <> i) ->
   forall c' key fut, exists g', guards (register c' key fut s3) !! c' = Some g' /\ g_id g' <> i /\
     (calls s3 !! key = None -> futures (register c' key fut s3) !! g_future g' = Some (fut, None))).
Proof.
  intros Hs1 Hc Hp Hs2 Hb. cbv zeta.
  pose proof (steps_inv_count 0 _ _ _ Hs1 new_inv ltac:(lia)) as Hinv1.
  pose proof (step_inv _ _ _ _ Hp Hinv1 ltac:(lia)) as Hinv2.
  pose proof (steps_inv_count _ _ _ _ Hs2 Hinv2 ltac:(lia)) as Hinv3.
  assert (exists fut, futures s1 !! g_future g = Some (fut, None)) as [fut0 Hf1]
    by (inversion Hp as [| |c0 g0 fut0 s0 Hc0 Hf0| | |]; subst; exists fut0; congruence).
  pose proof (poison_served _ _ _ _ _ _ Hinv1 Hc Hp eq_refl) as Hsv2.
  pose proof (steps_keep (served (g_id g) Poisoned) (fun n => served_step n _ _) _ _ _ Hs2 _ Hinv2
    ltac:(lia) Hsv2) as Hsv3.
  split_and!.
  - intros c' v Hin. apply elem_of_app in Hin as [Hin|Hin].
    + exact (pending_unreturned l1 s1 c g fut0 c' v Hs1 ltac:(lia) Hc Hf1 Hin).
    + eapply (served_returns _ _ _ _ _ _ _ Hs2 Hinv2); [lia|exact Hsv2|exact Hin].
  - intros v Hin. destruct (steps_elem_of _ _ _ _ Hs2 Hin) as (la & sa & sb & lb & -> & Ha & Hr & _).
    pose proof (poison_future _ _ _ _ Ha (poisoned_by _ _ _ Hp)) as [fut Hfut].
    inversion Hr; subst. congruence.
  - intros c' g' Hc' Hi. destruct Hsv3 as (h & fut & Hh & Hlt & Hgs & _). pose proof (Hgs _ _ Hc' Hi) as Hg'.
    rewrite <- Hg' in Hh. split_and!.
    + intros l s' Hl. rewrite <- Hi. by eapply (poisoned_moves c' g' fut s3).
    + simpl. unfold awaited. rewrite Hc'. simpl. rewrite Hh. by eexists.
    + simpl. rewrite Hc'. by eexists.
  - intros k fl Hk Hi. destruct (entry_guard _ _ _ _ Hinv3 Hk) as (c' & g' & ? & _ & ? & _).
    exists c', g'. split; [done|congruence].
  - intros Hnone c' key fut. destruct Hsv3 as (h & fut' & _ & Hlt & _).
    unfold register. destruct (calls s3 !! key) as [fl|] eqn:Hk; simpl;
      rewrite lookup_insert_eq; eexists; (split; [reflexivity|]); simpl.
    + split; [|done]. intros Hi.
      destruct (entry_guard _ _ _ _ Hinv3 Hk) as (c2 & g2 & Hg2 & _ & Hi2 & _).
      apply (Hnone c2 g2 Hg2). congruence.
    + split; [lia|]. intros _. rewrite lookup_app_r, Nat.sub_diag by lia. done.
Qed.

(** C4: After any interleaving of calls, completions and cancellations, an entry's waiter count
    is exactly the number of callers awaiting it and is never zero, so no entry outlives its
    callers: with nobody inside [do_call] the map is empty. *)
Theorem singleflight_no_leak ls s :
  steps step new ls s -> Z.of_nat (length ls) < 2 ^ 64 ->
  (forall k fl, calls s !! k = Some fl ->
     f_waiters fl = Z.of_nat (size (waiting k (f_id fl) (guards s))) /\ 0 < f_waiters fl) /\
  (guards s = ∅ -> in_flight s = 0%nat).
Proof.
  intros Hsteps Hb. pose proof (steps_inv_count 0 _ _ _ Hsteps new_inv ltac:(lia)) as Hinv.
  split.
  - intros k fl Hk. destruct (inv_entry _ _ Hinv k fl Hk) as (_ & ? & ? & _). done.
  - intros Hg. apply map_size_empty_iff, map_empty. intros k.
    destruct (calls s !! k) as [fl|] eqn:Hk; [|done].
    destruct (entry_guard _ _ _ _ Hinv Hk) as (c & g & Hc & _).
    by rewrite Hg, lookup_empty in Hc.
Qed.

(** Once some caller has returned from a flight, no later call joins that flight: a caller
    arriving afterwards, for any key, is given a different one. *)
Theorem singleflight_finished_not_rejoined l1 c i v s1 s2 l2 s3 c' key fut :
  steps step new l1 s1 -> step s1 (LReturn c i v) s2 -> steps step s2 l2 s3 ->
  guards s3 !! c' = None ->
  Z.of_nat (length l1 + length l2) + 2 < 2 ^ 64 ->
  forall g, guards (register c' key fut s3) !! c' = Some g -> g_id g <> i.
Proof.
  intros Hs1 Hret Hs2 Hc' Hb g Hg.
  pose proof (steps_inv_count 0 _ _ _ Hs1 new_inv ltac:(lia)) as Hinv1.
  assert (retired i s2) as Hr2 by (inversion Hret; subst; by eapply return_retires).
  pose proof (step_inv _ _ _ _ Hret Hinv1 ltac:(lia)) as Hinv2.
  pose proof (steps_keep (retired i) (fun n => retired_step n i) _ _ _ Hs2 _ Hinv2 ltac:(lia) Hr2)
    as [Hi Hr].
  unfold register in Hg. destruct (calls s3 !! key) as [fl|] eqn:Hk; simpl in Hg;
    rewrite lookup_insert_eq in Hg; injection Hg as <-; simpl; [by eapply Hr|lia].
Qed.

(** C21: Every caller that returns from one flight gets the same value: the work registered by
    the flight's first caller ran once for all of them. *)
Theorem singleflight_same_result l1 c1 i v1 s1 s2 l2 c2 v2 s3 s4 :
  steps step new l1 s1 -> step s1 (LReturn c1 i v1) s2 ->
  steps step s2 l2 s3 -> step s3 (LReturn c2 i v2) s4 ->
  Z.of_nat (length l1 + length l2) + 2 < 2 ^ 64 -> v1 = v2.
Proof.
  intros Hs1 Hr1 Hs2 Hr2 Hb.
  pose proof (steps_inv_count 0 _ _ _ Hs1 new_inv ltac:(lia)) as Hinv1.
  pose proof (step_inv _ _ _ _ Hr1 Hinv1 ltac:(lia)) as Hinv2.
  assert (served i (Done v1) s2) as Hsv by (inversion Hr1; subst; by eapply return_served).
  pose proof (steps_keep (served i (Done v1)) (fun n => served_step n i (Done v1)) _ _ _ Hs2 _ Hinv2 ltac:(lia) Hsv)
    as (h & fut & Hh & _ & Hgs & _).
  inversion Hr2 as [| | |c g fut' v s Hc Hf| |]; subst. rewrite (Hgs _ _ Hc eq_refl) in Hf. congruence.
Qed.
End Singleflight.

(** ** Witnesses

    Callers 1 and 2 share key ["k"]; the work yields 7; both return, and caller 3 comes later. *)

Abbreviation WGroup := (Group (K := string) (Fut := unit) (T := Z) (C := nat)).

Definition guard12 : Guard (K := string) := mkGuard "k"%string 0 0.
Definition shared1 : WGroup := register 1%nat "k"%string () new.
Definition shared2 : WGroup := register 2%nat "k"%string () shared1.
Definition shared3 : WGroup := resolve 0 () (Done 7) shared2.
Definition shared4 : WGroup := leave 1%nat true guard12 shared3.
Definition shared5 : WGroup := leave 2%nat true guard12 shared4.

Lemma shared_prefix :
  steps step new [LCall 1%nat "k"%string; LCall 2%nat "k"%string; LResolve 0 7] shared3.
Proof.
  apply (steps_cons _ _ _ shared1); [by apply (step_call 1%nat "k"%string () new)|].
  apply (steps_cons _ _ _ shared2); [by apply (step_call 2%nat "k"%string () shared1)|].
  apply (steps_cons _ _ _ shared3); [by apply (step_resolve 1%nat guard12 () 7 shared2)|constructor].
Qed.

Lemma shared_return1 : step shared3 (LReturn 1%nat 0 7) shared4.
Proof. by apply (step_return 1%nat guard12 () 7 shared3). Qed.

Lemma shared_return2 : step shared4 (LReturn 2%nat 0 7) shared5.
Proof. by apply (step_return 2%nat guard12 () 7 shared4). Qed.

Lemma singleflight_no_leak_witness : in_flight shared5 = 0%nat.
Proof.
  apply (singleflight_no_leak
    ([LCall 1%nat "k"%string; LCall 2%nat "k"%string; LResolve 0 7] ++
     [LReturn 1%nat 0 7; LReturn 2%nat 0 7])%list shared5); [|done|done].
  eapply steps_app; [exact shared_prefix|].
  eapply steps_cons; [exact shared_return1|]. eapply steps_cons; [exact shared_return2|constructor].
Defined.

Lemma singleflight_finished_not_rejoined_witness :
  exists g, guards (register 3%nat "k"%string () shared4) !! 3%nat = Some g /\ g_id g <> 0.
Proof.
  eexists. split; [reflexivity|].
  apply (singleflight_finished_not_rejoined _ 1%nat 0 7 shared3 shared4 [] shared4 3%nat
    "k"%string () shared_prefix shared_return1); [constructor|done|done|reflexivity].
Defined.

Lemma singleflight_same_result_witness : 7 = 7.
Proof.
  eapply (singleflight_same_result _ 1%nat 0 7 shared3 shared4 [] 2%nat 7 shared4 shared5
    shared_prefix shared_return1); [constructor|exact shared_return2|done].
Defined.

(** Callers 1 and 2 await unfinished work for ["k"], and caller 1 gives up. *)
Definition abandoned : list (act (K := string) (Fut := unit) (T := Z) (C := nat)) :=
  [ACall 1%nat "k"%string (); ACall 2%nat "k"%string (); ACancel 1%nat].

Definition abandoned_run : list label * WGroup := exec_all abandoned new.

Lemma abandoned_steps :
  steps step new abandoned_run.1 abandoned_run.2 /\ Z.of_nat (length abandoned_run.1) < 2 ^ 64 /\
  guards abandoned_run.2 !! 2%nat = Some guard12 /\ futures abandoned_run.2 = [((), None)].
Proof. split; [apply flight_exec_all_steps|by vm_compute]. Qed.

Lemma singleflight_exclusive_witness :
  futures (register 3%nat "k"%string () abandoned_run.2) = futures abandoned_run.2 /\
  alive 0 abandoned_run.2.
Proof.
  destruct abandoned_steps as (Hs & Hb & Hg & Hf).
  destruct (singleflight_exclusive _ _ Hs Hb) as [Hone Halive]. split.
  - destruct (Hone 2%nat guard12 () Hg) as [_ Hjoin]; [by rewrite Hf|]. apply (Hjoin 3%nat ()).
  - apply Halive. by exists 2%nat, guard12.
Defined.

(** Callers 1 and 2 await the same work, which panics under the poll of 1; both panic, and caller 3
    starts its own. *)
Definition panicking : WGroup := resolve 0 () Poisoned shared2.
Definition panicked_run : list label * WGroup := exec_all [APanic 1%nat; APanic 2%nat] panicking.

Lemma singleflight_panic_contained_witness :
  panicked_run.1 = [LPanic 1%nat 0; LPanic 2%nat 0] /\
  exists g, guards (register 3%nat "k"%string () panicked_run.2) !! 3%nat = Some g /\ g_id g <> 0 /\
    futures (register 3%nat "k"%string () panicked_run.2) !! g_future g = Some ((), None).
Proof.
  split; [by vm_compute|].
  assert (steps step new [LCall 1%nat "k"%string; LCall 2%nat "k"%string] shared2) as Hs1.
  { apply (steps_cons _ _ _ shared1); [by apply (step_call 1%nat "k"%string () new)|].
    apply (steps_cons _ _ _ shared2); [by apply (step_call 2%nat "k"%string () shared1)|constructor]. }
  assert (steps step panicking panicked_run.1 panicked_run.2) as Hs2 by apply flight_exec_all_steps.
  assert (guards shared2 !! 1%nat = Some guard12) as Hg by done.
  assert (step shared2 (LPoison 0) panicking) as Hp by (by apply (step_poison 1%nat guard12 () shared2)).
  destruct (singleflight_panic_contained _ 1%nat guard12 shared2 panicking _ panicked_run.2 Hs1 Hg Hp
    Hs2) as (_ & _ & _ & _ & H); [by vm_compute|].
  destruct (H ltac:(intros c' g'; vm_compute; discriminate) 3%nat "k"%string ()) as (g & Hg3 & Hi & Hf).
  exists g. split_and!; [done|done|]. apply Hf. by vm_compute.
Defined.
