(* ===== verification/Log.v ===== *)
(** [pc-log]: the per-key sampler, the per-key time-window limiter, the request-scoped log
    prefix, the golog line format, and the forwarding of log lines to a hook
    ([crates/pc-log/src]). Clock readings are nanoseconds and are
    arguments; the macros that use these parts are in [Logging]. *)
From S2P Require Export Core.
Local Open Scope string_scope.
Local Open Scope Z_scope.

(** ** Sampler ([sampler.rs]) *)

Record SamplerConfig : Type := mkSamplerConfig {
  initial : Z;
  thereafter : Z;
  period : Z;
}.

Definition sampler_config_for_env (env : option AppEnv) : option SamplerConfig :=
  match env with
  | Some Production => Some (mkSamplerConfig 5 50 (from_secs 1))
  | Some Staging => Some (mkSamplerConfig 10 10 (from_secs 1))
  | Some Develop => Some (mkSamplerConfig 20 20 (from_secs 1))
  | None => None
  end.

Record SamplerEntry : Type := mkSamplerEntry { count : Z; reset : Z }.

Record Sampler : Type := mkSampler {
  config : option SamplerConfig;
  entries : gmap string SamplerEntry;
}.

Definition sampler_new (config : option SamplerConfig) : Sampler := mkSampler config ∅.

(** The verdict on the [n]-th line of a period. *)
Definition sampler_verdict (cfg : SamplerConfig) (n : Z) : bool * Z :=
  if n <=? initial cfg then (true, 0)
  else if thereafter cfg =? 0 then (false, 0)
  else
    let over := n - initial cfg in
    if Z.rem over (thereafter cfg) =? 0 then (true, thereafter cfg - 1) else (false, 0).

(** [Sampler::check]. *)
Definition sampler_check (now : Z) (key : string) (s : Sampler) : (bool * Z) * Sampler :=
  match config s with
  | Some cfg =>
      if 0 <? initial cfg then
        let entry := default (mkSamplerEntry 0 now) (entries s !! key) in
        if period cfg <=? elapsed now (reset entry) then
          ((true, 0), mkSampler (config s) (<[key := mkSamplerEntry 1 now]> (entries s)))
        else
          let n := i64_add (count entry) 1 in
          (sampler_verdict cfg n,
           mkSampler (config s) (<[key := mkSamplerEntry n (reset entry)]> (entries s)))
      else ((true, 0), s)
  | None => ((true, 0), s)
  end.

(** [initialize_sampler]: the sampler installed, with the default period filled in. *)
Definition initialize_sampler (cfg : option SamplerConfig) : Sampler :=
  sampler_new
    (option_map
       (fun c => if (period c =? 0) && (0 <? initial c)
                 then mkSamplerConfig (initial c) (thereafter c) (from_secs 1) else c) cfg).

(** [sample]: what the emit macros ask the global sampler. *)
Definition sample (now : Z) (key : string) (s : Sampler) : option Z * Sampler :=
  match sampler_check now key s with
  | ((true, suppressed), s') => (Some suppressed, s')
  | ((false, _), s') => (None, s')
  end.

(** ** Window limiter ([ratelimit.rs]) *)

Record RateLimitEntry : Type := mkRateLimitEntry { last_emit : option Z; suppressed : Z }.

Definition RateLimiter : Type := gmap string RateLimitEntry.

(** [RateLimiter::check]. *)
Definition window_check (now : Z) (key : string) (window : Z) (s : gmap string RateLimitEntry)
  : (bool * Z) * gmap string RateLimitEntry :=
  if window =? 0 then ((true, 0), s)
  else
    let entry := default (mkRateLimitEntry None 0) (s !! key) in
    let allow :=
      ((true, suppressed entry), <[key := mkRateLimitEntry (Some now) 0]> s) in
    match last_emit entry with
    | Some last =>
        if elapsed now last <? window then
          ((false, 0),
           <[key := mkRateLimitEntry (Some last) (i64_add (suppressed entry) 1)]> s)
        else allow
    | None => allow
    end.

(** [sample_window]. *)
Definition sample_window (now : Z) (key : string) (window : Z) (s : gmap string RateLimitEntry)
  : option Z * gmap string RateLimitEntry :=
  match window_check now key window s with
  | ((true, n), s') => (Some n, s')
  | ((false, _), s') => (None, s')
  end.

(** ** Request-scoped prefix ([context.rs]) *)

(** The body of the loop of [build_prefix] from field number [i] on. *)
Fixpoint prefix_fields (i : nat) (fields : list (string * string)) : string :=
  match fields with
  | [] => ""
  | (k, v) :: rest =>
      (if Nat.ltb 0 i then " " else "") +:+ k +:+ "=" +:+ v +:+ prefix_fields (S i) rest
  end.

Definition build_prefix (fields : list (string * string)) : string :=
  match fields with
  | [] => ""
  | _ :: _ => "[" +:+ prefix_fields 0 fields +:+ "] "
  end.

Record LogContext : Type := mkLogContext { prefix : string }.

Definition context_new (fields : list (string * string)) : LogContext :=
  mkLogContext (build_prefix fields).

(** [&s[..n]] and [&s[n..]]. *)
Definition slice_to (n : nat) (s : string) : string := String.substring 0 n s.
Definition slice_from (n : nat) (s : string) : string :=
  String.substring n (String.length s - n) s.

(** [LogContext::with]. *)
Definition context_with (fields : list (string * string)) (c : LogContext) : LogContext :=
  match fields with
  | [] => c
  | _ :: _ =>
      let extra := build_prefix fields in
      if is_empty (prefix c) then mkLogContext extra
      else mkLogContext
             (slice_to (String.length (prefix c) - 2) (prefix c) +:+ " " +:+ slice_from 1 extra)
  end.

(** ** Line format ([formatter.rs]) *)

Inductive Level : Type := ERROR | WARN | INFO | DEBUG | TRACE.

Definition level_title (l : Level) : string :=
  match l with
  | ERROR => "[ERRO]"
  | WARN => "[WARN]"
  | INFO => "[INFO]"
  | DEBUG | TRACE => "[DBUG]"
  end.

Record EventFields : Type := mkEventFields {
  ef_prefix : string;
  ef_message : string;
  ef_pc_level : option string;
  ef_rest : list (string * string);
}.

Definition EventFields_default : EventFields := mkEventFields "" "" None [].

(** [EventFields::record]. *)
Definition record_field (f : EventFields) (field : string * string) : EventFields :=
  let '(name, value) := field in
  if String.eqb name "prefix" then mkEventFields value (ef_message f) (ef_pc_level f) (ef_rest f)
  else if String.eqb name "message" then
    mkEventFields (ef_prefix f) value (ef_pc_level f) (ef_rest f)
  else if String.eqb name "pc_level" then
    mkEventFields (ef_prefix f) (ef_message f) (Some value) (ef_rest f)
  else mkEventFields (ef_prefix f) (ef_message f) (ef_pc_level f) (ef_rest f ++ [(name, value)])%list.

Definition newline : string := String (ascii_of_N 10) EmptyString.

(** [GoEventFormat::format_event]: [timestamp] is what [GoTimer] renders, [recorded] the event's
    fields with their values already displayed. *)
Definition format_event (timestamp : string) (level : Level) (recorded : list (string * string))
  : string :=
  let fields := fold_left record_field recorded EventFields_default in
  let title :=
    match ef_pc_level fields with
    | Some l => if String.eqb l "fatal" then "[FTAL]" else level_title level
    | None => level_title level
    end in
  title +:+ " " +:+ timestamp +:+ " "
  +:+ (if negb (is_empty (ef_prefix fields)) then
         trim_end (ef_prefix fields)
         +:+ (if negb (is_empty (ef_message fields)) then " " else "")
       else "")
  +:+ ef_message fields
  +:+ fold_right (fun '(name, value) acc => " " +:+ name +:+ "=" +:+ value +:+ acc) ""
        (ef_rest fields)
  +:+ newline.

(** ** Forwarding ([lib.rs]) *)

Definition FORWARD_FATAL : Z := Z.shiftl 1 0.
Definition FORWARD_ERROR : Z := Z.shiftl 1 1.
Definition FORWARD_WARN : Z := Z.shiftl 1 2.
Definition FORWARD_INFO : Z := Z.shiftl 1 3.
Definition FORWARD_DEBUG : Z := Z.shiftl 1 4.

Definition forward_rows : list (string * bool * Z) :=
  [("LOG_FORWARD_FATAL", true, FORWARD_FATAL);
   ("LOG_FORWARD_ERROR", true, FORWARD_ERROR);
   ("LOG_FORWARD_WARN", false, FORWARD_WARN);
   ("LOG_FORWARD_INFO", false, FORWARD_INFO);
   ("LOG_FORWARD_DEBUG", false, FORWARD_DEBUG)].

(** [configure_log_forwarding]: the level mask read from the environment ([env] is
    [std::env::var]). *)
Definition forwarding_levels (env : string -> option string) : Z :=
  let enabled name dflt :=
    match env name with
    | None => dflt
    | Some value => default dflt (parse_bool_go value)
    end in
  fold_left (fun levels '(name, dflt, flag) =>
               if enabled name dflt : bool then Z.lor levels flag else levels) forward_rows 0.

Definition level_flag (level : string) : Z :=
  if String.eqb level "fatal" then FORWARD_FATAL
  else if String.eqb level "error" then FORWARD_ERROR
  else if String.eqb level "warn" then FORWARD_WARN
  else if String.eqb level "info" then FORWARD_INFO
  else if String.eqb level "debug" then FORWARD_DEBUG
  else 0.

(** [forward]: the call of the hook, if any; [levels] is [None] before configuration. *)
Definition forward (levels : option Z) (level pfx message : string) : option (string * string) :=
  match levels with
  | None => None
  | Some levels =>
      if negb (Z.land levels (level_flag level) =? 0) then
        let rendered :=
          if is_empty pfx then message
          else if is_empty message then pfx
          else pfx +:+ " " +:+ message in
        Some (level, rendered)
      else None
  end.

Definition with_suffix (message : string) (suppressed : Z) : string :=
  if 0 <? suppressed then message +:+ " [+" +:+ show_Z suppressed +:+ " suppressed]" else message.

(** The logging part of [init]: the installed sampler and the subscriber's filter. *)
Definition log_init (env : string -> option string) (id : Identity) : Sampler * string :=
  let debug :=
    match env "APP_DEBUG_LOG" with
    | Some value => eq_ignore_ascii_case value "true"
    | None => false
    end in
  (initialize_sampler (sampler_config_for_env (app_env id)), if debug then "debug" else "info").

(** ** Lemmas *)

Lemma i64_add_small a : 0 <= a < I64_MAX -> i64_add a 1 = a + 1.
Proof. unfold i64_add, I64_MAX. intros. rewrite Z.mod_small; lia. Qed.

(** A line inside the current period of [key]: counted and judged. *)
Lemma sampler_check_in_period now key s cfg e :
  config s = Some cfg -> 0 < initial cfg -> entries s !! key = Some e ->
  elapsed now (reset e) < period cfg -> 0 <= count e < I64_MAX ->
  sampler_check now key s =
    (sampler_verdict cfg (count e + 1),
     mkSampler (Some cfg) (<[key := mkSamplerEntry (count e + 1) (reset e)]> (entries s))).
Proof.
  intros Hc Hi He Hp Hn. unfold sampler_check. rewrite Hc, He. simpl.
  rewrite (proj2 (Z.ltb_lt _ _) Hi), (proj2 (Z.leb_gt _ _) Hp), i64_add_small by done. done.
Qed.

(** The lines [k+1 .. k+n] of a period. *)
Lemma sampler_run cfg key t0 (ts : list Z) s k :
  config s = Some cfg -> 0 < initial cfg ->
  entries s !! key = Some (mkSamplerEntry k t0) -> 0 <= k ->
  k + Z.of_nat (length ts) <= I64_MAX ->
  Forall (fun t => elapsed t t0 < period cfg) ts ->
  (run_trace (fun t => sampler_check t key) ts s).1 =
  map (fun i => sampler_verdict cfg (k + 1 + Z.of_nat i)) (seq 0 (length ts)).
Proof.
  intros Hc Hi He Hk Hb Hts. revert s k Hc He Hk Hb.
  induction Hts as [|t ts Ht Hts IH]; intros s k Hc He Hk Hb; [done|].
  simpl length in *. cbn [run_trace].
  rewrite (sampler_check_in_period t key s cfg _ Hc Hi He Ht) by (simpl; lia). simpl count.
  specialize (IH (mkSampler (Some cfg) (<[key:=mkSamplerEntry (k + 1) t0]> (entries s))) (k + 1)
                 eq_refl (lookup_insert_eq _ _ _) ltac:(lia) ltac:(lia)). simpl in *.
  destruct (run_trace _ ts _) as [os s2]; simpl in *. f_equal; [f_equal; lia|].
  rewrite IH, <- seq_shift, map_map. apply map_ext. intros i. f_equal. lia.
Qed.

Lemma prefix_fields_app i a b :
  prefix_fields i (a ++ b) = prefix_fields i a +:+ prefix_fields (i + length a) b.
Proof.
  revert i. induction a as [|[k v] a IH]; intros i; simpl.
  - by rewrite Nat.add_0_r.
  - rewrite IH. replace (S i + length a)%nat with (i + S (length a))%nat by lia.
    rewrite <- !app_assoc_s. simpl. by rewrite <- !app_assoc_s.
Qed.

Lemma prefix_fields_S i j b : prefix_fields (S i) b = prefix_fields (S j) b.
Proof.
  revert i j. induction b as [|[k v] b IH]; intros i j; [done|]. cbn [prefix_fields].
  by rewrite (IH (S i) (S j)).
Qed.

Lemma prefix_fields_pos i b : b <> [] -> (0 < i)%nat ->
  prefix_fields i b = " " +:+ prefix_fields 0 b.
Proof.
  destruct b as [|[k v] b]; [done|]. intros _ Hi. destruct i as [|i]; [lia|].
  cbn [prefix_fields]. by rewrite (prefix_fields_S (S i) 0).
Qed.

Lemma substring_app_l a b : String.substring 0 (String.length a) (a +:+ b) = a.
Proof. induction a as [|c a IH]; simpl; [by destruct b|]. by rewrite IH. Qed.

Lemma substring_all a : String.substring 0 (String.length a) a = a.
Proof. rewrite <- (app_nil_r_s a) at 2. apply substring_app_l. Qed.

Lemma string_length_app a b :
  String.length (a +:+ b) = (String.length a + String.length b)%nat.
Proof. induction a as [|c a IH]; simpl; [done|]. by rewrite IH. Qed.

(** Suppressed lines of [key] not yet reported. *)
Definition pending (key : string) (s : gmap string RateLimitEntry) : Z :=
  match s !! key with Some e => suppressed e | None => 0 end.

Definition denied (os : list (bool * Z)) : Z :=
  fold_right (fun o n => (if (fst o : bool) then 0 else 1) + n) 0 os.

Definition reported (os : list (bool * Z)) : Z := fold_right (fun o n => snd o + n) 0 os.

Lemma window_check_account now key window s :
  window <> 0 -> 0 <= pending key s < I64_MAX ->
  let '(o, s') := window_check now key window s in
  pending key s + (if (fst o : bool) then 0 else 1) = snd o + pending key s' /\
  0 <= pending key s' /\ 0 <= snd o.
Proof.
  intros Hw Hp. unfold window_check, pending in *.
  rewrite (proj2 (Z.eqb_neq _ _) Hw).
  destruct (s !! key) as [[[last|] n]|] eqn:Hk; simpl in *.
  - destruct (_ <? _); simpl; rewrite lookup_insert_eq; simpl; [|lia].
    rewrite i64_add_small by done. lia.
  - rewrite lookup_insert_eq. simpl. lia.
  - rewrite lookup_insert_eq. simpl. lia.
Qed.

Lemma window_run_account key window ts s :
  window <> 0 -> 0 <= pending key s -> pending key s + Z.of_nat (length ts) <= I64_MAX ->
  let '(os, s') := run_trace (fun t => window_check t key window) ts s in
  pending key s + denied os = reported os + pending key s'.
Proof.
  intros Hw. revert s. induction ts as [|t ts IH]; intros s Hp Hb; simpl in *; [lia|].
  pose proof (window_check_account t key window s Hw ltac:(lia)) as Hstep.
  destruct (window_check t key window s) as [[ok n] s1]; simpl in *. destruct Hstep as (Hacc & Hp1 & Hn).
  assert (pending key s1 <= pending key s + 1) as Hle.
  { destruct ok; lia. }
  specialize (IH s1 Hp1).
  destruct (run_trace _ ts s1) as [os s2]; simpl. specialize (IH ltac:(lia)). lia.
Qed.

(** ** Theorems *)

(** Within one period of a key the sampler lets exactly the first [initial] lines through and
    then every [thereafter]-th one, reporting the lines it swallowed in between. *)
Theorem sampler_period_law cfg key s t0 ts :
  config s = Some cfg -> 0 < initial cfg -> 0 < period cfg ->
  entries s !! key = None ->
  1 + Z.of_nat (length ts) <= I64_MAX ->
  Forall (fun t => elapsed t t0 < period cfg) ts ->
  (run_trace (fun t => sampler_check t key) (t0 :: ts) s).1 =
  map (fun i => sampler_verdict cfg (1 + Z.of_nat i)) (seq 0 (S (length ts))).
Proof.
  intros Hc Hi Hp He Hb Hts. cbn [run_trace]. unfold sampler_check at 1. rewrite Hc, He. simpl.
  rewrite (proj2 (Z.ltb_lt _ _) Hi). unfold elapsed at 1. rewrite Z.sub_diag, Z.max_id.
  rewrite (proj2 (Z.leb_gt _ _) Hp). rewrite i64_add_small by (unfold I64_MAX; lia).
  pose proof (sampler_run cfg key t0 ts
    (mkSampler (Some cfg) (<[key:=mkSamplerEntry 1 t0]> (entries s))) 1 eq_refl Hi
    (lookup_insert_eq _ _ _) ltac:(lia) Hb Hts) as Hrun. simpl in *.
  destruct (run_trace _ ts _) as [os s2]; simpl in *. f_equal.
  rewrite Hrun, <- seq_shift, map_map. apply map_ext. intros i. f_equal. lia.
Qed.

(** Merging contexts is appending their fields: [new a . with b = new (a ++ b)]. *)
Theorem context_with_new a b : context_with b (context_new a) = context_new (a ++ b).
Proof.
  unfold context_with, context_new. destruct b as [|f b]; [by rewrite app_nil_r|].
  destruct a as [|g a]; [done|]. cbn [prefix]. f_equal.
  set (fa := (g :: a)). set (fb := (f :: b)).
  assert (build_prefix fa = ("[" +:+ prefix_fields 0 fa) +:+ "] ") as ->
    by (unfold fa; simpl; by rewrite <- ?app_assoc_s).
  assert (build_prefix fb = String "[" (prefix_fields 0 fb +:+ "] ")) as -> by done.
  assert (build_prefix (fa ++ fb) = "[" +:+ prefix_fields 0 (fa ++ fb) +:+ "] ") as -> by done.
  simpl is_empty. cbv iota. unfold slice_to, slice_from.
  rewrite string_length_app. simpl (String.length "] ").
  replace (_ + 2 - 2)%nat with (String.length ("[" +:+ prefix_fields 0 fa)) by lia.
  rewrite substring_app_l. cbn [String.length String.substring].
  replace (S (String.length _) - 1)%nat with (String.length (prefix_fields 0 fb +:+ "] ")) by lia.
  rewrite substring_all, prefix_fields_app, (prefix_fields_pos (0 + _)).
  - rewrite <- !app_assoc_s. done.
  - done.
  - simpl. lia.
Qed.

(** C36: The window limiter loses no line: over any calls for a key, the lines it denied are the
    ones it reported as suppressed plus the ones still pending. *)
Theorem window_accounting key window ts :
  window <> 0 -> Z.of_nat (length ts) <= I64_MAX ->
  let '(os, s) := run_trace (fun t => window_check t key window) ts ∅ in
  denied os = reported os + pending key s.
Proof.
  intros Hw Hb. pose proof (window_run_account key window ts ∅ Hw) as H.
  assert (pending key ∅ = 0) as Hp by (unfold pending; by rewrite lookup_empty).
  destruct (run_trace _ ts ∅) as [os s]. rewrite Hp in H. lia.
Qed.

(** A line reaches the forwarding hook exactly when forwarding is configured and its level is
    enabled by the environment, by default for [fatal] and [error] only. *)
Theorem forward_enabled env level pfx message :
  In level ["fatal"; "error"; "warn"; "info"; "debug"] ->
  let name := "LOG_FORWARD_" +:+
    (if String.eqb level "fatal" then "FATAL" else if String.eqb level "error" then "ERROR"
     else if String.eqb level "warn" then "WARN" else if String.eqb level "info" then "INFO"
     else "DEBUG") in
  let dflt := one_of ["fatal"; "error"] level in
  (forward (Some (forwarding_levels env)) level pfx message <> None <->
   match env name with
   | None => dflt = true
   | Some v => default dflt (parse_bool_go v) = true
   end).
Proof.
  intros Hin. unfold forwarding_levels, forward_rows. cbn [fold_left].
  set (on := fun name (d : bool) =>
    match env name with None => d | Some value => default d (parse_bool_go value) end).
  fold (on "LOG_FORWARD_FATAL" true) (on "LOG_FORWARD_ERROR" true) (on "LOG_FORWARD_WARN" false)
    (on "LOG_FORWARD_INFO" false) (on "LOG_FORWARD_DEBUG" false).
  assert (forall name d, match env name with None => d = true
            | Some v => default d (parse_bool_go v) = true end <-> on name d = true) as Hon
    by (intros name d; unfold on; by destruct (env name)).
  destruct Hin as [<-|[<-|[<-|[<-|[<-|[]]]]]]; cbv zeta; rewrite Hon; simpl;
    generalize (on "LOG_FORWARD_FATAL" true), (on "LOG_FORWARD_ERROR" true),
      (on "LOG_FORWARD_WARN" false), (on "LOG_FORWARD_INFO" false), (on "LOG_FORWARD_DEBUG" false);
    intros [] [] [] [] []; vm_compute; naive_solver.
Qed.

(** ** Witnesses *)

Lemma sampler_period_law_witness :
  (run_trace (fun t => sampler_check t "k") [0; 1; 2]
     (sampler_new (Some (mkSamplerConfig 1 2 10)))).1 = [(true, 0); (false, 0); (true, 1)].
Proof.
  rewrite (sampler_period_law (mkSamplerConfig 1 2 10) "k" _ 0 [1; 2]);
    [vm_compute; done|done|vm_compute; done|vm_compute; done|done|vm_compute; done|].
  repeat constructor.
Defined.

Lemma window_accounting_witness :
  let '(os, s) := run_trace (fun t => window_check t "k" 10) [0; 1; 2; 20; 21] ∅ in
  denied os = reported os + pending "k" s.
Proof. apply (window_accounting "k" 10 [0; 1; 2; 20; 21]); vm_compute; done. Defined.

Lemma forward_enabled_witness :
  forward (Some (forwarding_levels (fun _ => None))) "error" "p" "m" <> None.
Proof. apply (forward_enabled (fun _ => None) "error" "p" "m"); [simpl; tauto|done]. Defined.
