(* ===== verification/Redis.v ===== *)
(** [pc-redis]: key formats, the TTL guardrail, lock and deadline configuration, and the pool
    operations over a Redis server ([crates/pc-redis/src/lib.rs]).

    The server, its client library and the lock manager are third-party: [exec] runs one pooled
    command raced against a deadline, [lock] and [unlock] are [rslock]'s. [RedisServerLaws] states
    what Redis documents about [GET], [SET] and [PSETEX]; [RedisStore] is what this crate offers
    to [pc-auth]. *)
From S2P Require Export Core.
Local Open Scope string_scope.
Local Open Scope Z_scope.

(** ** Key formats *)

Definition csrf_key (token : string) : string := "csrf-" +:+ token.
(** [std::fmt::Display]. *)
Class Display (M : Type) : Type := to_string : M -> string.
#[export] Instance display_i64 : Display Z := show_Z.
#[export] Instance display_str : Display string := fun s => s.

Definition revoke_token_key {M : Type} `{Display M} (merchant_id : M) : string :=
  "revoke_token_" +:+ to_string merchant_id.
Definition lock_key_prefix (id : Identity) : string := "redis_lock:" +:+ app_name id +:+ ":".
Definition lock_key (id : Identity) (name : string) : string := lock_key_prefix id +:+ name.

(** ** Environment helpers *)

Definition env_i64 (env : Env) (name : string) : option Z :=
  match env name with Some v => parse_i64 v | None => None end.

Definition env_nonempty (env : Env) (name : string) : option string :=
  match env name with
  | Some s => if is_empty s then None else Some s
  | None => None
  end.

(** ** TTL guardrail *)

Definition DEFAULT_MAX_TTL_MINUTES : Z := 30 * 24 * 60.

Definition max_ttl_minutes (env : Env) : Z :=
  match env_i64 env "REDIS_MAX_TTL_MINUTES" with
  | Some n => if 0 <? n then n else DEFAULT_MAX_TTL_MINUTES
  | None => DEFAULT_MAX_TTL_MINUTES
  end.

Definition clamp_ttl_with_max (ttl_ms max_minutes : Z) : Z :=
  if ttl_ms <? 0 then 0
  else
    let max_ms := saturating_mul I64_MIN I64_MAX max_minutes 60000 in
    if max_ms <? ttl_ms then max_ms else ttl_ms.

Definition clamp_ttl (env : Env) (d : Z) : Z :=
  let ms := default I64_MAX (try_from I64_MIN I64_MAX (as_millis d)) in
  let clamped := clamp_ttl_with_max ms (max_ttl_minutes env) in
  from_millis (default 0 (try_from 0 U64_MAX clamped)).

Inductive KeyTtl : Type :=
| Missing
| NoExpiry
| Expires (d : Z).

Definition from_pttl (ms : Z) : KeyTtl :=
  if ms =? -2 then Missing
  else if ms =? -1 then NoExpiry
  else if ms <? 0 then NoExpiry
  else Expires (from_millis (Z.abs ms)).

Definition remaining (t : KeyTtl) : option Z :=
  match t with
  | Expires d => Some d
  | Missing | NoExpiry => None
  end.

(** ** Lock and deadline configuration *)

Definition DEFAULT_LOCK_TIMEOUT_MS : Z := 2000.
Definition MIN_LOCK_TIMEOUT_MS : Z := 700.
Definition DEFAULT_BACKOFF_MS : Z := 10.
Definition DEFAULT_OP_TIMEOUT_MS : Z := 1000.

Definition trx_lock_timeout_ms_from (parsed : option Z) : Z :=
  match parsed with
  | Some v => if MIN_LOCK_TIMEOUT_MS <=? v then v else DEFAULT_LOCK_TIMEOUT_MS
  | None => DEFAULT_LOCK_TIMEOUT_MS
  end.

Definition trx_backoff_ms_from (parsed : option Z) : Z :=
  match parsed with
  | Some v => if DEFAULT_BACKOFF_MS <=? v then v else DEFAULT_BACKOFF_MS
  | None => DEFAULT_BACKOFF_MS
  end.

Definition op_timeout_ms_from (parsed : option Z) : Z :=
  match parsed with
  | Some v => if 0 <? v then v else DEFAULT_OP_TIMEOUT_MS
  | None => DEFAULT_OP_TIMEOUT_MS
  end.

Definition trx_lock_timeout (env : Env) : Z :=
  from_millis (default 2000 (try_from 0 U64_MAX
    (trx_lock_timeout_ms_from (env_i64 env "TRANSACTION_REDIS_LOCK_TIMEOUT")))).

Definition trx_backoff (env : Env) : Z :=
  from_millis (default 10 (try_from 0 U64_MAX
    (trx_backoff_ms_from (env_i64 env "TRANSACTION_REDIS_BACKOFF")))).

Definition op_timeout (env : Env) : Z :=
  from_millis (default 1000 (try_from 0 U64_MAX
    (op_timeout_ms_from (env_i64 env "REDIS_OP_TIMEOUT_MS")))).

(** ** Commands *)

Inductive Cmd : Type :=
| PING
| SET (key value : string)
| PSETEX (key value : string) (ms : Z)
| GET (key : string)
| PTTL (key : string)
| DEL (key : string).

Inductive Reply : Type :=
| RDone
| RValue (v : option string)
| RInt (n : Z).

(** A command raced against [tokio::time::timeout]. *)
Inductive Outcome : Type :=
| Replied (r : Reply)
| Failed (msg : string)
| Elapsed.

(** The [anyhow] errors of the pool operations. *)
Inductive RedisError : Type :=
| ETimeout (op : string) (t : Z)
| EBackend (msg : string)
| EJson (msg : string).

Definition RedisError_to_string (e : RedisError) : string :=
  match e with
  | ETimeout op t => "[Redis] " +:+ op +:+ " timeout after " +:+ duration_debug t
  | EBackend msg => msg
  | EJson msg => msg
  end.

(** What [init_from_env] hands to the client library. *)
Record ConnectionInfo : Type := mkConnectionInfo {
  ci_host : string;
  ci_port : Z;
  ci_db : Z;
  ci_username : string;
  ci_password : option string;
}.

Inductive InitError : Type :=
| InvalidPort (port : string)
| ConnectError (msg : string).

Section Init.
Context {Pool : Type} (connect : ConnectionInfo -> result Pool string).

Definition init_from_env (env : Env) : result (option Pool) InitError :=
  match env_nonempty env "REDIS_HOST" with
  | None => Ok None
  | Some host =>
      let port := default "6379" (env_nonempty env "REDIS_PORT") in
      match parse_u16 port with
      | None => Err (InvalidPort port)
      | Some port_num =>
          let db :=
            match env "REDIS_DB" with
            | Some s => if is_empty s then 0 else default 0 (parse_i64 s)
            | None => 0
            end in
          match connect (mkConnectionInfo host port_num db "default"
                           (env_nonempty env "REDIS_PASSWORD")) with
          | Ok p => Ok (Some p)
          | Err msg => Err (ConnectError msg)
          end
      end
  end.
End Init.

(** [RedisPoolStatus], from the pool library's own snapshot. *)
Record RedisPoolStatus : Type := mkRedisPoolStatus {
  max_size : Z;
  total : Z;
  idle : Z;
  waiting : Z;
}.

(** [deadpool::Status] and [RedisPool::pool_status]. *)
Record PoolSnapshot : Type := mkPoolSnapshot {
  snap_max_size : Z; snap_size : Z; snap_available : Z; snap_waiting : Z;
}.

Definition pool_status (status : PoolSnapshot) : RedisPoolStatus :=
  mkRedisPoolStatus (snap_max_size status) (snap_size status) (snap_available status)
    (snap_waiting status).

(** ** Pool operations *)

Section Pool.
Context {W T : Type} (env : Env).
(** One pooled command under a deadline. *)
Context (exec : Z -> Cmd -> io W Outcome).
(** [serde_json::to_string]. *)
Context (to_json : T -> result string string).

Definition decode {A : Type} (op : string) (t : Z) (f : Reply -> option A) (o : Outcome)
  : result A RedisError :=
  match o with
  | Replied r => ok_or (f r) (EBackend "unexpected reply type")
  | Failed msg => Err (EBackend msg)
  | Elapsed => Err (ETimeout op t)
  end.

Definition run {A : Type} (op : string) (c : Cmd) (f : Reply -> option A)
  : io W (result A RedisError) :=
  fun w =>
    let t := op_timeout env in
    let '(o, w') := exec t c w in (decode op t f o, w').

Definition as_done (r : Reply) : option unit := match r with RDone => Some tt | _ => None end.
Definition as_value (r : Reply) : option (option string) :=
  match r with RValue v => Some v | _ => None end.
Definition as_int (r : Reply) : option Z := match r with RInt n => Some n | _ => None end.

Definition ping : io W (result unit RedisError) :=
  run "PING" PING (fun r => match r with RValue (Some _) => Some tt | _ => None end).

(** The write [store] issues for a serialized value and a caller TTL. *)
Definition store_cmd (key json : string) (ttl : Z) : Cmd :=
  let ms := as_millis (clamp_ttl env ttl) in
  if ms =? 0 then SET key json
  else PSETEX key json (default U64_MAX (try_from 0 U64_MAX ms)).

Definition store (key : string) (value : T) (ttl : Z) : io W (result unit RedisError) :=
  fun w =>
    match to_json value with
    | Err msg => (Err (EJson msg), w)
    | Ok json => run "SET" (store_cmd key json ttl) as_done w
    end.

Definition get (key : string) : io W (result (option string) RedisError) :=
  run "GET" (GET key) as_value.

Definition ttl (key : string) : io W (result KeyTtl RedisError) :=
  run "PTTL" (PTTL key) (fun r => option_map from_pttl (as_int r)).

Definition delete (key : string) : io W (result unit RedisError) :=
  run "DEL" (DEL key) as_done.
End Pool.

(** ** Locks *)

Inductive LockError : Type :=
| Unavailable
| OtherLockError (msg : string).

Section Locks.
Context {W Lock Mgr : Type} (env : Env).
(** [rslock]: acquisition and release raced against a deadline ([None] = elapsed), and the
    retry settings. *)
Context (lock : Mgr -> Z -> string -> Z -> io W (option (result Lock LockError))).
Context (unlock : Mgr -> Z -> Lock -> io W (option unit)).
Context (set_retry : Mgr -> Z -> Z -> Mgr).

Definition lock_bounded (mgr : Mgr) (key : string) (ttl : Z) : io W (option Lock) :=
  fun w =>
    let t := op_timeout env in
    match lock mgr t key ttl w with
    | (Some (Ok l), w') => (Some l, w')
    | (Some (Err Unavailable), w') => (None, w')
    | (Some (Err (OtherLockError _)), w') => (None, w')
    | (None, w') => (None, w')
    end.

Definition acquire_lock (mgr : Mgr) (key : string) (ttl : Z) : io W (option Lock) :=
  lock_bounded mgr key ttl.

Definition acquire_lock_with_retry (mgr : Mgr) (key : string) (ttl tries delay : Z)
  : io W (option Lock) :=
  lock_bounded (set_retry mgr tries delay) key ttl.

Definition release (mgr : Mgr) (l : Lock) : io W unit :=
  fun w => let '(_, w') := unlock mgr (op_timeout env) l w in (tt, w').
End Locks.

(** ** Interfaces *)

(** What Redis documents, for a server whose readable contents are [live]. *)
Class RedisServerLaws {W : Type} (exec : Z -> Cmd -> io W Outcome)
  (live : string -> W -> option string) : Prop := {
  law_get t k w r w' : exec t (GET k) w = (Replied r, w') -> r = RValue (live k w);
  law_get_frame t k w o w' k' : exec t (GET k) w = (o, w') -> live k' w' = live k' w;
  law_set t k v w r w' : exec t (SET k v) w = (Replied r, w') -> live k w' = Some v;
  law_psetex t k v ms w r w' :
    0 < ms -> exec t (PSETEX k v ms) w = (Replied r, w') -> live k w' = Some v;
  law_write_frame t c w o w' k k' :
    (exists v, c = SET k v) \/ (exists v ms, c = PSETEX k v ms) ->
    k' <> k -> exec t c w = (o, w') -> live k' w' = live k' w;
}.

(** What [pc-redis] offers to its clients: a fallible string store. *)
Class RedisStore (W T : Type) : Type := {
  rs_get : string -> io W (result (option string) RedisError);
  rs_store : string -> T -> Z -> io W (result unit RedisError);
}.

(** The laws of that interface while no key expires, which is how long one request of a guard
    takes: a read answers the live value and changes nothing, a successful store makes the
    serialized value live and touches no other key. A stored entry does expire later: they are the
    laws of an expiring server at a standing clock ([RedisClock.timed_server_laws]), and a client
    that spans time has [RedisClock.RedisStoreClockLaws] instead. *)
Class RedisStoreLaws (W T : Type) {RS : RedisStore W T} (json : T -> string)
  (live : string -> W -> option string) : Prop := {
  rs_get_live k w v w' : rs_get k w = (Ok v, w') -> v = live k w;
  rs_get_frame k w r w' k' : rs_get k w = (r, w') -> live k' w' = live k' w;
  rs_store_live k v d w w' : 0 <= d -> rs_store k v d w = (Ok tt, w') -> live k w' = Some (json v);
  rs_store_frame k v d w r w' k' :
    rs_store k v d w = (r, w') -> k' <> k -> live k' w' = live k' w;
}.

(** ** Lemmas *)

Lemma max_ttl_minutes_pos env : 0 < max_ttl_minutes env <= I64_MAX.
Proof.
  unfold max_ttl_minutes, DEFAULT_MAX_TTL_MINUTES, env_i64, I64_MAX.
  destruct (env _) as [v|]; [|lia]. destruct (parse_i64 v) as [n|] eqn:Hp; [|lia].
  apply parse_signed_bounds in Hp. unfold I64_MAX in Hp. destruct (Z.ltb_spec 0 n); lia.
Qed.

(** The ceiling in milliseconds. *)
Definition max_ttl_ms (env : Env) : Z := Z.min I64_MAX (max_ttl_minutes env * 60000).

Lemma saturating_ceiling env :
  saturating_mul I64_MIN I64_MAX (max_ttl_minutes env) 60000 = max_ttl_ms env /\
  60000 <= max_ttl_ms env <= I64_MAX.
Proof.
  pose proof (max_ttl_minutes_pos env) as H.
  unfold saturating_mul, max_ttl_ms, I64_MIN, I64_MAX in *. lia.
Qed.

Lemma as_millis_from_millis ms : as_millis (from_millis ms) = ms.
Proof. unfold as_millis, from_millis. by apply Z.div_mul. Qed.

Lemma op_timeout_pos env : 0 < op_timeout env.
Proof.
  unfold op_timeout, op_timeout_ms_from, from_millis, DEFAULT_OP_TIMEOUT_MS, env_i64.
  destruct (env _) as [v|]; [|simpl; lia]. destruct (parse_i64 v) as [n|] eqn:Hp; [|simpl; lia].
  apply parse_signed_bounds in Hp. destruct (Z.ltb_spec 0 n); [|simpl; lia].
  unfold try_from, U64_MAX, I64_MAX, I64_MIN in *.
  rewrite (proj2 (Z.leb_le 0 n)), (proj2 (Z.leb_le n _)) by lia. simpl. lia.
Qed.

(** [clamp_ttl] in closed form: whole milliseconds, at most the ceiling. *)
Lemma clamp_ttl_ms env d :
  0 <= d -> as_millis (clamp_ttl env d) = Z.min (as_millis d) (max_ttl_ms env).
Proof.
  intros Hd. destruct (saturating_ceiling env) as [Hsat Hceil].
  assert (0 <= as_millis d) as Hms by (unfold as_millis; apply Z.div_pos; lia).
  unfold clamp_ttl, clamp_ttl_with_max. rewrite Hsat, as_millis_from_millis.
  set (ms := default I64_MAX _).
  assert (0 <= ms <= I64_MAX /\ Z.min ms (max_ttl_ms env) = Z.min (as_millis d) (max_ttl_ms env))
    as [Hr Hmin].
  { unfold ms, try_from, I64_MIN, I64_MAX in *.
    destruct (_ <=? as_millis d) eqn:E1, (as_millis d <=? _) eqn:E2; simpl; zbool; lia. }
  rewrite (proj2 (Z.ltb_ge ms 0)) by lia. rewrite <- Hmin.
  unfold try_from, U64_MAX, I64_MAX in *.
  destruct (Z.ltb_spec (max_ttl_ms env) ms);
    match goal with |- default 0 (if ?b then _ else _) = _ => replace b with true end;
    simpl; try lia; symmetry; apply andb_true_iff; split; apply Z.leb_le; lia.
Qed.

(** The command [store] issues, by cases on the caller's TTL. *)
Lemma store_cmd_cases env key json d :
  0 <= d ->
  (store_cmd env key json d = SET key json <-> d < 1000000) /\
  (1000000 <= d -> exists ms, store_cmd env key json d = PSETEX key json ms /\
                              1 <= ms <= max_ttl_ms env /\ ms <= as_millis d).
Proof.
  intros Hd. unfold store_cmd. rewrite clamp_ttl_ms by done.
  destruct (saturating_ceiling env) as [_ Hceil].
  assert (d < 1000000 <-> as_millis d <= 0) as Hlt.
  { unfold as_millis. pose proof (Z.div_mod d 1000000 ltac:(lia)).
    pose proof (Z.mod_pos_bound d 1000000 ltac:(lia)). lia. }
  assert (0 <= as_millis d) by (unfold as_millis; apply Z.div_pos; lia).
  destruct (Z.eqb_spec (Z.min (as_millis d) (max_ttl_ms env)) 0) as [E|E].
  - split; [|lia]. split; [intros _; lia|done].
  - split; [split; [done|lia]|]. intros _. eexists. split; [done|].
    unfold try_from, U64_MAX, I64_MAX in *.
    match goal with |- context [default _ (if ?b then _ else _)] => replace b with true end;
      simpl; [lia|]. symmetry. apply andb_true_iff; split; apply Z.leb_le; lia.
Qed.

#[export] Hint Resolve max_ttl_minutes_pos op_timeout_pos : rust.

(** The pool operations implement the client interface. *)
Section Implements.
Context {W T : Type} (env : Env) (exec : Z -> Cmd -> io W Outcome).
Context (to_json : T -> result string string) (live : string -> W -> option string).
Context {laws : RedisServerLaws exec live}.
#[local] Set Default Proof Using "Type*".

#[local] Instance pool_store : RedisStore W T := {
  rs_get := get env exec;
  rs_store := store env exec to_json;
}.

Lemma get_live key v w w' : get env exec key w = (Ok v, w') -> v = live key w.
Proof.
  unfold get, run. destruct (exec _ _ w) as [o w1] eqn:E. destruct o as [r| |]; simpl; [|done..].
  pose proof (law_get _ _ _ _ _ E) as ->. simpl. by intros [= <- _].
Qed.

Lemma get_frame key r w w' k' : get env exec key w = (r, w') -> live k' w' = live k' w.
Proof.
  unfold get, run. destruct (exec _ _ w) as [o w1] eqn:E. intros [= _ <-].
  by eapply law_get_frame.
Qed.

Lemma store_frame key v d w r w' k' :
  store env exec to_json key v d w = (r, w') -> k' <> key -> live k' w' = live k' w.
Proof.
  unfold store, run. destruct (to_json v) as [json|msg]; [|naive_solver].
  destruct (exec _ _ w) as [o w1] eqn:E. intros [= <- <-] Hk.
  eapply (law_write_frame _ _ _ _ _ key k'); [|done|exact E].
  unfold store_cmd. destruct (_ =? 0); eauto.
Qed.

Lemma store_live key v d w w' :
  0 <= d -> store env exec to_json key v d w = (Ok tt, w') ->
  exists json, to_json v = Ok json /\ live key w' = Some json.
Proof.
  unfold store, run. intros Hd Hst. destruct (to_json v) as [json|]; [|done].
  exists json. split; [done|].
  destruct (exec _ (store_cmd env key json d) w) as [o1 w5] eqn:E1.
  destruct o1 as [rp1| |]; simpl in Hst; [|done..].
  assert (w5 = w') as -> by congruence.
  destruct (store_cmd_cases env key json d Hd) as [[Hset Hnoexp] Hexp].
  destruct (Z.lt_ge_cases d 1000000) as [Hlt|Hge].
  - rewrite Hnoexp in E1 by done. by eapply law_set.
  - destruct (Hexp Hge) as (ms & Hc & Hms & _). rewrite Hc in E1.
    eapply law_psetex; [|exact E1]. lia.
Qed.

(** When serialization cannot fail, the pool satisfies the laws its clients rely on. *)
Lemma pool_store_laws (json : T -> string) :
  (forall v, to_json v = Ok (json v)) -> RedisStoreLaws W T json live.
Proof.
  intros Hto. constructor; simpl.
  - intros k w v w'. apply get_live.
  - intros k w r w' k'. apply get_frame.
  - intros k v d w w' Hd Hst. destruct (store_live _ _ _ _ _ Hd Hst) as (j & Hj & ->).
    congruence.
  - intros k v d w r w' k'. apply store_frame.
Qed.
End Implements.

(** ** Theorems *)

(** The TTL that reaches Redis is the caller's, in whole milliseconds, capped at the
    configured ceiling: it is never above the ceiling and only longer requests are shortened. *)
Theorem clamp_ttl_bounds env d :
  0 <= d ->
  as_millis (clamp_ttl env d) <= max_ttl_ms env /\
  (as_millis d <= max_ttl_ms env -> as_millis (clamp_ttl env d) = as_millis d) /\
  (max_ttl_ms env < as_millis d -> as_millis (clamp_ttl env d) = max_ttl_ms env).
Proof. intros Hd. rewrite clamp_ttl_ms by done. lia. Qed.

(** [store] writes without expiry exactly when the caller's TTL is below one millisecond, and
    otherwise with an expiry between one millisecond and the ceiling. In particular a positive
    sub-millisecond TTL becomes a permanent key. *)
Theorem store_cmd_expiry env key json d :
  0 <= d ->
  (store_cmd env key json d = SET key json <-> d < 1000000) /\
  (1000000 <= d -> exists ms, store_cmd env key json d = PSETEX key json ms /\
                              1 <= ms <= max_ttl_ms env /\ ms <= as_millis d).
Proof. apply store_cmd_cases. Qed.

(** A stored value is read back, and nothing else changes, on any server that behaves as Redis
    documents: after a successful [store], and whatever else happened that left the readable
    contents alone, [get] answers the serialized value for that key and the old contents for every
    other key; a read changes nothing, and a miss is [Ok None], never an error. *)
Theorem pool_store_then_get {W T} env (exec : Z -> Cmd -> io W Outcome)
    (to_json : T -> result string string) (live : string -> W -> option string)
    key v d w w1 k w2 r w3 :
  RedisServerLaws exec live ->
  0 <= d ->
  store env exec to_json key v d w = (Ok tt, w1) ->
  (forall k', live k' w2 = live k' w1) ->
  get env exec k w2 = (r, w3) ->
  match r with
  | Ok found => if decide (k = key) then exists json, to_json v = Ok json /\ found = Some json
                else found = live k w
  | Err _ => exists o, exec (op_timeout env) (GET k) w2 = (o, w3) /\
               match o with Replied (RValue _) => False | _ => True end
  end /\ forall k', live k' w3 = live k' w2.
Proof.
  intros laws Hd Hst Hsame Hget.
  split; [|intros k'; by eapply get_frame].
  destruct r as [found|e].
  - rewrite (get_live _ _ _ _ _ _ _ Hget), Hsame.
    destruct (decide (k = key)) as [->|Hne]; [by eapply store_live|by eapply store_frame].
  - unfold get, run in Hget. destruct (exec _ (GET k) w2) as [o w4] eqn:E.
    injection Hget as He ->. exists o. split; [done|]. by destruct o as [[]| |].
Qed.

(** ** Witnesses *)

(** A server that answers at once from a finite map; expiry does not happen between two
    commands. *)
Definition memory_exec (t : Z) (c : Cmd) : io (gmap string string) Outcome :=
  fun m =>
    match c with
    | PING => (Replied (RValue (Some "PONG")), m)
    | SET k v | PSETEX k v _ => (Replied RDone, <[k := v]> m)
    | GET k => (Replied (RValue (m !! k)), m)
    | PTTL k => (Replied (RInt (match m !! k with Some _ => -1 | None => -2 end)), m)
    | DEL k => (Replied RDone, base.delete k m)
    end.

#[export] Instance memory_laws : RedisServerLaws memory_exec (fun k m => m !! k).
Proof.
  constructor; intros t; unfold memory_exec.
  - naive_solver.
  - naive_solver.
  - intros k v w r w' [= <- <-]. by simplify_map_eq.
  - intros k v ms w r w' _ [= <- <-]. by simplify_map_eq.
  - intros c w o w' k k' [[v ->]|(v & ms & ->)] Hk [= <- <-]; by simplify_map_eq.
Qed.

Definition no_env : Env := fun _ => None.

Lemma clamp_ttl_bounds_witness :
  as_millis (clamp_ttl no_env 1500000000) = 1500 /\ 1500 <= max_ttl_ms no_env.
Proof.
  split; [|vm_compute; done].
  destruct (clamp_ttl_bounds no_env 1500000000 ltac:(lia)) as (_ & H & _).
  rewrite H; [done|]. vm_compute. done.
Defined.

Lemma store_cmd_expiry_witness :
  store_cmd no_env "csrf-a" "1" 999999 = SET "csrf-a" "1" /\
  exists ms, store_cmd no_env "csrf-a" "1" 1000000 = PSETEX "csrf-a" "1" ms.
Proof.
  split.
  - apply (store_cmd_expiry no_env "csrf-a" "1" 999999); lia.
  - destruct (store_cmd_expiry no_env "csrf-a" "1" 1000000 ltac:(lia)) as [_ H].
    destruct (H ltac:(lia)) as (ms & Hms & _). by exists ms.
Defined.

Lemma pool_store_then_get_witness :
  exists json, Ok (E := string) json = Ok "1" /\ Some "1" = Some json.
Proof.
  pose proof (pool_store_then_get no_env memory_exec Ok (fun k m => m !! k)
    "csrf-a" "1" NANOS ∅ {["csrf-a" := "1"]} "csrf-a" {["csrf-a" := "1"]} (Ok (Some "1"))
    {["csrf-a" := "1"]} memory_laws ltac:(vm_compute; done) ltac:(vm_compute; done)
    ltac:(done) ltac:(vm_compute; done)) as [(json & Hj & Hf) _].
  exists json. split; [by rewrite Hj in *; congruence|done].
Defined.
