(* ===== verification/RedisClock.v ===== *)
(** [pc-redis] against a server whose keys expire ([crates/pc-redis/src/lib.rs], [store], [get],
    [ttl] and [delete] of [RedisPool]).

    [Redis] describes the server by what is readable now. Here an entry carries its deadline and
    the world a clock in milliseconds, and the laws say what Redis documents about time: a command
    takes effect at some instant between its call and its answer, and an entry is readable up to
    its deadline. The caller's TTL becomes a window in which the value is surely there and an
    instant from which it is surely gone. *)
From S2P Require Export Redis.
Local Open Scope string_scope.
Local Open Scope Z_scope.

(** ** Entries *)

(** A stored value and its deadline, if it expires. *)
Abbreviation Entry := (option (string * option Z)).

(** What [GET] and [PTTL] answer about an entry at instant [t]. *)
Definition live_at (t : Z) (e : Entry) : option string :=
  match e with
  | Some (v, Some deadline) => if t <=? deadline then Some v else None
  | Some (v, None) => Some v
  | None => None
  end.

Definition pttl_at (t : Z) (e : Entry) : Z :=
  match e with
  | Some (_, Some deadline) => if t <=? deadline then deadline - t else -2
  | Some (_, None) => -1
  | None => -2
  end.

(** From [t] on no reader tells the entries apart: an expired entry is as good as none, whether
    or not the server has evicted it. *)
Definition same_from (t : Z) (e e' : Entry) : Prop :=
  forall now, t <= now -> live_at now e = live_at now e' /\ pttl_at now e = pttl_at now e'.

#[export] Instance same_from_equiv t : Equivalence (same_from t).
Proof.
  split.
  - by intros e now _.
  - intros e e' H now Hn. by destruct (H now Hn).
  - intros e1 e2 e3 H1 H2 now Hn. destruct (H1 now Hn), (H2 now Hn). split; by etrans.
Qed.

Lemma same_from_later t t' e e' : t <= t' -> same_from t e e' -> same_from t' e e'.
Proof. intros Ht H now Hn. apply H. lia. Qed.

Lemma same_live t e e' now : same_from t e e' -> t <= now -> live_at now e = live_at now e'.
Proof. intros H Hn. by apply H. Qed.

Lemma same_pttl t e e' now : same_from t e e' -> t <= now -> pttl_at now e = pttl_at now e'.
Proof. intros H Hn. by apply H. Qed.

#[export] Hint Resolve same_from_later : rust.

(** ** The server *)

(** The key a command writes. *)
Definition writes (c : Cmd) : option string :=
  match c with
  | SET k _ | PSETEX k _ _ | DEL k => Some k
  | PING | GET _ | PTTL _ => None
  end.

(** What Redis documents about time, for a server with these entries and this clock. *)
Class RedisClockLaws {W : Type} (exec : Z -> Cmd -> io W Outcome)
  (entry : string -> W -> Entry) (clock : W -> Z) : Prop := {
  clk_mono t c w o w' : exec t c w = (o, w') -> clock w <= clock w';
  clk_get t k w r w' : exec t (GET k) w = (Replied r, w') ->
    exists now, clock w <= now <= clock w' /\ r = RValue (live_at now (entry k w));
  clk_pttl t k w r w' : exec t (PTTL k) w = (Replied r, w') ->
    exists now, clock w <= now <= clock w' /\ r = RInt (pttl_at now (entry k w));
  clk_set t k v w r w' : exec t (SET k v) w = (Replied r, w') ->
    same_from (clock w') (entry k w') (Some (v, None));
  clk_psetex t k v ms w r w' : 0 < ms -> exec t (PSETEX k v ms) w = (Replied r, w') ->
    exists now, clock w <= now <= clock w' /\
      same_from (clock w') (entry k w') (Some (v, Some (now + ms)));
  clk_del t k w r w' : exec t (DEL k) w = (Replied r, w') ->
    same_from (clock w') (entry k w') None;
  clk_frame t c w o w' k : writes c <> Some k -> exec t c w = (o, w') ->
    same_from (clock w') (entry k w') (entry k w);
}.

(** How long [store] keeps a value for a caller's TTL, in milliseconds; [None] is for ever. *)
Definition lifetime (env : Env) (d : Z) : option Z :=
  let ms := as_millis (clamp_ttl env d) in
  if ms =? 0 then None else Some ms.

(** What [pc-redis] offers to clients that care about time. *)
Class RedisStoreClockLaws (W T : Type) {RS : RedisStore W T} (json : T -> string)
  (entry : string -> W -> Entry) (clock : W -> Z) (life : Z -> option Z) : Prop := {
  rsc_get k w r w' : rs_get k w = (r, w') ->
    clock w <= clock w' /\ (forall k', same_from (clock w') (entry k' w') (entry k' w)) /\
    match r with
    | Ok v => exists now, clock w <= now <= clock w' /\ v = live_at now (entry k w)
    | Err _ => True
    end;
  rsc_store k v d w w' : 0 <= d -> rs_store k v d w = (Ok tt, w') ->
    exists now, clock w <= now <= clock w' /\
      same_from (clock w') (entry k w') (Some (json v, Z.add now <$> life d));
  rsc_store_mono k v d w r w' : rs_store k v d w = (r, w') -> clock w <= clock w';
  rsc_store_frame k v d w r w' k' : rs_store k v d w = (r, w') -> k' <> k ->
    same_from (clock w') (entry k' w') (entry k' w);
}.

(** ** Lemmas *)

Lemma lifetime_ms env d :
  0 <= d -> lifetime env d = if d <? 1000000 then None
                             else Some (Z.min (as_millis d) (max_ttl_ms env)).
Proof.
  intros Hd. unfold lifetime. rewrite clamp_ttl_ms by done.
  destruct (saturating_ceiling env) as [_ Hceil].
  assert (as_millis d = d / 1000000) as E by done.
  pose proof (Z.div_mod d 1000000 ltac:(lia)). pose proof (Z.mod_pos_bound d 1000000 ltac:(lia)).
  destruct (Z.ltb_spec d 1000000), (Z.eqb_spec (Z.min (as_millis d) (max_ttl_ms env)) 0); lia || done.
Qed.

Lemma lifetime_pos env d ms : 0 <= d -> lifetime env d = Some ms -> 0 < ms.
Proof.
  intros Hd. unfold lifetime. rewrite clamp_ttl_ms by done.
  destruct (saturating_ceiling env) as [_ Hceil].
  assert (0 <= as_millis d) by (unfold as_millis; apply Z.div_pos; lia).
  destruct (Z.eqb_spec (Z.min (as_millis d) (max_ttl_ms env)) 0); [done|]. intros [= <-]. lia.
Qed.

Lemma store_cmd_lifetime env key json d :
  0 <= d ->
  store_cmd env key json d =
    match lifetime env d with Some ms => PSETEX key json ms | None => SET key json end.
Proof.
  intros Hd. unfold store_cmd, lifetime. rewrite clamp_ttl_ms by done.
  destruct (saturating_ceiling env) as [_ Hceil].
  assert (0 <= as_millis d) by (unfold as_millis; apply Z.div_pos; lia).
  destruct (Z.eqb_spec (Z.min (as_millis d) (max_ttl_ms env)) 0); [done|].
  unfold try_from, U64_MAX, I64_MAX in *.
  match goal with |- context [default _ (if ?b then _ else _)] => replace b with true end; [done|].
  symmetry. apply andb_true_iff; split; apply Z.leb_le; lia.
Qed.

(** A pool operation is one command, whose deadline and outcome only decide the answer. *)
Lemma run_exec {W A} env (exec : Z -> Cmd -> io W Outcome) op c (f : Reply -> option A) w r w' :
  run env exec op c f w = (r, w') ->
  exists o, exec (op_timeout env) c w = (o, w') /\ r = decode op (op_timeout env) f o.
Proof. unfold run. destruct (exec _ c w) as [o w1]. intros [= <- <-]. eauto. Qed.

Lemma decode_ok {A} op t (f : Reply -> option A) o a :
  decode op t f o = Ok a -> exists r, o = Replied r /\ f r = Some a.
Proof. destruct o as [r| |]; simpl; [|done..]. destruct (f r) eqn:E; [|done]. intros [= <-]. eauto. Qed.

Section Implements.
Context {W T : Type} (env : Env) (exec : Z -> Cmd -> io W Outcome).
Context (to_json : T -> result string string).
Context (entry : string -> W -> Entry) (clock : W -> Z).
Context {laws : RedisClockLaws exec entry clock}.
#[local] Set Default Proof Using "Type*".

Lemma get_clocked k w r w' :
  get env exec k w = (r, w') ->
  clock w <= clock w' /\ (forall k', same_from (clock w') (entry k' w') (entry k' w)) /\
  match r with
  | Ok v => exists now, clock w <= now <= clock w' /\ v = live_at now (entry k w)
  | Err _ => True
  end.
Proof.
  intros (o & He & ->)%run_exec. split_and!; [by eapply clk_mono| |].
  - intros k'. eapply clk_frame; [|exact He]. done.
  - destruct (decode _ _ _ o) as [v|] eqn:E; [|done].
    apply decode_ok in E as (r & -> & Hr). apply clk_get in He as (now & Hn & ->).
    injection Hr as <-. eauto.
Qed.

Lemma store_clocked k v d w w' :
  0 <= d -> store env exec to_json k v d w = (Ok tt, w') ->
  exists json now, to_json v = Ok json /\ clock w <= now <= clock w' /\
    same_from (clock w') (entry k w') (Some (json, Z.add now <$> lifetime env d)).
Proof.
  unfold store. intros Hd. destruct (to_json v) as [json|]; [|done].
  intros (o & He & E)%run_exec. symmetry in E. apply decode_ok in E as (r & -> & _). exists json.
  rewrite store_cmd_lifetime in He by done.
  destruct (lifetime env d) as [ms|] eqn:Hl; simpl.
  - apply lifetime_pos in Hl; [|done]. apply clk_psetex in He as (now & Hn & Hs); [|done]. eauto.
  - exists (clock w). split_and!; [done|lia|by eapply clk_mono|by eapply clk_set].
Qed.

Lemma store_quiet k v d w r w' :
  store env exec to_json k v d w = (r, w') ->
  clock w <= clock w' /\ forall k', k' <> k -> same_from (clock w') (entry k' w') (entry k' w).
Proof.
  unfold store. destruct (to_json v) as [json|msg]; cycle 1.
  { intros [= _ <-]. split; [lia|]. by intros. }
  intros (o & He & _)%run_exec. split; [by eapply clk_mono|]. intros k' Hk.
  eapply clk_frame; [|exact He]. unfold store_cmd. destruct (_ =? 0); simpl; congruence.
Qed.

(** The pool keeps the timed contract of the store its clients use. *)
Lemma pool_clock_laws (json : T -> string) :
  (forall v, to_json v = Ok (json v)) ->
  RedisStoreClockLaws W T (RS := pool_store env exec to_json) json entry clock (lifetime env).
Proof.
  intros Hto. constructor; simpl.
  - intros k w r w'. apply get_clocked.
  - intros k v d w w' Hd Hst. destruct (store_clocked _ _ _ _ _ Hd Hst) as (j & now & Hj & Hn & Hs).
    rewrite Hto in Hj. injection Hj as <-. eauto.
  - intros k v d w r w' Hst. by eapply store_quiet.
  - intros k v d w r w' k' Hst. by eapply store_quiet.
Qed.
End Implements.

(** The life of a stored value, in milliseconds of the caller's TTL under the ceiling. *)
Definition window (env : Env) (d : Z) : Z := Z.min (as_millis d) (max_ttl_ms env).

(** The stored entry when it is read, if nobody wrote the key in between. *)
Section Later.
Context {W T : Type} (env : Env) (exec : Z -> Cmd -> io W Outcome).
Context (to_json : T -> result string string).
Context (entry : string -> W -> Entry) (clock : W -> Z).
Context {laws : RedisClockLaws exec entry clock}.
Context (key : string) (v : T) (d : Z) (w w1 w2 : W).
Context (Hd : 0 <= d) (Hstore : store env exec to_json key v d w = (Ok tt, w1)).
Context (Hclock : clock w1 <= clock w2).
Context (Hsame : same_from (clock w2) (entry key w2) (entry key w1)).
#[local] Set Default Proof Using "Type*".

Lemma stored_entry :
  exists json now, to_json v = Ok json /\ clock w <= now <= clock w1 /\
    same_from (clock w2) (entry key w2)
      (Some (json, if d <? 1000000 then None else Some (now + window env d))).
Proof using All.
  destruct (store_clocked env exec to_json entry clock _ _ _ _ _ Hd Hstore)
    as (json & now & Hj & Hn & Hs).
  exists json, now. split_and!; [done|lia..|]. rewrite lifetime_ms in Hs by done. unfold window.
  assert (same_from (clock w2) (entry key w1) (entry key w2)) as Hsame' by by symmetry.
  rewrite <- Hsame'. apply (same_from_later (clock w1)); [done|]. by destruct (d <? 1000000).
Qed.
End Later.

(** ** Theorems *)

(** C24: A stored value lives as long as it was asked to, and no longer. While nobody else writes the
    key, a read that ends within the TTL (in whole milliseconds and under the ceiling) of the call
    that stored it finds the value, a read that starts after the TTL has passed since that call
    returned finds nothing, and one in between finds the value or nothing; a TTL below one
    millisecond never expires. *)
Theorem store_lifetime {W T} env (exec : Z -> Cmd -> io W Outcome)
    (to_json : T -> result string string) entry clock (laws : RedisClockLaws exec entry clock)
    key v d w w1 w2 found w3 :
  0 <= d -> store env exec to_json key v d w = (Ok tt, w1) ->
  clock w1 <= clock w2 -> same_from (clock w2) (entry key w2) (entry key w1) ->
  get env exec key w2 = (Ok found, w3) ->
  exists json, to_json v = Ok json /\
    (d < 1000000 \/ clock w3 <= clock w + window env d -> found = Some json) /\
    (1000000 <= d -> clock w1 + window env d < clock w2 -> found = None) /\
    (found = Some json \/ found = None).
Proof.
  intros Hd Hst Hcl Hsame Hget.
  destruct (stored_entry env exec to_json entry clock _ _ _ _ _ _ Hd Hst Hcl Hsame)
    as (json & at_ & Hj & Hat & He).
  apply (get_clocked env exec entry clock) in Hget as (_ & _ & now & Hnow & ->).
  rewrite (same_live _ _ _ now He) by lia. exists json. split; [done|]. simpl.
  destruct (Z.ltb_spec d 1000000).
  - split_and!; [done|lia|by left].
  - destruct (Z.leb_spec now (at_ + window env d)); (split_and!; [lia || done|lia || done|auto]).
Qed.

(** C25: [ttl] reads back what [store] wrote: it reports no expiry exactly for a TTL below one
    millisecond, otherwise what is left of the TTL, to within the time the two calls took, and a
    missing key only once the TTL has passed. *)
Theorem ttl_reads_back {W T} env (exec : Z -> Cmd -> io W Outcome)
    (to_json : T -> result string string) entry clock (laws : RedisClockLaws exec entry clock)
    key v d w w1 w2 t w3 :
  0 <= d -> store env exec to_json key v d w = (Ok tt, w1) ->
  clock w1 <= clock w2 -> same_from (clock w2) (entry key w2) (entry key w1) ->
  ttl env exec key w2 = (Ok t, w3) ->
  match t with
  | NoExpiry => d < 1000000
  | Missing => 1000000 <= d /\ clock w + window env d < clock w3
  | Expires r => 1000000 <= d /\ remaining t = Some r /\
      clock w + window env d - clock w3 <= as_millis r <= clock w1 + window env d - clock w2
  end.
Proof.
  intros Hd Hst Hcl Hsame Httl.
  destruct (stored_entry env exec to_json entry clock _ _ _ _ _ _ Hd Hst Hcl Hsame)
    as (json & at_ & Hj & Hat & He).
  apply run_exec in Httl as (o & Hex & E). symmetry in E. apply decode_ok in E as (rep & -> & Hr).
  apply (clk_pttl (entry := entry) (clock := clock)) in Hex as (now & Hnow & ->).
  rewrite (same_pttl _ _ _ now He) in Hr by lia.
  injection Hr as <-. simpl. destruct (Z.ltb_spec d 1000000) as [Hlt|Hge]; [done|].
  destruct (Z.leb_spec now (at_ + window env d)); [|simpl; lia].
  unfold from_pttl. destruct (Z.eqb_spec (at_ + window env d - now) (-2)); [lia|].
  destruct (Z.eqb_spec (at_ + window env d - now) (-1)); [lia|].
  destruct (Z.ltb_spec (at_ + window env d - now) 0); [lia|].
  split_and!; [done|done|..]; rewrite as_millis_from_millis; lia.
Qed.

(** A deleted key is gone: until somebody writes it again a read is a quiet miss and the TTL
    query reports no key. *)
Theorem delete_forgets {W} env (exec : Z -> Cmd -> io W Outcome) entry clock
    (laws : RedisClockLaws exec entry clock) key w w1 w2 :
  delete env exec key w = (Ok tt, w1) ->
  clock w1 <= clock w2 -> same_from (clock w2) (entry key w2) (entry key w1) ->
  (forall found w3, get env exec key w2 = (Ok found, w3) -> found = None) /\
  (forall t w3, ttl env exec key w2 = (Ok t, w3) -> t = Missing).
Proof.
  intros (o & Hex & E)%run_exec Hcl Hsame. symmetry in E. apply decode_ok in E as (rep & -> & _).
  apply (clk_del (entry := entry) (clock := clock)) in Hex. apply (same_from_later _ (clock w2)) in Hex; [|done].
  rewrite <- Hsame in Hex. split.
  - intros found w3 Hget. apply (get_clocked env exec entry clock) in Hget as (_ & _ & now & Hn & ->).
    by rewrite (same_live _ _ _ now Hex) by lia.
  - intros t w3 (o & Hex3 & E3)%run_exec. symmetry in E3. apply decode_ok in E3 as (rep3 & -> & Hr).
    apply (clk_pttl (entry := entry) (clock := clock)) in Hex3 as (now & Hn & ->). rewrite (same_pttl _ _ _ now Hex) in Hr by lia.
    by injection Hr as <-.
Qed.

(** ** Witnesses: a server in memory whose every command takes [latency] milliseconds *)

Definition Timed : Type := (gmap string (string * option Z) * Z)%type.

Definition timed_exec (latency : Z) (_ : Z) (c : Cmd) : io Timed Outcome :=
  fun '(m, now) =>
    let answer r m := (Replied r, (m, now + latency)) in
    match c with
    | PING => answer (RValue (Some "PONG")) m
    | SET k v => answer RDone (<[k := (v, None)]> m)
    | PSETEX k v ms =>
        if 0 <? ms then answer RDone (<[k := (v, Some (now + ms))]> m)
        else (Failed "ERR invalid expire time in 'psetex' command", (m, now + latency))
    | GET k => answer (RValue (live_at now (m !! k))) m
    | PTTL k => answer (RInt (pttl_at now (m !! k))) m
    | DEL k => answer RDone (base.delete k m)
    end.

Definition timed_entry (k : string) (w : Timed) : Entry := w.1 !! k.
Definition timed_clock (w : Timed) : Z := w.2.

Lemma timed_clock_laws latency :
  0 <= latency -> RedisClockLaws (timed_exec latency) timed_entry timed_clock.
Proof.
  intros Hl. constructor; unfold timed_exec, timed_entry, timed_clock.
  - intros t c [m now] o w'. destruct c; repeat case_match; intros [= _ <-]; simpl; lia.
  - intros t k [m now] r w' [= <- <-]. exists now. simpl. split; [lia|done].
  - intros t k [m now] r w' [= <- <-]. exists now. simpl. split; [lia|done].
  - intros t k v [m now] r w' [= <- <-]. simpl. by rewrite lookup_insert_eq.
  - intros t k v ms [m now] r w' Hms. rewrite (proj2 (Z.ltb_lt 0 ms) Hms). intros [= <- <-].
    exists now. simpl. rewrite lookup_insert_eq. split; [lia|done].
  - intros t k [m now] r w' [= <- <-]. simpl. by rewrite lookup_delete_eq.
  - intros t c [m now] o w' k Hk. destruct c; simpl in Hk; repeat case_match; intros [= _ <-]; simpl;
      rewrite ?lookup_insert_ne, ?lookup_delete_ne by congruence; done.
Qed.

(** At a standing clock it is a server of [Redis]: what is readable is what has not expired. *)
Lemma timed_server_laws :
  RedisServerLaws (timed_exec 0) (fun k w => live_at (timed_clock w) (timed_entry k w)).
Proof.
  constructor; unfold timed_exec, timed_entry, timed_clock; intros t.
  - intros k [m now] r w' [= <- <-]. done.
  - intros k [m now] o w' k' [= _ <-]. simpl. by rewrite Z.add_0_r.
  - intros k v [m now] r w' [= <- <-]. simpl. by rewrite lookup_insert_eq.
  - intros k v ms [m now] r w' Hms. rewrite (proj2 (Z.ltb_lt 0 ms) Hms). intros [= <- <-]. simpl.
    rewrite lookup_insert_eq. simpl. rewrite (proj2 (Z.leb_le _ _)) by lia. done.
  - intros c [m now] o w' k k' Hc Hk Hex. assert (now + 0 = now) as E by lia.
    destruct Hc as [[v ->]|(v & ms & ->)]; [|destruct (0 <? ms)]; simplify_eq/=;
      rewrite E, ?lookup_insert_ne by done; done.
Qed.

(** ["k"] is stored for 1500 ms at instant 0 by commands of 2 ms, and read at 1000 and at 1600. *)
Definition timed_store (d : Z) : result unit RedisError * Timed :=
  store no_env (timed_exec 2) Ok "k" "1" d (∅, 0).

Lemma store_lifetime_witness :
  (get no_env (timed_exec 2) "k" ((timed_store 1500000000).2.1, 1000)).1 = Ok (Some "1") /\
  (get no_env (timed_exec 2) "k" ((timed_store 1500000000).2.1, 1600)).1 = Ok None.
Proof.
  pose proof (timed_clock_laws 2 ltac:(lia)) as laws. split.
  - destruct (store_lifetime no_env (timed_exec 2) Ok timed_entry timed_clock laws "k" "1" 1500000000
      (∅, 0) (timed_store 1500000000).2 ((timed_store 1500000000).2.1, 1000) (Some "1")
      ((timed_store 1500000000).2.1, 1002)) as (json & [= <-] & H & _);
      [lia|by vm_compute|by vm_compute|done|by vm_compute|].
    assert (Some "1" = Some "1") as _ by (apply H; right; by vm_compute). by vm_compute.
  - destruct (store_lifetime no_env (timed_exec 2) Ok timed_entry timed_clock laws "k" "1" 1500000000
      (∅, 0) (timed_store 1500000000).2 ((timed_store 1500000000).2.1, 1600) None
      ((timed_store 1500000000).2.1, 1602)) as (json & _ & _ & H & _);
      [lia|by vm_compute|by vm_compute|done|by vm_compute|].
    assert (None = @None string) as _ by (apply H; by vm_compute). by vm_compute.
Defined.

Lemma ttl_reads_back_witness : 0 + 1500 - 1002 <= as_millis (from_millis 500) <= 2 + 1500 - 1000.
Proof.
  destruct (ttl_reads_back no_env (timed_exec 2) Ok timed_entry timed_clock
    (timed_clock_laws 2 ltac:(lia)) "k" "1" 1500000000 (∅, 0) (timed_store 1500000000).2
    ((timed_store 1500000000).2.1, 1000) (Expires (from_millis 500))
    ((timed_store 1500000000).2.1, 1002)) as (_ & _ & H);
    [lia|by vm_compute|by vm_compute|done|by vm_compute|exact H].
Defined.

Lemma delete_forgets_witness :
  forall found w3, get no_env (timed_exec 2) "k"
    (delete no_env (timed_exec 2) "k" (timed_store NANOS).2).2 = (Ok found, w3) -> found = None.
Proof.
  refine (proj1 (delete_forgets no_env (timed_exec 2) timed_entry timed_clock
    (timed_clock_laws 2 ltac:(lia)) "k" (timed_store NANOS).2
    (delete no_env (timed_exec 2) "k" (timed_store NANOS).2).2 _ _ _ _)); [by vm_compute|lia|done].
Defined.
