(* ===== verification/Snapbi.v ===== *)
(** [pc-snapbi]: the SNAP-BI signature and encryption suite ([crates/pc-snapbi/src/lib.rs]).

    The primitives (SHA-256, HMAC-SHA512, base64, hex, AES-GCM, RSA, PEM, JWT, JSON validation)
    are third-party: they are the fields of [Crypto], and [CryptoLaws] lists what their
    documentation promises and the suite relies on, [JwtLaws] when a token is accepted at a given
    time ([Ciphers] proves both of the published algorithms). The string layouts, the body hashing, the key derivation, the framing of nonce and
    ciphertext and every error path are the crate's. *)
From S2P Require Export Core.
Local Open Scope string_scope.
Local Open Scope Z_scope.
Local Open Scope rust_scope.

Inductive Algorithm : Type := RS256 | OtherAlg (name : string).
#[export] Instance Algorithm_eq_dec : EqDecision Algorithm.
Proof. solve_decision. Defined.

(** The switches of [jsonwebtoken::Validation] the crate sets. *)
Record Validation : Type := mkValidation {
  algorithm : Algorithm;
  validate_exp : bool;
  validate_aud : bool;
  required_spec_claims : list string;
}.

(** [Claims]: the [Expired] string and the flattened remaining claims. *)
Record Claims (JsonValue : Type) : Type := mkClaims {
  expired : string;
  extra : gmap string JsonValue;
}.
Arguments mkClaims {JsonValue} expired extra.
Arguments expired {JsonValue} c.
Arguments extra {JsonValue} c.

(** The third-party primitives; failures carry the library's message. *)
Class Crypto : Type := {
  json_valid : bytes -> result unit string;
  sha256 : bytes -> bytes;
  hex_encode : bytes -> string;
  hmac_sha512 : bytes -> bytes -> bytes;
  ct_eq : bytes -> bytes -> bool;
  b64_encode : bytes -> string;
  b64_decode : string -> result bytes string;
  PrivateKey : Type;
  PublicKey : Type;
  Signature : Type;
  from_pkcs1_pem : string -> result PrivateKey string;
  from_public_key_pem : string -> result PublicKey string;
  rsa_pkcs1v15_sign : PrivateKey -> bytes -> Signature;
  signature_to_bytes : Signature -> bytes;
  signature_try_from : bytes -> option Signature;
  rsa_pkcs1v15_verify : PublicKey -> bytes -> Signature -> bool;
  Cipher : Type;
  aes_new : bytes -> result Cipher string;
  aes_gcm_encrypt : Cipher -> bytes -> bytes -> result bytes string;
  aes_gcm_decrypt : Cipher -> bytes -> bytes -> result bytes string;
  DecodingKey : Type;
  JsonValue : Type;
  from_rsa_pem : string -> result DecodingKey string;
  (** At a time in seconds since the epoch, which [decode] reads from the system clock. *)
  jwt_decode : Z -> string -> DecodingKey -> Validation -> result (Claims JsonValue) string;
}.

(** The [anyhow] errors, one constructor per message of the crate. *)
Inductive SnapError : Type :=
| BadPublicKey (cause : string)
| BadPrivateKey (cause : string)
| SignatureNotBase64 (cause : string)
| AesInit (cause : string)
| NonceRandomness (cause : string)
| AesEncrypt (cause : string)
| NeitherBase64NorPem (cause : string)
| CiphertextTooShort
| AesDecrypt (cause : string)
| PlaintextNotUtf8
| JwtKey (cause : string)
| JwtVerification (cause : string).

Section Suite.
Context {C : Crypto}.

(** ** Symmetric signature *)

(** [hex::encode(Sha256::digest(json_minify(body).unwrap_or_default()))]. *)
Definition body_hash (body : bytes) : string :=
  hex_encode (sha256 (default [] (res_ok (json_minify json_valid body)))).

Definition symmetric_string_to_sign (method url token : string) (body : bytes) (ts : string)
  : string :=
  let blc := body_hash body in
  method +:+ ":" +:+ url +:+ ":" +:+ token +:+ ":" +:+ blc +:+ ":" +:+ ts.

Definition symmetric_string_to_sign_v2 (method url token : string) (body : bytes) (ts : string)
  : string :=
  let blc := body_hash body in
  method +:+ "|" +:+ url +:+ "|" +:+ token +:+ "|" +:+ blc +:+ "|" +:+ ts.

Definition symmetric_sign (secret : bytes) (method url token : string) (body : bytes)
  (ts : string) : string :=
  let sts := symmetric_string_to_sign method url token body ts in
  let out := hmac_sha512 secret (as_bytes sts) in
  b64_encode out.

Definition symmetric_sign_v2 (secret : bytes) (method url token : string) (body : bytes)
  (ts : string) : string :=
  let sts := symmetric_string_to_sign_v2 method url token body ts in
  let out := hmac_sha512 secret (as_bytes sts) in
  b64_encode out.

Definition symmetric_verify (secret : bytes) (method url token : string) (body : bytes)
  (ts sig_b64 : string) : bool :=
  let sts := symmetric_string_to_sign method url token body ts in
  let expected := hmac_sha512 secret (as_bytes sts) in
  match b64_decode sig_b64 with
  | Err _ => false
  | Ok provided => ct_eq expected provided
  end.

Definition symmetric_verify_v2 (secret : bytes) (method url token : string) (body : bytes)
  (ts sig_b64 : string) : bool :=
  let sts := symmetric_string_to_sign_v2 method url token body ts in
  let expected := hmac_sha512 secret (as_bytes sts) in
  match b64_decode sig_b64 with
  | Err _ => false
  | Ok provided => ct_eq expected provided
  end.

(** ** Asymmetric signature *)

Definition public_key_from_pem (pem : string) : result PublicKey SnapError :=
  res_map_err BadPublicKey (from_public_key_pem pem).

Definition private_key_from_pem (pem : string) : result PrivateKey SnapError :=
  res_map_err BadPrivateKey (from_pkcs1_pem pem).

Definition asymmetric_string_to_sign (client_key ts : string) : string :=
  client_key +:+ "|" +:+ ts.

Definition rsa_sign (priv_pem client_key ts : string) : result string SnapError :=
  let? key := private_key_from_pem priv_pem in
  let msg := asymmetric_string_to_sign client_key ts in
  let sig := rsa_pkcs1v15_sign key (as_bytes msg) in
  Ok (b64_encode (signature_to_bytes sig)).

Definition rsa_verify (pub_pem client_key ts sig_b64 : string) : result bool SnapError :=
  let? key := public_key_from_pem pub_pem in
  let msg := asymmetric_string_to_sign client_key ts in
  let? raw := res_map_err SignatureNotBase64 (b64_decode sig_b64) in
  match signature_try_from raw with
  | None => Ok false
  | Some sig => Ok (rsa_pkcs1v15_verify key (as_bytes msg) sig)
  end.

(** ** AES-256-GCM *)

Definition derive_aes_key (key : bytes) : bytes :=
  if Nat.eqb (length key) 32 then key else sha256 key.

(** [random] fills the 12-byte nonce from the system source. *)
Definition encrypt_aes {W : Type} (random : io W (result bytes string))
  (key : bytes) (plaintext : string) : io W (result string SnapError) :=
  fun w =>
    let derived := derive_aes_key key in
    match res_map_err AesInit (aes_new derived) with
    | Err e => (Err e, w)
    | Ok cipher =>
        let '(filled, w') := random w in
        (let? nonce := res_map_err NonceRandomness filled in
         let? ciphertext :=
           res_map_err AesEncrypt (aes_gcm_encrypt cipher nonce (as_bytes plaintext)) in
         Ok (b64_encode (nonce ++ ciphertext)%list), w')
    end.

Definition decrypt_aes (key : bytes) (input : string) : result string SnapError :=
  match b64_decode input with
  | Err err =>
      if is_ok (private_key_from_pem input) then Ok input
      else Err (NeitherBase64NorPem err)
  | Ok raw =>
      let derived := derive_aes_key key in
      let? cipher := res_map_err AesInit (aes_new derived) in
      if Nat.ltb (length raw) 12 then Err CiphertextTooShort
      else
        let nonce := take 12 raw in
        let ciphertext := drop 12 raw in
        let? plaintext := res_map_err AesDecrypt (aes_gcm_decrypt cipher nonce ciphertext) in
        ok_or (from_utf8 plaintext) PlaintextNotUtf8
  end.

(** ** JWT *)

(** [verify_jwt_rs256], the system clock reading [seconds]. *)
Definition verify_jwt_rs256 (seconds : Z) (pub_pem token : string)
  : result (Claims JsonValue) SnapError :=
  let? key := res_map_err JwtKey (from_rsa_pem pub_pem) in
  let validation := mkValidation RS256 true false [] in
  res_map_err JwtVerification (jwt_decode seconds token key validation).
End Suite.

(** ** What the primitives promise *)

(** What a token says: its header's algorithm, whether its signature verifies under a key, its
    claims as the crate reads them, its numeric [exp], and whether it has a registered claim. *)
Class JsonWebToken (C : Crypto) : Type := {
  jwt_alg : string -> option Algorithm;
  jwt_signed : DecodingKey -> string -> bool;
  jwt_claims : string -> option (Claims JsonValue);
  jwt_exp : string -> option Z;
  jwt_has : string -> string -> bool;
}.

(** [decode] of [jsonwebtoken], as documented: it accepts a token of the expected algorithm whose
    signature verifies and whose claims deserialize, once every required registered claim is there,
    the numeric [exp], if there is one and it is asked for, is at most a minute past, and, when no
    audience is expected but audiences are validated, there is none. *)
Class JwtLaws {C : Crypto} (J : JsonWebToken C) : Prop := {
  jwt_decode_ok seconds token key v claims :
    jwt_decode seconds token key v = Ok claims <->
    jwt_alg token = Some (algorithm v) /\ jwt_signed key token = true /\
    jwt_claims token = Some claims /\
    (forall c, c ∈ required_spec_claims v -> c ∈ ["exp"; "nbf"; "aud"; "iss"; "sub"] ->
       jwt_has c token = true) /\
    (validate_exp v = true -> forall exp, jwt_exp token = Some exp -> seconds <= exp + 60) /\
    (validate_aud v = true -> jwt_has "aud" token = false);
}.

(** The characters that separate the fields of a string to sign. *)
Definition COLON : ascii := ":".
Definition PIPE : ascii := "|".

(** [key_pair priv pub] says [pub] is the public half of [priv]. *)
Class CryptoLaws (C : Crypto) (key_pair : PrivateKey -> PublicKey -> Prop) : Prop := {
  b64_decode_encode b : b64_decode (b64_encode b) = Ok b;
  (** The [STANDARD] engine accepts canonical encodings only. *)
  b64_decode_canonical s b : b64_decode s = Ok b -> s = b64_encode b;
  ct_eq_spec a b : ct_eq a b = true <-> a = b;
  sha256_length b : length (sha256 b) = 32%nat;
  hex_delimiter_free b : contains_char COLON (hex_encode b) = false /\
                         contains_char PIPE (hex_encode b) = false;
  hex_injective a b : hex_encode a = hex_encode b -> a = b;
  signature_of_bytes sig : signature_try_from (signature_to_bytes sig) = Some sig;
  rsa_sound priv pub msg :
    key_pair priv pub -> rsa_pkcs1v15_verify pub msg (rsa_pkcs1v15_sign priv msg) = true;
  aes_new_32 k : length k = 32%nat -> exists c, aes_new k = Ok c;
  aes_decrypt_encrypt c n p x : aes_gcm_encrypt c n p = Ok x -> aes_gcm_decrypt c n x = Ok p;
}.

(** ** Lemmas *)

Lemma from_utf8_as_bytes s : utf8_valid (as_bytes s) = true -> from_utf8 (as_bytes s) = Some s.
Proof. unfold from_utf8. intros ->. by rewrite of_as_bytes. Qed.

(** Two strings that agree up to their first [c] agree on both sides of it. *)
Lemma delimited_inj c a b x y :
  contains_char c a = false -> contains_char c b = false ->
  a +:+ String c x = b +:+ String c y -> a = b /\ x = y.
Proof.
  revert b. induction a as [|d a IH]; intros [|e b]; simpl; intros Ha Hb E.
  - split; congruence.
  - injection E as -> _. by rewrite Ascii.eqb_refl in Hb.
  - injection E as -> _. by rewrite Ascii.eqb_refl in Ha.
  - apply orb_false_iff in Ha as [_ Ha], Hb as [_ Hb]. injection E as -> E.
    destruct (IH b Ha Hb E) as [-> ->]. done.
Qed.

Lemma elides_minify (valid : bytes -> result unit string) raw out :
  valid raw = Ok tt -> Elides raw out -> json_minify valid raw = Ok out.
Proof.
  unfold json_minify. intros -> He. simpl. f_equal. rewrite compact_bytes_scan.
  induction He as [|b raw out Hw _ IH|b raw out Hw Hq _ IH|body raw out Hb _ IH]; simpl; [done|..].
  - by rewrite Hw.
  - apply Ascii.eqb_neq in Hq. by rewrite Hw, Hq, IH.
  - by rewrite scan_body, IH.
Qed.

Section Laws.
Context {C : Crypto} {key_pair : PrivateKey -> PublicKey -> Prop} {laws : CryptoLaws C key_pair}.
#[local] Set Default Proof Using "Type*".

(** A base64 string carries the expected MAC exactly when it is its encoding. *)
Lemma mac_matches (expected : bytes) sig :
  match b64_decode sig with Err _ => false | Ok provided => ct_eq expected provided end = true
  <-> sig = b64_encode expected.
Proof.
  destruct (b64_decode sig) as [p|] eqn:Hd.
  - rewrite ct_eq_spec. split; [intros ->; by apply b64_decode_canonical|].
    intros ->. rewrite b64_decode_encode in Hd. congruence.
  - split; [done|]. intros ->. by rewrite b64_decode_encode in Hd.
Qed.

Lemma derive_aes_key_length key : length (derive_aes_key key) = 32%nat.
Proof.
  unfold derive_aes_key. destruct (Nat.eqb_spec (length key) 32); [done|apply sha256_length].
Qed.
End Laws.

(** ** Theorems *)

(** C15: A signature verifies exactly when it is the one [symmetric_sign] produces for the same
    secret and request, in both versions: no other base64 string is accepted. *)
Theorem symmetric_verify_sign {C : Crypto} key_pair (laws : CryptoLaws C key_pair)
    secret method url token body ts sig :
  (symmetric_verify secret method url token body ts sig = true <->
   sig = symmetric_sign secret method url token body ts) /\
  (symmetric_verify_v2 secret method url token body ts sig = true <->
   sig = symmetric_sign_v2 secret method url token body ts).
Proof. split; apply mac_matches. Qed.

(** The body enters a signature only through its compact form: two spellings of a JSON
    document that differ in insignificant whitespace have the same string to sign, and every
    body that is not JSON is signed like the empty one. *)
Theorem string_to_sign_body {C : Crypto} method url token ts raw1 raw2 out :
  (json_valid raw1 = Ok tt -> json_valid raw2 = Ok tt -> Elides raw1 out -> Elides raw2 out ->
   symmetric_string_to_sign method url token raw1 ts =
   symmetric_string_to_sign method url token raw2 ts /\
   symmetric_string_to_sign_v2 method url token raw1 ts =
   symmetric_string_to_sign_v2 method url token raw2 ts) /\
  (is_ok (json_valid raw1) = false ->
   symmetric_string_to_sign method url token raw1 ts =
   method +:+ ":" +:+ url +:+ ":" +:+ token +:+ ":" +:+ hex_encode (sha256 []) +:+ ":" +:+ ts).
Proof.
  unfold symmetric_string_to_sign, symmetric_string_to_sign_v2, body_hash. split.
  - intros H1 H2 E1 E2. by rewrite (elides_minify _ _ _ H1 E1), (elides_minify _ _ _ H2 E2).
  - unfold json_minify. by destruct (json_valid raw1).
Qed.

(** C17: The string to sign is unambiguous when method, url and token hold no delimiter: equal
    strings come from the same method, url, token and timestamp, and from bodies of equal
    digest. The timestamp may hold colons. *)
Theorem string_to_sign_injective {C : Crypto} key_pair (laws : CryptoLaws C key_pair)
    m1 u1 k1 b1 t1 m2 u2 k2 b2 t2 :
  Forall (fun s => contains_char COLON s = false) [m1; u1; k1; m2; u2; k2] ->
  symmetric_string_to_sign m1 u1 k1 b1 t1 = symmetric_string_to_sign m2 u2 k2 b2 t2 ->
  m1 = m2 /\ u1 = u2 /\ k1 = k2 /\ t1 = t2 /\
  sha256 (default [] (res_ok (json_minify json_valid b1))) =
  sha256 (default [] (res_ok (json_minify json_valid b2))).
Proof.
  intros Hf E. repeat (apply Forall_cons_1 in Hf as [? Hf]).
  unfold symmetric_string_to_sign in E. simpl in E.
  apply delimited_inj in E as [-> E]; [|done..]. apply delimited_inj in E as [-> E]; [|done..].
  apply delimited_inj in E as [-> E]; [|done..].
  apply delimited_inj in E as [E ->]; [|apply hex_delimiter_free..].
  split_and!; try done. by apply hex_injective.
Qed.

(** What [rsa_sign] produces verifies under the matching public key, for the same client key
    and timestamp. *)
Theorem rsa_sign_verifies {C : Crypto} key_pair (laws : CryptoLaws C key_pair)
    priv_pem pub_pem priv pub client_key ts sig :
  from_pkcs1_pem priv_pem = Ok priv -> from_public_key_pem pub_pem = Ok pub ->
  key_pair priv pub ->
  rsa_sign priv_pem client_key ts = Ok sig -> rsa_verify pub_pem client_key ts sig = Ok true.
Proof.
  unfold rsa_sign, rsa_verify, private_key_from_pem, public_key_from_pem.
  intros -> -> Hp. simpl. intros [= <-]. rewrite b64_decode_encode. simpl.
  rewrite signature_of_bytes. by rewrite (rsa_sound _ _ _ Hp).
Qed.

(** [decrypt_aes] inverts [encrypt_aes] under the same key, of any length and whatever nonce
    was drawn. *)
Theorem aes_roundtrip {C : Crypto} key_pair (laws : CryptoLaws C key_pair)
    {W : Type} (random : io W (result bytes string)) key plaintext out w w' :
  (forall w n w', random w = (Ok n, w') -> length n = 12%nat) ->
  utf8_valid (as_bytes plaintext) = true ->
  encrypt_aes random key plaintext w = (Ok out, w') ->
  decrypt_aes key out = Ok plaintext.
Proof.
  intros Hrnd Hutf. unfold encrypt_aes, decrypt_aes.
  destruct (aes_new (derive_aes_key key)) as [cipher|] eqn:Hc; simpl; [|done].
  destruct (random w) as [[nonce|] w1] eqn:Hr; simpl; [|done]. apply Hrnd in Hr.
  destruct (aes_gcm_encrypt cipher nonce _) as [x|] eqn:Hx; simpl; [|done].
  intros [= <- _]. rewrite b64_decode_encode.
  rewrite length_app, Hr. simpl. rewrite take_app_length', drop_app_length' by done.
  rewrite (aes_decrypt_encrypt _ _ _ _ Hx). simpl. by rewrite from_utf8_as_bytes.
Qed.

(** Every failure of [decrypt_aes] is classified: input that is not base64 is returned as it
    is when it is a PKCS#1 key and refused otherwise, and decoded input shorter than a nonce is
    refused without touching the cipher; the key never causes an error. *)
Theorem decrypt_aes_cases {C : Crypto} key_pair (laws : CryptoLaws C key_pair) key input :
  match b64_decode input, decrypt_aes key input with
  | Err e, r => r = if is_ok (from_pkcs1_pem input) then Ok input else Err (NeitherBase64NorPem e)
  | Ok raw, Ok text => (12 <= length raw)%nat /\ exists c,
      aes_new (derive_aes_key key) = Ok c /\
      aes_gcm_decrypt c (take 12 raw) (drop 12 raw) = Ok (as_bytes text)
  | Ok raw, Err CiphertextTooShort => (length raw < 12)%nat
  | Ok raw, Err e => (12 <= length raw)%nat /\ (e = PlaintextNotUtf8 \/ exists msg, e = AesDecrypt msg)
  end.
Proof.
  unfold decrypt_aes, private_key_from_pem.
  destruct (b64_decode input) as [raw|e]; [|by destruct (from_pkcs1_pem input)].
  destruct (aes_new_32 _ (derive_aes_key_length key)) as [c Hc]. rewrite Hc. simpl.
  destruct (Nat.ltb_spec (length raw) 12) as [Hl|Hl]; [done|].
  destruct (aes_gcm_decrypt c _ _) as [p|msg] eqn:Hd; simpl; [|by eauto].
  unfold from_utf8. destruct (utf8_valid p) eqn:Hu; simpl; [|by eauto].
  split; [done|]. exists c. split; [done|]. rewrite Hd.
  by rewrite as_of_bytes.
Qed.

(** ** Witnesses

    Transparent stand-ins for the primitives, good enough to satisfy every law. *)

Definition toy_bit (b : bool) : ascii := if b then "1"%char else "0"%char.

Fixpoint toy_hex (l : bytes) : string :=
  match l with
  | [] => EmptyString
  | Ascii b0 b1 b2 b3 b4 b5 b6 b7 :: l' =>
      String (toy_bit b0) (String (toy_bit b1) (String (toy_bit b2) (String (toy_bit b3)
        (String (toy_bit b4) (String (toy_bit b5) (String (toy_bit b6) (String (toy_bit b7)
          (toy_hex l'))))))))
  end.

Definition toy_b64_decode (s : string) : result bytes string :=
  match s with
  | String a s' => if Ascii.eqb a "B" then Ok (as_bytes s') else Err "invalid byte"
  | EmptyString => Err "empty"
  end.

(** Two tokens are signed: ["ok"] has no [exp], that of ["old"] is 100. *)
Definition toy_signed (token : string) : bool := String.eqb token "ok" || String.eqb token "old".
Definition toy_exp (token : string) : option Z :=
  if String.eqb token "old" then Some 100 else None.
Definition toy_has (claim token : string) : bool := String.eqb claim "exp" && String.eqb token "old".
Definition toy_validated (seconds : Z) (token : string) (v : Validation) : bool :=
  bool_decide (Forall (fun c => c ∈ ["exp"; "nbf"; "aud"; "iss"; "sub"] -> toy_has c token = true)
                 (required_spec_claims v))
  && (if validate_exp v then match toy_exp token with Some e => seconds <=? e + 60 | None => true end
      else true).

#[export] Instance toy_crypto : Crypto := {|
  json_valid raw := if lexically_closed raw then Ok tt else Err "unclosed";
  sha256 b := take 32 (b ++ replicate 32 zero)%list;
  hex_encode := toy_hex;
  hmac_sha512 k m := (k ++ m)%list;
  ct_eq a b := bool_decide (a = b);
  b64_encode b := String "B" (of_bytes b);
  b64_decode := toy_b64_decode;
  PrivateKey := nat; PublicKey := nat; Signature := bytes;
  from_pkcs1_pem s := if starts_with "PRIVATE" s then Ok (String.length s) else Err "pem";
  from_public_key_pem s := if starts_with "PUBLIC" s then Ok (String.length s) else Err "pem";
  rsa_pkcs1v15_sign _ m := m;
  signature_to_bytes sig := sig;
  signature_try_from := Some;
  rsa_pkcs1v15_verify _ m sig := bool_decide (m = sig);
  Cipher := bytes;
  aes_new k := if Nat.eqb (length k) 32 then Ok k else Err "invalid length";
  aes_gcm_encrypt _ _ p := Ok p;
  aes_gcm_decrypt _ _ x := Ok x;
  DecodingKey := nat; JsonValue := nat;
  from_rsa_pem s := Ok (String.length s);
  jwt_decode seconds token key v :=
    if bool_decide (RS256 = algorithm v) && toy_signed token && toy_validated seconds token v
    then Ok (mkClaims "later" {["MerchantId" := 7%nat]})
    else Err "invalid token";
|}.

#[export] Instance toy_jwt : JsonWebToken toy_crypto := {|
  jwt_alg _ := Some RS256;
  jwt_signed _ token := toy_signed token;
  jwt_claims _ := Some (mkClaims (JsonValue := nat) "later" {["MerchantId" := 7%nat]});
  jwt_exp := toy_exp;
  jwt_has := toy_has;
|}.

Lemma toy_bit_inj a b : toy_bit a = toy_bit b -> a = b.
Proof. by destruct a, b. Qed.

Lemma toy_bit_free b : Ascii.eqb (toy_bit b) COLON = false /\ Ascii.eqb (toy_bit b) PIPE = false.
Proof. by destruct b. Qed.

#[export] Instance toy_jwt_laws : JwtLaws toy_jwt.
Proof.
  constructor. intros seconds token key v claims. cbn [jwt_decode toy_crypto jwt_alg jwt_signed
    jwt_claims jwt_exp jwt_has toy_jwt]. unfold toy_validated.
  assert (toy_has "aud" token = false) as Haud by done.
  destruct (toy_signed token); [|by rewrite andb_false_r; naive_solver].
  case_bool_decide as Halg; [|by split; [done|]; intros ([= E] & _); destruct Halg].
  case_bool_decide as Hreq; simpl.
  - rewrite Forall_forall in Hreq.
    destruct (if validate_exp v then _ else _) eqn:He.
    + split; [intros [= <-]; split_and!; try done; [by rewrite Halg|]|by intros (_ & _ & [= <-] & _)].
      intros Hv exp Hexp. rewrite Hv, Hexp in He. by apply Z.leb_le.
    + split; [done|]. intros (_ & _ & _ & _ & H & _). destruct (validate_exp v); [|done].
      destruct (toy_exp token) as [e|]; [|done]. apply Z.leb_gt in He. specialize (H eq_refl e eq_refl). lia.
  - split; [done|]. intros (_ & _ & _ & H & _). destruct Hreq. by apply Forall_forall.
Qed.

#[export] Instance toy_laws : CryptoLaws toy_crypto (fun _ _ => True).
Proof.
  constructor; simpl.
  - intros b. by rewrite as_of_bytes.
  - intros [|a s] b; simpl; [done|]. destruct (Ascii.eqb_spec a "B") as [->|]; [|done].
    intros [= <-]. by rewrite of_as_bytes.
  - intros a b. apply bool_decide_eq_true.
  - intros b. rewrite length_take_le; [done|]. rewrite length_app. simpl. lia.
  - intros l. induction l as [|[] l [IH1 IH2]]; simpl; [done|].
    by rewrite !(proj1 (toy_bit_free _)), !(proj2 (toy_bit_free _)), IH1, IH2.
  - intros x. induction x as [|[] x IH]; intros [|[] y]; simpl; intros E; try done.
    injection E as E0 E1 E2 E3 E4 E5 E6 E7 E.
    apply toy_bit_inj in E0, E1, E2, E3, E4, E5, E6, E7. rewrite (IH y E). by subst.
  - done.
  - intros. by apply bool_decide_eq_true.
  - intros k Hk. rewrite (proj2 (Nat.eqb_eq _ _) Hk). eauto.
  - intros c n p x [= <-]. done.
Qed.

Lemma symmetric_verify_sign_witness :
  symmetric_verify (as_bytes "s") "POST" "/v1" "t" (as_bytes "{}") "12:00"
    (symmetric_sign (as_bytes "s") "POST" "/v1" "t" (as_bytes "{}") "12:00") = true.
Proof. by apply (symmetric_verify_sign _ toy_laws). Defined.

Lemma string_to_sign_body_witness :
  symmetric_string_to_sign "POST" "/v1" "t" sample_raw "12:00" =
  symmetric_string_to_sign "POST" "/v1" "t" sample_compact "12:00".
Proof.
  refine (proj1 (proj1 (string_to_sign_body "POST" "/v1" "t" "12:00" sample_raw sample_compact
                          sample_compact) _ _ _ _)).
  - by vm_compute.
  - by vm_compute.
  - apply sample_elides.
  - unfold sample_compact. simpl. apply elides_byte; [done..|].
    change (Elides (QUOTE :: (["x"; " "; "y"]%char) ++ QUOTE :: as_bytes ":1}")%list
                   (QUOTE :: (["x"; " "; "y"]%char) ++ QUOTE :: as_bytes ":1}")%list).
    apply elides_string; [repeat (apply body_plain; [done..|]); constructor|]. simpl.
    repeat first [apply elides_nil | apply elides_byte; [done..|]].
Defined.

Lemma string_to_sign_injective_witness : "12:00" = "12:00".
Proof.
  eapply (string_to_sign_injective _ toy_laws "POST" "/v1" "t" (as_bytes "{ }") "12:00"
    "POST" "/v1" "t" (as_bytes "{}") "12:00"); [|vm_compute; reflexivity].
  repeat constructor.
Defined.

Lemma rsa_sign_verifies_witness :
  rsa_verify "PUBLIC" "client" "12:00" "Bclient|12:00" = Ok true.
Proof.
  apply (rsa_sign_verifies _ toy_laws "PRIVATE" "PUBLIC" 7%nat 6%nat); done.
Defined.

(** A source of zero nonces. *)
Definition zero_nonce : io unit (result bytes string) := fun w => (Ok (replicate 12 zero), w).

Lemma aes_roundtrip_witness :
  exists out, (encrypt_aes zero_nonce (as_bytes "key") "secret" tt).1 = Ok out /\
              decrypt_aes (as_bytes "key") out = Ok "secret".
Proof.
  eexists. split; [reflexivity|].
  eapply (aes_roundtrip _ toy_laws zero_nonce _ _ _ tt tt); [|done|reflexivity].
  intros w n w' [= <- _]. done.
Defined.

Lemma decrypt_aes_cases_witness : decrypt_aes (as_bytes "key") "PRIVATE" = Ok "PRIVATE".
Proof. exact (decrypt_aes_cases _ toy_laws (as_bytes "key") "PRIVATE"). Defined.
