(* ===== verification/Primitives.v ===== *)
(** Published algorithms, as concrete stand-ins for the third-party primitives that the crates
    call: SHA-2 and HMAC (FIPS 180-4, RFC 2104), hexadecimal and Base64 (RFC 4648), and a recogniser
    of JSON texts (RFC 8259). The models of the crates do not depend on this file: it supplies the
    instance on which captured vectors are replayed and for which the laws are proved. *)
From S2P Require Export Core.
Local Open Scope string_scope.
Local Open Scope Z_scope.
Local Open Scope rust_scope.

(** ** SHA-2 *)

Module Sha2.

Definition byte_of (z : Z) : ascii := ascii_of_N (Z.to_N (Z.land z 255)).
Definition of_byte (a : ascii) : Z := Z.of_N (N_of_ascii a).

(** A number in [n] bytes, the most significant first, and back. *)
Fixpoint be_bytes_onto (n : nat) (z : Z) (acc : bytes) : bytes :=
  match n with
  | O => acc
  | S n => be_bytes_onto n (Z.shiftr z 8) (byte_of z :: acc)
  end.
Definition be_bytes (n : nat) (z : Z) : bytes := be_bytes_onto n z [].
Definition of_be (b : bytes) : Z := fold_left (fun acc a => 256 * acc + of_byte a) b 0.

(** The eighty primes below 410. *)
Definition prime (n : Z) : bool :=
  forallb (fun d => negb (n mod (Z.of_nat d) =? 0)) (seq 2 (Z.to_nat (Z.sqrt n) - 1)).
Definition primes : list Z :=
  Eval vm_compute in List.filter prime (map Z.of_nat (seq 2 408)).

(** The integer cube root, bit by bit. *)
Definition cbrt (n : Z) : Z :=
  fold_left (fun x b => let y := x + 2 ^ Z.of_nat b in if y ^ 3 <=? n then y else x)
    (rev (seq 0 70)) 0.

(** 64 bits of the fractional parts of the square and cube roots. *)
Definition H512 : list Z :=
  Eval vm_compute in map (fun p => Z.sqrt (p * 2 ^ 128) mod 2 ^ 64) (take 8 primes).
Definition K512 : list Z := Eval vm_compute in map (fun p => cbrt (p * 2 ^ 192) mod 2 ^ 64) primes.

(** A member of the family: its word width, constants and rotations. *)
Record Family : Type := mkFamily {
  width : Z;
  initial : list Z;
  constants : list Z;
  big0 : Z * Z * Z;
  big1 : Z * Z * Z;
  small0 : Z * Z * Z;
  small1 : Z * Z * Z;
}.

Definition top32 : list Z -> list Z := map (fun x => Z.shiftr x 32).

Definition sha512_family : Family :=
  mkFamily 64 H512 K512 (28, 34, 39) (14, 18, 41) (1, 8, 7) (19, 61, 6).
Definition sha256_family : Family :=
  mkFamily 32 (top32 H512) (top32 (take 64 K512)) (2, 13, 22) (6, 11, 25) (7, 18, 3) (17, 19, 10).

Section Hash.
Context (F : Family).

Definition add (x y : Z) : Z := Z.land (x + y) (2 ^ width F - 1).
Definition rotr (n x : Z) : Z :=
  Z.lor (Z.shiftr x n) (Z.land (Z.shiftl x (width F - n)) (2 ^ width F - 1)).
Definition lognot (x : Z) : Z := Z.lxor x (2 ^ width F - 1).
Definition rotations (r : Z * Z * Z) (x : Z) : Z :=
  Z.lxor (Z.lxor (rotr r.1.1 x) (rotr r.1.2 x)) (rotr r.2 x).
Definition rotations_shift (r : Z * Z * Z) (x : Z) : Z :=
  Z.lxor (Z.lxor (rotr r.1.1 x) (rotr r.1.2 x)) (Z.shiftr x r.2).

(** The message schedule, the last word first. *)
Fixpoint extend (n : nat) (ws : list Z) : list Z :=
  match n with
  | O => ws
  | S n =>
      let w i := nth i ws 0 in
      extend n (add (add (rotations_shift (small1 F) (w 1%nat)) (w 6%nat))
                    (add (rotations_shift (small0 F) (w 14%nat)) (w 15%nat)) :: ws)
  end.

Definition round (s : list Z) (kw : Z * Z) : list Z :=
  match s with
  | [a; b; c; d; e; f; g; h] =>
      let ch := Z.lxor (Z.land e f) (Z.land (lognot e) g) in
      let maj := Z.lxor (Z.lxor (Z.land a b) (Z.land a c)) (Z.land b c) in
      let t1 := add (add h (rotations (big1 F) e)) (add ch (add kw.1 kw.2)) in
      let t2 := add (rotations (big0 F) a) maj in
      [add t1 t2; a; b; c; add d t1; e; f; g]
  | _ => s
  end.

Definition compress (s ws : list Z) : list Z :=
  let ks := constants F in
  let schedule := rev (extend (length ks - 16) (rev ws)) in
  zip_with add s (fold_left round (combine ks schedule) s).

(** Bytes of a word and of a block of sixteen. *)
Definition word_bytes : nat := Z.to_nat (width F / 8).

Definition pad (m : bytes) : bytes :=
  let block := (16 * word_bytes)%nat in
  let tail := (2 * word_bytes)%nat in
  let used := ((length m + 1 + tail) mod block)%nat in
  (m ++ [byte_of 128] ++ replicate (if Nat.eqb used 0 then 0 else block - used) (byte_of 0)
   ++ be_bytes tail (8 * Z.of_nat (length m)))%list.

(** [n] groups of [k] elements. *)
Fixpoint groups {A : Type} (n k : nat) (l : list A) : list (list A) :=
  match n with O => [] | S n => take k l :: groups n k (drop k l) end.

Definition digest (m : bytes) : bytes :=
  let padded := pad m in
  let n := (length padded / (16 * word_bytes))%nat in
  let blocks := groups n 16 (map of_be (groups (16 * n) word_bytes padded)) in
  flat_map (be_bytes word_bytes) (fold_left compress blocks (initial F)).

(** RFC 2104. *)
Definition hmac (key m : bytes) : bytes :=
  let block := (16 * word_bytes)%nat in
  let key := if Nat.ltb block (length key) then digest key else key in
  let key := (key ++ replicate (block - length key) (byte_of 0))%list in
  let xored z := map (fun a => byte_of (Z.lxor (of_byte a) z)) key in
  digest (xored 92 ++ digest (xored 54 ++ m))%list.
End Hash.

Definition hex_digit (z : Z) : ascii := byte_of (if z <? 10 then 48 + z else 87 + z).
Definition hex (b : bytes) : string :=
  of_bytes (flat_map (fun a => [hex_digit (of_byte a / 16); hex_digit (of_byte a mod 16)]) b).

Lemma land_255 z : Z.land z 255 = z mod 256.
Proof. change 255 with (Z.ones 8). by rewrite Z.land_ones. Qed.

Lemma of_byte_range a : 0 <= of_byte a < 256.
Proof. unfold of_byte. pose proof (N_ascii_bounded a). lia. Qed.

Lemma byte_of_of_byte a : byte_of (of_byte a) = a.
Proof.
  unfold byte_of. rewrite land_255, Z.mod_small by apply of_byte_range.
  unfold of_byte. by rewrite N2Z.id, ascii_N_embedding.
Qed.

Lemma of_byte_byte_of z : of_byte (byte_of z) = z mod 256.
Proof.
  pose proof (Z.mod_pos_bound z 256 ltac:(lia)). unfold of_byte, byte_of.
  rewrite land_255, N_ascii_embedding by lia. lia.
Qed.

Lemma byte_of_eq z a : z mod 256 = of_byte a -> byte_of z = a.
Proof.
  intros Hz. rewrite <- (byte_of_of_byte a), <- Hz. unfold byte_of. by rewrite !land_255, Z.mod_mod by lia.
Qed.

Lemma be_bytes_snoc n z : be_bytes (S n) z = (be_bytes n (Z.shiftr z 8) ++ [byte_of z])%list.
Proof.
  unfold be_bytes. cbn [be_bytes_onto].
  enough (forall n z acc, be_bytes_onto n z acc = be_bytes_onto n z [] ++ acc)%list as Hacc by apply Hacc.
  clear. intros n. induction n as [|n IH]; intros z acc; [done|]. cbn [be_bytes_onto].
  by rewrite IH, (IH _ [_]), <- app_assoc.
Qed.

Lemma be_bytes_length n z : length (be_bytes n z) = n.
Proof.
  revert z. induction n as [|n IH]; intros z; [done|].
  rewrite be_bytes_snoc, length_app, IH. simpl. lia.
Qed.

Lemma of_be_snoc l a : of_be (l ++ [a]) = of_be l * 256 + of_byte a.
Proof. unfold of_be. rewrite fold_left_app. cbn [fold_left]. lia. Qed.

Lemma of_be_range l : 0 <= of_be l < 256 ^ Z.of_nat (length l).
Proof.
  induction l as [|a l IH] using rev_ind; [done|].
  pose proof (of_byte_range a). rewrite of_be_snoc, length_app, Nat2Z.inj_add, Z.pow_add_r by lia.
  simpl. lia.
Qed.

Lemma be_bytes_of_be l : be_bytes (length l) (of_be l) = l.
Proof.
  induction l as [|a l IH] using rev_ind; [done|]. pose proof (of_byte_range a).
  rewrite length_app, Nat.add_1_r, be_bytes_snoc, of_be_snoc, Z.shiftr_div_pow2 by lia.
  rewrite Z.div_add_l, (Z.div_small (of_byte a)), Z.add_0_r, IH by lia. f_equal.
  f_equal. apply byte_of_eq. rewrite Z.add_comm, Z.mod_add by lia. by apply Z.mod_small.
Qed.

Lemma of_be_be_bytes n z : of_be (be_bytes n z) = z mod 256 ^ Z.of_nat n.
Proof.
  revert z. induction n as [|n IH]; intros z; [by rewrite Z.mod_1_r|].
  rewrite be_bytes_snoc, of_be_snoc, IH, of_byte_byte_of, Z.shiftr_div_pow2 by lia.
  rewrite Nat2Z.inj_succ, Z.pow_succ_r by lia.
  rewrite (Z.rem_mul_r z 256) by (try lia; apply Z.pow_nonzero; lia). change (2 ^ 8) with 256. lia.
Qed.

Lemma zip_add_length F (a b : list Z) : length a = length b -> length (zip_with (add F) a b) = length a.
Proof. intros Hab. rewrite length_zip_with. lia. Qed.

Lemma round_length F s kw : length (round F s kw) = length s.
Proof. by do 9 (destruct s as [|? s]; [done|]). Qed.

Lemma compress_length F s ws : length (compress F s ws) = length s.
Proof.
  unfold compress. rewrite zip_add_length; [done|].
  generalize (combine (constants F) (rev (extend F (length (constants F) - 16) (rev ws)))).
  intros l. revert s. induction l as [|kw l IH]; intros s; simpl; [done|].
  by rewrite <- IH, round_length.
Qed.

(** A digest has the bytes of the state's words. *)
Lemma digest_length F m : length (digest F m) = (length (initial F) * word_bytes F)%nat.
Proof.
  unfold digest. set (blocks := groups _ 16 _). clearbody blocks.
  assert (forall s, length (fold_left (compress F) blocks s) = length s) as Hfold.
  { induction blocks as [|b bs IH]; intros s; simpl; [done|]. by rewrite IH, compress_length. }
  rewrite <- (Hfold (initial F)). generalize (fold_left (compress F) blocks (initial F)).
  intros l. induction l as [|w l IH]; simpl; [done|]. by rewrite length_app, be_bytes_length, IH.
Qed.

Lemma hex_digit_inj x y :
  0 <= x < 16 -> 0 <= y < 16 -> hex_digit x = hex_digit y -> x = y.
Proof.
  intros Hx Hy. unfold hex_digit. intros He. apply (f_equal of_byte) in He.
  rewrite !of_byte_byte_of in He.
  destruct (x <? 10) eqn:?, (y <? 10) eqn:?; zbool; rewrite !Z.mod_small in He by lia; lia.
Qed.

Lemma hex_inj a b : hex a = hex b -> a = b.
Proof.
  intros He. apply (f_equal as_bytes) in He. unfold hex in He. rewrite !list_ascii_of_string_of_list_ascii in He.
  revert b He. induction a as [|x a IH]; intros [|y b]; simpl; intros He; try done.
  injection He as Hhi Hlo Hrest. pose proof (of_byte_range x). pose proof (of_byte_range y).
  apply hex_digit_inj in Hhi, Hlo; try (Z.to_euclidean_division_equations; lia).
  rewrite (IH b Hrest). f_equal.
  rewrite <- (byte_of_of_byte x), <- (byte_of_of_byte y). f_equal.
  Z.to_euclidean_division_equations; lia.
Qed.

(** The published digests of [abc]. *)
Example digests_of_abc :
  hex (digest sha256_family (as_bytes "abc"))
  = "ba7816bf8f01cfea414140de5dae2223b00361a396177a9cb410ff61f20015ad" /\
  hex (digest sha512_family (as_bytes "abc"))
  = "ddaf35a193617abacc417349ae20413112e6fa4e89a97ea20a9eeee64b55d39a"
    +:+ "2192992a274fc1a836ba3c23a3feebbd454d4423643ce80e2a9ac94fa54ca49f".
Proof. vm_compute. split; reflexivity. Qed.

End Sha2.

(** ** Base64, the standard alphabet with padding *)

Module Base64.

Import Sha2.

Definition alphabet : string :=
  "ABCDEFGHIJKLMNOPQRSTUVWXYZabcdefghijklmnopqrstuvwxyz0123456789+/".

Definition symbol (z : Z) : ascii := default (byte_of 61) (String.get (Z.to_nat (z mod 64)) alphabet).
Definition PAD : ascii := byte_of 61.

Fixpoint encode (b : bytes) : bytes :=
  match b with
  | [] => []
  | [x] => let n := of_be [x] * 16 in [symbol (n / 64); symbol n; PAD; PAD]
  | [x; y] => let n := of_be [x; y] * 4 in [symbol (n / 4096); symbol (n / 64); symbol n; PAD]
  | x :: y :: z :: b =>
      let n := of_be [x; y; z] in
      symbol (n / 262144) :: symbol (n / 4096) :: symbol (n / 64) :: symbol n :: encode b
  end.

Definition digit (a : ascii) : option Z :=
  Z.of_nat <$> String.index 0 (String a EmptyString) alphabet.

(** The bits left over by a padded group must be zero. *)
Fixpoint decode (s : bytes) : option bytes :=
  match s with
  | [] => Some []
  | a :: b :: c :: d :: rest =>
      x ← digit a; y ← digit b;
      if Ascii.eqb c PAD then
        if Ascii.eqb d PAD && (y mod 16 =? 0) && match rest with [] => true | _ => false end
        then Some [byte_of (x * 4 + y / 16)] else None
      else
        z ← digit c;
        if Ascii.eqb d PAD then
          if (z mod 4 =? 0) && match rest with [] => true | _ => false end
          then Some (be_bytes 2 ((x * 4096 + y * 64 + z) / 4)) else None
        else
          u ← digit d; r ← decode rest;
          Some (be_bytes 3 (x * 262144 + y * 4096 + z * 64 + u) ++ r)%list
  | _ => None
  end.

(** One symbol and its value. *)
Lemma digit_symbol z : digit (symbol z) = Some (z mod 64).
Proof.
  unfold symbol. pose proof (Z.mod_pos_bound z 64 ltac:(lia)) as Hr.
  generalize dependent (z mod 64). intros r Hr.
  assert (forall n : nat, (n < 64)%nat ->
    digit (default (byte_of 61) (String.get n alphabet)) = Some (Z.of_nat n)) as Hall.
  { intros n Hn. do 64 (destruct n as [|n]; [reflexivity|]). lia. }
  rewrite Hall by lia. by rewrite Z2Nat.id by lia.
Qed.

Lemma symbol_eq z w : z mod 64 = w mod 64 -> symbol z = symbol w.
Proof. unfold symbol. by intros ->. Qed.

Lemma symbol_digit a z : digit a = Some z -> 0 <= z < 64 /\ a = symbol z.
Proof.
  intros Hd. assert (match digit a with
    | Some z => (0 <=? z) && (z <? 64) && Ascii.eqb a (symbol z) | None => true end = true) as Ha
    by (destruct a as [[] [] [] [] [] [] [] []]; vm_compute; reflexivity).
  rewrite Hd in Ha. zbool. split; [lia|]. by apply Ascii.eqb_eq.
Qed.

Lemma symbol_not_pad z : Ascii.eqb (symbol z) PAD = false.
Proof.
  destruct (Ascii.eqb_spec (symbol z) PAD) as [He|]; [|done].
  apply (f_equal digit) in He. by rewrite digit_symbol in He.
Qed.

(** The digits of a number below 64^[k], and back. *)
Ltac sextets := Z.to_euclidean_division_equations; lia.

Lemma encode_3 x y z b :
  encode (x :: y :: z :: b) =
  let n := of_be [x; y; z] in
  symbol (n / 262144) :: symbol (n / 4096) :: symbol (n / 64) :: symbol n :: encode b.
Proof. done. Qed.

Lemma decode_symbols x y z u rest :
  decode (symbol x :: symbol y :: symbol z :: symbol u :: rest) =
  r ← decode rest;
  Some (be_bytes 3 (x mod 64 * 262144 + y mod 64 * 4096 + z mod 64 * 64 + u mod 64) ++ r)%list.
Proof. cbn [decode]. by rewrite !digit_symbol, !symbol_not_pad. Qed.

Lemma decode_encode b : decode (encode b) = Some b.
Proof.
  enough (forall n b, (length b <= n)%nat -> decode (encode b) = Some b) by eauto.
  clear b. intros n. induction n as [|n IH]; intros [|x [|y [|z b]]] Hn; simpl in Hn; try lia;
    try done.
  - pose proof (of_byte_range x) as Hx. cbn [encode decode]. rewrite !digit_symbol.
    cbn [mbind option_bind]. change (Ascii.eqb PAD PAD) with true. cbn [andb].
    change (of_be [x]) with (0 * 256 + of_byte x).
    replace ((_ =? 0)) with true by (symmetry; apply Z.eqb_eq; sextets).
    do 2 f_equal. apply byte_of_eq. sextets.
  - pose proof (of_be_range [x; y]) as Hr. cbn [encode decode].
    rewrite !digit_symbol, !symbol_not_pad. change (Z.of_nat (length [x; y])) with 2 in Hr.
    cbn [mbind option_bind]. change (Ascii.eqb PAD PAD) with true. cbn [andb].
    replace ((_ =? 0)) with true by (symmetry; apply Z.eqb_eq; sextets).
    cbn [andb]. match goal with |- Some (be_bytes 2 ?e) = _ => replace e with (of_be [x; y]) by sextets end.
    exact (f_equal Some (be_bytes_of_be [x; y])).
  - pose proof (of_be_range [x; y; z]) as Hr. change (Z.of_nat (length [x; y; z])) with 3 in Hr.
    rewrite encode_3. cbv zeta. rewrite decode_symbols, IH by lia. cbn [mbind option_bind].
    match goal with |- Some (be_bytes 3 ?e ++ _)%list = _ =>
      replace e with (of_be [x; y; z]) by sextets end.
    exact (f_equal (fun l => Some (l ++ b)%list) (be_bytes_of_be [x; y; z])).
Qed.

Ltac symbols :=
  repeat (apply (f_equal2 cons); [apply symbol_eq; sextets|]); reflexivity.

Lemma encode_be_1 n :
  encode [byte_of n] = let m := n mod 256 * 16 in [symbol (m / 64); symbol m; PAD; PAD].
Proof. cbv zeta. rewrite <- of_byte_byte_of. reflexivity. Qed.

Lemma encode_be_2 n :
  encode (be_bytes 2 n) =
  let m := n mod 65536 * 4 in [symbol (m / 4096); symbol (m / 64); symbol m; PAD].
Proof. cbv zeta. change 65536 with (256 ^ Z.of_nat 2). rewrite <- of_be_be_bytes. reflexivity. Qed.

Lemma encode_be_3 n b :
  encode (be_bytes 3 n ++ b)%list =
  let m := n mod 16777216 in
  symbol (m / 262144) :: symbol (m / 4096) :: symbol (m / 64) :: symbol m :: encode b.
Proof. cbv zeta. change 16777216 with (256 ^ Z.of_nat 3). rewrite <- of_be_be_bytes. reflexivity. Qed.

(** The converse: only the canonical encoding of some bytes is decoded. *)
Lemma encode_decode s b : decode s = Some b -> encode b = s.
Proof.
  enough (forall n s b, (length s <= n)%nat -> decode s = Some b -> encode b = s) by eauto.
  clear s b. intros n. induction n as [|n IH]; intros s b Hn Hs.
  { destruct s; [by injection Hs as <-|simpl in Hn; lia]. }
  destruct s as [|a0 [|a1 [|a2 [|a3 rest]]]]; try done; [by injection Hs as <-|].
  cbn [decode] in Hs.
  destruct (digit a0) as [x|] eqn:Hx; [|done]. destruct (digit a1) as [y|] eqn:Hy; [|done].
  apply symbol_digit in Hx as [Hx ->], Hy as [Hy ->]. cbn [mbind option_bind] in Hs.
  destruct (Ascii.eqb_spec a2 PAD) as [->|_].
  { destruct (Ascii.eqb_spec a3 PAD) as [->|_]; [|done]. cbn [andb] in Hs.
    destruct (y mod 16 =? 0) eqn:Hm; [|done]. zbool. destruct rest; [|done].
    injection Hs as <-. rewrite encode_be_1. cbv zeta. symbols. }
  destruct (digit a2) as [z|] eqn:Hz; [|done]. apply symbol_digit in Hz as [Hz ->].
  cbn [mbind option_bind] in Hs.
  destruct (Ascii.eqb_spec a3 PAD) as [->|_].
  { destruct (z mod 4 =? 0) eqn:Hm; [|done]. zbool. destruct rest; [|done]. cbn [andb] in Hs.
    injection Hs as <-. rewrite encode_be_2. cbv zeta. symbols. }
  destruct (digit a3) as [u|] eqn:Hu; [|done]. apply symbol_digit in Hu as [Hu ->].
  destruct (decode rest) as [r|] eqn:Hr; [|done]. cbn [mbind option_bind] in Hs. apply (inj Some) in Hs as <-.
  rewrite encode_be_3, (IH rest r) by (done || (simpl in Hn; lia)). cbv zeta.
  symbols.
Qed.

Example rfc4648 :
  map (fun s => of_bytes (encode (as_bytes s))) ["f"; "fo"; "foo"; "foobar"]
  = ["Zg=="; "Zm8="; "Zm9v"; "Zm9vYmFy"].
Proof. vm_compute. reflexivity. Qed.

End Base64.

(** ** JSON texts *)

Module JsonText.

(** A parser consumes a prefix. *)
Abbreviation Parser := (list ascii -> option (list ascii)).

Fixpoint ws (l : list ascii) : list ascii :=
  match l with c :: l' => if is_json_ws c then ws l' else l | [] => [] end.

Definition char (c : ascii) : Parser :=
  fun l => match l with x :: l => if Ascii.eqb x c then Some l else None | [] => None end.

Definition word (s : string) : Parser := fun l =>
  fold_left (fun o c => l ← o; char c l) (as_bytes s) (Some l).

Definition one_of_chars (cs : string) (c : ascii) : bool := existsb (Ascii.eqb c) (as_bytes cs).

Definition is_digit (c : ascii) : bool := in_range 48 57 c.
Definition is_hex (c : ascii) : bool := is_digit c || in_range 65 70 c || in_range 97 102 c.

Fixpoint digits (l : list ascii) : list ascii :=
  match l with c :: l' => if is_digit c then digits l' else l | [] => [] end.

Definition digits1 : Parser :=
  fun l => match l with c :: l => if is_digit c then Some (digits l) else None | [] => None end.

Definition option_part (first : ascii -> bool) (p : Parser) : Parser :=
  fun l => match l with c :: l' => if first c then p l' else Some l | [] => Some [] end.

Definition sign : Parser := option_part (one_of_chars "+-") Some.

Definition number : Parser := fun l =>
  l ← option_part (Ascii.eqb "-") Some l;
  l ← match char "0" l with Some l => Some l | None => digits1 l end;
  l ← option_part (Ascii.eqb ".") digits1 l;
  option_part (one_of_chars "eE") (fun l => l ← sign l; digits1 l) l.

(** The rest of a string, after its opening quote; control characters must be escaped. *)
Fixpoint string_rest (l : list ascii) : option (list ascii) :=
  match l with
  | [] => None
  | c :: l =>
      if Ascii.eqb c QUOTE then Some l
      else if (N_of_ascii c <? 32)%N then None
      else if Ascii.eqb c "\" then
        match l with
        | e :: l =>
            if Ascii.eqb e "u" then
              match l with
              | h1 :: h2 :: h3 :: h4 :: l =>
                  if forallb is_hex [h1; h2; h3; h4] then string_rest l else None
              | _ => None
              end
            else if Ascii.eqb e QUOTE || one_of_chars "\/bfnrt" e then string_rest l else None
        | [] => None
        end
      else string_rest l
  end.

Fixpoint value (fuel : nat) (l : list ascii) : option (list ascii) :=
  match fuel with
  | O => None
  | S fuel =>
      match ws l with
      | c :: l' =>
          if Ascii.eqb c QUOTE then string_rest l'
          else if Ascii.eqb c "{" then
            match ws l' with
            | c :: l => if Ascii.eqb c "}" then Some l else members fuel (c :: l)
            | [] => None
            end
          else if Ascii.eqb c "[" then
            match ws l' with
            | c :: l => if Ascii.eqb c "]" then Some l else elements fuel (c :: l)
            | [] => None
            end
          else if Ascii.eqb c "t" then word "rue" l'
          else if Ascii.eqb c "f" then word "alse" l'
          else if Ascii.eqb c "n" then word "ull" l'
          else number (c :: l')
      | [] => None
      end
  end
with members (fuel : nat) (l : list ascii) : option (list ascii) :=
  match fuel with
  | O => None
  | S fuel =>
      l ← char QUOTE (ws l); l ← string_rest l; l ← char ":" (ws l); l ← value fuel l;
      match ws l with
      | c :: l => if Ascii.eqb c "}" then Some l
                  else if Ascii.eqb c "," then members fuel l else None
      | [] => None
      end
  end
with elements (fuel : nat) (l : list ascii) : option (list ascii) :=
  match fuel with
  | O => None
  | S fuel =>
      l ← value fuel l;
      match ws l with
      | c :: l => if Ascii.eqb c "]" then Some l
                  else if Ascii.eqb c "," then elements fuel l else None
      | [] => None
      end
  end.

(** Every call but the first of a level consumes a byte, so twice the length is enough. *)
Definition valid (raw : bytes) : result unit string :=
  match option_map ws (value (S (2 * length raw)) raw) with
  | Some [] => if is_ok (ok_or (from_utf8 raw) tt) then Ok tt else Err "invalid unicode"
  | _ => Err "invalid JSON"
  end.

End JsonText.
