(* ===== verification/Ciphers.v ===== *)
(** Published algorithms, continued: AES-256-GCM (FIPS 197, SP 800-38D), RSASSA-PKCS1-v1_5 (RFC
    8017) with its keys in DER and PEM (RFC 7468), and the compact JWT serialisation (RFC 7515,
    RFC 7519). Together with [Primitives] they make [suite], an instance of [Snapbi.Crypto] that
    computes what the Go program computes, and for which [CryptoLaws] and [JwtLaws] are proved. *)
From Bignums Require BigN.
From S2P Require Export Snapbi Primitives.
Local Open Scope string_scope.
Local Open Scope Z_scope.
Local Open Scope rust_scope.

Import Sha2.

(** ** AES-256 *)

Module Aes.

(** The field of 256 elements, modulo [x^8 + x^4 + x^3 + x + 1]. *)
Definition xtime (a : Z) : Z := let d := 2 * a in if d <? 256 then d else Z.lxor d 283.

Definition gmul (a b : Z) : Z :=
  (fold_left (fun '(acc, a) i =>
     (if Z.testbit b (Z.of_nat i) then Z.lxor acc a else acc, xtime a)) (seq 0 8) (0, a)).1.

Definition field : list Z := map Z.of_nat (seq 0 256).
Definition inverse (a : Z) : Z := default 0 (head (List.filter (fun b => gmul a b =? 1) field)).
Definition rotl8 (n x : Z) : Z := Z.lor (Z.land (Z.shiftl x n) 255) (Z.shiftr x (8 - n)).
Definition affine (b : Z) : Z :=
  fold_left Z.lxor [rotl8 1 b; rotl8 2 b; rotl8 3 b; rotl8 4 b; 99] b.

Definition sbox : list Z := Eval vm_compute in map (fun a => affine (inverse a)) field.
Definition sub (x : Z) : Z := nth (Z.to_nat x) sbox 0.

(** The key schedule: sixty words, the last one first. *)
Definition xor_words : list Z -> list Z -> list Z := zip_with Z.lxor.

Fixpoint expand (fuel i : nat) (rcon : Z) (ws : list (list Z)) : list (list Z) :=
  match fuel with
  | O => ws
  | S fuel =>
      let temp := nth 0 ws [] in
      let rotated := map sub (drop 1 temp ++ take 1 temp)%list in
      let '(temp, rcon) :=
        if Nat.eqb (i mod 8) 0 then (xor_words rotated [rcon; 0; 0; 0], xtime rcon)
        else if Nat.eqb (i mod 8) 4 then (map sub temp, rcon) else (temp, rcon) in
      expand fuel (S i) rcon (xor_words (nth 7 ws []) temp :: ws)
  end.

(** Fifteen round keys of sixteen bytes. *)
Definition schedule (key : bytes) : list (list Z) :=
  let ws := rev (expand 52 8 1 (rev (groups 8 4 (map of_byte key)))) in
  groups 15 16 (List.concat ws).

Definition shift_rows (s : list Z) : list Z :=
  map (fun i => nth i s 0)
    [0; 5; 10; 15; 4; 9; 14; 3; 8; 13; 2; 7; 12; 1; 6; 11]%nat.

Definition mix_column (c : list Z) : list Z :=
  match c with
  | [a; b; c; d] =>
      let sum x y z w := Z.lxor (Z.lxor (xtime x) (Z.lxor (xtime y) y)) (Z.lxor z w) in
      [sum a b c d; sum b c d a; sum c d a b; sum d a b c]
  | _ => c
  end.

Definition mix_columns (s : list Z) : list Z := flat_map mix_column (groups 4 4 s).

(** One block under a schedule. *)
Definition encrypt (keys : list (list Z)) (block : bytes) : bytes :=
  let middle s k := xor_words (mix_columns (shift_rows (map sub s))) k in
  let s := fold_left middle (take 13 (drop 1 keys)) (xor_words (map of_byte block) (nth 0 keys [])) in
  map Sha2.byte_of (xor_words (shift_rows (map sub s)) (nth 14 keys [])).

(** FIPS 197, appendix C.3. *)
Example fips_197 :
  hex (encrypt (schedule (be_bytes 32 0x000102030405060708090a0b0c0d0e0f101112131415161718191a1b1c1d1e1f))
         (be_bytes 16 0x00112233445566778899aabbccddeeff))
  = "8ea2b7ca516745bfeafc49904b496089".
Proof. vm_compute. reflexivity. Qed.

End Aes.

(** ** Galois/counter mode, without associated data *)

Module Gcm.

(** The field of 2^128 elements; the first coefficient is the most significant bit. *)
Definition mul (x y : Z) : Z :=
  (fold_left (fun '(z, v) i =>
     (if Z.testbit x (Z.of_nat i) then Z.lxor z v else z,
      if Z.odd v then Z.lxor (Z.div2 v) (Z.shiftl 225 120) else Z.div2 v))
    (rev (seq 0 128)) (0, y)).1.

(** Sixteen-byte groups as numbers, the last one filled with zero bytes. *)
Definition blocks (b : bytes) : list Z :=
  let n := ((length b + 15) / 16)%nat in
  map (fun g => of_be (g ++ replicate (16 - length g) zero)%list) (groups n 16 b).

Definition ghash (h : Z) (bs : list Z) : Z := fold_left (fun y b => mul (Z.lxor y b) h) bs 0.

Section Key.
Context (block : bytes -> bytes).

Definition counter (nonce : bytes) (i : nat) : bytes :=
  block (nonce ++ be_bytes 4 (Z.of_nat i))%list.

(** As much of the key stream as covers [n] bytes; the first counter is kept for the tag. *)
Definition stream (nonce : bytes) (n : nat) : bytes :=
  flat_map (fun i => take 16 (counter nonce i ++ replicate 16 zero)%list) (seq 2 ((n + 15) / 16)).

Definition xor_bytes : bytes -> bytes -> bytes :=
  zip_with (fun a b => Sha2.byte_of (Z.lxor (of_byte a) (of_byte b))).

Definition crypt (nonce data : bytes) : bytes := xor_bytes data (stream nonce (length data)).

Definition tag (nonce ciphertext : bytes) : bytes :=
  let h := of_be (block (replicate 16 zero)) in
  let s := ghash h (blocks ciphertext ++ [8 * Z.of_nat (length ciphertext)])%list in
  be_bytes 16 (Z.lxor s (of_be (counter nonce 1))).

Definition seal (nonce plaintext : bytes) : bytes :=
  let c := crypt nonce plaintext in (c ++ tag nonce c)%list.

Definition open (nonce sealed : bytes) : option bytes :=
  if Nat.ltb (length sealed) 16 then None
  else
    let c := take (length sealed - 16) sealed in
    let t := drop (length sealed - 16) sealed in
    if bool_decide (t = tag nonce c) then Some (crypt nonce c) else None.
End Key.

End Gcm.

(** ** Keys: DER and PEM *)

Module Der.

(** A definite length in the fewest bytes. *)
Definition length_of (n : nat) : bytes :=
  if Nat.ltb n 128 then [Sha2.byte_of (Z.of_nat n)]
  else if Nat.ltb n 256 then Sha2.byte_of 129 :: be_bytes 1 (Z.of_nat n)
  else Sha2.byte_of 130 :: be_bytes 2 (Z.of_nat n).

Definition wrap (tag : Z) (content : bytes) : bytes :=
  (Sha2.byte_of tag :: length_of (length content) ++ content)%list.

(** A non-negative INTEGER: a zero byte in front keeps the sign bit clear. *)
Definition integer (n : Z) : bytes :=
  let b := be_bytes (Z.to_nat (Z.log2 n / 8) + 1) n in
  wrap 2 (if 128 <=? of_byte (hd zero b) then zero :: b else b).
Definition sequence (l : list bytes) : bytes := wrap 48 (List.concat l).

(** One element of the given tag: its contents and what follows it. *)
Definition element (tag : Z) (b : bytes) : option (bytes * bytes) :=
  match b with
  | t :: l0 :: rest =>
      if negb (of_byte t =? tag) then None
      else
        let '(n, rest) :=
          if of_byte l0 <? 128 then (of_byte l0, rest)
          else let k := Z.to_nat (of_byte l0 - 128) in (of_be (take k rest), drop k rest) in
        let n := Z.to_nat n in
        if Nat.ltb (length rest) n then None
        else
          let content := take n rest in
          if bool_decide (wrap tag content = take (length b - length rest + n) b)
          then Some (content, drop n rest) else None
  | _ => None
  end.

(** A canonical non-negative INTEGER. *)
Definition read_integer (b : bytes) : option (Z * bytes) :=
  '(c, rest) ← element 2 b;
  let n := of_be c in
  if bool_decide (integer n = wrap 2 c) then Some (n, rest) else None.

Fixpoint read_integers (k : nat) (b : bytes) : option (list Z) :=
  match k with
  | O => match b with [] => Some [] | _ => None end
  | S k => '(n, rest) ← read_integer b; ns ← read_integers k rest; Some (n :: ns)
  end.

(** An element that fills its input. *)
Definition whole (tag : Z) (b : bytes) : option bytes :=
  '(c, rest) ← element tag b; match rest with [] => Some c | _ => None end.

End Der.

Module Pem.

Definition LF : ascii := Ascii.ascii_of_nat 10.
Definition nl : string := String LF EmptyString.
Definition header (label : string) : string := "-----BEGIN " +:+ label +:+ "-----" +:+ nl.
Definition footer (label : string) : string := "-----END " +:+ label +:+ "-----" +:+ nl.

(** Lines of sixty-four symbols. *)
Definition encode (label : string) (der : bytes) : string :=
  let text := Base64.encode der in
  let lines := groups ((length text + 63) / 64) 64 text in
  header label +:+ of_bytes (flat_map (fun l => l ++ [LF])%list lines) +:+ footer label.

(** The symbols between the lines of the given label. *)
Definition decode (label s : string) : option bytes :=
  rest ← strip_prefix (header label) s;
  text ← strip_suffix (footer label) rest;
  Base64.decode (List.filter (fun a => negb (Ascii.eqb a LF)) (as_bytes text)).

End Pem.

(** ** RSA *)

Module Rsa.

Import BigN.

(** Modular exponentiation, on machine words. *)
Fixpoint pow_mod (b : BigN.t) (e : positive) (n : BigN.t) : BigN.t :=
  match e with
  | xH => BigN.modulo b n
  | xO e => BigN.modulo (BigN.square (pow_mod b e n)) n
  | xI e => BigN.modulo (BigN.mul (BigN.modulo (BigN.square (pow_mod b e n)) n) b) n
  end.

Definition power (x : BigN.t) (e : Z) (n : BigN.t) : BigN.t :=
  match e with Zpos e => pow_mod x e n | _ => BigN.modulo BigN.one n end.

Definition big (z : Z) : BigN.t := BigN.of_N (Z.to_N z).

Record PublicKey : Type := mkPublic { modulus : Z; exponent : Z }.
Record PrivateKey : Type := mkPrivate {
  public : PublicKey;
  secret : Z;
  prime1 : Z;
  prime2 : Z;
}.

#[global] Instance public_key_dec : EqDecision PublicKey.
Proof. solve_decision. Defined.
#[global] Instance private_key_dec : EqDecision PrivateKey.
Proof. solve_decision. Defined.

(** The nine integers of a PKCS#1 key; the last is the inverse of [q] modulo [p], by Fermat. *)
Definition key_integers (k : PrivateKey) : list Z :=
  let '(p, q, d) := (prime1 k, prime2 k, secret k) in
  [0; modulus (public k); exponent (public k); d; p; q; d mod (p - 1); d mod (q - 1);
   BigN.to_Z (power (big q) (p - 2) (big p))].

Definition to_pkcs1_pem (k : PrivateKey) : string :=
  Pem.encode "RSA PRIVATE KEY" (Der.sequence (map Der.integer (key_integers k))).

(** The components are checked against each other, as the library does. *)
Definition from_pkcs1_pem (s : string) : option PrivateKey :=
  der ← Pem.decode "RSA PRIVATE KEY" s;
  fields ← Der.whole 48 der;
  ns ← Der.read_integers 9 fields;
  match ns with
  | [version; n; e; d; p; q; _; _; _] =>
      let inverse_mod m := BigN.eqb (BigN.modulo (BigN.mul (big e) (big d)) (big m)) BigN.one in
      if (version =? 0) && BigN.eqb (BigN.mul (big p) (big q)) (big n)
         && inverse_mod (p - 1) && inverse_mod (q - 1)
      then Some (mkPrivate (mkPublic n e) d p q) else None
  | _ => None
  end.

(** The algorithm identifier [rsaEncryption] with its NULL. *)
Definition algorithm_id : bytes := be_bytes 15 0x300d06092a864886f70d0101010500.

Definition to_public_key_pem (k : PublicKey) : string :=
  Pem.encode "PUBLIC KEY" (Der.sequence [algorithm_id;
    Der.wrap 3 (zero :: Der.sequence [Der.integer (modulus k); Der.integer (exponent k)])]).

Definition from_public_key_pem (s : string) : option PublicKey :=
  der ← Pem.decode "PUBLIC KEY" s;
  fields ← Der.whole 48 der;
  if negb (bool_decide (take 15 fields = algorithm_id)) then None
  else
    bits ← Der.whole 3 (drop 15 fields);
    key ← (match bits with u :: key => if Ascii.eqb u zero then Some key else None | [] => None end);
    fields ← Der.whole 48 key;
    ns ← Der.read_integers 2 fields;
    match ns with [n; e] => Some (mkPublic n e) | _ => None end.

(** The modulus in bytes. *)
Definition size (k : PublicKey) : nat := Z.to_nat (Z.log2 (modulus k) / 8) + 1.

(** [DigestInfo] of a SHA-256 digest, and the encoded message. *)
Definition digest_info (msg : bytes) : bytes :=
  (be_bytes 19 0x3031300d060960864801650304020105000420 ++ digest sha256_family msg)%list.

Definition encode (k : nat) (msg : bytes) : bytes :=
  ([zero; Sha2.byte_of 1] ++ replicate (k - 54) (Sha2.byte_of 255) ++ [zero] ++ digest_info msg)%list.

(** The secret power by the Chinese remainder theorem; a result that the public power does not
    take back is discarded for the direct one. *)
Definition secret_power (k : PrivateKey) (m : BigN.t) : BigN.t :=
  let '(n, p, q) := (big (modulus (public k)), big (prime1 k), big (prime2 k)) in
  let d m := BigN.to_Z (BigN.modulo (big (secret k)) (BigN.pred m)) in
  let m1 := power (BigN.modulo m p) (d p) p in
  let m2 := power (BigN.modulo m q) (d q) q in
  let inverse := power q (prime1 k - 2) p in
  let h := BigN.modulo (BigN.mul inverse (BigN.sub (BigN.add m1 p) (BigN.modulo m2 p))) p in
  let s := BigN.add m2 (BigN.mul h q) in
  if BigN.ltb s n && BigN.eqb (power s (exponent (public k)) n) m then s
  else power m (secret k) n.

Definition sign (k : PrivateKey) (msg : bytes) : bytes :=
  let len := size (public k) in
  be_bytes len (BigN.to_Z (secret_power k (big (of_be (encode len msg))))).

(** The encoded messages are compared as numbers of the same length. *)
Definition verify (k : PublicKey) (msg sig : bytes) : bool :=
  let len := size k in
  Nat.eqb (length sig) len && (of_be sig <? modulus k) && Nat.leb 62 len
  && BigN.eqb (power (big (of_be sig)) (exponent k) (big (modulus k))) (big (of_be (encode len msg))).

(** The two halves of a key: raising to one exponent undoes the other. *)
Definition key_pair (priv : PrivateKey) (pub : PublicKey) : Prop :=
  public priv = pub /\ 0 < modulus pub /\ 0 < exponent pub /\ 0 < secret priv /\
  (62 <= size pub)%nat /\
  forall x, 0 <= x < modulus pub ->
    ((x ^ secret priv mod modulus pub) ^ exponent pub) mod modulus pub = x.

End Rsa.

(** ** JSON values *)

Module JsonValues.

Import JsonText.

(** Numbers keep their text. *)
Inductive Value : Type :=
| VNull
| VBool (b : bool)
| VNumber (text : string)
| VString (s : string)
| VArray (l : list Value)
| VObject (fields : list (string * Value)).

(** The UTF-8 bytes of a scalar value below 2^16. *)
Definition utf8 (c : Z) : bytes :=
  map Sha2.byte_of
    (if c <? 128 then [c]
     else if c <? 2048 then [192 + c / 64; 128 + c mod 64]
     else [224 + c / 4096; 128 + c / 64 mod 64; 128 + c mod 64]).

Definition hex_value (a : ascii) : Z :=
  let z := of_byte a in
  if z <? 58 then z - 48 else if z <? 97 then z - 55 else z - 87.

Definition escaped (e : ascii) : option ascii :=
  let table := [("b", 8); ("f", 12); ("n", 10); ("r", 13); ("t", 9)] in
  if Ascii.eqb e QUOTE || one_of_chars "\/" e then Some e
  else (fun p => Sha2.byte_of p.2) <$> head (List.filter (fun p => String.eqb p.1 (String e "")) table).

(** The contents of a string after its opening quote, and the rest. Surrogates are refused. *)
Fixpoint contents (l : list ascii) : option (bytes * list ascii) :=
  match l with
  | [] => None
  | c :: l =>
      if Ascii.eqb c QUOTE then Some ([], l)
      else if of_byte c <? 32 then None
      else if Ascii.eqb c "\" then
        match l with
        | e :: l =>
            if Ascii.eqb e "u" then
              match l with
              | h1 :: h2 :: h3 :: h4 :: l =>
                  if forallb is_hex [h1; h2; h3; h4] then
                    let u := fold_left (fun acc h => acc * 16 + hex_value h) [h1; h2; h3; h4] 0 in
                    if (55296 <=? u) && (u <? 57344) then None
                    else '(s, rest) ← contents l; Some (utf8 u ++ s, rest)%list
                  else None
              | _ => None
              end
            else a ← escaped e; '(s, rest) ← contents l; Some (a :: s, rest)
        | [] => None
        end
      else '(s, rest) ← contents l; Some (c :: s, rest)
  end.

Definition text_of (l rest : list ascii) : string := of_bytes (take (length l - length rest) l).

Fixpoint parse (fuel : nat) (l : list ascii) : option (Value * list ascii) :=
  match fuel with
  | O => None
  | S fuel =>
      match ws l with
      | c :: l' =>
          if Ascii.eqb c QUOTE then '(s, rest) ← contents l'; Some (VString (of_bytes s), rest)
          else if Ascii.eqb c "{" then
            match ws l' with
            | c :: l => if Ascii.eqb c "}" then Some (VObject [], l)
                        else '(fs, rest) ← parse_members fuel (c :: l); Some (VObject fs, rest)
            | [] => None
            end
          else if Ascii.eqb c "[" then
            match ws l' with
            | c :: l => if Ascii.eqb c "]" then Some (VArray [], l)
                        else '(vs, rest) ← parse_elements fuel (c :: l); Some (VArray vs, rest)
            | [] => None
            end
          else if Ascii.eqb c "t" then rest ← word "rue" l'; Some (VBool true, rest)
          else if Ascii.eqb c "f" then rest ← word "alse" l'; Some (VBool false, rest)
          else if Ascii.eqb c "n" then rest ← word "ull" l'; Some (VNull, rest)
          else rest ← number (c :: l'); Some (VNumber (text_of (c :: l') rest), rest)
      | [] => None
      end
  end
with parse_members (fuel : nat) (l : list ascii) : option (list (string * Value) * list ascii) :=
  match fuel with
  | O => None
  | S fuel =>
      l ← char QUOTE (ws l); '(name, l) ← contents l; l ← char ":" (ws l);
      '(v, l) ← parse fuel l;
      let field := (of_bytes name, v) in
      match ws l with
      | c :: l => if Ascii.eqb c "}" then Some ([field], l)
                  else if Ascii.eqb c "," then
                    '(fs, rest) ← parse_members fuel l; Some (field :: fs, rest)
                  else None
      | [] => None
      end
  end
with parse_elements (fuel : nat) (l : list ascii) : option (list Value * list ascii) :=
  match fuel with
  | O => None
  | S fuel =>
      '(v, l) ← parse fuel l;
      match ws l with
      | c :: l => if Ascii.eqb c "]" then Some ([v], l)
                  else if Ascii.eqb c "," then
                    '(vs, rest) ← parse_elements fuel l; Some (v :: vs, rest)
                  else None
      | [] => None
      end
  end.

(** Every call but the first of a level consumes a byte, so twice the length is enough. *)
Definition from_slice (raw : bytes) : option Value :=
  '(v, rest) ← parse (S (2 * length raw)) raw;
  match ws rest with [] => Some v | _ => None end.

Definition get (name : string) (v : Value) : option Value :=
  match v with
  | VObject fs => snd <$> head (List.filter (fun f => String.eqb f.1 name) (rev fs))
  | _ => None
  end.

Definition as_str (v : Value) : option string := match v with VString s => Some s | _ => None end.
Definition is_text (v : Value) : bool :=
  match v with VString _ | VArray _ => true | _ => false end.
Definition as_u64 (v : Value) : option Z := match v with VNumber s => parse_u64 s | _ => None end.

End JsonValues.

(** ** JSON web tokens *)

Module Jwt.

Import JsonValues.

(** Base64 without padding, in the URL alphabet. *)
Definition url_symbol (a : ascii) : ascii :=
  if Ascii.eqb a "+" then "-"%char else if Ascii.eqb a "/" then "_"%char else a.
Definition std_symbol (a : ascii) : ascii :=
  if Ascii.eqb a "-" then "+"%char else if Ascii.eqb a "_" then "/"%char else a.

Definition url_encode (b : bytes) : string :=
  of_bytes (map url_symbol
    (List.filter (fun a => negb (Ascii.eqb a Base64.PAD)) (Base64.encode b))).

Definition url_decode (s : string) : option bytes :=
  let l := as_bytes s in
  if existsb (fun a => Ascii.eqb a "+" || Ascii.eqb a "/" || Ascii.eqb a Base64.PAD) l then None
  else Base64.decode (map std_symbol l ++ replicate ((4 - length l mod 4) mod 4) Base64.PAD)%list.

Definition algorithm_of (header : Value) : option Algorithm :=
  alg ← get "alg" header; name ← as_str alg;
  Some (if String.eqb name "RS256" then RS256 else OtherAlg name).

(** The claims, when the text is an object whose [Expired], if any, is a string. *)
Definition claims_of (v : Value) : option (Claims Value) :=
  match v with
  | VObject fs =>
      expired ← match get "Expired" v with None => Some "" | Some e => as_str e end;
      Some (mkClaims expired
        (list_to_map (List.filter (fun f => negb (String.eqb f.1 "Expired")) (rev fs))))
  | _ => None
  end.

Definition LEEWAY : Z := 60.

(** A segment that holds a JSON text. *)
Definition json_part (s : string) : option Value := b ← url_decode s; from_slice b.

(** A timestamp claim: an unsigned integer, or a number rounded to one. *)
Definition timestamp (v : Value) : option Z :=
  match as_u64 v, v with
  | Some n, _ => Some n
  | None, VNumber s =>
      match parse_f64 s with
      | Some (S754_zero _) => Some 0
      | Some (S754_finite false m e) =>
          let n := if 0 <=? e then Zpos m * 2 ^ e
                   else (2 * Zpos m + 2 ^ (- e)) / (2 * 2 ^ (- e)) in
          if n <=? U64_MAX then Some n else None
      | _ => None
      end
  | None, _ => None
  end.

Definition numeric_claim (name : string) (claims : Value) : option Z :=
  v ← get name claims; timestamp v.

(** A registered claim is there, in the type it has. *)
Definition has_claim (claims : Value) (name : string) : bool :=
  if String.eqb name "exp" || String.eqb name "nbf" then
    match numeric_claim name claims with Some _ => true | None => false end
  else match get name claims with Some v => is_text v | None => false end.

Definition SPEC_CLAIMS : list string := ["exp"; "nbf"; "aud"; "iss"; "sub"].

(** The required claims are there, a numeric [exp] is not past, and no audience is unexpected. *)
Definition validate (now : Z) (v : Validation) (claims : Value) : result unit string :=
  let required c := negb (existsb (String.eqb c) SPEC_CLAIMS) || has_claim claims c in
  if negb (forallb required (required_spec_claims v)) then Err "MissingRequiredClaim"
  else if validate_exp v && match numeric_claim "exp" claims with
                            | Some exp => exp <? now - LEEWAY | None => false end
  then Err "ExpiredSignature"
  else if validate_aud v && has_claim claims "aud" then Err "InvalidAudience"
  else Ok tt.

(** The three segments of a token, and what they say. *)
Definition segments (token : string) : option (string * string * string) :=
  match split_char "." token with
  | [header; payload; signature] => Some (header, payload, signature)
  | _ => None
  end.
Definition alg_of (token : string) : option Algorithm :=
  '(header, _, _) ← segments token; h ← json_part header; algorithm_of h.
Definition payload_of (token : string) : option Value :=
  '(_, payload, _) ← segments token; json_part payload.
Definition signed (key : Rsa.PublicKey) (token : string) : bool :=
  match segments token with
  | Some (header, payload, signature) =>
      match url_decode signature with
      | Some sig => Rsa.verify key (as_bytes (header +:+ "." +:+ payload)) sig
      | None => false
      end
  | None => false
  end.

(** [decode]: the expected algorithm, the signature, then the claims; at time [now] in seconds. *)
Definition decode (now : Z) (token : string) (key : Rsa.PublicKey) (v : Validation)
  : result (Claims Value) string :=
  let? alg := ok_or (alg_of token) "invalid header" in
  if negb (bool_decide (alg = algorithm v)) then Err "InvalidAlgorithm"
  else if negb (signed key token) then Err "InvalidSignature"
  else
    let? payload := ok_or (payload_of token) "invalid claims" in
    let? claims := ok_or (claims_of payload) "invalid claims" in
    let? _ := validate now v payload in
    Ok claims.

(** [encode] for RS256 and HS256, of a header and claims already serialized. *)
Definition message (alg claims : string) : string :=
  let q := String QUOTE EmptyString in
  let header := "{" +:+ q +:+ "typ" +:+ q +:+ ":" +:+ q +:+ "JWT" +:+ q +:+ ","
                +:+ q +:+ "alg" +:+ q +:+ ":" +:+ q +:+ alg +:+ q +:+ "}" in
  url_encode (as_bytes header) +:+ "." +:+ url_encode (as_bytes claims).

Definition encode_rs256 (key : Rsa.PrivateKey) (claims : string) : string :=
  let m := message "RS256" claims in m +:+ "." +:+ url_encode (Rsa.sign key (as_bytes m)).
Definition encode_hs256 (secret : bytes) (claims : string) : string :=
  let m := message "HS256" claims in
  m +:+ "." +:+ url_encode (hmac sha256_family secret (as_bytes m)).

End Jwt.

(** ** The suite *)

(** Everything [pc-snapbi] calls. *)
Definition suite : Crypto := {|
  json_valid := JsonText.valid;
  sha256 := digest sha256_family;
  hex_encode := hex;
  hmac_sha512 := hmac sha512_family;
  ct_eq a b := bool_decide (a = b);
  b64_encode b := of_bytes (Base64.encode b);
  b64_decode s := ok_or (Base64.decode (as_bytes s)) "invalid symbol";
  PrivateKey := Rsa.PrivateKey; PublicKey := Rsa.PublicKey; Signature := bytes;
  from_pkcs1_pem s := ok_or (Rsa.from_pkcs1_pem s) "invalid key";
  from_public_key_pem s := ok_or (Rsa.from_public_key_pem s) "invalid key";
  rsa_pkcs1v15_sign := Rsa.sign;
  signature_to_bytes sig := sig;
  signature_try_from := Some;
  rsa_pkcs1v15_verify := Rsa.verify;
  Cipher := list (list Z);
  aes_new k := if Nat.eqb (length k) 32 then Ok (Aes.schedule k) else Err "invalid length";
  aes_gcm_encrypt c nonce p := Ok (Gcm.seal (Aes.encrypt c) nonce p);
  aes_gcm_decrypt c nonce x := ok_or (Gcm.open (Aes.encrypt c) nonce x) "aead::Error";
  DecodingKey := Rsa.PublicKey; JsonValue := JsonValues.Value;
  from_rsa_pem s := ok_or (Rsa.from_public_key_pem s) "invalid key";
  jwt_decode := Jwt.decode;
|}.

(** What a token says, read from its segments. *)
Definition suite_jwt : JsonWebToken suite := {|
  jwt_alg := Jwt.alg_of;
  jwt_signed := Jwt.signed : @DecodingKey suite -> string -> bool;
  jwt_claims token := (v ← Jwt.payload_of token; Jwt.claims_of v) : option (Claims (@JsonValue suite));
  jwt_exp token := v ← Jwt.payload_of token; Jwt.numeric_claim "exp" v;
  jwt_has name token := match Jwt.payload_of token with Some v => Jwt.has_claim v name | None => false end;
|}.

(** ** Laws *)

Module Laws.

Import BigN.

Lemma pow_mod_spec b e n :
  0 < BigN.to_Z n ->
  BigN.to_Z (Rsa.pow_mod b e n) = BigN.to_Z b ^ Zpos e mod BigN.to_Z n.
Proof.
  intros Hn.
  assert (forall a, (a mod BigN.to_Z n) ^ 2 mod BigN.to_Z n = a ^ 2 mod BigN.to_Z n) as Hsq
    by (intros a; by rewrite !Z.pow_2_r, Z.mul_mod_idemp_l, Z.mul_mod_idemp_r by lia).
  induction e as [e IH|e IH|]; cbn [Rsa.pow_mod].
  - rewrite BigN.spec_modulo, BigN.spec_mul, BigN.spec_modulo, BigN.spec_square, IH.
    rewrite <- Z.pow_2_r, Hsq, Z.mul_mod_idemp_l by lia.
    by rewrite <- Z.pow_mul_r, Pos2Z.inj_xI, Z.pow_add_r, Z.pow_1_r, (Z.mul_comm 2) by lia.
  - rewrite BigN.spec_modulo, BigN.spec_square, IH, <- Z.pow_2_r, Hsq.
    by rewrite <- Z.pow_mul_r, (Pos2Z.inj_xO e), (Z.mul_comm 2) by lia.
  - by rewrite BigN.spec_modulo, Z.pow_1_r.
Qed.

Lemma big_spec z : 0 <= z -> BigN.to_Z (Rsa.big z) = z.
Proof. intros Hz. unfold Rsa.big. by rewrite BigN.spec_of_N, Z2N.id. Qed.

Lemma power_spec x e n :
  0 < e -> 0 < BigN.to_Z n -> BigN.to_Z (Rsa.power x e n) = BigN.to_Z x ^ e mod BigN.to_Z n.
Proof. intros He Hn. destruct e as [|e|e]; try lia. by apply pow_mod_spec. Qed.

(** The encoded message is a number below the modulus. *)
Lemma encode_length k msg : (62 <= k)%nat -> length (Rsa.encode k msg) = k.
Proof.
  intros Hk. unfold Rsa.encode, Rsa.digest_info.
  rewrite !length_app, length_replicate, be_bytes_length, digest_length. simpl. lia.
Qed.

Lemma size_bounds pub :
  0 < Rsa.modulus pub ->
  256 ^ (Z.of_nat (Rsa.size pub) - 1) <= Rsa.modulus pub < 256 ^ Z.of_nat (Rsa.size pub).
Proof.
  intros Hn. unfold Rsa.size. pose proof (Z.log2_nonneg (Rsa.modulus pub)).
  pose proof (Z.log2_spec _ Hn) as [Hlo Hhi].
  rewrite Nat2Z.inj_add, Z2Nat.id by (apply Z.div_pos; lia). change (Z.of_nat 1) with 1.
  change 256 with (2 ^ 8). rewrite <- !Z.pow_mul_r by (Z.to_euclidean_division_equations; lia).
  split; [eapply Z.le_trans; [|exact Hlo]|eapply Z.lt_le_trans; [exact Hhi|]];
    apply Z.pow_le_mono_r; try lia; Z.to_euclidean_division_equations; lia.
Qed.

Lemma encode_small pub msg :
  0 < Rsa.modulus pub -> (62 <= Rsa.size pub)%nat ->
  0 <= of_be (Rsa.encode (Rsa.size pub) msg) < Rsa.modulus pub.
Proof.
  intros Hn Hk. pose proof (size_bounds pub Hn) as [Hlo _].
  pose proof (encode_length (Rsa.size pub) msg Hk) as Hlen.
  assert (exists rest, Rsa.encode (Rsa.size pub) msg = zero :: rest) as [rest He] by (by eexists).
  rewrite He in Hlen |- *. simpl in Hlen. pose proof (of_be_range rest) as Hr.
  replace (Z.of_nat (length rest)) with (Z.of_nat (Rsa.size pub) - 1) in Hr by lia.
  change (of_be (zero :: rest)) with (of_be rest). lia.
Qed.

Lemma secret_power_spec priv pub m :
  Rsa.key_pair priv pub -> BigN.to_Z m < Rsa.modulus pub ->
  let s := Rsa.secret_power priv m in
  BigN.to_Z s < Rsa.modulus pub /\
  BigN.to_Z (Rsa.power s (Rsa.exponent pub) (Rsa.big (Rsa.modulus pub))) = BigN.to_Z m.
Proof.
  intros (<- & Hn & He & Hd & _ & Hinv) Hm. unfold Rsa.secret_power.
  pose proof (BigN.spec_pos m). pose proof (big_spec (Rsa.modulus (Rsa.public priv)) ltac:(lia)) as Hbig.
  match goal with |- context [if ?b then ?crt else _] => destruct b eqn:Hb; [generalize dependent crt|] end.
  { intros crt Hb. apply andb_true_iff in Hb as [Hlt Heq].
    rewrite BigN.spec_ltb, Z.ltb_lt in Hlt. rewrite BigN.spec_eqb, Z.eqb_eq in Heq. split; [lia|done]. }
  rewrite !power_spec, !Hbig by lia.
  split; [by apply Z.mod_pos_bound|by apply Hinv].
Qed.

Lemma sign_verifies priv pub msg :
  Rsa.key_pair priv pub -> Rsa.verify pub msg (Rsa.sign priv msg) = true.
Proof.
  intros Hkey. pose proof Hkey as (Hpub & Hn & He & _ & Hk & _).
  pose proof (size_bounds pub Hn). pose proof (encode_small pub msg Hn Hk) as Hm.
  set (em := of_be (Rsa.encode (Rsa.size pub) msg)) in *.
  pose proof (big_spec em ltac:(lia)) as Hem.
  destruct (secret_power_spec priv pub (Rsa.big em) Hkey ltac:(lia)) as [Hs Hp].
  unfold Rsa.verify, Rsa.sign. rewrite Hpub, be_bytes_length, Nat.eqb_refl. fold em.
  pose proof (BigN.spec_pos (Rsa.secret_power priv (Rsa.big em))).
  rewrite of_be_be_bytes, Z.mod_small by lia.
  rewrite (proj2 (Z.ltb_lt _ _)), (proj2 (Nat.leb_le _ _)), BigN.spec_eqb by (done || lia).
  rewrite <- Hp, !power_spec by (rewrite ?big_spec; lia).
  rewrite (big_spec (BigN.to_Z _)) by done. by rewrite Z.eqb_refl.
Qed.

(** A stream cipher undoes itself. *)
Lemma xor_bytes_involutive a b :
  (length a <= length b)%nat -> Gcm.xor_bytes (Gcm.xor_bytes a b) b = a.
Proof.
  revert b. induction a as [|x a IH]; intros [|y b] Hab; simpl in *; try done; [lia|].
  unfold Gcm.xor_bytes in *. rewrite IH by lia. f_equal.
  apply byte_of_eq. rewrite of_byte_byte_of.
  pose proof (of_byte_range x). pose proof (of_byte_range y).
  rewrite <- (Z.mod_small (of_byte x) 256) at 2 by lia.
  rewrite <- !land_255. apply Z.bits_inj'. intros i Hi.
  rewrite !Z.land_spec, !Z.lxor_spec, !Z.land_spec, !Z.lxor_spec.
  by destruct (Z.testbit (of_byte x) i), (Z.testbit (of_byte y) i), (Z.testbit 255 i).
Qed.

Lemma stream_length block nonce n : (n <= length (Gcm.stream block nonce n))%nat.
Proof.
  unfold Gcm.stream.
  enough (forall l, length (flat_map (fun i => take 16 (Gcm.counter block nonce i ++ replicate 16 zero)%list) l)
                    = 16 * length l)%nat as Hl.
  { rewrite Hl, length_seq. pose proof (Nat.div_mod_eq (n + 15) 16).
    pose proof (Nat.mod_upper_bound (n + 15) 16). lia. }
  intros l. induction l as [|i l IH]; [done|]. cbn [flat_map].
  rewrite length_app, IH, length_take, length_app, length_replicate. cbn [length]. lia.
Qed.

Lemma open_seal block nonce p : Gcm.open block nonce (Gcm.seal block nonce p) = Some p.
Proof.
  unfold Gcm.open, Gcm.seal. set (c := Gcm.crypt block nonce p).
  assert (length (Gcm.tag block nonce c) = 16%nat) as Ht by apply be_bytes_length.
  assert (length c = length p) as Hc.
  { unfold c, Gcm.crypt, Gcm.xor_bytes. pose proof (stream_length block nonce (length p)).
    rewrite length_zip_with. lia. }
  rewrite length_app, Ht. replace (length c + 16 - 16)%nat with (length c) by lia.
  replace (Nat.ltb (length c + 16) 16) with false by (symmetry; apply Nat.ltb_ge; lia).
  rewrite take_app_length, drop_app_length, bool_decide_eq_true_2 by done.
  f_equal. unfold Gcm.crypt. rewrite Hc. apply xor_bytes_involutive, stream_length.
Qed.

Lemma hex_digit_free c z :
  0 <= z < 16 -> forallb (fun n => negb (Ascii.eqb (hex_digit (Z.of_nat n)) c)) (seq 0 16) = true ->
  Ascii.eqb (hex_digit z) c = false.
Proof.
  intros Hz Hall. rewrite forallb_forall in Hall.
  assert (In (Z.to_nat z) (seq 0 16)) as Hin by (apply in_seq; lia). apply Hall in Hin as Hall'.
  rewrite Z2Nat.id in Hall' by lia. by apply negb_true_iff.
Qed.

Lemma hex_free c b :
  forallb (fun n => negb (Ascii.eqb (hex_digit (Z.of_nat n)) c)) (seq 0 16) = true ->
  contains_char c (hex b) = false.
Proof.
  intros Hall. unfold hex. induction b as [|x b IH]; [done|].
  pose proof (of_byte_range x). simpl.
  rewrite !hex_digit_free by (done || (Z.to_euclidean_division_equations; lia)). exact IH.
Qed.

(** Every law the suite relies on holds of the published algorithms. *)
#[export] Instance suite_laws : CryptoLaws suite Rsa.key_pair.
Proof.
  split; cbn [suite b64_encode b64_decode ct_eq Snapbi.sha256 hex_encode signature_try_from
              signature_to_bytes rsa_pkcs1v15_verify rsa_pkcs1v15_sign aes_new aes_gcm_encrypt
              aes_gcm_decrypt].
  - intros b. unfold as_bytes, of_bytes.
    by rewrite list_ascii_of_string_of_list_ascii, Base64.decode_encode.
  - intros s b Hs. destruct (Base64.decode (as_bytes s)) as [b'|] eqn:Hd; [|done].
    injection Hs as ->. apply Base64.encode_decode in Hd. rewrite Hd.
    symmetry. apply string_of_list_ascii_of_string.
  - intros a b. apply bool_decide_eq_true.
  - intros b. by rewrite digest_length.
  - intros b. split; by apply hex_free.
  - apply hex_inj.
  - done.
  - apply sign_verifies.
  - intros k Hk. rewrite Hk. by eexists.
  - intros c n p x [= <-]. by rewrite open_seal.
Qed.

(** Validation accepts what [JwtLaws] says it does. *)
Lemma validation_accepts now v claims :
  Jwt.validate now v claims = Ok tt <->
  (forall c, c ∈ required_spec_claims v -> c ∈ Jwt.SPEC_CLAIMS -> Jwt.has_claim claims c = true) /\
  (validate_exp v = true -> forall exp, Jwt.numeric_claim "exp" claims = Some exp -> now <= exp + 60) /\
  (validate_aud v = true -> Jwt.has_claim claims "aud" = false).
Proof.
  unfold Jwt.validate, Jwt.LEEWAY.
  assert (forallb (fun c => negb (existsb (String.eqb c) Jwt.SPEC_CLAIMS) || Jwt.has_claim claims c)
            (required_spec_claims v) = true <->
          forall c, c ∈ required_spec_claims v -> c ∈ Jwt.SPEC_CLAIMS -> Jwt.has_claim claims c = true) as Hreq.
  { rewrite forallb_forall. split; intros H c.
    - intros Hc Hs. apply list_elem_of_In in Hc. specialize (H c Hc).
      apply orb_true_iff in H as [H|H]; [|done]. apply negb_true_iff, not_true_iff_false in H.
      destruct H. apply existsb_exists. exists c. by rewrite <- list_elem_of_In, String.eqb_refl.
    - intros Hc. apply list_elem_of_In in Hc. destruct (existsb _ _) eqn:Hs; [|done].
      apply existsb_exists in Hs as (c' & Hin & ->%String.eqb_eq). apply H; [done|].
      by apply list_elem_of_In. }
  assert (validate_exp v && match Jwt.numeric_claim "exp" claims with
                            | Some exp => exp <? now - 60 | None => false end = false <->
          (validate_exp v = true -> forall exp, Jwt.numeric_claim "exp" claims = Some exp ->
             now <= exp + 60)) as Hexp.
  { destruct (validate_exp v), (Jwt.numeric_claim "exp" claims) as [e|]; simpl; try done.
    rewrite Z.ltb_ge. split; [intros H _ e' [= <-]; lia|intros H; specialize (H eq_refl e eq_refl); lia]. }
  rewrite <- Hreq, <- Hexp. destruct (forallb _ _), (_ && match _ with Some _ => _ | None => _ end);
    simpl; [naive_solver| |naive_solver..].
  destruct (validate_aud v), (Jwt.has_claim claims "aud"); simpl; naive_solver.
Qed.

(** The published format is decoded as the library documents. *)
#[export] Instance suite_jwt_laws : JwtLaws suite_jwt.
Proof.
  constructor. intros seconds token key v claims.
  cbn [jwt_decode suite jwt_alg jwt_signed jwt_claims jwt_exp jwt_has suite_jwt]. unfold Jwt.decode.
  destruct (Jwt.alg_of token) as [alg|]; simpl; [|naive_solver].
  case_bool_decide as Halg; simpl; [|naive_solver].
  destruct (Jwt.signed key token); simpl; [|naive_solver].
  destruct (Jwt.payload_of token) as [payload|]; simpl; [|naive_solver].
  destruct (Jwt.claims_of payload) as [cs|]; simpl; [|naive_solver].
  pose proof (validation_accepts seconds v payload) as Hv.
  destruct (Jwt.validate seconds v payload) as [[]|e]; simpl; naive_solver.
Qed.

End Laws.
