(* ===== verification/Codecs.v ===== *)
(** [pc-validate] and [pc-json]: the validation rules of the request guards and the JSON
    serialization profiles ([crates/pc-validate/src/lib.rs], [crates/pc-json/src/lib.rs]).

    The regular-expression engine and the JSON serializer are third-party. *)
From S2P Require Export Core.
Local Open Scope string_scope.
Local Open Scope Z_scope.
Local Open Scope rust_scope.

(** ** Validation rules *)

Definition NUMERIC : string := "^-?[0-9]+$".
Definition KEY : string := "^[-a-zA-Z0-9_-]+$".

(** [Regex::new(pattern).is_match(text)]. *)
Class RegexEngine : Type := is_match : string -> string -> bool.

Definition numeric_null_libs `{RegexEngine} (value : string) : bool :=
  is_empty value || is_match NUMERIC value.

Definition char_libs `{RegexEngine} (value : string) : bool :=
  is_empty value || is_match KEY value.

(** What the two patterns mean. *)
Definition is_digit (a : ascii) : bool := in_range 48 57 a.

Definition is_key_char (a : ascii) : bool :=
  in_range 97 122 a || in_range 65 90 a || is_digit a || (byte_of a =? 45) || (byte_of a =? 95).

Definition numeric_text (s : string) : bool :=
  let digits := match s with String a s' => if Ascii.eqb a "-" then s' else s | _ => s end in
  negb (is_empty digits) && forallb is_digit (as_bytes digits).

Definition key_text (s : string) : bool :=
  negb (is_empty s) && forallb is_key_char (as_bytes s).

(** The documented meaning of the two patterns: anchored at both ends, no multi-line mode. *)
Class RegexLaws `{RegexEngine} : Prop := {
  regex_numeric s : is_match NUMERIC s = numeric_text s;
  regex_key s : is_match KEY s = key_text s;
}.

(** An engine for exactly these two patterns. *)
#[local] Instance two_patterns : RegexEngine := fun p s =>
  if String.eqb p NUMERIC then numeric_text s
  else if String.eqb p KEY then key_text s else false.

#[local] Instance two_patterns_laws : RegexLaws.
Proof. by constructor. Qed.

(** ** JSON profiles *)

Section Json.
Context {T E : Type}.
(** [serde_json::to_vec] and [serde_json::to_vec_pretty]. *)
Context (to_vec to_vec_pretty : T -> result bytes E).

Definition marshal (v : T) : result bytes E := to_vec v.

Definition marshal_audit (v : T) : result bytes E :=
  let? buf := to_vec v in
  Ok (buf ++ [ascii_of_N 10])%list.

Definition marshal_indent (v : T) : result bytes E := to_vec_pretty v.
End Json.

(** ** Theorems *)

(** A non-blank value that passes [char_libs] is made of letters, digits, [-] and [_] only, so
    it can be pasted into a Redis key without introducing a separator, a blank or a non-ASCII
    byte; a blank value always passes. *)
Theorem char_libs_sound `{RegexEngine, !RegexLaws} value :
  char_libs value = true ->
  forallb is_key_char (as_bytes value) = true /\
  forallb (in_range 33 126) (as_bytes value) = true /\ contains_char ":" value = false.
Proof.
  unfold char_libs. rewrite regex_key. unfold key_text. intros Hv.
  assert (forallb is_key_char (as_bytes value) = true) as Hk.
  { apply orb_true_iff in Hv as [Hv|Hv]; [by destruct value|]. by apply andb_true_iff in Hv as [_ ?]. }
  split; [done|]. clear Hv. induction value as [|a s IH]; [done|]. simpl in *.
  apply andb_true_iff in Hk as [Ha Hs]. destruct (IH Hs) as [IH1 IH2]. rewrite IH1, IH2.
  rewrite andb_true_r, orb_false_r. unfold is_key_char, is_digit, in_range in *. split.
  - apply andb_true_iff. rewrite !Z.leb_le.
    repeat (apply orb_true_iff in Ha as [Ha|Ha]); zbool; lia.
  - apply Ascii.eqb_neq. intros ->. vm_compute in Ha. done.
Qed.

(** The audit profile is the default one plus one line feed, and fails exactly when it does. *)
Lemma marshal_audit_newline {T E : Type} (to_vec : T -> result bytes E) v :
  marshal_audit to_vec v =
  match marshal to_vec v with Ok b => Ok (b ++ [ascii_of_N 10])%list | Err e => Err e end.
Proof. unfold marshal_audit, marshal. by destruct (to_vec v). Qed.

(** ** Witnesses *)

Lemma char_libs_sound_witness :
  forallb is_key_char (as_bytes "a-Z_09") = true /\
  forallb (in_range 33 126) (as_bytes "a-Z_09") = true /\ contains_char ":" "a-Z_09" = false.
Proof. apply (char_libs_sound "a-Z_09"). vm_compute. done. Defined.
