(* ===== verification/Http.v ===== *)
(** [pc-http]: the response envelope, the request id and the content-type guard
    ([crates/pc-http/src/lib.rs]).

    The HTTP types, the random source, the hex codec and JSON rendering are third-party; headers
    are a map from lower-case names to the values sent under them, and a handler is an effect on
    the world [W]. The router and its
    shutdown are in [Router]. *)
From S2P Require Export Core.
Local Open Scope string_scope.
Local Open Scope Z_scope.
Local Open Scope rust_scope.

(** ** The envelope *)

Record ResponseApi (T : Type) : Type := mkResponseApi {
  code : Z;
  status : string;
  message : string;
  internal_code : string;
  data : option T;
}.
Arguments mkResponseApi {T} code status message internal_code data.
Arguments code {T} r.
Arguments status {T} r.
Arguments message {T} r.
Arguments internal_code {T} r.
Arguments data {T} r.

Definition success {T : Type} (msg : string) (d : T) : ResponseApi T :=
  mkResponseApi 200 "success" msg "" (Some d).

Definition accepted {T : Type} : ResponseApi T :=
  mkResponseApi 202 "accepted" "your request in process" "" None.

Definition bad_request {T : Type} (msg internal : string) : ResponseApi T :=
  mkResponseApi 400 "bad request" msg internal None.

Definition unauthorized {T : Type} (msg : string) : ResponseApi T :=
  mkResponseApi 401 "unauthorized" msg "" None.

Definition internal_error {T : Type} (msg : string) : ResponseApi T :=
  mkResponseApi 500 "internal server error" msg "" None.

(** A field of the JSON object [serde] writes for the envelope. *)
Inductive Field (T : Type) : Type :=
| FNum (n : Z)
| FStr (s : string)
| FData (d : T).
Arguments FNum {T} n.
Arguments FStr {T} s.
Arguments FData {T} d.

(** The derived [Serialize]: [internal_code] and [data] are skipped when empty. *)
Definition serialize {T : Type} (r : ResponseApi T) : list (string * Field T) :=
  ([("code", FNum (code r)); ("status", FStr (status r)); ("message", FStr (message r))]
   ++ (if is_empty (internal_code r) then [] else [("internal_code", FStr (internal_code r))])
   ++ match data r with Some d => [("data", FData d)] | None => [] end)%list.

(** ** Requests, responses and handlers *)

(** What a response carries: a JSON object by its fields, or text. *)
Inductive Payload (T : Type) : Type :=
| Json (fields : list (string * Field T))
| Text (text : string)
| Empty.
Arguments Json {T} fields.
Arguments Text {T} text.
Arguments Empty {T}.

Definition json_fields {T : Type} (p : Payload T) : list string :=
  match p with Json fields => map fst fields | _ => [] end.

(** The HTTP library: header values and their text, status codes, request bodies. *)
Class HttpLib : Type := {
  HeaderValue : Type;
  hv_to_str : HeaderValue -> option string;
  hv_from_str : string -> option HeaderValue;
  status_from_u16 : Z -> option Z;
  Body : Type;
  body_from : bytes -> Body;
}.

(** What the library documents about them. *)
Class HttpLaws (L : HttpLib) : Prop := {
  hv_from_to s v : hv_from_str s = Some v -> hv_to_str v = Some s;
  status_range n : 100 <= n <= 999 -> status_from_u16 n = Some n;
}.

Inductive Method : Type := GET | POST | PUT | PATCH | OtherMethod (name : string).

Section Http.
Context {L : HttpLib} {T : Type}.

Record Request : Type := mkRequest {
  uri_path : string;
  method : Method;
  headers : gmap string (list HeaderValue);
  body : Body;
}.

Record Response : Type := mkResponse {
  r_status : Z;
  r_headers : gmap string (list HeaderValue);
  r_body : Payload T;
}.

(** [HeaderMap::get] (the first value) and [HeaderMap::insert] (which replaces all). *)
Definition header_get (name : string) (hs : gmap string (list HeaderValue))
  : option HeaderValue :=
  match hs !! name with Some (v :: _) => Some v | _ => None end.

Definition header_insert (name : string) (v : HeaderValue)
  (hs : gmap string (list HeaderValue)) : gmap string (list HeaderValue) :=
  <[name := [v]]> hs.

(** [IntoResponse for ResponseApi]. *)
Definition into_response (r : ResponseApi T) : Response :=
  mkResponse (default 500 (status_from_u16 (code r))) ∅ (Json (serialize r)).

Section Effects.
Context {W : Type} (random16 : io W bytes) (hex_encode : bytes -> string).

Definition generate_request_id : io W string :=
  let! bytes := random16 in io_ret (hex_encode bytes).

Definition get_or_generate_request_id (header : option string) : io W string :=
  match header with
  | Some v => if is_empty v then generate_request_id else io_ret v
  | None => generate_request_id
  end.

(** [HexRequestId::make_request_id]. *)
Definition make_request_id : io W (option HeaderValue) :=
  let! id := generate_request_id in io_ret (hv_from_str id).

(** [next] is the rest of the stack. *)
Definition content_type_guard (request : Request) (next : Request -> io W Response)
  : io W Response :=
  let carries_body := match method request with POST | PUT | PATCH => true | _ => false end in
  let ok :=
    match header_get "content-type" (headers request) with
    | Some v =>
        match hv_to_str v with
        | Some ct => starts_with "application/json" (trim_start ct)
        | None => false
        end
    | None => false
    end in
  if carries_body && negb ok then
    io_ret (into_response
      (mkResponseApi 415 "unsupported media type" "content-type must be application/json"
         "" None))
  else next request.
End Effects.
End Http.
Arguments Request L : clear implicits.
Arguments Response L T : clear implicits.

(** ** Theorems *)

(** The transport status is the code of the envelope for every constructor of the crate, and
    the serialized object always starts with code, status and message, [internal_code] and [data]
    being present only when they say something. *)
Theorem into_response_code {L : HttpLib} {T} (laws : HttpLaws L) (r : ResponseApi T) d msg ic :
  In r [success msg d; accepted; bad_request msg ic; unauthorized msg; internal_error msg] ->
  r_status (into_response r) = code r /\
  (In "internal_code" (json_fields (r_body (into_response r))) <-> internal_code r <> "") /\
  (In "data" (json_fields (r_body (into_response r))) <-> r = success msg d).
Proof.
  intros Hin. unfold into_response; simpl r_status; simpl r_body.
  repeat (destruct Hin as [<-|Hin]); [..|destruct Hin]; simpl;
    rewrite status_range by lia; (split; [done|]);
    try (destruct ic; simpl); split; try naive_solver; split; try naive_solver;
    intros; repeat destruct_or?; done.
Qed.

(** The guard lets a request that carries a body through only when its content type starts
    with [application/json]; otherwise it answers 415 itself, whatever the handler. *)
Theorem content_type_guard_spec {L : HttpLib} {T W} (laws : HttpLaws L) (req : Request L)
    (next : Request L -> io W (Response L T)) w :
  In (method req) [POST; PUT; PATCH] ->
  (forall v ct, header_get "content-type" (headers req) = Some v -> hv_to_str v = Some ct ->
     starts_with "application/json" (trim_start ct) = false) ->
  exists resp, r_status resp = 415 /\
    content_type_guard req next w = (resp, w).
Proof.
  intros Hm Hct. unfold content_type_guard. eexists. split; cycle 1.
  - assert (match method req with POST | PUT | PATCH => true | _ => false end = true) as ->
      by (repeat (destruct Hm as [<-|Hm]); done).
    destruct (header_get "content-type" (headers req)) as [v|]; [|done].
    destruct (hv_to_str v) as [ct|] eqn:Ht; [|done]. by rewrite (Hct v ct eq_refl Ht).
  - simpl. by rewrite status_range by lia.
Qed.

(** ** Witnesses *)

(** Header values that are all text, bodies held in memory. *)
Definition text_http : HttpLib := {|
  HeaderValue := string;
  hv_to_str := Some;
  hv_from_str := Some;
  status_from_u16 := fun n => if (100 <=? n) && (n <=? 999) then Some n else None;
  Body := bytes;
  body_from := fun b => b;
|}.

#[export] Instance text_http_laws : HttpLaws text_http.
Proof.
  constructor; simpl.
  - congruence.
  - intros n [H1 H2]. apply Z.leb_le in H1, H2. by rewrite H1, H2.
Qed.

Lemma into_response_code_witness :
  r_status (into_response (L := text_http) (T := nat) (unauthorized "token invalid")) = 401.
Proof.
  destruct (into_response_code (L := text_http) (T := nat) text_http_laws
    (unauthorized "token invalid") 0%nat "token invalid" "") as [H _]; [|exact H].
  simpl. tauto.
Defined.

Definition form_post : Request text_http :=
  mkRequest (L := text_http) "/metrics" POST {["content-type" := ["text/plain"]]} [].

Lemma content_type_guard_spec_witness :
  exists resp, r_status resp = 415 /\
    content_type_guard (T := nat) form_post (fun _ => io_ret (mkResponse 200 ∅ Empty)) tt = (resp, tt).
Proof.
  apply content_type_guard_spec; [exact text_http_laws|simpl; tauto|].
  intros v ct [= <-] [= <-]. vm_compute. done.
Defined.
