(* ===== verification/Auth.v ===== *)
(** [pc-auth]: the CSRF, token-revocation and idempotency middleware
    ([crates/pc-auth/src/lib.rs]).

    A middleware is a function of the request and of [next], the rest of the stack, over a world
    [W] that holds Redis, the clock, the random source and whatever the handler touches. It is a
    client of [RedisStore], of [pc-snapbi]'s JWT check, of [pc-http]'s envelope and of the
    [pc-validate] rules. *)
From S2P Require Export Redis Snapbi Codecs Http.
Local Open Scope string_scope.
Local Open Scope Z_scope.
Local Open Scope rust_scope.

Definition REVOKED_STATUSES : list Z := [3; 4; 7].

(** The third-party code of this crate: MD5, [serde_json] values, [time] parsing, the clock, the
    random source and the reading of a request body. *)
Class AuthLib (W : Type) {C : Crypto} {L : HttpLib} : Type := {
  md5 : bytes -> bytes;
  value_from_slice : bytes -> result JsonValue string;
  value_from_str : string -> result JsonValue string;
  value_string : string -> JsonValue;
  revoke_from_str : string -> result Z string;
  as_i64 : JsonValue -> option Z;
  as_u64 : JsonValue -> option Z;
  as_f64 : JsonValue -> option spec_float;
  as_str : JsonValue -> option string;
  parse_datetime : string -> option Z;
  now_utc : io W Z;
  unix_time : io W Z;
  random16 : io W bytes;
  to_bytes : Body -> Z -> io W (result bytes string);
}.

(** ** Request helpers *)

Section Helpers.
Context {W : Type} {C : Crypto} {L : HttpLib} {A : AuthLib W}.

Definition header (request : Request L) (name : string) : string :=
  match header_get name (headers request) with
  | Some v => default "" (hv_to_str v)
  | None => ""
  end.

Definition with_headers (request : Request L) (hs : gmap string (list HeaderValue))
  : Request L := mkRequest (uri_path request) (method request) hs (body request).

(** The request comes back with its id in [x-request-id]. *)
Definition ensure_request_id (request : Request L) : io W (string * Request L) :=
  let! id := get_or_generate_request_id random16 hex_encode
               (match header_get "x-request-id" (headers request) with
                | Some v => hv_to_str v | None => None end) in
  io_ret (id, match hv_from_str id with
              | Some value => with_headers request
                                (header_insert "x-request-id" value (headers request))
              | None => request
              end).

Definition with_request_id {T : Type} (response : Response L T) (request_id : string)
  : Response L T :=
  match hv_from_str request_id with
  | Some value => mkResponse (r_status response)
                    (header_insert "x-request-id" value (r_headers response)) (r_body response)
  | None => response
  end.

Definition parse_go_datetime (value : string) : option Z := parse_datetime value.

(** [f64_to_i64] on the IEEE value: zero, or a finite [(-1)^s * m * 2^e] that is integral and
    within the converted bounds [-2^63 .. 2^63]; the cast saturates at [i64::MAX]. *)
Definition f64_to_i64 (value : spec_float) : option Z :=
  match value with
  | S754_zero _ => Some 0
  | S754_finite s m e =>
      let integral := (0 <=? e) || (Z.rem (Zpos m) (2 ^ (- e)) =? 0) in
      let magnitude := if 0 <=? e then Zpos m * 2 ^ e else Zpos m / 2 ^ (- e) in
      let n := if s then - magnitude else magnitude in
      if integral && (I64_MIN <=? n) && (n <=? 2 ^ 63) then Some (Z.min n I64_MAX) else None
  | S754_infinity _ | S754_nan => None
  end.

Definition or_else {B : Type} (a b : option B) : option B :=
  match a with Some x => Some x | None => b end.

Definition merchant_id (extra : gmap string JsonValue) : option Z :=
  match extra !! "MerchantId" with
  | None => None
  | Some value =>
      or_else (as_i64 value)
        (or_else (match as_u64 value with Some v => try_from I64_MIN I64_MAX v | None => None end)
           (or_else (match as_f64 value with Some v => f64_to_i64 v | None => None end)
              (match as_str value with Some v => parse_i64 v | None => None end)))
  end.

(** ** Idempotency key *)

Definition idempotency_key (body : bytes) : result string JsonMinifyError :=
  let? minified := json_minify json_valid body in
  Ok (hex_encode (md5 minified)).

Definition verify_idempotency_key (submitted : string) (body : bytes)
  : result bool JsonMinifyError :=
  let? k := idempotency_key body in
  Ok (String.eqb submitted k).
End Helpers.

Definition JsonMinifyError_to_string (e : JsonMinifyError) : string :=
  match e with Compact msg => "failure encountered compacting json := " +:+ msg end.

(** ** Middleware *)

Record AuthState : Type := mkAuthState { public_key_pem : string }.

Section Middleware.
Context {W : Type} {C : Crypto} {L : HttpLib} {A : AuthLib W} `{RegexEngine}.
Context {RS : RedisStore W JsonValue}.
Abbreviation Handler := (Request L -> io W (Response L JsonValue)).

Definition reply (id : string) (r : ResponseApi JsonValue) : io W (Response L JsonValue) :=
  io_ret (with_request_id (into_response r) id).

Definition run_next (id : string) (next : Handler) (request : Request L)
  : io W (Response L JsonValue) :=
  let! response := next request in io_ret (with_request_id response id).

(** The shape every token and key of these headers must have. *)
Definition bad_token (token : string) : bool :=
  is_empty token || (50 <? Z.of_nat (String.length token)) || negb (char_libs token).

Definition verify_csrf (request : Request L) (next : Handler) : io W (Response L JsonValue) :=
  let! (request_id, request) := ensure_request_id request in
  let token := header request "x-xsrf-token" in
  if bad_token token then reply request_id (bad_request "invalid validation" "")
  else
    let! found := rs_get (csrf_key token) in
    match found with
    | Ok (Some _) => run_next request_id next request
    | Ok None => reply request_id (unauthorized "token invalid")
    | Err err => reply request_id (internal_error (RedisError_to_string err))
    end.

Definition revoke_token (state : AuthState) (request : Request L) (next : Handler)
  : io W (Response L JsonValue) :=
  let! (request_id, request) := ensure_request_id request in
  let auth := header request "authorization" in
  match strip_prefix "Bearer " auth with
  | None =>
      reply request_id (unauthorized
        (if count_words false (as_bytes auth) =? 2
         then "authorization token type does not match"
         else "invalid authorization token"))
  | Some token =>
  let! seconds := unix_time in
  match verify_jwt_rs256 seconds (public_key_pem state) token with
  | Err _ =>
      reply request_id (unauthorized "authorization token credentials do not match")
  | Ok claims =>
  match parse_go_datetime (expired claims) with
  | None => reply request_id (unauthorized "invalid authorization token credentials")
  | Some expired =>
  let! now := now_utc in
  if expired <? now then reply request_id (unauthorized "authorization token has expired")
  else
  match merchant_id (extra claims) with
  | None => reply request_id (unauthorized "invalid authorization token merchant")
  | Some mid =>
  let! found := rs_get (revoke_token_key mid) in
  match found with
  | Ok None => run_next request_id next request
  | Ok (Some raw) =>
      match revoke_from_str raw with
      | Ok status =>
          if existsb (Z.eqb status) REVOKED_STATUSES then
            reply request_id
              (mkResponseApi 401 "unauthorized" "revoke jwt token" (show_Z status) None)
          else run_next request_id next request
      | Err err => reply request_id (internal_error err)
      end
  | Err err => reply request_id (internal_error (RedisError_to_string err))
  end
  end
  end
  end
  end.

(** The [session] header as a number of seconds, or [None] when it is refused. *)
Definition session_seconds (session_raw : string) : option Z :=
  if negb (is_empty session_raw)
     && ((60 <? Z.of_nat (String.length session_raw)) || negb (numeric_null_libs session_raw))
  then None
  else
    let session :=
      if is_empty session_raw || String.eqb session_raw "0" then Some 9
      else match parse_i64 session_raw with
           | Some value =>
               if 4 <=? value then Some (default 9 (try_from 0 U64_MAX value)) else Some 9
           | None => None
           end in
    option_map (fun s => if s <? 4 then 9 else s) session.

(** [serde_json::from_str(&cached).unwrap_or(Value::String(cached))]. *)
Definition cached_value (cached : string) : JsonValue :=
  match value_from_str cached with
  | Ok v => v
  | Err _ => value_string cached
  end.

Definition BODY_LIMIT : Z := 2 * 1024 * 1024.

Definition verify_idempotency (request : Request L) (next : Handler)
  : io W (Response L JsonValue) :=
  let! (request_id, request) := ensure_request_id request in
  let key := header request "idempotency-key" in
  let session_raw := header request "session" in
  if bad_token key then
    reply request_id (bad_request "invalid idempotency key format" "IDEM_INVALID_FORMAT")
  else
  match session_seconds session_raw with
  | None => reply request_id (bad_request "invalid session header format" "IDEM_INVALID_SESSION")
  | Some session =>
  if negb (starts_with "application/json" (header request "content-type")) then
    reply request_id (bad_request "idempotency requires application/json" "IDEM_INVALID_BODY")
  else
  let! read := to_bytes (body request) BODY_LIMIT in
  match read with
  | Err err => reply request_id (internal_error err)
  | Ok bytes =>
  match value_from_slice bytes with
  | Err err => reply request_id (bad_request err "IDEM_INVALID_BODY")
  | Ok value =>
  match verify_idempotency_key key bytes with
  | Ok false =>
      reply request_id
        (bad_request "idempotency key does not match request body" "IDEM_KEY_MISMATCH")
  | Err err =>
      reply request_id (bad_request (JsonMinifyError_to_string err) "IDEM_INVALID_BODY")
  | Ok true =>
  let! found := rs_get key in
  match found with
  | Ok (Some cached) =>
      reply request_id
        (mkResponseApi 202 "accepted" "your request in process" "" (Some (cached_value cached)))
  | Ok None =>
      let! stored := rs_store key value (from_secs session) in
      match stored with
      | Err err => reply request_id (internal_error (RedisError_to_string err))
      | Ok tt =>
          run_next request_id next
            (mkRequest (uri_path request) (method request) (headers request) (body_from bytes))
      end
  | Err err => reply request_id (internal_error (RedisError_to_string err))
  end
  end
  end
  end
  end.
End Middleware.

(** ** What a middleware does with a request

    [refused]: it answers by itself with status [c], whatever the handler is, and leaves Redis as
    it was. [admitted]: it runs the handler, on the same request up to the request id, and Redis
    then holds [live']. *)
Section Verdicts.
Context {W : Type} {L : HttpLib} {T : Type} (live : string -> W -> option string).

Definition same_but_id (r1 r2 : Request L) : Prop :=
  method r2 = method r1 /\
  forall name, name <> "x-request-id" -> headers r2 !! name = headers r1 !! name.

Definition refused (m : (Request L -> io W (Response L T)) -> io W (Response L T)) (w : W)
  (c : Z) : Prop :=
  exists resp w', r_status resp = c /\ (forall k, live k w' = live k w) /\
    forall next, m next w = (resp, w').

(** Same, when the failed write of [key] may or may not have reached Redis. *)
Definition refused_writing (key : string)
  (m : (Request L -> io W (Response L T)) -> io W (Response L T)) (w : W) (c : Z) : Prop :=
  exists resp w', r_status resp = c /\ (forall k, k <> key -> live k w' = live k w) /\
    forall next, m next w = (resp, w').

Definition admitted (m : (Request L -> io W (Response L T)) -> io W (Response L T)) (w : W)
  (req : Request L) (live' : string -> option string) : Prop :=
  exists id req' w', same_but_id req req' /\ (forall k, live k w' = live' k) /\
    forall next, m next w = (let '(resp, w'') := next req' w' in
                             (with_request_id resp id, w'')).
End Verdicts.

(** The effects of the library leave Redis alone. *)
Class AuthFrame {W : Type} {C : Crypto} {L : HttpLib} (A : AuthLib W)
  (live : string -> W -> option string) : Prop := {
  frame_random w k : live k (random16 w).2 = live k w;
  frame_now w k : live k (now_utc w).2 = live k w;
  frame_unix w k : live k (unix_time w).2 = live k w;
  frame_body b n w k : live k (to_bytes b n w).2 = live k w;
}.

(** A bearer token the guard believes: an RS256 token signed by the key, whose numeric [exp], if it
    has one, is at most a minute past at [seconds]. *)
Definition authentic {C : Crypto} {J : JsonWebToken C} (pem token : string) (seconds : Z) : bool :=
  match from_rsa_pem pem with
  | Ok key =>
      bool_decide (jwt_alg token = Some RS256) && jwt_signed key token
      && match jwt_exp token with Some exp => seconds <=? exp + 60 | None => true end
  | Err _ => false
  end.

(** What the revocation guard promises, as a function of the [Authorization] header, the two clock
    readings (seconds for the token, an instant for its [Expired] claim) and the revocation records:
    the status it refuses with, or [None] when the handler runs. *)
Definition revoke_verdict {W : Type} {C : Crypto} {J : JsonWebToken C} {L : HttpLib} {A : AuthLib W}
  (pem auth : string) (seconds now : Z) (record : string -> option string) : option Z :=
  match strip_prefix "Bearer " auth with
  | None => Some 401
  | Some token =>
      if negb (authentic pem token seconds) then Some 401 else
      match jwt_claims token with
      | None => Some 401
      | Some claims =>
          match parse_go_datetime (expired claims), merchant_id (extra claims) with
          | Some deadline, Some mid =>
              if deadline <? now then Some 401
              else match revoke_from_str <$> record (revoke_token_key mid) with
                   | None => None
                   | Some (Ok status) => if bool_decide (status ∈ [3; 4; 7]) then Some 401 else None
                   | Some (Err _) => Some 500
                   end
          | _, _ => Some 401
          end
      end
  end.

(** ** Lemmas *)

Section Lemmas.
Context {W : Type} {C : Crypto} {L : HttpLib} {A : AuthLib W} {RE : RegexEngine}.
Context {RS : RedisStore W JsonValue} {json : JsonValue -> string}.
Context {live : string -> W -> option string}.
Context {http_laws : HttpLaws L} {frame : AuthFrame A live}.
Context {redis_laws : RedisStoreLaws W JsonValue json live}.
#[local] Set Default Proof Using "Type*".

Lemma ensure_request_id_spec (req : Request L) w :
  exists id req' w', ensure_request_id req w = ((id, req'), w') /\ same_but_id req req' /\
    body req' = body req /\ forall k, live k w' = live k w.
Proof.
  unfold ensure_request_id, io_bind, io_ret.
  assert (forall h, exists id w', get_or_generate_request_id random16 hex_encode h w = (id, w') /\
            forall k, live k w' = live k w) as Hgen.
  { intros h. assert (exists id w', generate_request_id random16 hex_encode w = (id, w') /\
      forall k, live k w' = live k w) as Hnew.
    { unfold generate_request_id, io_bind, io_ret. pose proof (frame_random w) as Hf.
      destruct (random16 w) as [b w1]. eauto. }
    unfold get_or_generate_request_id, io_ret.
    destruct h as [v|]; [|done]. destruct (is_empty v); eauto. }
  destruct (Hgen (match header_get "x-request-id" (headers req) with
                  | Some v => hv_to_str v | None => None end)) as (id & w1 & -> & Hw).
  do 3 eexists. split; [reflexivity|].
  destruct (hv_from_str id); (split; [split; [done|]|done]); [|done].
  intros name Hn. unfold with_headers, header_insert. simpl. by rewrite lookup_insert_ne.
Qed.

Lemma same_header req req' name :
  same_but_id req req' -> name <> "x-request-id" -> header req' name = header req name.
Proof. intros [_ Hh] Hn. unfold header, header_get. by rewrite Hh. Qed.

Lemma reply_status id r :
  100 <= code r <= 999 ->
  r_status (with_request_id (into_response (T := JsonValue) r) id) = code r.
Proof using http_laws.
  intros Hc. unfold with_request_id, into_response. rewrite (status_range _ Hc).
  by destruct (hv_from_str id).
Qed.

(** A middleware that answers now is a refusal. *)
Lemma refused_reply m w id r w1 :
  100 <= code r <= 999 -> (forall k, live k w1 = live k w) ->
  (forall next, m next w = reply id r w1) -> refused live m w (code r).
Proof. intros Hc Hw Hm. exists (with_request_id (into_response r) id), w1. by rewrite reply_status. Qed.

Lemma refused_writing_reply key m w id r w1 :
  100 <= code r <= 999 -> (forall k, k <> key -> live k w1 = live k w) ->
  (forall next, m next w = reply id r w1) -> refused_writing live key m w (code r).
Proof. intros Hc Hw Hm. exists (with_request_id (into_response r) id), w1. by rewrite reply_status. Qed.

Lemma admitted_next m w id req req' w1 live' :
  same_but_id req req' -> (forall k, live k w1 = live' k) ->
  (forall next, m next w = run_next id next req' w1) -> admitted live m w req live'.
Proof. intros Hr Hw Hm. exists id, req', w1. split_and!; [done..|]. exact Hm. Qed.

Lemma session_seconds_bounds s n : session_seconds s = Some n -> 4 <= n.
Proof.
  unfold session_seconds. destruct (_ && _); [done|].
  intros (m & _ & ->)%fmap_Some. destruct (Z.ltb_spec m 4); lia.
Qed.

Lemma rs_get_run k w :
  exists r w', rs_get k w = (r, w') /\ (forall k', live k' w' = live k' w) /\
    match r with Ok v => v = live k w | Err _ => True end.
Proof.
  destruct (rs_get k w) as [r w'] eqn:E. exists r, w'. split; [done|]. split.
  - intros k'. by eapply rs_get_frame.
  - destruct r; [by eapply rs_get_live|done].
Qed.
End Lemmas.

(** Evaluate a middleware up to the request with its id. *)
Ltac with_id req w :=
  let id := fresh "id" in let req' := fresh "req'" in let w1 := fresh "w1" in
  let E := fresh "E" in
  destruct (ensure_request_id_spec req w) as (id & req' & w1 & E & Hsame & Hbody & Hw1);
  let Hh := fresh "Hh" in
  pose proof (fun name => same_header req req' name Hsame) as Hh.

(** Follow the branch the hypotheses select: every scrutinee they determine is rewritten. *)
Ltac follow :=
  repeat match goal with
  | H : ?x = _ |- context [match ?x with _ => _ end] => rewrite H
  end.

(** The run of middleware [m] on every handler, given [ensure_request_id_spec]'s equation [E] and
    the header equations [Hh]. *)
Ltac run_middleware m E Hh :=
  intros next; unfold m, io_bind; rewrite E; rewrite !Hh by done; follow; try done.

(** Refuse with envelope [r] in state [w1]. *)
Tactic Notation "refuse" uconstr(r) "at" constr(w1) "by" constr(m) hyp(E) hyp(Hh) :=
  eapply (refused_reply _ _ _ r w1); [simpl; lia|done|run_middleware m E Hh].

Section Theorems.
Context {W : Type} {C : Crypto} {L : HttpLib} {A : AuthLib W} {RE : RegexEngine}.
Context {RS : RedisStore W JsonValue} {json : JsonValue -> string}.
Context {live : string -> W -> option string}.

(** C13: The CSRF guard lets a request through only when its token is well formed and known to
    Redis, and then runs the handler on it with Redis untouched; a malformed token is 400, an
    unknown one 401, and a Redis error 500. *)
Theorem verify_csrf_gate (http_laws : HttpLaws L) (frame : AuthFrame A live)
    (redis_laws : RedisStoreLaws W JsonValue json live) (req : Request L) w :
  let token := header req "x-xsrf-token" in
  if bad_token token then refused live (verify_csrf req) w 400
  else
    refused live (verify_csrf req) w 500 /\
      (exists w1 e w2, rs_get (csrf_key token) w1 = (Err e, w2)) \/
    match live (csrf_key token) w with
    | Some _ => admitted live (verify_csrf req) w req (fun k => live k w)
    | None => refused live (verify_csrf req) w 401
    end.
Proof.
  cbv zeta. with_id req w. destruct (bad_token (header req "x-xsrf-token")) eqn:Hbad.
  { refuse (bad_request "invalid validation" "") at w1 by (@verify_csrf) E Hh. }
  destruct (rs_get_run (csrf_key (header req "x-xsrf-token")) w1) as (r & w2 & Hg & Hw2 & Hr).
  assert (forall k, live k w2 = live k w) as Hw by (intros k; by rewrite Hw2).
  destruct r as [[v|]|err].
  - right. rewrite <- (Hw1 (csrf_key _)), <- Hr.
    eapply (admitted_next _ _ id _ req' w2); [done..|]. run_middleware (@verify_csrf) E Hh.
  - right. rewrite <- (Hw1 (csrf_key _)), <- Hr.
    refuse (unauthorized "token invalid") at w2 by (@verify_csrf) E Hh.
  - left. split; [|by eauto].
    refuse (internal_error (RedisError_to_string err)) at w2 by (@verify_csrf) E Hh.
Qed.

Lemma revoked_statuses_in status :
  existsb (Z.eqb status) REVOKED_STATUSES = bool_decide (status ∈ [3; 4; 7]).
Proof.
  apply eq_bool_prop_intro. rewrite bool_decide_spec, Is_true_true, existsb_exists.
  change REVOKED_STATUSES with [3; 4; 7].
  split; [intros (x & Hx & ->%Z.eqb_eq); by apply list_elem_of_In|].
  intros Hx. exists status. split; [by apply list_elem_of_In|apply Z.eqb_refl].
Qed.

(** The token check, without the library's [decode]. *)
Lemma verify_jwt_authentic {J : JsonWebToken C} (jwt_laws : JwtLaws J) seconds pem token :
  res_ok (verify_jwt_rs256 seconds pem token) =
    if authentic pem token seconds then jwt_claims token else None.
Proof.
  unfold verify_jwt_rs256, authentic. destruct (from_rsa_pem pem) as [key|e]; [|done]. simpl.
  set (v := mkValidation RS256 true false []).
  pose proof (fun claims => jwt_decode_ok (JwtLaws := jwt_laws) seconds token key v claims) as H. simpl in H.
  destruct (jwt_decode seconds token key v) as [claims|e]; simpl.
  - destruct (proj1 (H claims) eq_refl) as (Ha & Hs & Hc & _ & He & _).
    rewrite Ha, Hs, Hc, bool_decide_eq_true_2 by done. simpl.
    destruct (jwt_exp token) as [exp|]; [|done]. rewrite (proj2 (Z.leb_le _ _)); [done|by apply He].
  - destruct (bool_decide _ && _ && _) eqn:Hall; [|done].
    apply andb_true_iff in Hall as [[Ha%bool_decide_eq_true Hs]%andb_true_iff He].
    destruct (jwt_claims token) as [claims|] eqn:Hc; [|done].
    enough (Err e = Ok claims) by done. apply H. split_and!; try done.
    + intros c Hin. by apply elem_of_nil in Hin.
    + intros _ exp Hexp. rewrite Hexp in He. by apply Z.leb_le.
Qed.

(** C9: The revocation guard implements [revoke_verdict]: the handler runs exactly when the bearer
    token is RS256, its signature verifies, its numeric [exp] (if any) is at most the library's
    minute past, its [Expired] claim is not past, it names a merchant, and that merchant's
    revocation record is absent or carries none of the statuses 3, 4 and 7; every other request is
    answered 401, or 500 for a record that cannot be read, without the handler. The exception is a
    Redis error, a 500. *)
Theorem revoke_token_gate {J : JsonWebToken C} (jwt_laws : JwtLaws J) (http_laws : HttpLaws L) (frame : AuthFrame A live)
    (redis_laws : RedisStoreLaws W JsonValue json live) state (req : Request L) w :
  let guard := revoke_token state req in
  let '(seconds, w1) := unix_time (ensure_request_id req w).2 in
  let now := (now_utc w1).1 in
  refused live guard w 500 /\ (exists mid w1 e w2, rs_get (revoke_token_key mid) w1 = (Err e, w2)) \/
  match revoke_verdict (public_key_pem state) (header req "authorization") seconds now
          (fun k => live k w) with
  | Some status => refused live guard w status
  | None => admitted live guard w req (fun k => live k w)
  end.
Proof.
  cbv zeta. with_id req w. rewrite E. cbn [snd]. unfold revoke_verdict.
  pose proof (frame_unix w1) as Hunix. destruct (unix_time w1) as [seconds w1'] eqn:Eunix. cbn [snd] in Hunix.
  assert (forall k, live k w1' = live k w) as Hw1' by (intros k; by rewrite Hunix).
  destruct (strip_prefix "Bearer " (header req "authorization")) as [token|] eqn:Htok;
    [|right; refuse (unauthorized _) at w1 by (@revoke_token) E Hh].
  pose proof (verify_jwt_authentic jwt_laws seconds (public_key_pem state) token) as Hauth.
  destruct (verify_jwt_rs256 seconds (public_key_pem state) token) as [claims|] eqn:Hjwt; simpl in Hauth; cycle 1.
  { right. destruct (authentic _ _ _); simpl; rewrite <- ?Hauth;
      refuse (unauthorized _) at w1' by (@revoke_token) E Hh. }
  destruct (authentic _ _ _); [|done]. rewrite <- Hauth. simpl.
  destruct (parse_go_datetime (expired claims)) as [deadline|] eqn:Hexp;
    [|right; refuse (unauthorized _) at w1' by (@revoke_token) E Hh].
  pose proof (frame_now w1') as Hnow. destruct (now_utc w1') as [now w2] eqn:Enow. cbn [fst snd] in *.
  assert (forall k, live k w2 = live k w) as Hw2 by (intros k; by rewrite Hnow).
  destruct (deadline <? now) eqn:Hlate.
  { right. destruct (merchant_id (extra claims)); refuse (unauthorized _) at w2 by (@revoke_token) E Hh. }
  destruct (merchant_id (extra claims)) as [mid|] eqn:Hmid;
    [|right; refuse (unauthorized _) at w2 by (@revoke_token) E Hh].
  destruct (rs_get_run (revoke_token_key mid) w2) as (r & w3 & Hg & Hw3 & Hr).
  assert (forall k, live k w3 = live k w) as Hw by (intros k; by rewrite Hw3).
  destruct r as [found|err];
    [|left; split; [refuse (internal_error _) at w3 by (@revoke_token) E Hh|by eauto]].
  right. rewrite Hw2 in Hr. rewrite <- Hr.
  destruct found as [raw|]; cbn [fmap option_fmap option_map];
    [|eapply (admitted_next _ _ id _ req' w3); [done..|]; run_middleware (@revoke_token) E Hh].
  destruct (revoke_from_str raw) as [status|err] eqn:Hst;
    [|refuse (internal_error _) at w3 by (@revoke_token) E Hh].
  rewrite <- revoked_statuses_in. destruct (existsb (Z.eqb status) REVOKED_STATUSES) eqn:Hrev.
  - refuse (mkResponseApi 401 _ _ _ None) at w3 by (@revoke_token) E Hh.
  - eapply (admitted_next _ _ id _ req' w3); [done..|]. run_middleware (@revoke_token) E Hh.
Qed.

(** Some operation on [key] answers with an error. *)
Definition redis_failed (key : string) : Prop :=
  (exists w1 e w2, rs_get key w1 = (Err e, w2)) \/
  (exists value ttl w1 e w2, rs_store key value ttl w1 = (Err e, w2)).

(** The guard's comparison is with the digest of the compact body. *)
Lemma verify_idempotency_key_digest key bytes :
  verify_idempotency_key key bytes =
    match idempotency_key bytes with Ok k => Ok (String.eqb key k) | Err e => Err e end.
Proof. done. Qed.

(** A successful store of at least four seconds, the shortest session, writes its key and nothing else. *)
Lemma rs_store_lives (redis_laws : RedisStoreLaws W JsonValue json live) key value session w w' :
  4 <= session -> rs_store key value (from_secs session) w = (Ok tt, w') ->
  forall k, live k w' = if decide (k = key) then Some (json value) else live k w.
Proof.
  intros Hpos Hst k. destruct (decide (k = key)) as [->|Hne]; [|by eapply rs_store_frame].
  eapply rs_store_live; [|exact Hst]. unfold from_secs, NANOS. lia.
Qed.

(** The header checks of the idempotency guard. *)
Definition idem_headers_ok (req : Request L) : bool :=
  negb (bad_token (header req "idempotency-key"))
  && match session_seconds (header req "session") with Some _ => true | None => false end
  && starts_with "application/json" (header req "content-type").

(** C10: The idempotency guard runs the handler at most once while an entry lives: with a live
    entry it answers 202 with the cached body and the handler is not run; without one, it first
    stores the body under the key, then runs the handler. The key must be the digest of the
    compact body, malformed requests are 400, and unreadable bodies or Redis errors, and nothing
    else, 500. *)
Theorem verify_idempotency_gate (http_laws : HttpLaws L) (frame : AuthFrame A live)
    (redis_laws : RedisStoreLaws W JsonValue json live) (req : Request L) w :
  let key := header req "idempotency-key" in
  if negb (idem_headers_ok req) then refused live (verify_idempotency req) w 400
  else exists w1 read w2, to_bytes (body req) BODY_LIMIT w1 = (read, w2) /\
    match read with
    | Err _ => refused live (verify_idempotency req) w 500
    | Ok bytes =>
        match value_from_slice bytes, idempotency_key bytes with
        | Ok value, Ok k =>
            if negb (String.eqb key k) then refused live (verify_idempotency req) w 400
            else
              refused_writing live key (verify_idempotency req) w 500 /\ redis_failed key \/
              match live key w with
              | Some cached => exists id w', (forall k, live k w' = live k w) /\
                  forall next, verify_idempotency req next w =
                    reply id (mkResponseApi 202 "accepted" "your request in process" ""
                                (Some (cached_value cached))) w'
              | None => admitted live (verify_idempotency req) w req
                          (fun k => if decide (k = key) then Some (json value) else live k w)
              end
        | _, _ => refused live (verify_idempotency req) w 400
        end
    end.
Proof.
  cbv zeta. unfold idem_headers_ok. with_id req w.
  destruct (bad_token (header req "idempotency-key")) eqn:Hbad; simpl.
  { refuse (bad_request _ _) at w1 by (@verify_idempotency) E Hh. }
  destruct (session_seconds (header req "session")) as [session|] eqn:Hs; simpl;
    [|refuse (bad_request _ _) at w1 by (@verify_idempotency) E Hh].
  destruct (starts_with _ (header req "content-type")) eqn:Hct0; simpl;
    (apply (f_equal negb) in Hct0 as Hct; simpl in Hct);
    [|refuse (bad_request _ _) at w1 by (@verify_idempotency) E Hh].
  rewrite <- Hbody. pose proof (frame_body (body req') BODY_LIMIT w1) as Hfr.
  destruct (to_bytes (body req') BODY_LIMIT w1) as [read w2] eqn:Hread. simpl in Hfr.
  assert (forall k, live k w2 = live k w) as Hw2 by (intros k; by rewrite Hfr).
  exists w1, read, w2. split; [done|].
  destruct read as [bytes|err];
    [|refuse (internal_error _) at w2 by (@verify_idempotency) E Hh].
  destruct (value_from_slice bytes) as [value|err] eqn:Hval;
    [|refuse (bad_request _ _) at w2 by (@verify_idempotency) E Hh].
  pose proof (verify_idempotency_key_digest (header req "idempotency-key") bytes) as Hvk.
  destruct (idempotency_key bytes) as [k|err];
    [|refuse (bad_request _ _) at w2 by (@verify_idempotency) E Hh].
  destruct (String.eqb (header req "idempotency-key") k); simpl;
    [|refuse (bad_request _ _) at w2 by (@verify_idempotency) E Hh].
  destruct (rs_get_run (header req "idempotency-key") w2) as (r & w3 & Hg & Hw3 & Hr).
  assert (forall k, live k w3 = live k w) as Hw by (intros k'; by rewrite Hw3).
  destruct r as [found|err]; cycle 1.
  { left. split; [|by left; eauto].
    apply (refused_writing_reply _ _ _ id (internal_error (RedisError_to_string err)) w3);
      [simpl; lia|done|]. run_middleware (@verify_idempotency) E Hh. }
  rewrite Hw2 in Hr. rewrite <- Hr. destruct found as [cached|].
  { right. exists id, w3. split; [done|]. run_middleware (@verify_idempotency) E Hh. }
  pose proof (session_seconds_bounds _ _ Hs) as Hpos.
  destruct (rs_store (header req "idempotency-key") value (from_secs session) w3) as [stored w4] eqn:Hst.
  destruct stored as [[]|err]; cycle 1.
  { left. split; [|by right; eauto 7].
    apply (refused_writing_reply _ _ _ id (internal_error (RedisError_to_string err)) w4);
      [simpl; lia|intros k' Hk'; rewrite <- Hw; by eapply rs_store_frame|].
    run_middleware (@verify_idempotency) E Hh. }
  right. eapply (admitted_next _ _ id _
    (mkRequest (uri_path req') (method req') (headers req') (body_from bytes)) w4); [by destruct Hsame| |].
  - intros k'. rewrite (rs_store_lives redis_laws _ _ _ _ _ Hpos Hst). case_decide; [done|apply Hw].
  - run_middleware (@verify_idempotency) E Hh.
Qed.
End Theorems.

(** ** Witnesses

    Redis in memory, a stopped clock, an all-zero random source, a request body held in memory. *)

Definition mem : Type := gmap string string.

#[export] Instance memory_auth : AuthLib mem (C := toy_crypto) (L := text_http) := {|
  md5 b := b;
  value_from_slice b := Ok (length b);
  value_from_str s := Ok (String.length s);
  value_string s := String.length s;
  revoke_from_str s := ok_or (parse_i64 s) "not a number";
  as_i64 v := Some (Z.of_nat v);
  as_u64 v := None; as_f64 v := None; as_str v := None;
  parse_datetime s := Some 100;
  now_utc := fun w => (50, w);
  unix_time := fun w => (161, w);
  random16 := fun w => (replicate 16 zero, w);
  to_bytes := fun (b : @Body text_http) _ w => (Ok b, w);
|}.

Definition mem_live (k : string) (w : mem) : option string := w !! k.

#[export] Instance memory_frame : AuthFrame memory_auth mem_live.
Proof. by constructor. Qed.

Definition nat_json (v : nat) : string := show_Z (Z.of_nat v).

#[export] Instance memory_store : RedisStore mem (@JsonValue toy_crypto) :=
  pool_store no_env memory_exec (fun v : nat => Ok (nat_json v)).

#[export] Instance memory_store_laws : RedisStoreLaws mem (@JsonValue toy_crypto) nat_json mem_live.
Proof. apply (pool_store_laws no_env memory_exec (fun v : nat => Ok (nat_json v)) mem_live). done. Qed.

#[export] Existing Instance two_patterns.

(** The in-memory server answers every command. *)
Lemma memory_never_fails key : ~ redis_failed (W := mem) (C := toy_crypto) key.
Proof.
  intros [(w & e & w' & H)|(v & ttl & w & e & w' & H)];
    unfold rs_get, rs_store, memory_store, pool_store, get, store, run, memory_exec in H; simpl in H.
  - discriminate.
  - unfold store_cmd in H. by destruct (_ =? 0) in H.
Qed.

(** Requests of the witnesses: a CSRF token, a bearer token, an idempotent write of [{}]. *)
Definition csrf_request : Request text_http :=
  mkRequest (L := text_http) "/" POST {["x-xsrf-token" := ["tok"]]} [].
Definition bearer_request : Request text_http :=
  mkRequest (L := text_http) "/" GET {["authorization" := ["Bearer ok"]]} [].
Definition idem_key : string := default "" (res_ok (idempotency_key (A := memory_auth) (as_bytes "1"))).
Definition idem_request : Request text_http :=
  mkRequest (L := text_http) "/" POST
    (list_to_map [("idempotency-key", [idem_key]); ("content-type", ["application/json"])])
    (as_bytes "1").

Lemma verify_csrf_gate_witness :
  admitted mem_live (verify_csrf csrf_request) {["csrf-tok" := "1"]} csrf_request
    (fun k => mem_live k {["csrf-tok" := "1"]}).
Proof.
  pose proof (verify_csrf_gate text_http_laws memory_frame memory_store_laws csrf_request
    {["csrf-tok" := "1"]}) as H.
  destruct H as [[_ (w1 & e & w2 & Hg)]|H]; [|exact H].
  exfalso. eapply memory_never_fails. left. eauto.
Defined.

Lemma revoke_token_gate_witness :
  admitted mem_live (revoke_token (mkAuthState "pem") bearer_request) ∅ bearer_request
    (fun k => mem_live k ∅).
Proof.
  destruct (revoke_token_gate toy_jwt_laws text_http_laws memory_frame memory_store_laws (mkAuthState "pem")
    bearer_request ∅) as [[_ (mid & w1 & e & w2 & Hg)]|H]; [|exact H].
  exfalso. eapply memory_never_fails. left. eauto.
Defined.

(** The token ["old"], whose numeric [exp] is more than a minute past, is refused. *)
Example old_token_refused :
  let verdict := revoke_verdict (J := toy_jwt) (A := memory_auth) "pem" "Bearer old" in
  verdict 161 50 (fun _ => None) = Some 401 /\ verdict 160 50 (fun _ => None) = None.
Proof. by vm_compute. Qed.

Lemma verify_idempotency_gate_witness :
  admitted mem_live (verify_idempotency idem_request) ∅ idem_request
    (fun k => if decide (k = idem_key) then Some "1" else mem_live k ∅).
Proof.
  destruct (verify_idempotency_gate text_http_laws memory_frame memory_store_laws idem_request ∅)
    as (w1 & read & w2 & Hread & H).
  injection Hread as <- _. destruct H as [[_ H]|H]; [|exact H].
  by apply memory_never_fails in H.
Defined.
