(* ===== verification/Replay.v ===== *)
(** Repeated requests under [pc-auth]'s idempotency guard
    ([crates/pc-auth/src/lib.rs], [verify_idempotency]): the guard in two phases, its read of the
    entry and its store, between which another request may run, and what two overlapping requests
    do. Requests served one after another are [IdemWindow]'s. *)
From S2P Require Export Auth.
Local Open Scope string_scope.
Local Open Scope Z_scope.
Local Open Scope rust_scope.

Section Phases.
Context {W : Type} {C : Crypto} {L : HttpLib} {A : AuthLib W} `{RegexEngine}.
Context {RS : RedisStore W JsonValue}.
Abbreviation Handler := (Request L -> io W (Response L JsonValue)).

(** ** The two phases: up to the read of the entry, and from its store on *)

Record Pending : Type := mkPending {
  p_id : string;
  p_key : string;
  p_value : JsonValue;
  p_session : Z;
  p_request : Request L;
}.

Definition answered (id : string) (r : ResponseApi JsonValue)
  : io W (Response L JsonValue + Pending) :=
  io_ret (inl (with_request_id (into_response r) id)).

Definition idem_check (request : Request L) : io W (Response L JsonValue + Pending) :=
  let! (request_id, request) := ensure_request_id request in
  let key := header request "idempotency-key" in
  let session_raw := header request "session" in
  if bad_token key then
    answered request_id (bad_request "invalid idempotency key format" "IDEM_INVALID_FORMAT")
  else
  match session_seconds session_raw with
  | None => answered request_id (bad_request "invalid session header format" "IDEM_INVALID_SESSION")
  | Some session =>
  if negb (starts_with "application/json" (header request "content-type")) then
    answered request_id (bad_request "idempotency requires application/json" "IDEM_INVALID_BODY")
  else
  let! read := to_bytes (body request) BODY_LIMIT in
  match read with
  | Err err => answered request_id (internal_error err)
  | Ok bytes =>
  match value_from_slice bytes with
  | Err err => answered request_id (bad_request err "IDEM_INVALID_BODY")
  | Ok value =>
  match verify_idempotency_key key bytes with
  | Ok false =>
      answered request_id
        (bad_request "idempotency key does not match request body" "IDEM_KEY_MISMATCH")
  | Err err =>
      answered request_id (bad_request (JsonMinifyError_to_string err) "IDEM_INVALID_BODY")
  | Ok true =>
  let! found := rs_get key in
  match found with
  | Ok (Some cached) =>
      answered request_id
        (mkResponseApi 202 "accepted" "your request in process" "" (Some (cached_value cached)))
  | Err err => answered request_id (internal_error (RedisError_to_string err))
  | Ok None =>
      io_ret (inr (mkPending request_id key value session
        (mkRequest (uri_path request) (method request) (headers request) (body_from bytes))))
  end
  end
  end
  end
  end.

Definition idem_commit (p : Pending) (next : Handler) : io W (Response L JsonValue) :=
  let! stored := rs_store (p_key p) (p_value p) (from_secs (p_session p)) in
  match stored with
  | Err err => reply (p_id p) (internal_error (RedisError_to_string err))
  | Ok tt => run_next (p_id p) next (p_request p)
  end.

Lemma verify_phases request next w :
  verify_idempotency request next w =
  match idem_check request w with
  | (inl response, w') => (response, w')
  | (inr p, w') => idem_commit p next w'
  end.
Proof.
  unfold verify_idempotency, idem_check, io_bind.
  destruct (ensure_request_id request w) as [[id req] w1].
  destruct (bad_token _); [done|]. destruct (session_seconds _) as [session|]; [|done].
  destruct (negb _); [done|]. destruct (to_bytes _ _ w1) as [[bytes|err] w2]; [|done].
  destruct (value_from_slice bytes) as [value|err]; [|done].
  destruct (verify_idempotency_key _ bytes) as [[|]|err]; [|done|done].
  by destruct (rs_get _ w2) as [[[cached|]|err] w3].
Qed.

End Phases.

(** ** Overlapping requests, with Redis in memory beside the count of runs *)

Definition counting : Type := (mem * nat)%type.

Definition beside {V B : Type} (m : io V B) : io (V * nat) B :=
  fun w => let '(r, m') := m w.1 in (r, (m', w.2)).

Lemma beside_eq {V B} (m : io V B) w r w' :
  beside m w = (r, w') -> exists m', m w.1 = (r, m') /\ w' = (m', w.2).
Proof. unfold beside. destruct (m w.1) as [r0 m']. intros [= <- <-]. eauto. Qed.

Lemma beside_count {V B} (m : io V B) w : (beside m w).2.2 = w.2.
Proof. unfold beside. by destruct (m w.1). Qed.

#[local] Instance counting_auth : AuthLib counting (C := toy_crypto) (L := text_http) := {|
  md5 := md5 (AuthLib := memory_auth);
  value_from_slice := value_from_slice (AuthLib := memory_auth);
  value_from_str := value_from_str (AuthLib := memory_auth);
  value_string := value_string (AuthLib := memory_auth);
  revoke_from_str := revoke_from_str (AuthLib := memory_auth);
  as_i64 := as_i64 (AuthLib := memory_auth);
  as_u64 := as_u64 (AuthLib := memory_auth);
  as_f64 := as_f64 (AuthLib := memory_auth);
  as_str := as_str (AuthLib := memory_auth);
  parse_datetime := parse_datetime (AuthLib := memory_auth);
  now_utc := beside (now_utc (AuthLib := memory_auth));
  unix_time := beside (unix_time (AuthLib := memory_auth));
  random16 := beside (random16 (AuthLib := memory_auth));
  to_bytes b n := beside (to_bytes (AuthLib := memory_auth) b n);
|}.

#[local] Instance counting_store : RedisStore counting (@JsonValue toy_crypto) := {|
  rs_get k := beside (rs_get (RedisStore := memory_store) k);
  rs_store k v d := beside (rs_store (RedisStore := memory_store) k v d);
|}.

Definition count_runs (w : counting) : nat := w.2.

Definition counting_handler : Request text_http -> io counting (Response text_http (@JsonValue toy_crypto)) :=
  fun _ w => (mkResponse (L := text_http) 200 ∅ Empty, (w.1, S w.2)).

(** Two requests with one key whose reads both precede their stores both run the handler: the
    entry is read and written with two commands. *)
Definition race (req : Request text_http) (w : counting) : option counting :=
  match idem_check req w with
  | (inr p1, w1) =>
      match idem_check req w1 with
      | (inr p2, w2) =>
          let '(_, w3) := idem_commit p1 counting_handler w2 in
          let '(_, w4) := idem_commit p2 counting_handler w3 in
          Some w4
      | _ => None
      end
  | _ => None
  end.

Lemma idempotency_race : count_runs <$> race idem_request (∅, 0%nat) = Some 2%nat.
Proof. vm_compute. reflexivity. Qed.
