(* ===== verification/IdemWindow.v ===== *)
(** The idempotency guard in time: [pc-auth]'s [verify_idempotency]
    ([crates/pc-auth/src/lib.rs], as the two phases of [Replay]) over a store whose entries expire
    ([RedisClock]).

    The [session] header is how long a key is remembered, under the ceiling of [pc-redis] on every
    TTL ([REDIS_MAX_TTL_MINUTES], thirty days by default): within that window of a request that ran
    the handler, a request with the same key does not run it; after it, the key is new again. So
    however many requests are served one after another, the handler runs once per window. *)
From S2P Require Export RedisClock Replay.
Local Open Scope string_scope.
Local Open Scope Z_scope.
Local Open Scope rust_scope.

Section Window.
Context {W : Type} {C : Crypto} {L : HttpLib} {A : AuthLib W} `{RegexEngine}.
Context {http_laws : HttpLaws L}.
Context {RS : RedisStore W JsonValue} {json : JsonValue -> string}.
Context {entry : string -> W -> Entry} {clock : W -> Z} {env : Env}.
Context {redis : RedisStoreClockLaws W JsonValue json entry clock (lifetime env)}.
Variable runs : W -> nat.
Abbreviation Handler := (Request L -> io W (Response L JsonValue)).

(** Time passed, and no reader can tell the entries apart from then on. *)
Definition elapsed (w w' : W) : Prop :=
  clock w <= clock w' /\ forall k, same_from (clock w') (entry k w') (entry k w).

(** What is not Redis takes time but touches no entry, and nothing but the handler is counted. *)
Class Passive : Prop := {
  passive_random w : elapsed w (random16 w).2 /\ runs (random16 w).2 = runs w;
  passive_body b n w : elapsed w (to_bytes b n w).2 /\ runs (to_bytes b n w).2 = runs w;
  passive_get k w : runs (rs_get k w).2 = runs w;
  passive_store k v d w : runs (rs_store k v d w).2 = runs w;
}.
Context {passive : Passive}.
#[local] Set Default Proof Using "Type*".

(** A handler that is counted once per run, takes time, and leaves the entry of [key] alone. *)
Definition leaves (key : string) (next : Handler) : Prop :=
  forall req w, let w' := (next req w).2 in
    runs w' = S (runs w) /\ clock w <= clock w' /\
    same_from (clock w') (entry key w') (entry key w).

Lemma elapsed_refl w : elapsed w w.
Proof. split; [lia|]. by intros k. Qed.

Lemma elapsed_trans w1 w2 w3 : elapsed w1 w2 -> elapsed w2 w3 -> elapsed w1 w3.
Proof.
  intros [H1 He1] [H2 He2]. split; [lia|]. intros k. rewrite (He2 k).
  apply (same_from_later (clock w2)); [done|apply He1].
Qed.

Lemma ensure_request_id_elapsed (req : Request L) w :
  let '(_, req', w') := ensure_request_id req w in
  header req' "idempotency-key" = header req "idempotency-key" /\
  header req' "session" = header req "session" /\ runs w' = runs w /\ elapsed w w'.
Proof.
  unfold ensure_request_id, io_bind, io_ret.
  assert (forall h, let '(_, w') := get_or_generate_request_id random16 hex_encode h w in
            runs w' = runs w /\ elapsed w w') as Hgen.
  { intros h. unfold get_or_generate_request_id, generate_request_id, io_bind, io_ret.
    destruct (passive_random w) as [He Hr]. pose proof (elapsed_refl w).
    destruct h as [v|]; [destruct (is_empty v)|]; try done; by destruct (random16 w). }
  specialize (Hgen (match header_get "x-request-id" (headers req) with
                    | Some v => hv_to_str v | None => None end)).
  destruct (get_or_generate_request_id _ _ _ w) as [id w1]. destruct Hgen.
  unfold header, header_get, with_headers, header_insert.
  destruct (hv_from_str id); simpl; rewrite ?lookup_insert_ne by done; done.
Qed.

(** The guard answered an envelope of another code than 202. *)
Ltac refusal Hst := split_and!; [done|done|apply Hst; simpl; lia].

(** The first phase reads the entry of the key at one instant between its two ends. It stays
    pending only when it found nothing, and answers 202 only when it found something. *)
Lemma idem_check_elapsed (req : Request L) w :
  let key := header req "idempotency-key" in
  let '(c, w') := idem_check req w in
  elapsed w w' /\ runs w' = runs w /\
  match c with
  | inr p => p_key p = key /\ session_seconds (header req "session") = Some (p_session p) /\
      exists now, clock w <= now <= clock w' /\ live_at now (entry key w) = None
  | inl resp => r_status resp = 202 ->
      exists now, clock w <= now <= clock w' /\ is_Some (live_at now (entry key w))
  end.
Proof.
  cbv zeta. unfold idem_check, answered, io_bind, io_ret.
  assert (forall (B : Prop) id (r : ResponseApi JsonValue), 400 <= code r <= 999 ->
    r_status (with_request_id (into_response r) id) = 202 -> B) as Hst
    by (intros B id r Hc; rewrite reply_status by lia; lia).
  pose proof (ensure_request_id_elapsed req w) as Hid.
  destruct (ensure_request_id req w) as [[id req'] w1]. destruct Hid as (<- & <- & Hr & He).
  destruct (bad_token _); [refusal Hst|].
  destruct (session_seconds (header req' "session")) as [session|] eqn:Hs; [|refusal Hst].
  destruct (negb _); [refusal Hst|].
  destruct (passive_body (body req') BODY_LIMIT w1) as [Heb Hrb].
  destruct (to_bytes _ _ w1) as [read w2]. simpl in *.
  assert (elapsed w w2) as He2 by by eapply elapsed_trans.
  assert (runs w2 = runs w) as Hr2 by congruence.
  destruct read as [bytes|err]; [|refusal Hst].
  destruct (value_from_slice bytes) as [value|err]; [|refusal Hst].
  destruct (verify_idempotency_key _ bytes) as [[|]|err]; [|refusal Hst..].
  pose proof (passive_get (header req' "idempotency-key") w2) as Hrg.
  destruct (rs_get _ w2) as [found w3] eqn:Hg. simpl in Hrg.
  apply rsc_get in Hg as (Hc3 & He3 & Hfound).
  assert (elapsed w w3) as He' by (eapply elapsed_trans; [exact He2|by split]).
  assert (runs w3 = runs w) as Hr3 by congruence.
  destruct found as [found|err]; [|refusal Hst]. destruct Hfound as (now & Hnow & ->).
  destruct He2 as [Hc2 He2].
  rewrite (same_live _ _ _ now (He2 (header req' "idempotency-key"))) by lia.
  destruct (live_at now _) as [cached|] eqn:Hl.
  - split_and!; [done|done|]. intros _. exists now. rewrite Hl. split; [lia|eauto].
  - split_and!; [done|done|done|done|]. exists now. split; [lia|done].
Qed.

(** How long a session of [s] seconds is remembered, in milliseconds. *)
Definition remembered (s : Z) : Z := Z.min (1000 * s) (max_ttl_ms env).

Lemma session_lifetime s : 4 <= s -> lifetime env (from_secs s) = Some (remembered s).
Proof using Type.
  intros Hs. rewrite lifetime_ms by (unfold from_secs, NANOS; lia).
  replace (from_secs s <? 1000000) with false by (symmetry; apply Z.ltb_ge; unfold from_secs, NANOS; lia).
  unfold remembered. do 2 f_equal. unfold as_millis, from_secs, NANOS.
  replace (s * 1000000000) with (1000 * s * 1000000) by lia. by rewrite Z.div_mul.
Qed.

(** A request that ran the handler left its key's entry, with the deadline its session asked
    for. *)
Lemma commit_entry key next (req : Request L) w w' :
  leaves key next -> header req "idempotency-key" = key ->
  (verify_idempotency req next w).2 = w' -> runs w' <> runs w ->
  exists s now v, session_seconds (header req "session") = Some s /\ runs w' = S (runs w) /\
    clock w <= now <= clock w' /\
    same_from (clock w') (entry key w') (Some (v, Some (now + remembered s))).
Proof.
  intros Hn Hk. rewrite verify_phases. pose proof (idem_check_elapsed req w) as Hc.
  destruct (idem_check req w) as [[resp|p] w1]; destruct Hc as ([Hcl He] & Hr & Hp); simpl.
  { intros <- ?. done. }
  destruct Hp as (Hpk & Hs & _). rewrite Hk in Hpk. unfold idem_commit, io_bind. rewrite Hpk.
  pose proof (passive_store key (p_value p) (from_secs (p_session p)) w1) as Hrs.
  destruct (rs_store _ _ _ w1) as [[[]|err] w2] eqn:Hst; simpl in *; cycle 1.
  { intros <- ?. congruence. }
  pose proof (session_seconds_bounds _ _ Hs) as Hpos.
  assert (0 <= from_secs (p_session p)) as Hd by (unfold from_secs, NANOS; lia).
  apply rsc_store in Hst as (now & Hnow & Hent); [|done]. rewrite session_lifetime in Hent by done.
  unfold run_next, io_bind, io_ret. destruct (Hn (p_request p) w2) as (H1 & H2 & H3).
  destruct (next (p_request p) w2) as [resp w3]. simpl in *. intros <- _.
  exists (p_session p), now, (json (p_value p)). split_and!; [done|congruence|lia|lia|].
  rewrite H3. by apply (same_from_later (clock w2)).
Qed.
(** ** One request after another *)

Lemma verify_clock key next (req : Request L) w :
  leaves key next -> header req "idempotency-key" = key ->
  clock w <= clock (verify_idempotency req next w).2.
Proof.
  intros Hn Hk. rewrite verify_phases. pose proof (idem_check_elapsed req w) as Hc.
  destruct (idem_check req w) as [[resp|p] w1]; destruct Hc as ([Hcl _] & _ & _); [done|].
  unfold idem_commit, io_bind.
  destruct (rs_store _ _ _ w1) as [[[]|err] w2] eqn:Hst; apply rsc_store_mono in Hst; simpl; [|lia].
  unfold run_next, io_bind, io_ret. destruct (Hn (p_request p) w2) as (_ & H2 & _).
  destruct (next (p_request p) w2). simpl in *. lia.
Qed.

(** Time in which nobody writes the key or runs the handler. *)
Definition idle (key : string) (wait : io W unit) : Prop :=
  forall w, let w' := (wait w).2 in
    runs w' = runs w /\ clock w <= clock w' /\ same_from (clock w') (entry key w') (entry key w).

(** Serve requests one after another, each after a pause. *)
Definition serve (next : Handler) (reqs : list (io W unit * Request L)) (w : W)
  : list (Response L JsonValue) * W :=
  run_trace (fun '(wait, req) => let! _ := wait in verify_idempotency req next) reqs w.

(** The entry of [key] is readable up to instant [t]. *)
Definition covered (key : string) (t : Z) (w : W) : Prop :=
  forall now, clock w <= now <= t -> is_Some (live_at now (entry key w)).

Lemma covered_same key t w w' :
  clock w <= clock w' -> same_from (clock w') (entry key w') (entry key w) ->
  covered key t w -> covered key t w'.
Proof using Type.
  intros Hc Hs Hcov now Hnow. rewrite (same_live _ _ _ now Hs) by lia. apply Hcov. lia.
Qed.

Lemma covered_runs key next (req : Request L) w t :
  leaves key next -> header req "idempotency-key" = key -> covered key t w ->
  let w' := (verify_idempotency req next w).2 in
  clock w' <= t -> runs w' = runs w /\ covered key t w'.
Proof.
  intros Hn Hk Hcov. cbv zeta. pose proof (idem_check_elapsed req w) as Hc.
  rewrite verify_phases. destruct (idem_check req w) as [[resp|p] w1] eqn:E; destruct Hc as ([Hcl He] & Hr & Hp).
  - simpl. intros _. split; [done|]. by eapply covered_same.
  - destruct Hp as (_ & _ & now & Hnow & Hl). intros Hlate.
    assert (clock w1 <= clock (idem_commit p next w1).2) as Hm.
    { unfold idem_commit, io_bind.
      destruct (rs_store _ _ _ w1) as [[[]|err] w2] eqn:Hst; apply rsc_store_mono in Hst; simpl; [|lia].
      unfold run_next, io_bind, io_ret. destruct (Hn (p_request p) w2) as (_ & H2 & _).
      destruct (next (p_request p) w2). simpl in *. lia. }
    rewrite Hk in Hl. destruct (Hcov now) as [v Hv]; [lia|]. congruence.
Qed.

(** What each request of a series is. *)
Definition repeats (key : string) (s : Z) (r : io W unit * Request L) : Prop :=
  idle key r.1 /\ header r.2 "idempotency-key" = key /\
  forall s', session_seconds (header r.2 "session") = Some s' -> s <= s'.

Lemma serve_clock key next s reqs w :
  leaves key next -> Forall (repeats key s) reqs -> clock w <= clock (serve next reqs w).2.
Proof.
  intros Hn Hall. revert w. induction Hall as [|[wait req] reqs (Hi & Hk & _) _ IH]; intros w; [done|].
  unfold serve in *. cbn [run_trace]. unfold io_bind.
  destruct (Hi w) as (_ & Hc & _). cbn [fst snd] in *. destruct (wait w) as [[] w1]. simpl in Hc.
  pose proof (verify_clock key next req w1 Hn Hk) as Hv.
  destruct (verify_idempotency req next w1) as [resp w2]. specialize (IH w2).
  destruct (run_trace _ reqs w2). simpl in *. lia.
Qed.

Lemma serve_covered key next s reqs w t :
  leaves key next -> Forall (repeats key s) reqs -> covered key t w ->
  clock (serve next reqs w).2 <= t -> runs (serve next reqs w).2 = runs w.
Proof.
  intros Hn Hall. revert w. induction Hall as [|[wait req] reqs (Hi & Hk & Hs) Hall IH]; intros w Hcov; [done|].
  pose proof (fun w => serve_clock key next s reqs w Hn Hall) as Hmono.
  unfold serve in *. cbn [run_trace]. unfold io_bind.
  destruct (Hi w) as (Hr & Hc & He). cbn [fst snd] in *. destruct (wait w) as [[] w1]. simpl in Hr, Hc, He.
  pose proof (covered_runs key next req w1 t Hn Hk (covered_same key t w w1 Hc He Hcov)) as Hv.
  destruct (verify_idempotency req next w1) as [resp w2]. specialize (IH w2). specialize (Hmono w2).
  destruct (run_trace _ reqs w2) as [os w3]. simpl in *. intros Hlate.
  destruct Hv as [Hr2 Hcov2]; [lia|]. rewrite IH by done. congruence.
Qed.

(** Within the shortest session of the series, the handler runs at most once. *)
Lemma serve_runs key next s reqs w t :
  leaves key next -> Forall (repeats key s) reqs -> t <= clock w + remembered s ->
  clock (serve next reqs w).2 <= t -> (runs (serve next reqs w).2 <= S (runs w))%nat.
Proof.
  intros Hn Hall. revert w. induction Hall as [|[wait req] reqs (Hi & Hk & Hs) Hall IH]; intros w Ht;
    [simpl; lia|].
  pose proof (fun w => serve_covered key next s reqs w t Hn Hall) as Hcov.
  unfold serve in *. cbn [run_trace]. unfold io_bind.
  destruct (Hi w) as (Hr & Hc & He). cbn [fst snd] in *. destruct (wait w) as [[] w1]. simpl in Hr, Hc, He.
  pose proof (verify_clock key next req w1 Hn Hk) as Hv.
  pose proof (commit_entry key next req w1 _ Hn Hk eq_refl) as Hent.
  destruct (verify_idempotency req next w1) as [resp w2]. specialize (IH w2). specialize (Hcov w2).
  simpl in Hv, Hent. destruct (run_trace _ reqs w2) as [os w3]. simpl in *. intros Hlate.
  destruct (decide (runs w2 = runs w1)) as [Hsame|Hran].
  - specialize (IH ltac:(lia) Hlate). lia.
  - destruct (Hent Hran) as (s' & now & v & Hs' & Hrun & Hnow & Hsf). specialize (Hs _ Hs').
    rewrite Hcov; [lia| |done]. intros at_ Hat. rewrite (same_live _ _ _ at_ Hsf) by lia. simpl.
    unfold remembered in *. rewrite (proj2 (Z.leb_le _ _)) by lia. eauto.
Qed.
End Window.
Arguments remembered env s : clear implicits.

(** ** Theorems *)

(** C11: Replays within a session are harmless: however many requests with one idempotency key are
    served one after another, whatever they contain, however long the pauses between them and
    whatever Redis answers, the handler runs at most once as long as all is over within the
    shortest of their sessions (or the ceiling on TTLs) of the start, and not at all while an entry
    that was there before is readable until then. Nobody else writes the key. *)
Theorem idempotent_at_most_once {W} {C : Crypto} {L : HttpLib} {A : AuthLib W} {RE : RegexEngine}
    {RS : RedisStore W JsonValue} (http_laws : HttpLaws L) (json : JsonValue -> string)
    entry clock env (redis : RedisStoreClockLaws W JsonValue json entry clock (lifetime env))
    (runs : W -> nat) (passive : Passive (entry := entry) (clock := clock) runs) key next s reqs w :
  leaves (entry := entry) (clock := clock) runs key next ->
  Forall (fun r => idle (entry := entry) (clock := clock) runs key r.1 /\
                   header r.2 "idempotency-key" = key /\
                   forall s', session_seconds (header r.2 "session") = Some s' -> s <= s') reqs ->
  let w' := (serve next reqs w).2 in
  (clock w' <= clock w + Z.min (1000 * s) (max_ttl_ms env) -> (runs w' <= S (runs w))%nat) /\
  ((forall now, clock w <= now <= clock w' -> is_Some (live_at now (entry key w))) ->
   runs w' = runs w).
Proof.
  intros Hn Hall. cbv zeta. split.
  - intros Hlate. by eapply (serve_runs (redis := redis) (passive := passive) runs key next s reqs w _ Hn Hall).
  - intros Hcov. by apply (serve_covered (redis := redis) (passive := passive) runs key next s reqs w
      (clock (serve next reqs w).2) Hn Hall).
Qed.


(** ** Witness: the timed server of [RedisClock] beside the count of runs, commands of 2 ms *)

Definition ticking : Type := (Timed * nat)%type.

#[local] Instance ticking_auth : AuthLib ticking (C := toy_crypto) (L := text_http) := {|
  md5 := md5 (AuthLib := memory_auth);
  value_from_slice := value_from_slice (AuthLib := memory_auth);
  value_from_str := value_from_str (AuthLib := memory_auth);
  value_string := value_string (AuthLib := memory_auth);
  revoke_from_str := revoke_from_str (AuthLib := memory_auth);
  as_i64 := as_i64 (AuthLib := memory_auth);
  as_u64 := as_u64 (AuthLib := memory_auth);
  as_f64 := as_f64 (AuthLib := memory_auth);
  as_str := as_str (AuthLib := memory_auth);
  parse_datetime := parse_datetime (AuthLib := memory_auth);
  now_utc := io_ret 50;
  unix_time := io_ret 50;
  random16 := io_ret (replicate 16 zero);
  to_bytes := fun (b : @Body text_http) _ => io_ret (Ok b);
|}.

Definition ticking_pool : RedisStore Timed (@JsonValue toy_crypto) :=
  pool_store no_env (timed_exec 2) (fun v : nat => Ok (nat_json v)).

#[local] Instance ticking_store : RedisStore ticking (@JsonValue toy_crypto) := {|
  rs_get k := beside (rs_get (RedisStore := ticking_pool) k);
  rs_store k v d := beside (rs_store (RedisStore := ticking_pool) k v d);
|}.

Definition ticking_entry (k : string) (w : ticking) : Entry := timed_entry k w.1.
Definition ticking_clock (w : ticking) : Z := timed_clock w.1.

#[local] Instance ticking_laws : RedisStoreClockLaws ticking (@JsonValue toy_crypto) nat_json
  ticking_entry ticking_clock (lifetime no_env).
Proof.
  destruct (pool_clock_laws no_env (timed_exec 2) (fun v : nat => Ok (nat_json v)) timed_entry
    timed_clock (laws := timed_clock_laws 2 ltac:(lia)) nat_json) as [H1 H2 H3 H4]; [done|].
  constructor; unfold ticking_entry, ticking_clock.
  - intros k w r w' (m' & E & ->)%beside_eq. by apply H1.
  - intros k v d w w' Hd (m' & E & ->)%beside_eq. by apply H2.
  - intros k v d w r w' (m' & E & ->)%beside_eq. by eapply H3.
  - intros k v d w r w' k' (m' & E & ->)%beside_eq. by eapply H4.
Qed.

#[local] Instance ticking_passive : Passive (A := ticking_auth) (RS := ticking_store)
  (entry := ticking_entry) (clock := ticking_clock) snd.
Proof.
  assert (forall w, elapsed (entry := ticking_entry) (clock := ticking_clock) w w) as Hrefl
    by (intros w; split; [lia|by intros k]).
  constructor; intros; try apply beside_count; by split.
Qed.

(** A handler that takes 10 ms and answers 202 itself. *)
Definition ticking_handler
  : Request text_http -> io ticking (Response text_http (@JsonValue toy_crypto)) :=
  fun _ w => (mkResponse (L := text_http) 202 ∅ Empty, ((w.1.1, w.1.2 + 10), S w.2)).

Definition first_served : ticking := (verify_idempotency idem_request ticking_handler ((∅, 0), 0%nat)).2.

(** The world of [first_served] at instant [t]. *)
Definition at_instant (t : Z) : ticking := ((first_served.1.1, t), first_served.2).


(** Three requests within four seconds of a session of nine: the handler runs once. *)
Lemma idempotent_at_most_once_witness :
  let after t : io ticking unit := fun w => (tt, ((w.1.1, w.1.2 + t), w.2)) in
  let reqs := [(after 0, idem_request); (after 1000, idem_request); (after 3000, idem_request)] in
  (serve ticking_handler reqs ((∅, 0), 0%nat)).2.2 = 1%nat.
Proof.
  cbv zeta. set (after := fun t : Z => _). set (reqs := [_; _; _]).
  destruct (idempotent_at_most_once (C := toy_crypto) (A := ticking_auth) (RS := ticking_store) text_http_laws nat_json ticking_entry ticking_clock no_env
    ticking_laws snd ticking_passive idem_key ticking_handler 9 reqs ((∅, 0), 0%nat)) as [H _].
  - intros req [[m t] n]. unfold ticking_clock, timed_clock. simpl. split_and!; [done|lia|done].
  - assert (forall t, 0 <= t -> idle (entry := ticking_entry) (clock := ticking_clock) snd idem_key (after t))
      as Hidle by (intros t Ht [[m u] n]; unfold ticking_clock, timed_clock; simpl; split_and!; [done|lia|done]).
    subst reqs. repeat apply Forall_cons_2; [..|by apply Forall_nil];
      (split_and!; [apply Hidle; lia|by vm_compute|intros s' E; vm_compute in E; injection E as <-; lia]).
  - specialize (H ltac:(vm_compute; congruence)).
    assert ((serve ticking_handler reqs ((∅, 0), 0%nat)).2.2 <> 0%nat) as Hne by (vm_compute; congruence).
    cbn [snd] in *. lia.
Defined.
