(* ===== verification/Discovery.v ===== *)
(** [pc-grpc::discovery]: the diff between the balanced addresses and a DNS answer, and the
    refresher that feeds it to the balancer ([crates/pc-grpc/src/discovery.rs]).

    A [BTreeSet] is a finite set read in the order of its elements. The change queue is a tokio
    channel, third-party: [ChangeQueue] gives its two operations, [QueueLaws] says that a
    reservation writes nothing and a permit writes its change. The log [sent] of everything ever
    queued is what the balancer sees, in order, whenever it drains it. *)
From S2P Require Export RustStd.
Local Open Scope string_scope.
Local Open Scope Z_scope.

(** ** Socket addresses ([std::net::SocketAddr]) *)

Inductive SocketAddr : Type :=
| V4 (ip port : Z)
| V6 (ip port flowinfo scope_id : Z).

#[global] Instance SocketAddr_eq_dec : EqDecision SocketAddr.
Proof. solve_decision. Defined.

#[global] Instance SocketAddr_countable : Countable SocketAddr.
Proof.
  refine (inj_countable'
    (fun a => match a with
              | V4 ip port => inl (ip, port)
              | V6 ip port fl sc => inr (ip, port, fl, sc) end)
    (fun s => match s with
              | inl (ip, port) => V4 ip port
              | inr (ip, port, fl, sc) => V6 ip port fl sc end) _).
  by intros [].
Defined.

Definition is_ipv4 (a : SocketAddr) : bool := match a with V4 _ _ => true | V6 _ _ _ _ => false end.

(** The derived lexicographic order. *)
Definition addr_key (a : SocketAddr) : list Z :=
  match a with
  | V4 ip port => [0; ip; port]
  | V6 ip port fl sc => [1; ip; port; fl; sc]
  end.

Fixpoint lex_le (a b : list Z) : bool :=
  match a, b with
  | [], _ => true
  | _ :: _, [] => false
  | x :: a', y :: b' => (x <? y) || ((x =? y) && lex_le a' b')
  end.

Definition addr_le (a b : SocketAddr) : Prop := lex_le (addr_key a) (addr_key b) = true.

#[global] Instance addr_le_dec : RelDecision addr_le.
Proof. intros a b. unfold addr_le. apply _. Defined.

(** ** Printing addresses ([Display]) *)

Fixpoint hex_digits (fuel : nat) (n : Z) : string :=
  match fuel with
  | O => ""
  | S fuel =>
      let d := n mod 16 in
      let c := String (ascii_of_N (Z.to_N (if d <? 10 then 48 + d else 87 + d))) "" in
      if n <? 16 then c else hex_digits fuel (n / 16) +:+ c
  end.

Definition ipv4_to_string (ip : Z) : string :=
  String.concat "."
    (map (fun sh => show_Z (Z.land (Z.shiftr ip sh) 255)) [24; 16; 8; 0]).

(** The eight 16-bit segments. *)
Definition segments (ip : Z) : list Z :=
  map (fun sh => Z.land (Z.shiftr ip sh) 65535) [112; 96; 80; 64; 48; 32; 16; 0].

(** The first longest run of zero segments, as a start and a length. *)
Definition longest_zeroes (segs : list Z) : nat * nat :=
  let step '(i, (cur_start, cur_len), longest) seg :=
    if seg =? 0 then
      let cur := if Nat.eqb cur_len 0 then (i, 1%nat) else (cur_start, S cur_len) in
      (S i, cur, if Nat.ltb (snd longest) (snd cur) then cur else longest)
    else (S i, (0%nat, 0%nat), longest) in
  snd (fold_left step segs (0%nat, (0%nat, 0%nat), (0%nat, 0%nat))).

Definition ipv6_to_string (ip : Z) : string :=
  let segs := segments ip in
  let join l := String.concat ":" (map (hex_digits 4) l) in
  if Z.shiftr ip 32 =? 65535 then "::ffff:" +:+ ipv4_to_string (Z.land ip (2 ^ 32 - 1))
  else
    let '(start, len) := longest_zeroes segs in
    if Nat.ltb 1 len then join (take start segs) +:+ "::" +:+ join (drop (start + len) segs)
    else join segs.

Definition addr_to_string (a : SocketAddr) : string :=
  match a with
  | V4 ip port => ipv4_to_string ip +:+ ":" +:+ show_Z port
  | V6 ip port _ scope_id =>
      "[" +:+ ipv6_to_string ip
      +:+ (if scope_id =? 0 then "" else "%" +:+ show_Z scope_id) +:+ "]:" +:+ show_Z port
  end.

Example addr_to_string_examples :
  map addr_to_string [V4 167772161 9106; V6 1 80 0 0; V6 (2 ^ 125 + 5) 80 0 3; V6 0 1 0 0;
                      V6 (65535 * 2 ^ 32 + 167772161) 9106 0 0] =
  ["10.0.0.1:9106"; "[::1]:80"; "[2000::5%3]:80"; "[::]:1"; "[::ffff:10.0.0.1]:9106"].
Proof. reflexivity. Qed.

(** Iteration over a [BTreeSet]. *)
Definition iter (s : gset SocketAddr) : list SocketAddr := merge_sort addr_le (elements s).

(** [prefer_ipv4]. *)
Definition prefer_ipv4 (addrs : gset SocketAddr) : gset SocketAddr :=
  if existsb is_ipv4 (iter addrs) then filter (fun a => is_ipv4 a = true) addrs else addrs.

(** [SystemResolver::lookup], over [tokio::net::lookup_host]. *)
Definition system_lookup {W E : Type}
    (lookup_host : string -> Z -> io W (result (list SocketAddr) E)) (host : string) (port : Z)
  : io W (result (gset SocketAddr) E) :=
  (let!? addrs := lookup_host host port in io_ret (Ok (prefer_ipv4 (list_to_set addrs))))%rust.

(** [diff_addrs]: what to insert and what to remove. *)
Definition diff_addrs (old new : gset SocketAddr) : list SocketAddr * list SocketAddr :=
  if bool_decide (new = ∅) then ([], [])
  else (iter (new ∖ old), iter (old ∖ new)).

(** ** The change queue *)

Inductive EndpointKey : Type :=
| Seed (slot : nat)
| Addr (addr : SocketAddr) (slot : nat).

#[global] Instance EndpointKey_eq_dec : EqDecision EndpointKey.
Proof. solve_decision. Defined.

#[global] Instance EndpointKey_countable : Countable EndpointKey.
Proof.
  refine (inj_countable'
    (fun k => match k with Seed n => inl n | Addr a n => inr (a, n) end)
    (fun s => match s with inl n => Seed n | inr (a, n) => Addr a n end) _).
  by intros [].
Defined.

Inductive Change (Endpoint : Type) : Type :=
| Insert (key : EndpointKey) (endpoint : Endpoint)
| Remove (key : EndpointKey).
Arguments Insert {Endpoint} key endpoint.
Arguments Remove {Endpoint} key.

Inductive TrySendError : Type := TFull | TClosed.

Class ChangeQueue (Q Endpoint : Type) : Type := {
  try_reserve_many : nat -> Q -> result unit TrySendError * Q;
  permit_send : Change Endpoint -> Q -> Q;
}.

(** [sent] is the log of the queue. *)
Class QueueLaws {Q Endpoint : Type} (CQ : ChangeQueue Q Endpoint) (sent : Q -> list (Change Endpoint))
  : Prop := {
  reserve_sent n q : sent (try_reserve_many n q).2 = sent q;
  permit_sent c q : sent (permit_send c q) = (sent q ++ [c])%list;
}.

Inductive Sent : Type := SOk | SFull | SClosed.

Section Refresher.
Context {Q Endpoint : Type} {CQ : ChangeQueue Q Endpoint}.

Definition send_batch (tx : Q) (changes : list (Change Endpoint)) : Sent * Q :=
  match try_reserve_many (length changes) tx with
  | (Ok tt, tx) => (SOk, fold_left (fun q c => permit_send c q) changes tx)
  | (Err TFull, tx) => (SFull, tx)
  | (Err TClosed, tx) => (SClosed, tx)
  end.

(** [Refresher] without its immutable [resolver], [host] and [port]. *)
Record Refresher : Type := mkRefresher {
  refresh : Z;
  pool : nat;
  seed_slots : nat;
  known : gset SocketAddr;
  tx : Q;
}.

Definition with_known (r : Refresher) (k : gset SocketAddr) (q : Q) : Refresher :=
  mkRefresher (refresh r) (pool r) (seed_slots r) k q.

Definition with_tx (r : Refresher) (q : Q) : Refresher :=
  mkRefresher (refresh r) (pool r) (seed_slots r) (known r) q.

Definition insert_batch (r : Refresher) (addr : SocketAddr) (endpoint : Endpoint)
  : list (Change Endpoint) :=
  map (fun slot => Insert (Addr addr slot) endpoint) (seq 0 (pool r)).

Definition remove_batch (r : Refresher) (addr : SocketAddr) : list (Change Endpoint) :=
  map (fun slot => Remove (Addr addr slot)) (seq 0 (pool r)).

Definition seed_batch (r : Refresher) : list (Change Endpoint) :=
  map (fun slot => Remove (Seed slot)) (seq 0 (seed_slots r)).

(** The first loop of [apply]; an address that fails to build is skipped. *)
Fixpoint apply_added (build : SocketAddr -> option Endpoint) (added : list SocketAddr)
  (r : Refresher) : Sent * Refresher :=
  match added with
  | [] => (SOk, r)
  | addr :: rest =>
      match build addr with
      | None => apply_added build rest r
      | Some endpoint =>
          match send_batch (tx r) (insert_batch r addr endpoint) with
          | (SOk, q) => apply_added build rest (with_known r ({[addr]} ∪ known r) q)
          | (other, q) => (other, with_tx r q)
          end
      end
  end.

(** The second loop. *)
Fixpoint apply_gone (gone : list SocketAddr) (r : Refresher) : Sent * Refresher :=
  match gone with
  | [] => (SOk, r)
  | addr :: rest =>
      match send_batch (tx r) (remove_batch r addr) with
      | (SOk, q) => apply_gone rest (with_known r (known r ∖ {[addr]}) q)
      | (other, q) => (other, with_tx r q)
      end
  end.

(** The removal of the host-name placeholders. *)
Definition apply_seeds (r : Refresher) : Sent * Refresher :=
  if Nat.ltb 0 (seed_slots r) && bool_decide (known r <> ∅) then
    match send_batch (tx r) (seed_batch r) with
    | (SOk, q) => (SOk, mkRefresher (refresh r) (pool r) 0 (known r) q)
    | (other, q) => (other, with_tx r q)
    end
  else (SOk, r).

(** [Refresher::apply]. *)
Definition apply (found : gset SocketAddr) (build : SocketAddr -> option Endpoint)
  (r : Refresher) : Sent * Refresher :=
  let '(added, gone) := diff_addrs (known r) found in
  match apply_added build added r with
  | (SOk, r1) =>
      let step :=
        if Nat.ltb (length gone) (size (known r1)) then apply_gone gone r1 else (SOk, r1) in
      match step with
      | (SOk, r2) => apply_seeds r2
      | (other, r2) => (other, r2)
      end
  | (other, r1) => (other, r1)
  end.

(** ** [Refresher::run] *)

Definition FIRST_RETRY : Z := from_secs 1.
Definition LOOKUP_TIMEOUT : Z := from_secs 5.

(** What one turn of the loop meets: the channel dropped while sleeping, a lookup that failed
    or timed out, or an answer with the file system [build] sees at that moment. *)
Inductive Turn : Type :=
| ChannelClosed
| LookupFailed
| LookupTimedOut
| Found (found : gset SocketAddr) (build : SocketAddr -> option Endpoint).

(** The delay before the next lookup, and the retry delay after it. *)
Definition next_delay (first : bool) (retry : Z) (r : Refresher) : Z * Z :=
  if first then (0, retry)
  else if bool_decide (known r = ∅) then (retry, Z.min (retry * 2) (refresh r))
  else (refresh r, retry).

(** The loop over the turns it meets: the delays slept, the refresher, and whether it
    returned. *)
Fixpoint run_loop (turns : list Turn) (first : bool) (retry : Z) (r : Refresher)
  : list Z * Refresher * bool :=
  match turns with
  | [] => ([], r, false)
  | turn :: rest =>
      let '(delay, retry') := next_delay first retry r in
      let continue r' :=
        let '(ds, r'', ended) := run_loop rest false retry' r' in (delay :: ds, r'', ended) in
      match turn with
      | ChannelClosed => ([delay], r, true)
      | LookupFailed | LookupTimedOut => continue r
      | Found found build =>
          match apply found build r with
          | (SClosed, r') => ([delay], r', true)
          | (_, r') => continue r'
          end
      end
  end.

Definition run (turns : list Turn) (immediate : bool) (r : Refresher) : list Z * Refresher * bool :=
  run_loop turns immediate (Z.min FIRST_RETRY (refresh r)) r.

(** ** What the balancer sees *)

(** The keys balanced over after the changes of a log, in order. *)
Definition replay_change (ks : gset EndpointKey) (c : Change Endpoint) : gset EndpointKey :=
  match c with
  | Insert k _ => {[k]} ∪ ks
  | Remove k => ks ∖ {[k]}
  end.

Definition replay (log : list (Change Endpoint)) : gset EndpointKey :=
  fold_left replay_change log ∅.

(** The refresher knows what the balancer holds: its addresses, [pool] slots each, and its
    remaining placeholders. *)
Definition consistent (sent : Q -> list (Change Endpoint)) (r : Refresher) : Prop :=
  forall k, k ∈ replay (sent (tx r)) <->
    match k with
    | Addr a slot => a ∈ known r /\ (slot < pool r)%nat
    | Seed slot => (slot < seed_slots r)%nat
    end.

(** Between [log0] and [log] the balancer is never without an endpoint. *)
Definition never_empty (log0 log : list (Change Endpoint)) : Prop :=
  forall p, log0 `prefix_of` p -> p `prefix_of` log -> replay p <> ∅.
End Refresher.
Arguments Refresher Q : clear implicits.
Arguments Turn Endpoint : clear implicits.

(** ** Lemmas *)

Lemma iter_elem a s : a ∈ iter s <-> a ∈ s.
Proof. unfold iter. rewrite merge_sort_Permutation. apply elem_of_elements. Qed.

Lemma iter_length s : length (iter s) = size s.
Proof. unfold iter. by rewrite merge_sort_Permutation. Qed.

Lemma size_list_to_set_le (l : list SocketAddr) :
  (size (list_to_set (C := gset SocketAddr) l) <= length l)%nat.
Proof.
  induction l as [|a l IH]; [by rewrite list_to_set_nil, size_empty|].
  rewrite list_to_set_cons, size_union_alt, size_singleton. simpl.
  pose proof (subseteq_size (list_to_set (C := gset SocketAddr) l ∖ {[a]}) (list_to_set l)
    ltac:(set_solver)). lia.
Qed.

(** The guard of the removals leaves an address behind. *)
Lemma survivor (gone : list SocketAddr) (k : gset SocketAddr) :
  (length gone < size k)%nat -> exists a, a ∈ k /\ a ∉ gone.
Proof.
  intros Hlt. destruct (set_choose_or_empty (k ∖ list_to_set gone)) as [[a Ha]|He].
  - exists a. set_solver.
  - pose proof (size_list_to_set_le gone) as Hle.
    assert (size k <= size (list_to_set (C := gset SocketAddr) gone))%nat; [|lia].
    apply subseteq_size. intros a Ha.
    destruct (decide (a ∈ list_to_set (C := gset SocketAddr) gone)) as [|Hn]; [done|].
    assert (a ∈ k ∖ list_to_set gone) as Hin by (by apply elem_of_difference).
    rewrite He in Hin. by apply elem_of_empty in Hin.
Qed.

(** Inserting the new addresses and removing the gone ones yields the answer. *)
Lemma diff_converges (old found : gset SocketAddr) :
  found <> ∅ ->
  (length (iter (old ∖ found)) < size (list_to_set (iter (found ∖ old)) ∪ old))%nat /\
  (list_to_set (iter (found ∖ old)) ∪ old) ∖ list_to_set (iter (old ∖ found)) = found.
Proof.
  intros Hne.
  assert (forall s, list_to_set (C := gset SocketAddr) (iter s) = s) as Hiter.
  { intros s. apply set_eq. intros a. by rewrite elem_of_list_to_set, iter_elem. }
  rewrite !Hiter, iter_length. split.
  - assert (found ∖ old ∪ old = found ∪ old ∖ found) as ->.
    { apply set_eq. intros a. destruct (decide (a ∈ old)), (decide (a ∈ found)); set_solver. }
    assert (size (found ∪ old ∖ found) = size found + size (old ∖ found))%nat as ->
      by (apply size_union; set_solver).
    assert (size found <> 0%nat) by (rewrite size_non_empty_iff; by rewrite leibniz_equiv_iff). lia.
  - apply set_eq. intros a. destruct (decide (a ∈ old)), (decide (a ∈ found)); set_solver.
Qed.

(** *** Replaying logs *)

Section Replay.
Context {Endpoint : Type}.

Lemma replay_app (l1 l2 : list (Change Endpoint)) :
  replay (l1 ++ l2) = fold_left replay_change l2 (replay l1).
Proof. unfold replay. by rewrite fold_left_app. Qed.

Lemma replay_inserts (f : nat -> EndpointKey) (e : Endpoint) slots ks k :
  k ∈ fold_left replay_change (map (fun i => Insert (f i) e) slots) ks <->
  k ∈ ks \/ exists i, i ∈ slots /\ k = f i.
Proof.
  revert ks. induction slots as [|i slots IH]; intros ks; simpl.
  - set_solver.
  - rewrite IH. set_solver.
Qed.

Lemma replay_removes (f : nat -> EndpointKey) slots ks k :
  k ∈ fold_left (replay_change (Endpoint := Endpoint)) (map (fun i => Remove (f i)) slots) ks <->
  k ∈ ks /\ ~ exists i, i ∈ slots /\ k = f i.
Proof.
  revert ks. induction slots as [|i slots IH]; intros ks; simpl.
  - set_solver.
  - rewrite IH. set_solver.
Qed.

Lemma addr_slots a n k :
  (exists i, i ∈ seq 0 n /\ k = Addr a i) <->
  match k with Addr b slot => b = a /\ (slot < n)%nat | Seed _ => False end.
Proof.
  setoid_rewrite elem_of_seq. destruct k as [slot|b slot]; split.
  - intros (i & _ & [=]).
  - done.
  - intros (i & ? & [= -> ->]). split; [done|lia].
  - intros [-> ?]. exists slot. split; [lia|done].
Qed.

Lemma seed_slots_keys n k :
  (exists i, i ∈ seq 0 n /\ k = Seed i) <->
  match k with Addr _ _ => False | Seed slot => (slot < n)%nat end.
Proof.
  setoid_rewrite elem_of_seq. destruct k as [slot|b slot]; split.
  - intros (i & ? & [= ->]). lia.
  - intros ?. exists slot. split; [lia|done].
  - intros (i & _ & [=]).
  - done.
Qed.

(** A key that is never removed keeps the balancer non-empty throughout a batch. *)
Lemma replay_keeps k0 (cs : list (Change Endpoint)) ks :
  k0 ∈ ks -> (forall c, c ∈ cs -> c <> Remove k0) -> k0 ∈ fold_left replay_change cs ks.
Proof.
  revert ks. induction cs as [|c cs IH]; intros ks Hk Hc; simpl; [done|].
  apply IH; [|set_solver]. pose proof (Hc c ltac:(set_solver)) as Hne.
  destruct c as [k e|k]; simpl; [set_solver|]. assert (k <> k0) by congruence. set_solver.
Qed.

Lemma never_empty_app log0 log k0 (cs : list (Change Endpoint)) :
  never_empty log0 log -> k0 ∈ replay log -> (forall c, c ∈ cs -> c <> Remove k0) ->
  never_empty log0 (log ++ cs).
Proof.
  intros Hne Hk Hc p Hp [s Hs]. apply app_eq_inv in Hs as [(u & -> & Hu)|(u & -> & Hu)].
  - apply Hne; [done|]. by exists u.
  - rewrite replay_app. assert (k0 ∈ fold_left replay_change u (replay log)); [|set_solver].
    apply replay_keeps; [done|]. intros c Hcu. apply Hc. rewrite Hu. set_solver.
Qed.
End Replay.

(** *** The refresher *)

Section Lemmas.
Context {Q Endpoint : Type} {CQ : ChangeQueue Q Endpoint} {sent : Q -> list (Change Endpoint)}.
Context {laws : QueueLaws CQ sent}.
#[local] Set Default Proof Using "Type*".

(** All-or-nothing. *)
Lemma send_batch_sent q cs o q' :
  send_batch q cs = (o, q') ->
  sent q' = (sent q ++ match o with SOk => cs | _ => [] end)%list.
Proof.
  assert (forall q0, sent (fold_left (fun q c => permit_send c q) cs q0) = (sent q0 ++ cs)%list)
    as Hfold.
  { induction cs as [|c cs IH]; intros q0; simpl; [by rewrite app_nil_r|].
    by rewrite IH, permit_sent, <- app_assoc. }
  unfold send_batch. pose proof (reserve_sent (length cs) q) as Hr.
  destruct (try_reserve_many (length cs) q) as [[[]|[]] q1]; simpl in Hr; intros [= <- <-];
    rewrite ?Hfold, ?app_nil_r; congruence.
Qed.

(** What every step of the refresher keeps, [log0] being the log it started from. *)
Record good (log0 : list (Change Endpoint)) (r : Refresher Q) : Prop := {
  good_pool : (0 < pool r)%nat;
  good_consistent : consistent sent r;
  good_ext : log0 `prefix_of` sent (tx r);
  good_never_empty : never_empty log0 (sent (tx r));
}.

Definition same_config (r r' : Refresher Q) : Prop :=
  pool r' = pool r /\ refresh r' = refresh r.

Lemma good_start r :
  (0 < pool r)%nat -> consistent sent r -> replay (sent (tx r)) <> ∅ -> good (sent (tx r)) r.
Proof.
  intros Hp Hc Hn. constructor; [done|done|reflexivity|]. intros p H1 H2.
  by rewrite <- (prefix_length_eq _ _ H1) by (by apply prefix_length).
Qed.

Lemma good_nonempty log0 r : good log0 r -> exists k, k ∈ replay (sent (tx r)).
Proof. intros [_ _ He Hn]. apply set_choose_L. exact (Hn _ He (reflexivity _)). Qed.

(** Appending a batch that leaves some live key alone. *)
Lemma good_append log0 r r' k0 cs :
  good log0 r -> pool r' = pool r -> sent (tx r') = (sent (tx r) ++ cs)%list ->
  k0 ∈ replay (sent (tx r)) -> (forall c, c ∈ cs -> c <> Remove k0) ->
  consistent sent r' -> good log0 r'.
Proof.
  intros [Hp Hc He Hn] Hpool Hs Hk Hcs Hc'. constructor; [lia|done|..]; rewrite Hs.
  - by apply prefix_app_r.
  - by eapply never_empty_app.
Qed.

Lemma good_same_log log0 r q : good log0 r -> sent q = sent (tx r) -> good log0 (with_tx r q).
Proof.
  intros [Hp Hc He Hn] Hs. constructor; simpl; rewrite ?Hs; try done.
  unfold consistent. simpl. rewrite Hs. exact Hc.
Qed.

Lemma insert_batch_good log0 r a e q :
  good log0 r -> sent q = (sent (tx r) ++ insert_batch r a e)%list ->
  good log0 (with_known r ({[a]} ∪ known r) q).
Proof.
  intros Hg Hs. destruct (good_nonempty _ _ Hg) as [k0 Hk0].
  eapply (good_append _ r _ k0); [done|done|exact Hs|done|..].
  - intros c [i [-> _]]%list_elem_of_fmap. done.
  - intros k. simpl. rewrite Hs, replay_app. unfold insert_batch. rewrite (replay_inserts (Addr a)).
    rewrite (good_consistent _ _ Hg k), addr_slots.
    destruct k as [slot|b slot]; [tauto|]. rewrite elem_of_union, elem_of_singleton. tauto.
Qed.

Lemma remove_batch_good log0 r a a0 q :
  good log0 r -> a0 ∈ known r -> a0 <> a ->
  sent q = (sent (tx r) ++ remove_batch r a)%list ->
  good log0 (with_known r (known r ∖ {[a]}) q).
Proof.
  intros Hg Ha0 Hne Hs. pose proof (good_pool _ _ Hg) as Hp.
  eapply (good_append _ r _ (Addr a0 0)); [done|done|exact Hs|..].
  - by apply (good_consistent _ _ Hg (Addr a0 0)).
  - intros c [i [-> _]]%list_elem_of_fmap. congruence.
  - intros k. simpl. rewrite Hs, replay_app. unfold remove_batch. rewrite (replay_removes (Addr a)).
    rewrite (good_consistent _ _ Hg k), addr_slots.
    destruct k as [slot|b slot]; [tauto|]. rewrite elem_of_difference, elem_of_singleton. tauto.
Qed.

Lemma seed_batch_good log0 r q :
  good log0 r -> known r <> ∅ -> sent q = (sent (tx r) ++ seed_batch r)%list ->
  good log0 (mkRefresher (refresh r) (pool r) 0 (known r) q).
Proof.
  intros Hg Hne Hs. apply set_choose_L in Hne as [a0 Ha0]. pose proof (good_pool _ _ Hg) as Hp.
  eapply (good_append _ r _ (Addr a0 0)); [done|done|exact Hs|..].
  - by apply (good_consistent _ _ Hg (Addr a0 0)).
  - intros c [i [-> _]]%list_elem_of_fmap. congruence.
  - intros k. simpl. rewrite Hs, replay_app. unfold seed_batch. rewrite (replay_removes Seed).
    rewrite (good_consistent _ _ Hg k), seed_slots_keys.
    destruct k as [slot|b slot]; [|tauto]. lia.
Qed.

Lemma apply_added_good log0 build added r o r' :
  apply_added build added r = (o, r') -> good log0 r ->
  good log0 r' /\ same_config r r' /\ seed_slots r' = seed_slots r /\
  (o = SOk -> (forall a, a ∈ added -> is_Some (build a)) ->
   known r' = list_to_set added ∪ known r).
Proof.
  revert r. induction added as [|a added IH]; intros r; simpl.
  { intros [= <- <-] Hg. split_and!; try done. intros. set_solver. }
  destruct (build a) as [e|] eqn:Hb; cycle 1.
  { intros Happ Hg. destruct (IH _ Happ Hg) as (Hg' & Hc & Hs & _). split_and!; [done..|].
    intros _ Hall. destruct (Hall a ltac:(set_solver)); congruence. }
  destruct (send_batch (tx r) _) as [o1 q] eqn:Hsend. apply send_batch_sent in Hsend.
  intros Happ Hg. destruct o1.
  - destruct (IH _ Happ (insert_batch_good _ _ _ _ _ Hg Hsend)) as (Hg' & Hc & Hs & Hk).
    split_and!; [done..|]. intros Ho Hall. rewrite (Hk Ho) by set_solver. simpl. set_solver.
  - injection Happ as <- <-. rewrite app_nil_r in Hsend.
    split; [by apply good_same_log|done].
  - injection Happ as <- <-. rewrite app_nil_r in Hsend.
    split; [by apply good_same_log|done].
Qed.

Lemma apply_gone_good log0 gone r a0 o r' :
  apply_gone gone r = (o, r') -> good log0 r -> a0 ∈ known r -> a0 ∉ gone ->
  good log0 r' /\ same_config r r' /\ seed_slots r' = seed_slots r /\
  (o = SOk -> known r' = known r ∖ list_to_set gone).
Proof.
  revert r. induction gone as [|a gone IH]; intros r; simpl.
  { intros [= <- <-] Hg Ha _. split_and!; try done. intros _. set_solver. }
  destruct (send_batch (tx r) _) as [o1 q] eqn:Hsend. apply send_batch_sent in Hsend.
  intros Happ Hg Ha Hn. destruct o1.
  - apply not_elem_of_cons in Hn as [Hne Hn].
    destruct (IH _ Happ (remove_batch_good _ _ _ _ _ Hg Ha Hne Hsend)) as (Hg' & Hc & Hs & Hk);
      [simpl; set_solver|done|].
    split_and!; [done..|]. intros Ho. rewrite (Hk Ho). simpl. set_solver.
  - injection Happ as <- <-. rewrite app_nil_r in Hsend.
    split; [by apply good_same_log|done].
  - injection Happ as <- <-. rewrite app_nil_r in Hsend.
    split; [by apply good_same_log|done].
Qed.

Lemma apply_seeds_good log0 r o r' :
  apply_seeds r = (o, r') -> good log0 r ->
  good log0 r' /\ same_config r r' /\ known r' = known r /\
  (o = SOk -> known r <> ∅ -> seed_slots r' = 0%nat).
Proof.
  unfold apply_seeds. intros Happ Hg.
  destruct (Nat.ltb_spec 0 (seed_slots r)) as [Hs|Hs]; simpl in Happ;
    [|injection Happ as <- <-; split_and!; try done; lia].
  destruct (bool_decide_reflect (known r <> ∅)) as [Hk|Hk];
    [|injection Happ as <- <-; split_and!; done].
  destruct (send_batch (tx r) _) as [o1 q] eqn:Hsend. apply send_batch_sent in Hsend.
  destruct o1; injection Happ as <- <-; rewrite ?app_nil_r in Hsend.
  - split; [by apply seed_batch_good|done].
  - split; [by apply good_same_log|done].
  - split; [by apply good_same_log|done].
Qed.

Lemma apply_good log0 found build r o r' :
  apply found build r = (o, r') -> good log0 r ->
  good log0 r' /\ same_config r r' /\
  (o = SOk -> found <> ∅ -> (forall a, a ∈ found -> is_Some (build a)) ->
   known r' = found /\ seed_slots r' = 0%nat).
Proof.
  unfold apply. intros Happ Hg.
  destruct (diff_addrs (known r) found) as [added gone] eqn:Hd.
  destruct (apply_added build added r) as [o1 r1] eqn:Ha.
  destruct (apply_added_good _ _ _ _ _ _ Ha Hg) as (Hg1 & Hc1 & Hs1 & Hk1).
  destruct o1; [|injection Happ as <- <-; by split_and!..].
  set (step := if Nat.ltb (length gone) (size (known r1)) then apply_gone gone r1 else (SOk, r1))
    in Happ.
  assert (good log0 step.2 /\ same_config r step.2 /\
    (step.1 = SOk -> found <> ∅ -> (forall a, a ∈ found -> is_Some (build a)) ->
     known step.2 = found)) as (Hg2 & Hc2 & Hk2).
  { assert (found <> ∅ -> (forall a, a ∈ found -> is_Some (build a)) ->
      (length gone < size (known r1))%nat /\ known r1 ∖ list_to_set gone = found) as Hconv.
    { intros Hne Hall. unfold diff_addrs in Hd. rewrite bool_decide_false in Hd by done.
      injection Hd as <- <-. rewrite Hk1; [by apply diff_converges|done|].
      intros a [Hin _]%iter_elem%elem_of_difference. by apply Hall. }
    unfold step. destruct (Nat.ltb_spec (length gone) (size (known r1))) as [Hlt|Hge].
    - destruct (survivor _ _ Hlt) as (a0 & Ha0 & Hn0).
      destruct (apply_gone gone r1) as [o2 r2] eqn:Hgone.
      destruct (apply_gone_good _ _ _ _ _ _ Hgone Hg1 Ha0 Hn0) as (? & [? ?] & _ & Hk).
      destruct Hc1. simpl. split_and!; [done|split; congruence|].
      intros Ho Hne Hall. simpl. rewrite (Hk Ho). by apply Hconv.
    - split_and!; [done..|]. intros _ Hne Hall. destruct (Hconv Hne Hall). lia. }
  destruct step as [o2 r2]; simpl in *. destruct o2; [|by injection Happ as <- <-..].
  destruct (apply_seeds_good _ _ _ _ Happ Hg2) as (Hg3 & [? ?] & Hk3 & Hs3).
  destruct Hc2. split_and!; [done|split; congruence|].
  intros Ho Hne Hall. rewrite Hk3, (Hk2 eq_refl Hne Hall). split; [done|].
  apply Hs3; [done|]. by rewrite (Hk2 eq_refl Hne Hall).
Qed.

Lemma run_good log0 turns first retry r :
  good log0 r -> good log0 (run_loop turns first retry r).1.2.
Proof.
  revert first retry r. induction turns as [|turn turns IH]; intros first retry r Hg; simpl; [done|].
  destruct (next_delay first retry r) as [delay retry'].
  assert (forall r1, good log0 r1 ->
    good log0 (let '(ds, r'', ended) := run_loop turns false retry' r1 in
               (delay :: ds, r'', ended)).1.2) as Hcont.
  { intros r1 Hg1. specialize (IH false retry' r1 Hg1).
    by destruct (run_loop turns false retry' r1) as [[ds r2] ended]. }
  destruct turn as [| | |found build]; [done|by apply Hcont..|].
  destruct (apply found build r) as [o r'] eqn:Happ.
  destruct (apply_good _ _ _ _ _ _ Happ Hg) as (Hg' & _). destruct o; [by apply Hcont..|done].
Qed.
End Lemmas.

(** One family is kept: the IPv4 addresses, or all of them when there are none. *)
Lemma prefer_ipv4_elem addrs a :
  a ∈ prefer_ipv4 addrs <->
  a ∈ addrs /\ (is_ipv4 a = true \/ forall b, b ∈ addrs -> is_ipv4 b = false).
Proof.
  unfold prefer_ipv4. destruct (existsb is_ipv4 (iter addrs)) eqn:He.
  - apply existsb_exists in He as (b & Hin & Hb).
    apply list_elem_of_In, iter_elem in Hin. rewrite elem_of_filter.
    split; [tauto|]. intros [Ha [Hv|Hall]]; [done|]. by rewrite Hall in Hb.
  - split; [|tauto]. intros Ha. split; [done|]. right. intros b Hb.
    destruct (is_ipv4 b) eqn:Hv; [|done]. rewrite <- He. symmetry. apply existsb_exists.
    exists b. split; [|done]. by apply list_elem_of_In, iter_elem.
Qed.

Lemma prefer_ipv4_empty addrs : prefer_ipv4 addrs = ∅ <-> addrs = ∅.
Proof.
  split; [|intros ->; set_solver by apply prefer_ipv4_elem].
  intros He. unfold prefer_ipv4 in He. destruct (existsb is_ipv4 (iter addrs)) eqn:Hx; [|done].
  apply existsb_exists in Hx as (b & Hin & Hb). apply list_elem_of_In, iter_elem in Hin.
  assert (b ∈ filter (fun a => is_ipv4 a = true) addrs) by by apply elem_of_filter. set_solver.
Qed.

(** What the system's resolver hands on is never emptied by the choice of a family. *)
Lemma system_lookup_family {W E : Type}
    (lookup_host : string -> Z -> io W (result (list SocketAddr) E)) host port w s w' :
  system_lookup lookup_host host port w = (Ok s, w') ->
  exists addrs, lookup_host host port w = (Ok addrs, w') /\ (s = ∅ <-> addrs = []) /\
    forall a, a ∈ s <-> a ∈ addrs /\ (is_ipv4 a = true \/ forall b, b ∈ addrs -> is_ipv4 b = false).
Proof.
  unfold system_lookup, io_try, io_ret.
  destruct (lookup_host host port w) as [[addrs|e] w1]; [|done]. intros [= <- <-].
  assert (forall a, a ∈ prefer_ipv4 (list_to_set addrs) <->
    a ∈ addrs /\ (is_ipv4 a = true \/ forall b, b ∈ addrs -> is_ipv4 b = false)) as Hel
    by (intros a; rewrite prefer_ipv4_elem; set_solver).
  exists addrs. split; [done|]. split; [|done]. rewrite prefer_ipv4_empty.
  destruct addrs; set_solver.
Qed.

(** ** Theorems *)

(** The balancer is never emptied: whatever the lookups answer, however endpoints fail to
    build and whenever the queue is full, after every single change ever queued the balancer
    holds an endpoint, and the refresher's fields describe exactly what it holds. *)
Theorem refresher_never_empties {Q Endpoint} (CQ : ChangeQueue Q Endpoint)
    (sent : Q -> list (Change Endpoint)) (laws : QueueLaws CQ sent) turns immediate r :
  (0 < pool r)%nat -> consistent sent r -> replay (sent (tx r)) <> ∅ ->
  let '(_, r', _) := run turns immediate r in
  consistent sent r' /\ never_empty (sent (tx r)) (sent (tx r')).
Proof.
  intros Hp Hc Hn.
  pose proof (good_start _ Hp Hc Hn) as Hg.
  apply (run_good _ turns immediate (Z.min FIRST_RETRY (refresh r))) in Hg. unfold run.
  destruct (run_loop _ _ _ r) as [[ds r'] ended]. by destruct Hg.
Qed.

(** C26: A lookup that is fully applied converges: when every endpoint builds and the queue took
    every batch, the balancer holds exactly [pool] slots for each address of the answer, and the
    host-name placeholders are gone. *)
Theorem apply_converges {Q Endpoint} (CQ : ChangeQueue Q Endpoint)
    (sent : Q -> list (Change Endpoint)) (laws : QueueLaws CQ sent) found build r r' :
  (0 < pool r)%nat -> consistent sent r -> replay (sent (tx r)) <> ∅ ->
  found <> ∅ -> (forall a, a ∈ found -> is_Some (build a)) ->
  apply found build r = (SOk, r') ->
  known r' = found /\
  forall k, k ∈ replay (sent (tx r')) <->
    match k with Addr a slot => a ∈ found /\ (slot < pool r)%nat | Seed _ => False end.
Proof.
  intros Hp Hc Hn Hne Hall Happ.
  pose proof (good_start _ Hp Hc Hn) as Hg.
  destruct (apply_good _ _ _ _ _ _ Happ Hg) as (Hg' & [Hpool _] & Hconv).
  destruct (Hconv eq_refl Hne Hall) as [Hk Hs]. split; [done|].
  intros k. rewrite (good_consistent _ _ Hg' k), Hk, Hs, Hpool. destruct k; [lia|done].
Qed.

(** An empty answer, a failure and a timeout queue nothing while the placeholders of the
    channel are settled: the refresher and its log are untouched. *)
Theorem no_answer_no_change {Q Endpoint} (CQ : ChangeQueue Q Endpoint) build (r : Refresher Q) :
  seed_slots r = 0%nat \/ known r = ∅ ->
  apply ∅ build r = (SOk, r) /\
  forall turns first retry,
    Forall (fun t => t = LookupFailed \/ t = LookupTimedOut \/ t = Found ∅ build) turns ->
    (run_loop turns first retry r).1.2 = r.
Proof.
  intros Hs.
  assert (apply ∅ build r = (SOk, r)) as Happ.
  { unfold apply, diff_addrs. rewrite bool_decide_true by done. simpl.
    assert (apply_seeds r = (SOk, r)) as Hseeds.
    { unfold apply_seeds. destruct Hs as [->| ->]; [done|].
      rewrite (bool_decide_false (∅ <> ∅)) by tauto. by rewrite andb_false_r. }
    destruct (Nat.ltb _ _); exact Hseeds. }
  split; [done|]. intros turns. induction turns as [|t turns IH]; intros first retry Ht; [done|].
  apply Forall_cons in Ht as [Ht Hts]. simpl.
  destruct (next_delay first retry r) as [delay retry']. specialize (IH false retry' Hts).
  destruct (run_loop turns false retry' r) as [[ds r2] ended] eqn:E. simpl in IH. subst r2.
  destruct Ht as [->|[->| ->]]; rewrite ?E; [done..|]. rewrite Happ. by rewrite E.
Qed.

(** The [j]-th retry delay. *)
Definition retry_delay (refresh : Z) (j : nat) : Z := Z.min (FIRST_RETRY * 2 ^ Z.of_nat j) refresh.

Lemma retry_delay_S R j : 0 <= R -> Z.min (retry_delay R j * 2) R = retry_delay R (S j).
Proof. unfold retry_delay. rewrite Nat2Z.inj_succ, Z.pow_succ_r by lia. lia. Qed.

Lemma retries_from {Q Endpoint} (CQ : ChangeQueue Q Endpoint) (r : Refresher Q) n j :
  0 <= refresh r -> known r = ∅ ->
  (run_loop (replicate n LookupFailed) false (retry_delay (refresh r) j) r).1.1 =
  map (retry_delay (refresh r)) (seq j n).
Proof.
  intros Hr Hk. revert j. induction n as [|n IH]; intros j; [done|]. simpl.
  rewrite bool_decide_true, retry_delay_S by done. specialize (IH (S j)).
  destruct (run_loop (replicate n LookupFailed) false _ r) as [[ds r2] ended]. simpl in *. by f_equal.
Qed.

(** Until a lookup succeeds the refresher of a lazy channel looks up at once and then after
    1s, 2s, 4s, ..., never more than [refresh] apart. *)
Theorem lazy_retry_curve {Q Endpoint} (CQ : ChangeQueue Q Endpoint) (r : Refresher Q) n :
  0 <= refresh r -> known r = ∅ ->
  (run (replicate (S n) LookupFailed) true r).1.1 = 0 :: map (retry_delay (refresh r)) (seq 0 n).
Proof.
  intros Hr Hk. unfold run. simpl.
  replace (Z.min FIRST_RETRY (refresh r)) with (retry_delay (refresh r) 0)
    by (unfold retry_delay; simpl; by rewrite Z.mul_1_r).
  pose proof (retries_from CQ r n 0 Hr Hk) as H.
  destruct (run_loop (replicate n LookupFailed) false _ r) as [[ds r2] ended]. simpl in *. by f_equal.
Qed.

(** ** Witnesses *)

(** A queue that is never drained: its log and its capacity. *)
#[local] Instance list_queue : ChangeQueue (list (Change nat) * nat) nat := {
  try_reserve_many n q :=
    (if Nat.ltb q.2 (length q.1 + n) then Err TFull else Ok tt, q);
  permit_send c q := ((q.1 ++ [c])%list, q.2);
}.

#[local] Instance list_queue_laws : QueueLaws list_queue fst.
Proof. by constructor. Qed.

Definition host1 : SocketAddr := V4 1 1.
Definition host2 : SocketAddr := V4 2 1.

(** A lazy channel with two placeholders, before its first lookup. *)
Definition seeded : Refresher (list (Change nat) * nat) :=
  mkRefresher (from_secs 3) 2 2 ∅ ([Insert (Seed 0) 7; Insert (Seed 1) 7]%nat, 8%nat).

Lemma seeded_consistent : consistent fst seeded.
Proof.
  intros k. assert (replay (fst (tx seeded)) = {[Seed 0; Seed 1]}) as ->
    by (by apply (bool_decide_unpack _); vm_compute).
  rewrite elem_of_union, !elem_of_singleton. simpl. destruct k as [slot|a slot]; [|set_solver].
  split; [intros [[= ->]|[= ->]]; lia|]. destruct slot as [|[|]]; [auto..|lia].
Qed.

Lemma refresher_never_empties_witness :
  let '(_, r', _) :=
    run [Found {[host1; host2]} (fun _ => Some 7%nat); LookupFailed;
         Found {[host2]} (fun _ => Some 7%nat)] true seeded in
  known r' = {[host1; host2]} /\ never_empty (fst (tx seeded)) (fst (tx r')).
Proof.
  pose proof (refresher_never_empties list_queue fst list_queue_laws
    [Found {[host1; host2]} (fun _ => Some 7%nat); LookupFailed;
     Found {[host2]} (fun _ => Some 7%nat)] true seeded ltac:(simpl; lia) seeded_consistent
     ltac:(by apply (bool_decide_unpack _); vm_compute)) as H.
  assert ((run [Found {[host1; host2]} (fun _ => Some 7%nat); LookupFailed;
     Found {[host2]} (fun _ => Some 7%nat)] true seeded).1.2.(known) = {[host1; host2]}) as Hk
    by (by apply (bool_decide_unpack _); vm_compute).
  destruct (run _ true seeded) as [[ds r'] ended]. split; [exact Hk|apply H].
Defined.

Lemma apply_converges_witness :
  known (apply {[host1]} (fun _ => Some 7%nat) seeded).2 = {[host1]}.
Proof.
  apply (apply_converges list_queue fst list_queue_laws {[host1]} (fun _ => Some 7%nat) seeded);
    [simpl; lia|exact seeded_consistent|by apply (bool_decide_unpack _); vm_compute|set_solver|by eauto|].
  vm_compute. done.
Defined.

Lemma no_answer_no_change_witness : apply ∅ (fun _ => Some 7%nat) seeded = (SOk, seeded).
Proof. apply (no_answer_no_change list_queue). by right. Defined.

Lemma lazy_retry_curve_witness :
  (run (CQ := list_queue) (replicate 5 LookupFailed) true seeded).1.1 =
  [0; from_secs 1; from_secs 2; from_secs 3; from_secs 3].
Proof. rewrite (lazy_retry_curve list_queue seeded 4); [by vm_compute|vm_compute; done|done]. Defined.
