(* ===== verification/Grpc.v ===== *)
(** [pc-grpc]: the [GRPC_*] configuration, dial targets, deadlines and backoff, and the two kinds
    of connection pool, the second one handing a [Refresher] to the balancer
    ([crates/pc-grpc/src/lib.rs]).

    [tonic]'s endpoints and channels, DNS, the clock and the file system are third-party or the
    system's; they are the fields of [GrpcLib] over a world [W]. *)
From S2P Require Export Core Discovery.
Local Open Scope string_scope.
Local Open Scope Z_scope.
Local Open Scope rust_scope.

(** ** Environment helpers *)

Definition env_parsed {T : Type} (parse : string -> option T) (env : Env) (key : string) (dflt : T)
  : T :=
  match env key with
  | Some v => if negb (is_empty (trim v)) then default dflt (parse (trim v)) else dflt
  | None => dflt
  end.

Definition env_string (env : Env) (key dflt : string) : string :=
  match env key with
  | Some v => if negb (is_empty v) then v else dflt
  | None => dflt
  end.

Definition env_bool (env : Env) (key : string) (dflt : bool) : bool :=
  match env key with
  | Some v => default dflt (parse_bool_go (trim v))
  | None => dflt
  end.

(** [GRPC_DNS_REFRESH_SEC]. *)
Definition parse_dns_refresh (raw : option string) : Z :=
  match raw with
  | Some raw =>
      if is_empty (trim raw) then 0
      else match parse_u64 (trim raw) with Some secs => from_secs secs | None => 0 end
  | None => 0
  end.

(** ** Configuration *)

Definition DEFAULT_MAX_POOL : Z := 2.
Definition DEFAULT_HEALTHCHECK_INTERVAL_SECS : Z := 120.
Definition DEFAULT_HEALTHCHECK_ENABLED : bool := true.
Definition DEFAULT_BACKOFF_MULTIPLIER : spec_float := S754_finite false 4503599627370496 (-51).
Definition DEFAULT_MAX_IDLE_MINUTES : Z := 30.
Definition DEFAULT_MAX_LIFE_HOURS : Z := 24.
Definition DISCOVERY_BUFFER : Z := 1024.
Definition DEADLINE_MARGIN : Z := from_millis 50.

Inductive TlsMode : Type := Insecure | Tls.

Record GrpcConfig : Type := mkGrpcConfig {
  transaction_max_pool : Z;
  merchant_max_pool : Z;
  config_max_pool : Z;
  healthcheck_interval_secs : Z;
  healthcheck_enabled : bool;
  grpc_port : string;
  tls_mode : TlsMode;
  client_ca_file : option string;
  keep_alive_time : Z;
  keep_alive_timeout : Z;
  permit_without_stream : bool;
  max_retries : Z;
  initial_backoff : Z;
  max_backoff : Z;
  backoff_multiplier : spec_float;
  max_idle : Z;
  max_life : Z;
}.

(** [GrpcConfig::parse_env]; [usize] is 64-bit and the two products wrap. *)
Definition parse_env (env : Env) : GrpcConfig := {|
  transaction_max_pool := env_parsed parse_u64 env "GRPC_TRANSACTION_MAX_POOL" DEFAULT_MAX_POOL;
  merchant_max_pool := env_parsed parse_u64 env "GRPC_MERCHANT_MAX_POOL" DEFAULT_MAX_POOL;
  config_max_pool := env_parsed parse_u64 env "GRPC_CONFIG_MAX_POOL" DEFAULT_MAX_POOL;
  healthcheck_interval_secs :=
    env_parsed parse_u64 env "GRPC_HEALTHCHECK_INTERVAL" DEFAULT_HEALTHCHECK_INTERVAL_SECS;
  healthcheck_enabled := env_bool env "GRPC_HEALTHCHECK" DEFAULT_HEALTHCHECK_ENABLED;
  grpc_port := env_string env "GRPC_PORT" "9333";
  tls_mode := if String.eqb (env_string env "GRPC_TLS_MODE" "") "tls" then Tls else Insecure;
  client_ca_file :=
    (let s := env_string env "GRPC_CLIENT_CA_FILE" "" in if is_empty s then None else Some s);
  keep_alive_time := from_secs (env_parsed parse_u64 env "GRPC_KEEP_ALIVE_TIME" 30);
  keep_alive_timeout := from_secs (env_parsed parse_u64 env "GRPC_KEEP_ALIVE_TIMEOUT" 10);
  permit_without_stream := env_bool env "GRPC_PERMIT_WITHOUT_STREAM" true;
  max_retries := env_parsed parse_u32 env "GRPC_MAX_RETRIES" 3;
  initial_backoff := from_millis (env_parsed parse_u64 env "GRPC_INITIAL_BACKOFF" 100);
  max_backoff := from_secs (env_parsed parse_u64 env "GRPC_MAX_BACKOFF" 30);
  backoff_multiplier :=
    env_parsed parse_f64 env "GRPC_BACKOFF_MULTIPLIER" DEFAULT_BACKOFF_MULTIPLIER;
  max_idle := from_secs (u64_mul (env_parsed parse_u64 env "GRPC_MAX_IDLE" DEFAULT_MAX_IDLE_MINUTES) 60);
  max_life := from_secs (u64_mul (env_parsed parse_u64 env "GRPC_MAX_LIFE" DEFAULT_MAX_LIFE_HOURS) 3600);
|}.

Definition show_bool (b : bool) : string := if b then "true" else "false".

(** [warn_inert_settings]: the settings named in the warning; [show_f64] is the display of an
    [f64]. *)
Definition inert_settings (show_f64 : spec_float -> string) (c : GrpcConfig) : list string :=
  ((if negb (healthcheck_interval_secs c =? DEFAULT_HEALTHCHECK_INTERVAL_SECS)
    then ["GRPC_HEALTHCHECK_INTERVAL=" +:+ show_Z (healthcheck_interval_secs c)] else [])
   ++ (if xorb (healthcheck_enabled c) DEFAULT_HEALTHCHECK_ENABLED
       then ["GRPC_HEALTHCHECK=" +:+ show_bool (healthcheck_enabled c)] else [])
   ++ (if negb (SFeqb (backoff_multiplier c) DEFAULT_BACKOFF_MULTIPLIER)
       then ["GRPC_BACKOFF_MULTIPLIER=" +:+ show_f64 (backoff_multiplier c)] else [])
   ++ (if negb (max_idle c =? from_secs (DEFAULT_MAX_IDLE_MINUTES * 60))
       then ["GRPC_MAX_IDLE=" +:+ duration_debug (max_idle c)] else [])
   ++ (if negb (max_life c =? from_secs (DEFAULT_MAX_LIFE_HOURS * 3600))
       then ["GRPC_MAX_LIFE=" +:+ duration_debug (max_life c)] else []))%list.

(** [GrpcConfig::from_env]: the configuration, and the settings it warns about, if any. *)
Definition config_from_env (show_f64 : spec_float -> string) (env : Env) : GrpcConfig * option string :=
  let config := parse_env env in
  (config, match inert_settings show_f64 config with
           | [] => None
           | inert => Some (String.concat " " inert)
           end).

(** ** Targets, deadlines, backoff *)

Inductive EndpointError : Type :=
| MissingPort (endpoint : string)
| EmptyHost (endpoint : string)
| InvalidPort (port endpoint : string).

Definition dial_target (name : string) (port : Z) : string := name +:+ ":" +:+ show_Z port.

Definition parse_host_port (endpoint : string) : result (string * Z) EndpointError :=
  match rsplit_once ":" endpoint with
  | None => Err (MissingPort endpoint)
  | Some (host, port) =>
      if is_empty host then Err (EmptyHost endpoint)
      else match parse_u16 port with
           | None => Err (InvalidPort port endpoint)
           | Some p => Ok (host, p)
           end
  end.

Definition child_budget (wall : Z) : Z := default 0 (dur_checked_sub wall DEADLINE_MARGIN).

(** [with_deadline] on the timeout of a request. *)
Definition with_deadline (timeout : option Z) (budget : Z) : option Z := Some (child_budget budget).

Definition backoff_curve (initial max attempt : Z) : Z :=
  Z.min (dur_saturating_mul initial (saturating_mul 0 U32_MAX attempt attempt)) max.

(** ** The factory *)

Record GrpcClientFactory : Type := mkFactory { config : GrpcConfig; dns_refresh : Z }.

Definition factory_from_env (env : Env) : GrpcClientFactory :=
  mkFactory (parse_env env) (parse_dns_refresh (env "GRPC_DNS_REFRESH_SEC")).

Definition with_dns_refresh (f : GrpcClientFactory) (refresh : option Z) : GrpcClientFactory :=
  mkFactory (config f) (default 0 refresh).

Definition discovery_refresh (f : GrpcClientFactory) : option Z :=
  if negb (dns_refresh f =? 0) then Some (dns_refresh f) else None.

Definition pool_size_for (f : GrpcClientFactory) (target_env : string) : Z :=
  let size :=
    if String.eqb target_env "TRANSACTION_GRPC" then transaction_max_pool (config f)
    else if String.eqb target_env "MERCHANT_GRPC" then merchant_max_pool (config f)
    else if String.eqb target_env "CONFIG_GRPC" then config_max_pool (config f)
    else DEFAULT_MAX_POOL in
  Z.max size 1.

Definition backoff_for (f : GrpcClientFactory) (attempt : Z) : Z :=
  backoff_curve (initial_backoff (config f)) (max_backoff (config f)) attempt.

Definition scheme (f : GrpcClientFactory) : string :=
  match tls_mode (config f) with Tls => "https" | Insecure => "http" end.

Inductive GrpcError : Type :=
| TargetNotSet (target_env : string)
| NotHostPort (target_env raw : string) (cause : EndpointError)
| BadTarget (cause : EndpointError)
| ZeroRefresh
| PoolTooLarge (pool : Z)
| TooManyAddresses (n pool : Z)
| InvalidUri (uri cause : string)
| CaFile (path cause : string)
| TlsConfigError (cause : string)
| InvalidOrigin (cause : string)
| PrewarmExhausted (last : option string)
| ResolutionExhausted (last : string)
| QueueRejected
| EmptyInitial.

Definition resolve_target (f : GrpcClientFactory) (env : Env) (target_env : string)
  : result (string * Z) GrpcError :=
  let? raw := ok_or (env target_env) (TargetNotSet target_env) in
  let? (host, port) := res_map_err (NotHostPort target_env raw) (parse_host_port raw) in
  Ok (dial_target host port, pool_size_for f target_env).

(** Rejects a zero [refresh]. *)
Definition discovery_target (f : GrpcClientFactory) (env : Env) (target_env : string) (refresh : Z)
  : result (string * Z * Z) GrpcError :=
  if refresh =? 0 then Err ZeroRefresh
  else
    let? (target, pool) := resolve_target f env target_env in
    let? (host, port) := res_map_err BadTarget (parse_host_port target) in
    if DISCOVERY_BUFFER <? pool then Err (PoolTooLarge pool)
    else Ok (host, port, pool).

(** The libraries and the system: endpoints, DNS, connections, sleeping, files, and the channel
    behind a balancer. *)
Class GrpcLib (W Q Endpoint : Type) : Type := {
  TlsConfig : Type;
  from_shared : string -> result Endpoint string;
  set_keep_alive_timeout : Z -> Endpoint -> Endpoint;
  keep_alive_while_idle : bool -> Endpoint -> Endpoint;
  http2_keep_alive_interval : Z -> Endpoint -> Endpoint;
  connect_timeout : Z -> Endpoint -> Endpoint;
  tls_new : TlsConfig;
  tls_domain_name : string -> TlsConfig -> TlsConfig;
  tls_ca_certificate : bytes -> TlsConfig -> TlsConfig;
  tls_config : TlsConfig -> Endpoint -> result Endpoint string;
  Uri : Type;
  parse_uri : string -> result Uri string;
  set_origin : Uri -> Endpoint -> Endpoint;
  fs_read : string -> W -> result bytes string;
  lookup : string -> Z -> io W (result (gset SocketAddr) string);
  endpoint_connect : Endpoint -> io W (result unit string);
  sleep : Z -> io W unit;
  balance_channel : Z -> Q;
  try_send : Change Endpoint -> Q -> bool * Q;
}.

(** A fresh channel has sent nothing, and a send that is accepted is logged. *)
Class GrpcQueueLaws {W Q Endpoint : Type} (G : GrpcLib W Q Endpoint)
  (sent : Q -> list (Change Endpoint)) : Prop := {
  balance_channel_sent n : sent (balance_channel n) = [];
  try_send_sent c q : (try_send c q).1 = true -> sent (try_send c q).2 = (sent q ++ [c])%list;
}.

Section Factory.
Context {W Q Endpoint : Type} {G : GrpcLib W Q Endpoint}.
Context (f : GrpcClientFactory).

(** [build_endpoint], against the files of [w]. *)
Definition build_endpoint (w : W) (target : string) (tls_domain : option string)
  : result Endpoint GrpcError :=
  let uri := scheme f +:+ "://" +:+ target in
  let? endpoint := res_map_err (InvalidUri uri) (from_shared uri) in
  let endpoint :=
    connect_timeout (from_secs 5)
      (http2_keep_alive_interval (keep_alive_time (config f))
         (keep_alive_while_idle (permit_without_stream (config f))
            (set_keep_alive_timeout (keep_alive_timeout (config f)) endpoint))) in
  match tls_mode (config f) with
  | Insecure => Ok endpoint
  | Tls =>
      let tls := match tls_domain with
                 | Some domain => tls_domain_name domain tls_new | None => tls_new end in
      let? tls :=
        match client_ca_file (config f) with
        | Some ca => let? pem := res_map_err (CaFile ca) (fs_read ca w) in
                     Ok (tls_ca_certificate pem tls)
        | None => Ok tls
        end in
      res_map_err TlsConfigError (tls_config tls endpoint)
  end.

(** [discovery_builder]. *)
Definition discovery_build (w : W) (host : string) (port : Z) (addr : SocketAddr)
  : result Endpoint GrpcError :=
  let? origin := res_map_err InvalidOrigin
                   (parse_uri (scheme f +:+ "://" +:+ host +:+ ":" +:+ show_Z port)) in
  let? endpoint := build_endpoint w (addr_to_string addr) (Some host) in
  Ok (set_origin origin endpoint).

(** [prewarm] from attempt number [attempt] on, with [remaining] attempts left. *)
Fixpoint prewarm_from (endpoint : Endpoint) (remaining : nat) (attempt attempts : Z)
  (last_err : option string) : io W (result unit GrpcError) :=
  fun w =>
    match remaining with
    | O => (Err (PrewarmExhausted last_err), w)
    | S remaining =>
        match endpoint_connect endpoint w with
        | (Ok tt, w) => (Ok tt, w)
        | (Err err, w) =>
            let w := if attempt <? attempts then (sleep (backoff_for f attempt) w).2 else w in
            prewarm_from endpoint remaining (attempt + 1) attempts (Some err) w
        end
    end.

Definition prewarm (endpoint : Endpoint) : io W (result unit GrpcError) :=
  let attempts := Z.max (max_retries (config f)) 1 in
  prewarm_from endpoint (Z.to_nat attempts) 1 attempts None.

Fixpoint initial_lookup_from (host : string) (port : Z) (remaining : nat) (attempt attempts : Z)
  (last_err : string) : io W (result (gset SocketAddr) GrpcError) :=
  fun w =>
    match remaining with
    | O => (Err (ResolutionExhausted last_err), w)
    | S remaining =>
        let again err w :=
          let w := if attempt <? attempts then (sleep (backoff_for f attempt) w).2 else w in
          initial_lookup_from host port remaining (attempt + 1) attempts err w in
        match lookup host port w with
        | (Ok addrs, w) =>
            if bool_decide (addrs <> ∅) then (Ok addrs, w)
            else again ("`" +:+ host +:+ "` resolved to no addresses") w
        | (Err err, w) => again ("resolve `" +:+ host +:+ "`: " +:+ err) w
        end
    end.

Definition initial_lookup (host : string) (port : Z) : io W (result (gset SocketAddr) GrpcError) :=
  let attempts := Z.max (max_retries (config f)) 1 in
  initial_lookup_from host port (Z.to_nat attempts) 1 attempts
    ("no addresses for `" +:+ host +:+ "`").

(** What a connect hands out: a fixed pool, or a channel fed by a refresher started with the
    given [immediate] flag. *)
Inductive Channel : Type :=
| BalanceList (endpoints : list Endpoint)
| Discovered (host : string) (port : Z) (r : Refresher Q) (immediate : bool).

(** Send the [pool] slots of one key family. *)
Fixpoint send_slots (key : nat -> EndpointKey) (endpoint : Endpoint) (slots : list nat) (q : Q)
  : result Q GrpcError :=
  match slots with
  | [] => Ok q
  | slot :: rest =>
      match try_send (Insert (key slot) endpoint) q with
      | (true, q) => send_slots key endpoint rest q
      | (false, _) => Err QueueRejected
      end
  end.

Fixpoint send_initial (build : SocketAddr -> result Endpoint GrpcError) (pool : nat)
  (addrs : list SocketAddr) (q : Q) : result Q GrpcError :=
  match addrs with
  | [] => Ok q
  | addr :: rest =>
      let? endpoint := build addr in
      let? q := send_slots (Addr addr) endpoint (seq 0 pool) q in
      send_initial build pool rest q
  end.

Definition connect_discovered_with (env : Env) (target_env : string) (refresh : Z)
  : io W (result Channel GrpcError) :=
  fun w =>
    match discovery_target f env target_env refresh with
    | Err e => (Err e, w)
    | Ok (host, port, pool) =>
    match initial_lookup host port w with
    | (Err e, w) => (Err e, w)
    | (Ok initial, w) =>
    (* [EmptyInitial] stands for the [expect] on the non-empty answer. *)
    match default (Err EmptyInitial)
            (option_map (discovery_build w host port) (head (iter initial))) with
    | Err e => (Err e, w)
    | Ok first =>
    match prewarm first w with
    | (Err e, w) => (Err e, w)
    | (Ok tt, w) =>
        let n := Z.of_nat (size initial) in
        if DISCOVERY_BUFFER <? u64_mul n pool then (Err (TooManyAddresses n pool), w)
        else
          (let? q := send_initial (discovery_build w host port) (Z.to_nat pool) (iter initial)
                       (balance_channel DISCOVERY_BUFFER) in
           Ok (Discovered host port (mkRefresher refresh (Z.to_nat pool) 0 initial q) false), w)
    end
    end
    end
    end.

Definition connect_discovered_lazy_with (env : Env) (w : W) (target_env : string) (refresh : Z)
  : result Channel GrpcError :=
  let? (host, port, pool) := discovery_target f env target_env refresh in
  let q := balance_channel DISCOVERY_BUFFER in
  let? seed := build_endpoint w (dial_target host port) None in
  let? q := send_slots Seed seed (seq 0 (Z.to_nat pool)) q in
  Ok (Discovered host port
        (mkRefresher refresh (Z.to_nat pool) (Z.to_nat pool) ∅ q) true).

Definition connect (env : Env) (target_env : string) : io W (result Channel GrpcError) :=
  fun w =>
    match discovery_refresh f with
    | Some refresh => connect_discovered_with env target_env refresh w
    | None =>
        match resolve_target f env target_env with
        | Err e => (Err e, w)
        | Ok (target, pool) =>
            match build_endpoint w target None with
            | Err e => (Err e, w)
            | Ok endpoint =>
                match prewarm endpoint w with
                | (Err e, w) => (Err e, w)
                | (Ok tt, w) => (Ok (BalanceList (replicate (Z.to_nat pool) endpoint)), w)
                end
            end
        end
    end.

Definition connect_lazy (env : Env) (w : W) (target_env : string) : result Channel GrpcError :=
  match discovery_refresh f with
  | Some refresh => connect_discovered_lazy_with env w target_env refresh
  | None =>
      let? (target, pool) := resolve_target f env target_env in
      let? endpoint := build_endpoint w target None in
      Ok (BalanceList (replicate (Z.to_nat pool) endpoint))
  end.
End Factory.

(** The libraries with another resolver. *)
Definition with_resolver {W Q Endpoint : Type} (G : GrpcLib W Q Endpoint)
  (lookup : string -> Z -> io W (result (gset SocketAddr) string)) : GrpcLib W Q Endpoint := {|
  TlsConfig := @TlsConfig _ _ _ G;
  from_shared := from_shared;
  set_keep_alive_timeout := set_keep_alive_timeout;
  keep_alive_while_idle := keep_alive_while_idle;
  http2_keep_alive_interval := http2_keep_alive_interval;
  connect_timeout := connect_timeout;
  tls_new := tls_new;
  tls_domain_name := tls_domain_name;
  tls_ca_certificate := tls_ca_certificate;
  tls_config := tls_config;
  Uri := @Uri _ _ _ G;
  parse_uri := parse_uri;
  set_origin := set_origin;
  fs_read := fs_read;
  lookup := lookup;
  endpoint_connect := endpoint_connect;
  sleep := sleep;
  balance_channel := balance_channel;
  try_send := try_send;
|}.

(** [connect_discovered] and its lazy counterpart: the system's resolver. *)
Section SystemDns.
Context {W Q Endpoint : Type} (G : GrpcLib W Q Endpoint).
Context (lookup_host : string -> Z -> io W (result (list SocketAddr) string)).

Definition connect_discovered (f : GrpcClientFactory) (env : Env) (target_env : string) (refresh : Z)
  : io W (result Channel GrpcError) :=
  connect_discovered_with (G := with_resolver G (system_lookup lookup_host)) f env target_env refresh.

Definition connect_discovered_lazy (f : GrpcClientFactory) (env : Env) (w : W) (target_env : string)
  (refresh : Z) : result Channel GrpcError :=
  connect_discovered_lazy_with (G := with_resolver G (system_lookup lookup_host)) f env w target_env
    refresh.
End SystemDns.


(** ** Lemmas *)

Lemma pool_size_pos f t : 1 <= pool_size_for f t.
Proof. unfold pool_size_for. lia. Qed.

Lemma discovery_target_ok f env t refresh host port pool :
  discovery_target f env t refresh = Ok (host, port, pool) ->
  refresh <> 0 /\ 1 <= pool <= DISCOVERY_BUFFER.
Proof.
  unfold discovery_target, resolve_target.
  destruct (Z.eqb_spec refresh 0) as [|Hr]; [done|].
  destruct (env t) as [raw|]; simpl; [|done].
  destruct (parse_host_port raw) as [[h p]|]; simpl; [|done].
  destruct (parse_host_port (dial_target h p)) as [[h' p']|]; simpl; [|done].
  destruct (Z.ltb_spec DISCOVERY_BUFFER (pool_size_for f t)); [done|].
  intros [= <- <- <-]. pose proof (pool_size_pos f t). lia.
Qed.

Section Lemmas.
Context {W Q Endpoint : Type} {G : GrpcLib W Q Endpoint} {sent : Q -> list (Change Endpoint)}.
Context {laws : GrpcQueueLaws G sent}.
#[local] Set Default Proof Using "Type*".

Lemma send_slots_sent key e slots q q' :
  send_slots key e slots q = Ok q' ->
  sent q' = (sent q ++ map (fun slot => Insert (key slot) e) slots)%list.
Proof.
  revert q. induction slots as [|slot slots IH]; intros q; simpl.
  - intros [= <-]. by rewrite app_nil_r.
  - pose proof (try_send_sent (Insert (key slot) e) q) as Hs.
    destruct (try_send _ q) as [[|] q1]; [|done]. simpl in Hs.
    intros H. rewrite (IH _ H), Hs by done. by rewrite <- app_assoc.
Qed.

Lemma send_initial_replay build n addrs q q' k :
  send_initial build n addrs q = Ok q' ->
  k ∈ replay (sent q') <->
  k ∈ replay (sent q) \/
  match k with Addr a slot => a ∈ addrs /\ (slot < n)%nat | Seed _ => False end.
Proof.
  revert q. induction addrs as [|a addrs IH]; intros q; simpl.
  - intros [= <-]. destruct k; set_solver.
  - destruct (build a) as [e|]; simpl; [|done].
    destruct (send_slots _ e _ q) as [q1|] eqn:Hs; simpl; [|done].
    intros H. rewrite (IH _ H), (send_slots_sent _ _ _ _ _ Hs), replay_app.
    rewrite (replay_inserts (Addr a)), addr_slots. destruct k; set_solver.
Qed.

(** Discovery starts the refresher on what it queued. *)
Lemma discovered_start f env t refresh w host port r imm w' :
  connect_discovered_with f env t refresh w = (Ok (Discovered host port r imm), w') ->
  (0 < pool r)%nat /\ consistent sent r /\ replay (sent (tx r)) <> ∅ /\
  known r <> ∅ /\ seed_slots r = 0%nat /\ Discovery.refresh r = refresh /\ refresh <> 0 /\
  imm = false.
Proof.
  unfold connect_discovered_with.
  destruct (discovery_target f env t refresh) as [[[h p] n]|] eqn:Ht; [|done].
  apply discovery_target_ok in Ht as [Hr Hn].
  destruct (initial_lookup f h p w) as [[initial|] w1]; [|done].
  destruct (head (iter initial)) as [a0|] eqn:Hhead; simpl; [|done].
  destruct (discovery_build f w1 h p a0) as [first|]; [|done].
  destruct (prewarm f first w1) as [[[]|] w2]; [|done].
  destruct (_ <? _); [done|].
  destruct (send_initial _ _ _ _) as [q|] eqn:Hq; simpl; [|done].
  intros [= <- <- <- <- <-].
  assert (forall k, k ∈ replay (sent q) <->
    match k with Addr a slot => a ∈ initial /\ (slot < Z.to_nat n)%nat | Seed _ => False end)
    as Hk.
  { intros k. rewrite (send_initial_replay _ _ _ _ _ k Hq), balance_channel_sent.
    unfold replay at 1. simpl. destruct k as [|a slot]; [set_solver|].
    rewrite iter_elem. set_solver. }
  assert (a0 ∈ initial) as Ha0.
  { rewrite <- iter_elem. destruct (iter initial); simplify_eq/=. set_solver. }
  split_and!; simpl; try done; try lia.
  - intros k. simpl. rewrite (Hk k). destruct k; [lia|done].
  - intros He. assert (Addr a0 0 ∈ replay (sent q)) as Hin by (rewrite Hk; split; [done|lia]).
    rewrite He in Hin. set_solver.
  - set_solver.
Qed.

Lemma lazy_start f env t refresh w host port r imm :
  connect_discovered_lazy_with f env w t refresh = Ok (Discovered host port r imm) ->
  (0 < pool r)%nat /\ consistent sent r /\ replay (sent (tx r)) <> ∅ /\
  known r = ∅ /\ seed_slots r = pool r /\ Discovery.refresh r = refresh /\ refresh <> 0 /\
  imm = true.
Proof.
  unfold connect_discovered_lazy_with.
  destruct (discovery_target f env t refresh) as [[[h p] n]|] eqn:Ht; simpl; [|done].
  apply discovery_target_ok in Ht as [Hr Hn].
  destruct (build_endpoint f w _ None) as [seed|]; simpl; [|done].
  destruct (send_slots Seed seed _ _) as [q|] eqn:Hq; simpl; [|done].
  intros [= <- <- <- <-]. apply send_slots_sent in Hq. rewrite balance_channel_sent in Hq.
  assert (forall k, k ∈ replay (sent q) <->
    match k with Addr _ _ => False | Seed slot => (slot < Z.to_nat n)%nat end) as Hk.
  { intros k. rewrite Hq, replay_app, (replay_inserts Seed), seed_slots_keys.
    unfold replay. simpl. destruct k; set_solver. }
  split_and!; simpl; try done; try lia.
  - intros k. simpl. rewrite (Hk k). destruct k; [done|set_solver].
  - intros He. assert (Seed 0 ∈ replay (sent q)) as Hin by (rewrite Hk; lia).
    rewrite He in Hin. set_solver.
Qed.
End Lemmas.

(** ** Theorems *)

(** [host:port] parsing and printing are inverse: a dial target is parsed back into its parts,
    and whatever parses has a non-empty host, a port in range, and survives being printed. *)
Theorem host_port_roundtrip name port endpoint :
  (name <> "" -> 0 <= port <= U16_MAX -> parse_host_port (dial_target name port) = Ok (name, port)) /\
  (parse_host_port endpoint = Ok (name, port) ->
   name <> "" /\ 0 <= port <= U16_MAX /\ parse_host_port (dial_target name port) = Ok (name, port)).
Proof.
  assert (name <> "" -> 0 <= port <= U16_MAX ->
    parse_host_port (dial_target name port) = Ok (name, port)) as Hrt.
  { intros Hn Hp. unfold parse_host_port, dial_target. simpl.
    rewrite rsplit_once_app.
    - apply is_empty_false in Hn. rewrite Hn. unfold parse_u16. by rewrite parse_unsigned_show.
    - apply show_Z_digits; [lia|]. vm_compute. naive_solver. }
  split; [done|]. unfold parse_host_port.
  destruct (rsplit_once ":" endpoint) as [[h p]|]; [|done].
  destruct (is_empty h) eqn:Hh; [done|]. destruct (parse_u16 p) as [n|] eqn:Hn; [|done].
  intros [= <- <-]. apply is_empty_false in Hh. apply parse_unsigned_bounds in Hn.
  split_and!; [done|lia..|]. by apply Hrt.
Qed.

(** A child deadline is strictly below the wall budget it is derived from, by exactly the
    margin when there is room for it, and never negative. *)
Theorem child_budget_below_wall wall :
  0 < wall ->
  0 <= child_budget wall < wall /\
  (DEADLINE_MARGIN <= wall -> child_budget wall = wall - DEADLINE_MARGIN) /\
  (wall < DEADLINE_MARGIN -> child_budget wall = 0).
Proof.
  unfold child_budget, dur_checked_sub, DEADLINE_MARGIN, from_millis. intros Hw.
  destruct (Z.leb_spec (50 * 1000000) wall); simpl; lia.
Qed.

(** The backoff is quadratic up to its ceiling: it never exceeds [max], never decreases with
    the attempt number, and is [initial * attempt ^ 2] whenever that fits under the ceiling. *)
Theorem backoff_quadratic initial max a b :
  0 <= initial -> 0 <= max <= DUR_MAX -> 0 <= a <= b ->
  backoff_curve initial max a <= backoff_curve initial max b <= max /\
  (a <= 65535 -> initial * (a * a) <= max -> backoff_curve initial max a = initial * (a * a)).
Proof.
  intros Hi Hm Hab. unfold backoff_curve, dur_saturating_mul, saturating_mul, U32_MAX.
  assert (a * a <= b * b) by nia.
  set (sa := Z.max 0 (Z.min (2 ^ 32 - 1) (a * a))). set (sb := Z.max 0 (Z.min (2 ^ 32 - 1) (b * b))).
  assert (sa <= sb) by (unfold sa, sb; lia). assert (initial * sa <= initial * sb) by nia.
  split; [lia|]. intros Ha Hfit. assert (sa = a * a) as -> by (unfold sa; nia). lia.
Qed.

(** C8: From connect to shutdown, eager or lazy, a discovery channel always has an endpoint: the
    refresher is started on exactly what was queued, with a non-empty balancer, and no sequence of
    lookups, build failures and full queues ever empties it. *)
Theorem discovered_channel_never_empty {W Q Endpoint} (G : GrpcLib W Q Endpoint)
    (CQ : ChangeQueue Q Endpoint) (sent : Q -> list (Change Endpoint))
    (laws : GrpcQueueLaws G sent) (queue_laws : QueueLaws CQ sent)
    f env t refresh w host port r imm w' turns :
  connect_discovered_with f env t refresh w = (Ok (Discovered host port r imm), w') \/
  connect_discovered_lazy_with f env w t refresh = Ok (Discovered host port r imm) ->
  refresh <> 0 /\ replay (sent (tx r)) <> ∅ /\
  let '(_, r', _) := run turns imm r in
  consistent sent r' /\ never_empty (sent (tx r)) (sent (tx r')).
Proof.
  intros Hstart.
  assert ((0 < pool r)%nat /\ consistent sent r /\ replay (sent (tx r)) <> ∅ /\ refresh <> 0)
    as (Hp & Hc & Hn & Hr).
  { destruct Hstart as [H|H]; [apply discovered_start in H|apply lazy_start in H]; naive_solver. }
  split_and!; [done..|].
  pose proof (run_good _ turns imm (Z.min FIRST_RETRY (Discovery.refresh r)) r
    (good_start r Hp Hc Hn)) as Hg. unfold run.
  destruct (run_loop _ _ _ r) as [[ds r'] ended]. by destruct Hg.
Qed.

(** A world that counts connection attempts and logs sleeps; [script] answers the attempts. *)
Definition scripted {Q Endpoint} (G : GrpcLib (nat * list Z) Q Endpoint)
  (script : nat -> result unit string) : Prop :=
  (forall e n ds, endpoint_connect e (n, ds) = (script n, (S n, ds))) /\
  (forall d n ds, sleep d (n, ds) = (tt, (n, ds ++ [d])%list)).

(** The first [j] attempts failing, with more to come: each is followed by its pause. *)
Lemma prewarm_skip {Q Endpoint} (G : GrpcLib (nat * list Z) Q Endpoint) f e script A rem j :
  scripted G script ->
  forall n ds last, (forall i, (n <= i < n + j)%nat -> is_ok (script i) = false) ->
  (n + j < A)%nat ->
  exists last',
    prewarm_from f e (j + rem) (Z.of_nat (S n)) (Z.of_nat A) last (n, ds) =
    prewarm_from f e rem (Z.of_nat (S (n + j))) (Z.of_nat A) last'
      ((n + j)%nat, (ds ++ map (fun i => backoff_for f (Z.of_nat i)) (seq (S n) j))%list).
Proof.
  intros [Hconn Hsleep]. induction j as [|j IH]; intros n ds last Hfail HA.
  { exists last. rewrite Nat.add_0_r, app_nil_r. done. }
  cbn [Nat.add prewarm_from]. rewrite Hconn.
  specialize (Hfail n ltac:(lia)) as Hn. destruct (script n) as [|msg]; [done|].
  rewrite (proj2 (Z.ltb_lt _ _)) by lia. rewrite Hsleep. cbn [snd].
  replace (Z.of_nat (S n) + 1) with (Z.of_nat (S (S n))) by lia.
  destruct (IH (S n) (ds ++ [backoff_for f (Z.of_nat (S n))])%list (Some msg)) as [last' ->];
    [intros; apply Hfail; lia|lia|].
  exists last'. replace (n + S j)%nat with (S n + j)%nat by lia.
  cbn [seq map]. by rewrite <- app_assoc.
Qed.

(** C39: The prewarm stops at the first connection that succeeds and otherwise after exactly
    [max 1 max_retries] attempts, returning the last error; it pauses [backoff_for i] after the
    [i]-th failure and never after the last one. *)
Theorem prewarm_schedule {Q Endpoint} (G : GrpcLib (nat * list Z) Q Endpoint) f e script :
  scripted G script -> 0 <= max_retries (config f) ->
  let A := Z.to_nat (Z.max (max_retries (config f)) 1) in
  let pauses k := map (fun i => backoff_for f (Z.of_nat i)) (seq 1 k) in
  (forall k, (k < A)%nat -> (forall i, (i < k)%nat -> is_ok (script i) = false) ->
     is_ok (script k) = true -> prewarm f e (0%nat, []) = (Ok tt, (S k, pauses k))) /\
  ((forall i, (i < A)%nat -> is_ok (script i) = false) ->
     exists msg, script (A - 1)%nat = Err msg /\
       prewarm f e (0%nat, []) = (Err (PrewarmExhausted (Some msg)), (A, pauses (A - 1)%nat))).
Proof.
  intros Hs Hm A pauses. unfold prewarm. fold A.
  assert (Z.max (max_retries (config f)) 1 = Z.of_nat A) as HA by (unfold A; lia).
  rewrite HA. split.
  - intros k Hk Hfail Hok.
    destruct (prewarm_skip G f e script A (A - k) k Hs 0 [] None) as [last' H];
      [intros; apply Hfail; lia|lia|].
    replace (k + (A - k))%nat with A in H by lia. etransitivity; [exact H|].
    replace (A - k)%nat with (S (A - k - 1)) by lia. cbn [prewarm_from Nat.add].
    destruct Hs as [Hconn _]. rewrite Hconn. by destruct (script k) as [[]|].
  - intros Hfail.
    destruct (prewarm_skip G f e script A 1 (A - 1) Hs 0 [] None) as [last' H];
      [intros; apply Hfail; lia|lia|].
    replace (A - 1 + 1)%nat with A in H by lia.
    specialize (Hfail (A - 1)%nat ltac:(lia)). destruct (script (A - 1)%nat) as [|msg] eqn:Hmsg; [done|].
    exists msg. split; [done|]. etransitivity; [exact H|]. cbn [prewarm_from Nat.add].
    destruct Hs as [Hconn _]. rewrite Hconn, Hmsg. replace (S (A - 1)) with A by lia.
    by rewrite Z.ltb_irrefl.
Qed.

(** ** Witnesses *)

(** Endpoints are numbers, every address resolves to two hosts, the first two connections fail. *)
#[local] Instance toy_grpc : GrpcLib (nat * list Z) (list (Change nat) * nat) nat := {|
  TlsConfig := unit; Uri := unit;
  from_shared s := Ok (String.length s);
  set_keep_alive_timeout _ e := e; keep_alive_while_idle _ e := e;
  http2_keep_alive_interval _ e := e; connect_timeout _ e := e;
  tls_new := tt; tls_domain_name _ t := t; tls_ca_certificate _ t := t;
  tls_config _ e := Ok e; parse_uri _ := Ok tt; set_origin _ e := e;
  fs_read _ _ := Err "no file";
  lookup _ _ := fun w => (Ok {[host1; host2]}, w);
  endpoint_connect e := fun w => (if Nat.ltb w.1 2 then Err "refused" else Ok tt, (S w.1, w.2));
  sleep d := fun w => (tt, (w.1, (w.2 ++ [d])%list));
  balance_channel n := ([], Z.to_nat n);
  try_send c q := if Nat.ltb (length q.1) q.2 then (true, ((q.1 ++ [c])%list, q.2)) else (false, q);
|}.

#[local] Instance toy_grpc_laws : GrpcQueueLaws toy_grpc fst.
Proof. constructor; [done|]. intros c q. simpl. by destruct (Nat.ltb _ _). Qed.

Definition toy_env : Env := fun k =>
  if String.eqb k "TRANSACTION_GRPC" then Some "pods:9106" else None.
Definition toy_factory : GrpcClientFactory := factory_from_env toy_env.

Lemma host_port_roundtrip_witness : parse_host_port (dial_target "pods" 9106) = Ok ("pods", 9106).
Proof.
  refine (proj1 (host_port_roundtrip "pods" 9106 "pods:9106") _ _); [done|].
  split; vm_compute; discriminate.
Defined.

Lemma child_budget_below_wall_witness : child_budget (from_millis 1000) = from_millis 950.
Proof.
  destruct (child_budget_below_wall (from_millis 1000) ltac:(vm_compute; done)) as (_ & H & _).
  rewrite H; [done|]. vm_compute. done.
Defined.

Lemma backoff_quadratic_witness : backoff_curve (from_millis 100) (from_secs 30) 3 = from_millis 900.
Proof.
  destruct (backoff_quadratic (from_millis 100) (from_secs 30) 3 4) as [_ H];
    [by vm_compute|by vm_compute|lia|]. apply H; by vm_compute.
Defined.

Lemma discovered_channel_never_empty_witness :
  match connect_discovered_lazy_with toy_factory toy_env (0%nat, []) "TRANSACTION_GRPC" 5 with
  | Ok (Discovered _ _ r _) => replay (fst (tx r)) <> ∅
  | _ => False
  end.
Proof.
  destruct (connect_discovered_lazy_with _ _ _ _ _) as [[l|h p r imm]|] eqn:E;
    [vm_compute in E; discriminate| |vm_compute in E; discriminate].
  destruct (discovered_channel_never_empty toy_grpc list_queue fst toy_grpc_laws list_queue_laws
    toy_factory toy_env "TRANSACTION_GRPC" 5 (0%nat, []) h p r imm (0%nat, []) []
    (or_intror E)) as (_ & H & _). exact H.
Defined.

Lemma prewarm_schedule_witness :
  prewarm toy_factory 7%nat (0%nat, []) = (Ok tt, (3%nat, [from_millis 100; from_millis 400])).
Proof.
  destruct (prewarm_schedule toy_grpc toy_factory 7%nat
    (fun n => if Nat.ltb n 2 then Err "refused" else Ok tt)) as [H _].
  - done.
  - vm_compute. done.
  - rewrite (H 2%nat); [by vm_compute|vm_compute; lia| |done].
    intros [|[|i]] Hi; [done|done|lia].
Defined.
