(* ===== verification/AuditTrail.v ===== *)
(** [pc-audit]: the audit-trail entities with their JSON fields and the payload builders
    ([crates/pc-audit/src/lib.rs]); the publisher is in [AuditPool].

    [serde_json] values are third-party ([V]); the objects the derived serializers write are
    modelled field by field, and so is the derived reader of a trace. *)
From S2P Require Export Core Codecs.
Local Open Scope string_scope.
Local Open Scope Z_scope.
Local Open Scope rust_scope.
#[local] Set Warnings "-register-all".

(** ** Constants *)

Definition CMD_PROCESS : string := "audit-trail-process".
Definition CMD_DATA : string := "audit-trail-data".
Definition CMD_TRX : string := "audit-trail-trx".
Definition CMD_TRACE : string := "transaction-trace".
Definition TRACE_KIND_HOP : string := "hop".
Definition TRACE_KIND_MILESTONE : string := "milestone".
Definition TRACE_KIND_POLL : string := "poll".
Definition TRACE_LEG_CREATE_ORDER : string := "create_order".
Definition TRACE_LEG_CALLBACK : string := "callback".
Definition TRACE_LEG_LIFECYCLE : string := "lifecycle".
Definition TRACE_DIR_INBOUND : string := "inbound".
Definition TRACE_DIR_OUTBOUND : string := "outbound".
Definition TRACE_DIR_INTERNAL : string := "internal".
Definition TRX_STATE_REQUEST_RECEIVED : string := "request_received".
Definition TRX_STATE_REQUEST_VALIDATED : string := "request_validated".
Definition TRX_STATE_ORDER_CREATED : string := "order_created".
Definition TRX_STATE_CHANNEL_SELECTED : string := "channel_selected".
Definition TRX_STATE_CHANNEL_PROCESSED : string := "channel_processed".
Definition TRX_STATE_VENDOR_REQUEST_SENT : string := "vendor_request_sent".
Definition TRX_STATE_VENDOR_TOKEN_ACQUIRED : string := "vendor_token_acquired".
Definition TRX_STATE_QR_GENERATED : string := "qr_generated".
Definition TRX_STATE_VENDOR_REQUEST_FAILED : string := "vendor_request_failed".
Definition TRX_STATE_TRANSACTION_UPDATED : string := "transaction_updated".
Definition TRX_STATE_PAYMENT_NOTIFIED : string := "payment_notified".
Definition TRX_STATE_RESPONSE_RETURNED : string := "response_returned".
Definition TRX_STATE_ORDER_EXPIRED : string := "order_expired".
Definition TRX_STATE_PAYMENT_RECEIVED : string := "payment_received".
Definition TRX_STATE_STATUS_CHECKED : string := "status_checked".
Definition TRX_STATUS_PROCESSING : string := "processing".
Definition TRX_STATUS_SUCCESS : string := "success".
Definition TRX_STATUS_FAILED : string := "failed".
Definition TRX_STATUS_EXPIRED : string := "expired".

(** ** JSON fields *)

(** What the derived serializers write. *)
Inductive Json (V : Type) : Type :=
| JNull
| JNum (n : Z)
| JStr (s : string)
| JArr (l : list (Json V))
| JObj (fields : list (string * Json V))
| JVal (v : V).
Arguments JNull {V}.
Arguments JNum {V} n.
Arguments JStr {V} s.
Arguments JArr {V} l.
Arguments JObj {V} fields.
Arguments JVal {V} v.

Section Entities.
Context {V : Type}.

(** [skip_serializing_if]: [String::is_empty], [is_zero_*], [Option::is_none]. *)
Definition skip_str (name s : string) : list (string * Json V) :=
  if is_empty s then [] else [(name, JStr s)].
Definition skip_num (name : string) (n : Z) : list (string * Json V) :=
  if n =? 0 then [] else [(name, JNum n)].
Definition skip_val (name : string) (v : option V) : list (string * Json V) :=
  match v with Some v => [(name, JVal v)] | None => [] end.

(** [Option<Vec<String>>] without a skip rule. *)
Definition json_keys (k : option (list string)) : Json V :=
  match k with Some l => JArr (map JStr l) | None => JNull end.

Record DataAuditTrailProcess : Type := mkDataAuditTrailProcess {
  dp_time : string;
  dp_info : string;
}.

Definition json_DataAuditTrailProcess (x : DataAuditTrailProcess) : list (string * Json V) :=
  List.concat [
    [("Time", JStr (dp_time x))];
    [("Info", JStr (dp_info x))]
  ].

Record AuditTrailProcess : Type := mkAuditTrailProcess {
  p_subject : string;
  p_function : string;
  p_description : string;
  p_key : option (list string);
  p_data : DataAuditTrailProcess;
}.

Definition json_AuditTrailProcess (x : AuditTrailProcess) : list (string * Json V) :=
  List.concat [
    skip_str "Subject" (p_subject x);
    skip_str "Function" (p_function x);
    skip_str "Description" (p_description x);
    [("Key", json_keys (p_key x))];
    [("Data", JObj (json_DataAuditTrailProcess (p_data x)))]
  ].

Record Detail : Type := mkDetail {
  dt_status_code : Z;
  dt_message : string;
  dt_data : option V;
}.

Definition json_Detail (x : Detail) : list (string * Json V) :=
  List.concat [
    [("StatusCode", JNum (dt_status_code x))];
    [("Message", JStr (dt_message x))];
    skip_val "Data" (dt_data x)
  ].

Record ResponseAudit : Type := mkResponseAudit {
  rs_time : string;
  rs_detail : Detail;
}.

Definition json_ResponseAudit (x : ResponseAudit) : list (string * Json V) :=
  List.concat [
    [("Time", JStr (rs_time x))];
    [("Detail", JObj (json_Detail (rs_detail x)))]
  ].

Record RequestAudit : Type := mkRequestAudit {
  rq_time : string;
  rq_path : string;
  rq_query_string : option V;
  rq_header : option V;
  rq_param : option V;
  rq_body : option V;
  rq_ip_address : string;
  rq_browser_id : Z;
  rq_latitude : string;
  rq_longitude : string;
}.

Definition json_RequestAudit (x : RequestAudit) : list (string * Json V) :=
  List.concat [
    [("Time", JStr (rq_time x))];
    skip_str "Path" (rq_path x);
    skip_val "QueryString" (rq_query_string x);
    skip_val "Header" (rq_header x);
    skip_val "Param" (rq_param x);
    skip_val "Body" (rq_body x);
    skip_str "IpAddress" (rq_ip_address x);
    skip_num "BrowserId" (rq_browser_id x);
    skip_str "Latitude" (rq_latitude x);
    skip_str "Longitude" (rq_longitude x)
  ].

Record RequestAndResponse : Type := mkRequestAndResponse {
  rr_request : RequestAudit;
  rr_response : ResponseAudit;
}.

Definition json_RequestAndResponse (x : RequestAndResponse) : list (string * Json V) :=
  List.concat [
    [("Request", JObj (json_RequestAudit (rr_request x)))];
    [("Response", JObj (json_ResponseAudit (rr_response x)))]
  ].

Record AuditTrailData : Type := mkAuditTrailData {
  ad_subject : string;
  ad_function : string;
  ad_description : string;
  ad_key : option (list string);
  ad_source : string;
  ad_communication_type : string;
  ad_data : RequestAndResponse;
}.

Definition json_AuditTrailData (x : AuditTrailData) : list (string * Json V) :=
  List.concat [
    skip_str "Subject" (ad_subject x);
    skip_str "Function" (ad_function x);
    skip_str "Description" (ad_description x);
    [("Key", json_keys (ad_key x))];
    [("Source", JStr (ad_source x))];
    [("CommunicationType", JStr (ad_communication_type x))];
    [("Data", JObj (json_RequestAndResponse (ad_data x)))]
  ].

Definition serialize_created_at (value : string) : string :=
  if is_empty value then "0001-01-01T00:00:00Z" else value.

Record AuditTrailTrx : Type := mkAuditTrailTrx {
  tx_reff_no : string;
  tx_order_no : string;
  tx_ticket_id : string;
  tx_status : string;
  tx_state : string;
  tx_message : string;
  tx_service : string;
  tx_function : string;
  tx_description : string;
  tx_communication_type : string;
  tx_event_time : string;
  tx_duration_ms : Z;
  tx_amount : string;
  tx_currency : string;
  tx_merchant_no : string;
  tx_payment_code : string;
  tx_qr_value : string;
  tx_rrn : string;
  tx_error_code : string;
  tx_vendor_name : string;
  tx_request : option V;
  tx_response : option V;
  tx_metadata : list (string * V);
  tx_created_at : string;
}.

Definition json_AuditTrailTrx (x : AuditTrailTrx) : list (string * Json V) :=
  List.concat [
    [("reffNo", JStr (tx_reff_no x))];
    [("orderNo", JStr (tx_order_no x))];
    skip_str "ticketId" (tx_ticket_id x);
    [("status", JStr (tx_status x))];
    [("state", JStr (tx_state x))];
    [("message", JStr (tx_message x))];
    [("service", JStr (tx_service x))];
    [("function", JStr (tx_function x))];
    [("description", JStr (tx_description x))];
    [("communicationType", JStr (tx_communication_type x))];
    [("eventTime", JStr (tx_event_time x))];
    skip_num "durationMs" (tx_duration_ms x);
    skip_str "amount" (tx_amount x);
    skip_str "currency" (tx_currency x);
    skip_str "merchantNo" (tx_merchant_no x);
    skip_str "paymentCode" (tx_payment_code x);
    skip_str "qrValue" (tx_qr_value x);
    skip_str "rrn" (tx_rrn x);
    skip_str "errorCode" (tx_error_code x);
    skip_str "vendorName" (tx_vendor_name x);
    skip_val "request" (tx_request x);
    skip_val "response" (tx_response x);
    match (tx_metadata x) with [] => [] | m => [("metadata", JObj (map (fun kv => (fst kv, JVal (snd kv))) m))] end;
    [("createdAt", JStr (serialize_created_at (tx_created_at x)))]
  ].

Record TraceHttp : Type := mkTraceHttp {
  th_method : string;
  th_url : string;
  th_status : Z;
}.

Definition json_TraceHttp (x : TraceHttp) : list (string * Json V) :=
  List.concat [
    skip_str "method" (th_method x);
    skip_str "url" (th_url x);
    skip_num "status" (th_status x)
  ].

Record TransactionTrace : Type := mkTransactionTrace {
  tt_v : Z;
  tt_event : string;
  tt_kind : string;
  tt_leg : string;
  tt_direction : string;
  tt_service : string;
  tt_function : string;
  tt_peer : string;
  tt_transport : string;
  tt_status : string;
  tt_m_id : Z;
  tt_merchant_code : string;
  tt_trx_id : Z;
  tt_trx_no : string;
  tt_trx_reference_no : string;
  tt_trx_pay_code1 : string;
  tt_trx_pc_id : Z;
  tt_ticket_id : string;
  tt_external_id : string;
  tt_request_id : string;
  tt_traceparent : string;
  tt_callback_direction : string;
  tt_attempt_id : string;
  tt_cycle : Z;
  tt_attempt : Z;
  tt_http : option TraceHttp;
  tt_request : option V;
  tt_response : option V;
  tt_message : string;
  tt_error_code : string;
  tt_duration_ms : Z;
  tt_event_time : string;
}.

Definition json_TransactionTrace (x : TransactionTrace) : list (string * Json V) :=
  List.concat [
    [("v", JNum (tt_v x))];
    [("event", JStr (tt_event x))];
    [("kind", JStr (tt_kind x))];
    [("leg", JStr (tt_leg x))];
    [("direction", JStr (tt_direction x))];
    [("service", JStr (tt_service x))];
    [("function", JStr (tt_function x))];
    skip_str "peer" (tt_peer x);
    [("transport", JStr (tt_transport x))];
    [("status", JStr (tt_status x))];
    skip_num "mId" (tt_m_id x);
    skip_str "merchantCode" (tt_merchant_code x);
    skip_num "trxId" (tt_trx_id x);
    skip_str "trxNo" (tt_trx_no x);
    skip_str "trxReferenceNo" (tt_trx_reference_no x);
    skip_str "trxPayCode1" (tt_trx_pay_code1 x);
    skip_num "trxPcId" (tt_trx_pc_id x);
    skip_str "ticketId" (tt_ticket_id x);
    skip_str "externalId" (tt_external_id x);
    skip_str "requestId" (tt_request_id x);
    skip_str "traceparent" (tt_traceparent x);
    skip_str "callbackDirection" (tt_callback_direction x);
    skip_str "attemptId" (tt_attempt_id x);
    skip_num "cycle" (tt_cycle x);
    skip_num "attempt" (tt_attempt x);
    match (tt_http x) with Some h => [("http", JObj (json_TraceHttp h))] | None => [] end;
    skip_val "request" (tt_request x);
    skip_val "response" (tt_response x);
    skip_str "message" (tt_message x);
    skip_str "errorCode" (tt_error_code x);
    skip_num "durationMs" (tt_duration_ms x);
    [("eventTime", JStr (tt_event_time x))]
  ].
End Entities.
Arguments Detail : clear implicits.
Arguments ResponseAudit : clear implicits.
Arguments RequestAudit : clear implicits.
Arguments RequestAndResponse : clear implicits.
Arguments AuditTrailData : clear implicits.
Arguments AuditTrailTrx : clear implicits.
Arguments TransactionTrace : clear implicits.

(** ** Envelopes and payload builders *)

Record MessagePayloadAudit (V : Type) : Type := mkPayload {
  id : Z;
  command : string;
  time : string;
  module_id : string;
  data : V;
}.
Arguments mkPayload {V} id command time module_id data.
Arguments id {V} m.
Arguments command {V} m.
Arguments time {V} m.
Arguments module_id {V} m.
Arguments data {V} m.

(** The process globals the builders read: the id counter, the identity, and the local clock. *)
Record Globals (C : Type) : Type := mkGlobals { NEXT_ID : Z; identity : Identity; clock : C }.
Arguments mkGlobals {C} NEXT_ID identity clock.
Arguments NEXT_ID {C} g.
Arguments identity {C} g.
Arguments clock {C} g.

Section Payloads.
Context {V C E : Type}.
(** [serde_json::to_value], and the local time rendered in the two layouts. *)
Context (to_value : Json V -> result V E) (os_datetime os_rfc3339 : io C string).
Abbreviation G := (Globals C).

Definition next_audit_id : io G Z :=
  fun g => (i64_add (NEXT_ID g) 1, mkGlobals (i64_add (NEXT_ID g) 1) (identity g) (clock g)).

Definition datetime_now : io G string :=
  fun g => let '(s, c) := os_datetime (clock g) in (s, mkGlobals (NEXT_ID g) (identity g) c).
Definition rfc3339_now : io G string :=
  fun g => let '(s, c) := os_rfc3339 (clock g) in (s, mkGlobals (NEXT_ID g) (identity g) c).

Definition pc_core_name : io G string := fun g => (app_name (identity g), g).

(** [MessagePayloadAudit::new]. *)
Definition payload_new (command : string) (obj : Json V)
  : io G (result (MessagePayloadAudit V) E) :=
  let! id := next_audit_id in
  let! time := datetime_now in
  let! module_id := pc_core_name in
  match to_value obj with
  | Err e => io_ret (Err e)
  | Ok data => io_ret (Ok (mkPayload id command time module_id data))
  end.

(** [.map(Some)]. *)
Definition some_payload (m : io G (result (MessagePayloadAudit V) E))
  : io G (result (option (MessagePayloadAudit V)) E) :=
  let!? p := m in io_ret (Ok (Some p)).

Definition process_payload (function description info : string) (keys : option (list string))
  : io G (result (option (MessagePayloadAudit V)) E) :=
  if is_empty function || is_empty description then io_ret (Ok None)
  else
    let! subject := pc_core_name in
    let! time := datetime_now in
    some_payload (payload_new CMD_PROCESS
      (JObj (json_AuditTrailProcess
               (mkAuditTrailProcess subject function description keys
                  (mkDataAuditTrailProcess time info))))).

Definition data_payload (function description source communication_type : string)
  (keys : option (list string)) (data : RequestAndResponse V)
  : io G (result (option (MessagePayloadAudit V)) E) :=
  if is_empty function || (dt_status_code (rs_detail (rr_response data)) =? 0)
  then io_ret (Ok None)
  else
    let! subject := pc_core_name in
    some_payload (payload_new CMD_DATA
      (JObj (json_AuditTrailData
               (mkAuditTrailData subject function description keys source communication_type
                  data)))).

Definition if_empty (s : string) (m : io G string) : io G string :=
  if is_empty s then m else io_ret s.

Definition trx_payload (d : AuditTrailTrx V) : io G (result (option (MessagePayloadAudit V)) E) :=
  if is_empty (tx_reff_no d) && is_empty (tx_order_no d) then io_ret (Ok None)
  else
    let! service := if_empty (tx_service d) pc_core_name in
    let! event_time := if_empty (tx_event_time d) rfc3339_now in
    some_payload (payload_new CMD_TRX
      (JObj (json_AuditTrailTrx
         (mkAuditTrailTrx (tx_reff_no d) (tx_order_no d) (tx_ticket_id d) (tx_status d)
            (tx_state d) (tx_message d) service (tx_function d) (tx_description d)
            (tx_communication_type d) event_time (tx_duration_ms d) (tx_amount d) (tx_currency d)
            (tx_merchant_no d) (tx_payment_code d) (tx_qr_value d) (tx_rrn d) (tx_error_code d)
            (tx_vendor_name d) (tx_request d) (tx_response d) (tx_metadata d)
            (tx_created_at d))))).

Definition has_any_trace_key (t : TransactionTrace V) : bool :=
  negb (tt_trx_id t =? 0)
  || negb (is_empty (tt_trx_no t))
  || negb (is_empty (tt_trx_reference_no t))
  || negb (is_empty (tt_trx_pay_code1 t))
  || negb (is_empty (tt_ticket_id t))
  || negb (is_empty (tt_merchant_code t))
  || negb (tt_m_id t =? 0).

(** The trace with its defaults filled in. *)
Definition filled (t : TransactionTrace V) (service event_time : string) : TransactionTrace V :=
  mkTransactionTrace
    (if tt_v t =? 0 then 1 else tt_v t) (tt_event t)
    (if is_empty (tt_kind t) then TRACE_KIND_HOP else tt_kind t) (tt_leg t) (tt_direction t)
    service (tt_function t) (tt_peer t) (tt_transport t) (tt_status t) (tt_m_id t)
    (tt_merchant_code t) (tt_trx_id t) (tt_trx_no t) (tt_trx_reference_no t)
    (tt_trx_pay_code1 t) (tt_trx_pc_id t) (tt_ticket_id t) (tt_external_id t) (tt_request_id t)
    (tt_traceparent t) (tt_callback_direction t) (tt_attempt_id t) (tt_cycle t) (tt_attempt t)
    (tt_http t) (tt_request t) (tt_response t) (tt_message t) (tt_error_code t)
    (tt_duration_ms t) event_time.

Definition trace_payload (t : TransactionTrace V)
  : io G (result (option (MessagePayloadAudit V)) E) :=
  if is_empty (tt_event t) || negb (has_any_trace_key t) then io_ret (Ok None)
  else
    let! service := if_empty (tt_service t) pc_core_name in
    let! event_time := if_empty (tt_event_time t) rfc3339_now in
    some_payload (payload_new CMD_TRACE
      (JObj (json_TransactionTrace (filled t service event_time)))).
End Payloads.

(** ** Reading a trace back *)

Definition to_ascii_uppercase (c : ascii) : ascii :=
  let n := Ascii.nat_of_ascii c in
  if (Nat.leb 97 n && Nat.leb n 122)%bool then Ascii.ascii_of_nat (n - 32) else c.

(** [rename_all = "camelCase"] of a field name. *)
Fixpoint camel (s : string) : string :=
  match s with
  | String "_"%char (String c s) => String (to_ascii_uppercase c) (camel s)
  | String c s => String c (camel s)
  | EmptyString => EmptyString
  end.

Section Reading.
Context {V : Type}.
(** [Value]'s own deserializer and [Value::is_null]. *)
Context (value_of : Json V -> V) (is_null : V -> bool).

(** The values an object has under a name. *)
Definition occurrences (n : string) (fields : list (string * Json V)) : list (Json V) :=
  map snd (List.filter (fun kv => String.eqb n (fst kv)) fields).

(** A field of the derived [Deserialize], read by [read]; a second occurrence is an error, and so
    is a missing one without a default. *)
Definition read_field {A} (read : Json V -> option A) (missing : option A) (name : string)
  (fields : list (string * Json V)) : option A :=
  match occurrences (camel name) fields with
  | [] => missing
  | [j] => read j
  | _ => None
  end.

Definition de_string (j : Json V) : option string :=
  match j with JStr s => Some s | _ => None end.

Definition de_int (lo hi : Z) (j : Json V) : option Z :=
  match j with JNum n => try_from lo hi n | _ => None end.

(** [Option<_>]: [null] is [None]. *)
Definition de_option {A} (read : Json V -> option A) (j : Json V) : option (option A) :=
  match j with
  | JNull => Some None
  | JVal v => if is_null v then Some None else Some <$> read j
  | _ => Some <$> read j
  end.

Definition str_field := read_field de_string None.
Definition int_field (lo hi : Z) := read_field (de_int lo hi) None.
Definition value_field := read_field (de_option (fun j => Some (value_of j))) (Some None).

Definition de_TraceHttp (j : Json V) : option TraceHttp :=
  match j with
  | JObj fields =>
      method ← str_field "method" fields;
      url ← str_field "url" fields;
      status ← int_field 0 U16_MAX "status" fields;
      Some (mkTraceHttp method url status)
  | _ => None
  end.

(** [#[derive(Deserialize)]] of [TransactionTrace], from a JSON object; which error is reported
    when an object cannot be read is not modelled. *)
Definition de_TransactionTrace (j : Json V) : option (TransactionTrace V) :=
  match j with
  | JObj fields =>
      v ← int_field 0 255 "v" fields;
      event ← str_field "event" fields;
      kind ← str_field "kind" fields;
      leg ← str_field "leg" fields;
      direction ← str_field "direction" fields;
      service ← str_field "service" fields;
      function ← str_field "function" fields;
      peer ← str_field "peer" fields;
      transport ← str_field "transport" fields;
      status ← str_field "status" fields;
      m_id ← int_field I64_MIN I64_MAX "m_id" fields;
      merchant_code ← str_field "merchant_code" fields;
      trx_id ← int_field I64_MIN I64_MAX "trx_id" fields;
      trx_no ← str_field "trx_no" fields;
      trx_reference_no ← str_field "trx_reference_no" fields;
      trx_pay_code1 ← str_field "trx_pay_code1" fields;
      trx_pc_id ← int_field (- 2 ^ 31) (2 ^ 31 - 1) "trx_pc_id" fields;
      ticket_id ← str_field "ticket_id" fields;
      external_id ← str_field "external_id" fields;
      request_id ← str_field "request_id" fields;
      traceparent ← str_field "traceparent" fields;
      callback_direction ← str_field "callback_direction" fields;
      attempt_id ← str_field "attempt_id" fields;
      cycle ← int_field (- 2 ^ 31) (2 ^ 31 - 1) "cycle" fields;
      attempt ← int_field (- 2 ^ 31) (2 ^ 31 - 1) "attempt" fields;
      http ← read_field (de_option de_TraceHttp) (Some None) "http" fields;
      request ← value_field "request" fields;
      response ← value_field "response" fields;
      message ← str_field "message" fields;
      error_code ← str_field "error_code" fields;
      duration_ms ← int_field I64_MIN I64_MAX "duration_ms" fields;
      event_time ← str_field "event_time" fields;
      Some (mkTransactionTrace v event kind leg direction service function peer transport status
              m_id merchant_code trx_id trx_no trx_reference_no trx_pay_code1 trx_pc_id ticket_id
              external_id request_id traceparent callback_direction attempt_id cycle attempt http
              request response message error_code duration_ms event_time)
  | _ => None
  end.
End Reading.

(** The trace as it is read back: a [null] value is a missing one. *)
Definition non_null {V} (is_null : V -> bool) (v : option V) : option V :=
  match v with Some v => if is_null v then None else Some v | None => None end.

Definition without_nulls {V} (is_null : V -> bool) (t : TransactionTrace V) : TransactionTrace V :=
  mkTransactionTrace
    (tt_v t) (tt_event t) (tt_kind t) (tt_leg t) (tt_direction t) (tt_service t) (tt_function t)
    (tt_peer t) (tt_transport t) (tt_status t) (tt_m_id t) (tt_merchant_code t) (tt_trx_id t)
    (tt_trx_no t) (tt_trx_reference_no t) (tt_trx_pay_code1 t) (tt_trx_pc_id t) (tt_ticket_id t)
    (tt_external_id t) (tt_request_id t) (tt_traceparent t) (tt_callback_direction t)
    (tt_attempt_id t) (tt_cycle t) (tt_attempt t) (tt_http t)
    (non_null is_null (tt_request t)) (non_null is_null (tt_response t)) (tt_message t)
    (tt_error_code t) (tt_duration_ms t) (tt_event_time t).

(** The numbers fit their Rust types: [u8], [i64], [i32] and [u16]. *)
Definition typed {V} (t : TransactionTrace V) : Prop :=
  0 <= tt_v t <= 255 /\
  Forall (fun n => I64_MIN <= n <= I64_MAX) [tt_m_id t; tt_trx_id t; tt_duration_ms t] /\
  Forall (fun n => - 2 ^ 31 <= n <= 2 ^ 31 - 1) [tt_trx_pc_id t; tt_cycle t; tt_attempt t] /\
  match tt_http t with Some h => 0 <= th_status h <= U16_MAX | None => True end.

(** None of the optional texts and numbers is left at its default. *)
Definition complete_http (h : TraceHttp) : Prop :=
  th_method h <> "" /\ th_url h <> "" /\ th_status h <> 0.

Definition complete {V} (t : TransactionTrace V) : Prop :=
  Forall (fun s => s <> "")
    [tt_peer t; tt_merchant_code t; tt_trx_no t; tt_trx_reference_no t; tt_trx_pay_code1 t;
     tt_ticket_id t; tt_external_id t; tt_request_id t; tt_traceparent t; tt_callback_direction t;
     tt_attempt_id t; tt_message t; tt_error_code t] /\
  Forall (fun n => n <> 0)
    [tt_m_id t; tt_trx_id t; tt_trx_pc_id t; tt_cycle t; tt_attempt t; tt_duration_ms t] /\
  match tt_http t with Some h => complete_http h | None => True end.

(** The part of an object under a name. *)
Definition assoc {A} (n : string) (l : list (string * A)) : option A :=
  snd <$> List.find (fun kv => String.eqb n (fst kv)) l.

(** The names of a written trace. *)
Definition trace_names : list string :=
  ["v"; "event"; "kind"; "leg"; "direction"; "service"; "function"; "peer"; "transport"; "status";
   "mId"; "merchantCode"; "trxId"; "trxNo"; "trxReferenceNo"; "trxPayCode1"; "trxPcId"; "ticketId";
   "externalId"; "requestId"; "traceparent"; "callbackDirection"; "attemptId"; "cycle"; "attempt";
   "http"; "request"; "response"; "message"; "errorCode"; "durationMs"; "eventTime"].

(** A complete trace but for its peer. *)
Definition toy_value (j : Json Z) : Z := match j with JVal v => v | _ => 0 end.

Definition toy_trace (peer : string) : TransactionTrace Z :=
  mkTransactionTrace 1 "paid" "hop" "callback" "inbound" "qris" "notify" peer "http" "ok" 7 "M1" 9
    "T1" "R1" "P1" (- 3) "K1" "E1" "Q1" "tp" "in" "A1" 1 2
    (Some (mkTraceHttp "POST" "/cb" 200)) (Some 5) (Some 0) "done" "00" 12 "now".

Lemma skip_str_names {V} n s : map fst (skip_str (V := V) n s) `sublist_of` [n].
Proof. unfold skip_str. destruct (is_empty s); [apply sublist_nil_l|done]. Qed.

Lemma skip_num_names {V} n z : map fst (skip_num (V := V) n z) `sublist_of` [n].
Proof. unfold skip_num. destruct (z =? 0); [apply sublist_nil_l|done]. Qed.

Lemma skip_val_names {V} n (v : option V) : map fst (skip_val n v) `sublist_of` [n].
Proof. destruct v; [done|apply sublist_nil_l]. Qed.

(** The names of a concatenation of fields are among the names of its parts, in order. *)
Lemma concat_names {V} (parts : list (list (string * Json V))) names :
  Forall2 (fun part n => map fst part `sublist_of` [n]) parts names ->
  map fst (List.concat parts) `sublist_of` names.
Proof.
  induction 1 as [|part n parts names Hp _ IH]; simpl; [done|].
  rewrite map_app. apply (sublist_app _ [n] _ names); done.
Qed.

Lemma if_empty_spec {C} s (m : io (Globals C) string) g r g' :
  if_empty s m g = (r, g') -> (s = "" /\ m g = (r, g')) \/ (s <> "" /\ r = s /\ g' = g).
Proof.
  unfold if_empty, io_ret. destruct (is_empty s) eqn:Hs.
  - apply is_empty_true in Hs. by left.
  - apply is_empty_false in Hs. intros [= <- <-]. by right.
Qed.

(** One envelope: one id, the process identity, and the serializer's verdict. *)
Lemma some_payload_spec {V C E} (to_value : Json V -> result V E) (dt : io C string) cmd obj g :
  let '(r, g') := some_payload (payload_new to_value dt cmd obj) g in
  NEXT_ID g' = i64_add (NEXT_ID g) 1 /\
  match to_value obj with
  | Ok v => exists p, r = Ok (Some p) /\ data p = v /\ command p = cmd /\
                      id p = i64_add (NEXT_ID g) 1 /\ module_id p = app_name (identity g)
  | Err e => r = Err e
  end.
Proof.
  unfold some_payload, io_try, payload_new, io_bind, next_audit_id, datetime_now, pc_core_name, io_ret.
  simpl. destruct (dt (clock g)) as [local c]. simpl. destruct (to_value obj); simpl; [by eauto 10|done].
Qed.

Lemma filled_ok {V} (t : TransactionTrace V) sv tm :
  has_any_trace_key t = true ->
  tt_v (filled t sv tm) <> 0 /\ tt_kind (filled t sv tm) <> "" /\
  has_any_trace_key (filled t sv tm) = true.
Proof.
  intros Hk. split_and!; [| |exact Hk]; unfold filled; simpl.
  - destruct (Z.eqb_spec (tt_v t) 0); lia.
  - destruct (is_empty (tt_kind t)) eqn:Hkd; [done|by apply is_empty_false].
Qed.

(** ** The derived reader on what the derived writer writes *)

Section RoundTrip.
Context {V : Type}.
Implicit Types a b : list (string * Json V).

Lemma occurrences_app n a b : occurrences n (a ++ b)%list = (occurrences n a ++ occurrences n b)%list.
Proof. unfold occurrences. by rewrite List.filter_app, map_app. Qed.

Lemma occurrences_part n m a :
  map fst a `sublist_of` [m] -> occurrences n a = if String.eqb n m then map snd a else [].
Proof.
  intros Hs. destruct a as [|[k v] a].
  - by destruct (String.eqb n m).
  - apply sublist_cons_r in Hs as [Hs%sublist_nil_r|(l' & [= -> <-] & Hs%sublist_nil_r)]; [done|].
    apply map_eq_nil in Hs as ->. unfold occurrences. simpl. by destruct (String.eqb n m).
Qed.

(** An object written part by part, each part under a name of its own. *)
Lemma occurrences_concat n (parts : list (list (string * Json V))) names :
  Forall2 (fun part m => map fst part `sublist_of` [m]) parts names -> NoDup names ->
  forall part, assoc n (zip names parts) = Some part ->
  occurrences n (List.concat parts) = map snd part.
Proof.
  intros Hp Hn part Ha. transitivity (default [] (map snd <$> assoc n (zip names parts)));
    [clear part Ha; revert Hn|by rewrite Ha]. revert Hp.
  induction 1 as [|part m parts names Hp Hps IH]; [done|]. intros [Hm Hn]%NoDup_cons.
  cbn [List.concat]. rewrite occurrences_app, (occurrences_part _ _ _ Hp), (IH Hn).
  unfold assoc. simpl. destruct (String.eqb_spec n m) as [->|_]; [|done]. simpl.
  destruct (List.find _ _) as [[k v]|] eqn:Hf; [|by rewrite app_nil_r].
  apply List.find_some in Hf as [Hin Heq]. simpl in Heq. apply String.eqb_eq in Heq as <-.
  apply List.in_combine_l in Hin. by rewrite <- list_elem_of_In in Hin.
Qed.

Context (value_of : Json V -> V) (is_null : V -> bool).
Variables (fields : list (string * Json V)) (n m : string).

Lemma str_written s : occurrences (camel n) fields = map snd [(m, JStr (V := V) s)] ->
  str_field n fields = Some s.
Proof. unfold str_field, read_field. by intros ->. Qed.

Lemma str_skipped s : occurrences (camel n) fields = map snd (skip_str (V := V) m s) ->
  str_field n fields = if is_empty s then None else Some s.
Proof. unfold str_field, read_field, skip_str. intros ->. by destruct (is_empty s). Qed.

Lemma int_written lo hi z : occurrences (camel n) fields = map snd [(m, JNum (V := V) z)] ->
  lo <= z <= hi -> int_field lo hi n fields = Some z.
Proof. unfold int_field, read_field. intros -> ?. by apply try_from_Some. Qed.

Lemma int_skipped lo hi z : occurrences (camel n) fields = map snd (skip_num (V := V) m z) ->
  lo <= z <= hi -> int_field lo hi n fields = if z =? 0 then None else Some z.
Proof.
  unfold int_field, read_field, skip_num. intros -> ?. destruct (z =? 0); [done|].
  by apply try_from_Some.
Qed.

Lemma value_skipped v : (forall x, value_of (JVal x) = x) ->
  occurrences (camel n) fields = map snd (skip_val m v) ->
  value_field value_of is_null n fields = Some (non_null is_null v).
Proof.
  unfold value_field, read_field, skip_val, non_null. intros Hv ->. destruct v as [x|]; [|done].
  simpl. destruct (is_null x); [done|]. simpl. by rewrite Hv.
Qed.
End RoundTrip.

(** Name the fields of a concatenation; what is left are the conditional ones. *)
Ltac field_names :=
  repeat (eapply List.Forall2_cons;
          [first [apply skip_str_names|apply skip_num_names|apply skip_val_names
                 |cbn [map fst]; reflexivity|idtac]|]);
  [..|apply List.Forall2_nil].

Lemma http_read {V} (h : TraceHttp) :
  0 <= th_status h <= U16_MAX ->
  de_TraceHttp (JObj (json_TraceHttp (V := V) h)) =
    if is_empty (th_method h) || is_empty (th_url h) || (th_status h =? 0) then None else Some h.
Proof.
  intros Hr. unfold de_TraceHttp. set (fields := json_TraceHttp h).
  assert (forall n part, assoc n (zip ["method"; "url"; "status"]
       [skip_str "method" (th_method h); skip_str "url" (th_url h);
        skip_num "status" (th_status h)]) = Some part ->
       occurrences n fields = map snd part) as Hocc.
  { intros n. apply occurrences_concat; [field_names|by apply (bool_decide_unpack _)]. }
  erewrite (str_skipped _ "method"), (str_skipped _ "url"), (int_skipped _ _ "status")
    by (done || (apply Hocc; reflexivity)).
  destruct h as [me ur st]; simpl. by destruct (is_empty me), (is_empty ur), (st =? 0).
Qed.

Lemma trace_occurrences {V} (t : TransactionTrace V) parts :
  json_TransactionTrace t = List.concat parts ->
  Forall2 (fun part m => map fst part `sublist_of` [m]) parts trace_names ->
  forall n part, assoc n (zip trace_names parts) = Some part ->
  occurrences n (json_TransactionTrace t) = map snd part.
Proof. intros -> Hp n. apply occurrences_concat; [done|by apply (bool_decide_unpack _)]. Qed.

Ltac read_fields H :=
  repeat first
    [ erewrite str_written by (apply H; reflexivity)
    | erewrite str_skipped by (apply H; reflexivity)
    | erewrite int_written by first [apply H; reflexivity|eassumption]
    | erewrite int_skipped by first [apply H; reflexivity|eassumption]
    | erewrite value_skipped by first [apply H; reflexivity|eassumption] ]; cbn [mbind option_bind].

Lemma http_field {V} (is_null : V -> bool) (fields : list (string * Json V)) (h : option TraceHttp) :
  occurrences (camel "http") fields =
    map snd (match h with Some h => [("http", JObj (json_TraceHttp h))] | None => [] end) ->
  match h with Some h => 0 <= th_status h <= U16_MAX | None => True end ->
  let r := read_field (de_option is_null de_TraceHttp) (Some None) "http" fields in
  let c := match h with Some h => complete_http h | None => True end in
  (r = Some h /\ c) \/ (r = None /\ ~ c).
Proof.
  unfold read_field. intros -> Hr. destruct h as [h|]; [|by left]. cbn [map snd de_option].
  rewrite (http_read _ Hr). unfold complete_http.
  destruct (is_empty (th_method h)) eqn:E1; [apply is_empty_true in E1; right; naive_solver|].
  destruct (is_empty (th_url h)) eqn:E2; [apply is_empty_true in E2; right; naive_solver|].
  apply is_empty_false in E1, E2. destruct (Z.eqb_spec (th_status h) 0); [right|left]; naive_solver.
Qed.

(** Go through the tests of the optional fields, in order. *)
Ltac test_field :=
  match goal with
  | |- match (if is_empty ?s then None else _) ≫= _ with _ => _ end =>
      let E := fresh in destruct (is_empty s) eqn:E;
      [apply is_empty_true in E; intros (Hs & _); rewrite !Forall_cons in Hs; simpl in Hs; tauto
      |cbn [mbind option_bind]]
  | |- match (if ?n =? 0 then None else _) ≫= _ with _ => _ end =>
      destruct (Z.eqb_spec n 0);
      [intros (_ & Hs & _); rewrite !Forall_cons in Hs; simpl in Hs; tauto
      |cbn [mbind option_bind]]
  end.

(** ** Theorems *)

(** A trace is published exactly when it names an event and carries at least one search key;
    the object published then has a version, a kind, a service and an event time, and everything
    the caller filled in is kept. A skipped trace consumes no audit id. *)
Theorem trace_payload_spec {V C E} (to_value : Json V -> result V E) (dt rfc : io C string) t g :
  let '(r, g') := trace_payload to_value dt rfc t g in
  if is_empty (tt_event t) || negb (has_any_trace_key t) then r = Ok None /\ g' = g
  else exists service event_time,
    (tt_service t <> "" -> service = tt_service t) /\
    (tt_service t = "" -> service = app_name (identity g)) /\
    (tt_event_time t <> "" -> event_time = tt_event_time t) /\
    NEXT_ID g' = i64_add (NEXT_ID g) 1 /\
    let sent := filled t service event_time in
    tt_v sent <> 0 /\ tt_kind sent <> "" /\ has_any_trace_key sent = true /\
    match to_value (JObj (json_TransactionTrace sent)) with
    | Ok v => exists p, r = Ok (Some p) /\ data p = v /\ command p = CMD_TRACE /\
                        id p = i64_add (NEXT_ID g) 1 /\ module_id p = app_name (identity g)
    | Err e => r = Err e
    end.
Proof.
  unfold trace_payload. destruct (is_empty (tt_event t) || negb (has_any_trace_key t)) eqn:Hskip;
    [done|]. apply orb_false_iff in Hskip as [_ Hkey]. apply negb_false_iff in Hkey.
  unfold io_bind. destruct (if_empty (tt_service t) pc_core_name g) as [sv g1] eqn:E1.
  destruct (if_empty_spec _ _ _ _ _ E1) as [[Hs Esv]|[Hs [-> ->]]];
    [injection Esv as <- <-|];
  (destruct (if_empty (tt_event_time t) (rfc3339_now rfc) _) as [tm g2] eqn:E2;
   assert (NEXT_ID g2 = NEXT_ID g /\ identity g2 = identity g /\
           (tt_event_time t <> "" -> tm = tt_event_time t)) as (Hn & Hid & Htm)
     by (destruct (if_empty_spec _ _ _ _ _ E2) as [[He Etm]|[He [-> ->]]]; [|done];
         unfold rfc3339_now in Etm; destruct (rfc _); injection Etm as <- <-; done);
   match goal with |- context [filled t ?sv tm] =>
     pose proof (some_payload_spec to_value dt CMD_TRACE
       (JObj (json_TransactionTrace (filled t sv tm))) g2) as Hp;
     destruct (some_payload _ g2) as [r g']; destruct Hp as [Hid' Hr];
     rewrite Hn, ?Hid in Hr; rewrite Hn in Hid';
     exists sv, tm; destruct (filled_ok t sv tm Hkey) as (? & ? & ?)
   end; split_and!; [..|exact Hr]; done).
Qed.

(** C31: What the derived writer of a transaction trace writes, the derived reader reads back as
    the same trace (a null request or response value as none) exactly when no optional text or
    number of the trace or of its HTTP part was left at its default. When one was, its field is
    not written, the reader has no default for it, and the object is refused. *)
Theorem trace_roundtrip {V} (value_of : Json V -> V) (is_null : V -> bool) (t : TransactionTrace V) :
  (forall v, value_of (JVal v) = v) -> typed t ->
  match de_TransactionTrace value_of is_null (JObj (json_TransactionTrace t)) with
  | Some t' => t' = without_nulls is_null t /\ complete t
  | None => ~ complete t
  end.
Proof.
  intros Hv (Hr8 & H64 & H32 & Hhttp).
  apply Forall_cons in H64 as [? [? [? _]%Forall_cons]%Forall_cons].
  apply Forall_cons in H32 as [? [? [? _]%Forall_cons]%Forall_cons].
  unshelve epose proof (trace_occurrences t _ eq_refl _) as Hocc.
  { field_names. destruct (tt_http t); [cbn [map fst]; reflexivity|apply sublist_nil_l]. }
  unfold de_TransactionTrace. set (fields := json_TransactionTrace t) in *.
  read_fields Hocc.
  eassert (occurrences (camel "http") fields = _) as Hh by (apply Hocc; reflexivity).
  apply (http_field is_null) in Hh; [|done]. clear Hocc. clearbody fields. destruct t; simpl in *.
  repeat test_field.
  destruct Hh as [[-> Hc]|[-> Hc]]; cbn [mbind option_bind];
    [|intros (_ & _ & ?); contradiction].
  repeat test_field. split; [done|]. unfold complete; simpl.
  split_and!; [repeat constructor; by apply is_empty_false
              |repeat constructor; assumption|done].
Qed.

(** A complete trace is read back; leaving out the peer is enough to lose it. *)
Lemma trace_roundtrip_witness :
  typed (toy_trace "vendor") /\
  match de_TransactionTrace toy_value (Z.eqb 0)
          (JObj (json_TransactionTrace (toy_trace "vendor"))) with
  | Some t' => t' = without_nulls (Z.eqb 0) (toy_trace "vendor") /\ complete (toy_trace "vendor")
  | None => ~ complete (toy_trace "vendor")
  end /\
  de_TransactionTrace toy_value (Z.eqb 0) (JObj (json_TransactionTrace (toy_trace "vendor")))
    = Some (without_nulls (Z.eqb 0) (toy_trace "vendor")) /\
  de_TransactionTrace toy_value (Z.eqb 0) (JObj (json_TransactionTrace (toy_trace ""))) = None.
Proof.
  assert (typed (toy_trace "vendor")) as Ht.
  { repeat first [split|constructor]; vm_compute; congruence. }
  split; [exact Ht|]. split; [by apply trace_roundtrip|]. split; vm_compute; reflexivity.
Defined.
