(* ===== verification/AuditPool.v ===== *)
(** [pc-audit]: the bounded asynchronous publisher with its circuit breaker
    ([crates/pc-audit/src/lib.rs], [AuditPublisher]).

    The publisher is a step relation: the atomics, the channel and the workers' shared lock make
    each step below indivisible, and everything in between may interleave. A publish that gives no
    answer leaves its worker waiting for ever, holding its message: there is no deadline on it. A
    scheduler that runs one named step is an executable function, proved to be the relation. *)
From S2P Require Export AuditTrail Amqp.
Local Open Scope string_scope.
Local Open Scope Z_scope.
Local Open Scope rust_scope.

(** ** The publisher *)

Record AuditPublisherConfig : Type := mkConfig {
  worker_count : nat;
  buffer_size : nat;
  message_ttl : string;
  circuit_breaker_threshold : Z;
  circuit_breaker_cooldown : Z;
}.

Definition config_default : AuditPublisherConfig := mkConfig 10 1000 "" 10 (from_secs 30).

(** Where a worker stands between two of its atomic steps. *)
Inductive Worker (P : Type) : Type :=
| WIdle
| WTaken (payload : P)
| WAdmitted (payload : P)
| WStuck (payload : P)
| WAcked
| WFailed
| WCounted (count : Z)
| WExited.
Arguments WIdle {P}.
Arguments WTaken {P} payload.
Arguments WAdmitted {P} payload.
Arguments WStuck {P} payload.
Arguments WAcked {P}.
Arguments WFailed {P}.
Arguments WCounted {P} count.
Arguments WExited {P}.

Section Publisher.
(** [P] is the payload type and [T] the state of the transport behind [client]. *)
Context {P T E J : Type} {Pub : Publisher T E}.
Context (to_vec : P -> result bytes J) (cfg : AuditPublisherConfig).
(** What else may happen to the transport: a lost connection, another user of the client. *)
Context (env : T -> T -> Prop).

Record AuditPublisher : Type := mkPublisher {
  queue : list P;
  failures : Z;
  open_until_ms : Z;
  stopped : bool;
  workers : list (Worker P);
  transport : T;
}.

Definition capacity : nat := Nat.max (buffer_size cfg) 1.
Definition threshold : Z := Z.max (circuit_breaker_threshold cfg) 1.

Definition new (t : T) : AuditPublisher :=
  mkPublisher [] 0 0 false (replicate (Nat.max (worker_count cfg) 1) WIdle) t.

Definition circuit_open (now : Z) (s : AuditPublisher) : bool := now <? open_until_ms s.

Definition with_queue (s : AuditPublisher) (q : list P) : AuditPublisher :=
  mkPublisher q (failures s) (open_until_ms s) (stopped s) (workers s) (transport s).
Definition with_failures (s : AuditPublisher) (n : Z) : AuditPublisher :=
  mkPublisher (queue s) n (open_until_ms s) (stopped s) (workers s) (transport s).
Definition with_open_until (s : AuditPublisher) (u : Z) : AuditPublisher :=
  mkPublisher (queue s) (failures s) u (stopped s) (workers s) (transport s).
Definition with_worker (s : AuditPublisher) (i : nat) (w : Worker P) : AuditPublisher :=
  mkPublisher (queue s) (failures s) (open_until_ms s) (stopped s) (<[i := w]> (workers s))
    (transport s).
Definition with_transport (s : AuditPublisher) (t : T) : AuditPublisher :=
  mkPublisher (queue s) (failures s) (open_until_ms s) (stopped s) (workers s) t.
Definition with_stopped (s : AuditPublisher) : AuditPublisher :=
  mkPublisher (queue s) (failures s) (open_until_ms s) true (workers s) (transport s).

(** [submit]: refused when stopped, while the breaker is open, or when the queue is full. *)
Definition submit (now : Z) (payload : P) (s : AuditPublisher) : bool * AuditPublisher :=
  if stopped s then (false, s)
  else if circuit_open now s then (false, s)
  else if Nat.ltb (length (queue s)) capacity
       then (true, with_queue s (queue s ++ [payload])%list)
  else (false, s).

(** [record_failure] in its two atomic steps: the counter, and the deadline once the count
    reaches the threshold. *)
Definition count_failure (s : AuditPublisher) : Z * AuditPublisher :=
  let count := u64_add (failures s) 1 in (count, with_failures s count).

Definition trip (now count : Z) (s : AuditPublisher) : AuditPublisher :=
  if threshold <=? count then
    with_open_until s
      (Z.min U64_MAX (now + default U64_MAX (try_from 0 U64_MAX
                               (as_millis (circuit_breaker_cooldown cfg)))))
  else s.

Inductive label : Type :=
| LSubmit (payload : P) (accepted : bool)
| LTake (payload : P)
| LDiscard (payload : P)
| LPublish (payload : P) (ok : bool)
| LStuck (payload : P)
| LInternal
| LStop
| LTransport.

(** One atomic step of a caller, of worker [i], or of the transport's surroundings. *)
Inductive step : AuditPublisher -> label -> AuditPublisher -> Prop :=
| step_submit now p s :
    step s (LSubmit p (submit now p s).1) (submit now p s).2
| step_stop s : step s LStop (with_stopped s)
| step_take i p q s :
    workers s !! i = Some WIdle -> queue s = p :: q ->
    step s (LTake p) (with_worker (with_queue s q) i (WTaken p))
| step_exit i s :
    workers s !! i = Some WIdle -> queue s = [] -> stopped s = true ->
    step s LInternal (with_worker s i WExited)
| step_breaker i p now s :
    workers s !! i = Some (WTaken p) -> circuit_open now s = true ->
    step s (LDiscard p) (with_worker s i WIdle)
| step_not_ready i p now s :
    workers s !! i = Some (WTaken p) -> circuit_open now s = false ->
    publisher_ready (transport s) = false ->
    step s (LDiscard p) (with_worker s i WFailed)
| step_admit i p now s :
    workers s !! i = Some (WTaken p) -> circuit_open now s = false ->
    publisher_ready (transport s) = true ->
    step s LInternal (with_worker s i (WAdmitted p))
| step_marshal_failed i p e s :
    workers s !! i = Some (WAdmitted p) -> marshal_audit to_vec p = Err e ->
    step s (LDiscard p) (with_worker s i WIdle)
| step_published i p b t s :
    workers s !! i = Some (WAdmitted p) -> marshal_audit to_vec p = Ok b ->
    publish b (message_ttl cfg) (transport s) = (Some (Ok tt), t) ->
    step s (LPublish p true) (with_worker (with_transport s t) i WAcked)
| step_publish_failed i p b e t s :
    workers s !! i = Some (WAdmitted p) -> marshal_audit to_vec p = Ok b ->
    publish b (message_ttl cfg) (transport s) = (Some (Err e), t) ->
    step s (LPublish p false) (with_worker (with_transport s t) i WFailed)
| step_publish_stuck i p b t s :
    workers s !! i = Some (WAdmitted p) -> marshal_audit to_vec p = Ok b ->
    publish b (message_ttl cfg) (transport s) = (None, t) ->
    step s (LStuck p) (with_worker (with_transport s t) i (WStuck p))
| step_reset i s :
    workers s !! i = Some WAcked ->
    step s LInternal (with_worker (with_failures s 0) i WIdle)
| step_count i s :
    workers s !! i = Some WFailed ->
    step s LInternal (let '(n, s') := count_failure s in with_worker s' i (WCounted n))
| step_trip i n now s :
    workers s !! i = Some (WCounted n) ->
    step s LInternal (with_worker (trip now n s) i WIdle)
| step_transport t s : env (transport s) t -> step s LTransport (with_transport s t).

(** ** A scheduler *)

(** The next step of worker [i], whose clock reads [now]; [None] while it can only wait. *)
Definition worker_step (i : nat) (now : Z) (s : AuditPublisher) : option (label * AuditPublisher) :=
  match workers s !! i with
  | None | Some WExited | Some (WStuck _) => None
  | Some WIdle =>
      match queue s with
      | p :: q => Some (LTake p, with_worker (with_queue s q) i (WTaken p))
      | [] => if stopped s then Some (LInternal, with_worker s i WExited) else None
      end
  | Some (WTaken p) =>
      if circuit_open now s then Some (LDiscard p, with_worker s i WIdle)
      else if publisher_ready (transport s) then Some (LInternal, with_worker s i (WAdmitted p))
      else Some (LDiscard p, with_worker s i WFailed)
  | Some (WAdmitted p) =>
      match marshal_audit to_vec p with
      | Err _ => Some (LDiscard p, with_worker s i WIdle)
      | Ok b =>
          match publish b (message_ttl cfg) (transport s) with
          | (Some (Ok tt), t) => Some (LPublish p true, with_worker (with_transport s t) i WAcked)
          | (Some (Err _), t) => Some (LPublish p false, with_worker (with_transport s t) i WFailed)
          | (None, t) => Some (LStuck p, with_worker (with_transport s t) i (WStuck p))
          end
      end
  | Some WAcked => Some (LInternal, with_worker (with_failures s 0) i WIdle)
  | Some WFailed =>
      let '(n, s') := count_failure s in Some (LInternal, with_worker s' i (WCounted n))
  | Some (WCounted n) => Some (LInternal, with_worker (trip now n s) i WIdle)
  end.

(** What a scheduler may run next. *)
Inductive act : Type :=
| ASubmit (now : Z) (payload : P)
| AStop
| AWorker (i : nat) (now : Z)
| ATransport (t : T).

Definition exec (a : act) (s : AuditPublisher) : option (label * AuditPublisher) :=
  match a with
  | ASubmit now p => let '(ok, s') := submit now p s in Some (LSubmit p ok, s')
  | AStop => Some (LStop, with_stopped s)
  | AWorker i now => worker_step i now s
  | ATransport t => Some (LTransport, with_transport s t)
  end.

Definition allowed (a : act) (s : AuditPublisher) : Prop :=
  match a with ATransport t => env (transport s) t | _ => True end.

(** Run a schedule, skipping what cannot run yet: the labels, and the publisher at the end. *)
Definition exec_all : list act -> AuditPublisher -> list label * AuditPublisher := run_acts exec.

(** ** Accounting *)

Definition accepted_of (l : label) : list P :=
  match l with LSubmit p true => [p] | _ => [] end.
Definition taken_of (l : label) : list P := match l with LTake p => [p] | _ => [] end.
Definition finished_of (l : label) : list P :=
  match l with LDiscard p | LPublish p _ => [p] | _ => [] end.

Definition stuck_of (l : label) : list P := match l with LStuck p => [p] | _ => [] end.

(** The messages the labels of a trace accepted, took off the queue, and finished with, and those
    whose publish was never answered. *)
Definition accepted (ls : list label) : list P := flat_map accepted_of ls.
Definition taken (ls : list label) : list P := flat_map taken_of ls.
Definition finished (ls : list label) : list P := flat_map finished_of ls.
Definition unanswered (ls : list label) : list P := flat_map stuck_of ls.

Definition holds (w : Worker P) : list P :=
  match w with WTaken p | WAdmitted p | WStuck p => [p] | _ => [] end.

(** The messages some worker is holding. *)
Definition held (ws : list (Worker P)) : list P := flat_map holds ws.

(** A worker that has returned, or never will, and the messages of the latter. *)
Definition at_rest (w : Worker P) : bool :=
  match w with WExited | WStuck _ => true | _ => false end.
Definition sticks (w : Worker P) : list P := match w with WStuck p => [p] | _ => [] end.
Definition stuck (ws : list (Worker P)) : list P := flat_map sticks ws.

(** ** Work left *)

(** The steps a worker is away from waiting again or, from waiting, from its exit. *)
Definition weight (w : Worker P) : nat :=
  match w with
  | WExited | WStuck _ => 0
  | WIdle => 1
  | WAcked | WCounted _ => 2
  | WFailed => 3
  | WAdmitted _ => 4
  | WTaken _ => 5
  end.

Definition weights (ws : list (Worker P)) : nat := list_sum (map weight ws).

(** A queued message costs five steps at most. *)
Definition work (s : AuditPublisher) : nat := 5 * length (queue s) + weights (workers s).

Definition worker_label (l : label) : bool :=
  match l with LTake _ | LDiscard _ | LPublish _ _ | LStuck _ | LInternal => true | _ => false end.

(** The worker steps of a trace. *)
Definition moves (ls : list label) : nat := length (List.filter worker_label ls).
End Publisher.
Arguments AuditPublisher P T : clear implicits.

(** ** Lemmas *)

Lemma held_insert {P} (ws : list (Worker P)) i x y :
  ws !! i = Some x -> (holds x ++ held (<[i := y]> ws))%list ≡ₚ (holds y ++ held ws)%list.
Proof.
  revert i. induction ws as [|w ws IH]; intros i; [done|]. destruct i as [|i]; simpl.
  - intros [= ->]. rewrite !(assoc (++)%list). by rewrite (comm (++)%list (holds x)).
  - intros Hi. specialize (IH i Hi). unfold held in *.
    rewrite !(assoc (++)%list), (comm (++)%list (holds x)), (comm (++)%list (holds y)).
    by rewrite <- !(assoc (++)%list), IH.
Qed.

(** A worker that ends up holding nothing more or less. *)
Lemma held_same {P} (ws : list (Worker P)) i x y :
  ws !! i = Some x -> holds x = holds y -> held (<[i := y]> ws) ≡ₚ held ws.
Proof.
  intros Hi Hh. pose proof (held_insert ws i x y Hi) as H. rewrite Hh in H.
  by apply (inj (app (holds y))) in H.
Qed.

(** A worker that lets go of its message. *)
Lemma held_release {P} (ws : list (Worker P)) i x y p :
  ws !! i = Some x -> holds x = [p] -> holds y = [] -> p :: held (<[i := y]> ws) ≡ₚ held ws.
Proof. intros Hi Hx Hy. pose proof (held_insert ws i x y Hi) as H. by rewrite Hx, Hy in H. Qed.

Lemma held_length {P} (ws : list (Worker P)) : (length (held ws) <= length ws)%nat.
Proof. induction ws as [|[] ws IH]; unfold held in *; simpl; lia. Qed.

Section Lemmas.
Context {P T E J : Type} {Pub : Publisher T E}.
Context (to_vec : P -> result bytes J) (cfg : AuditPublisherConfig) (env : T -> T -> Prop).

(** What a trace [ls] and the state [s] it leads to have in common. *)
Record accounts (ls : list label) (s : AuditPublisher P T) : Prop := {
  acc_capacity : (length (queue s) <= capacity cfg)%nat;
  acc_fifo : accepted ls = (taken ls ++ queue s)%list;
  acc_held : taken ls ≡ₚ (finished ls ++ held (workers s))%list;
  acc_workers : length (workers s) = Nat.max (worker_count cfg) 1;
}.

Lemma new_accounts t : accounts [] (new (P := P) cfg t).
Proof.
  constructor; simpl; [lia|done| |by rewrite length_replicate].
  generalize (Nat.max (worker_count cfg) 1). intros n. induction n as [|n IH]; [done|exact IH].
Qed.

(** A step that moves no message on or off the queue and finishes [fin]. *)
Lemma accounts_worker ls l s s' i x y :
  accounts ls s -> workers s !! i = Some x -> queue s' = queue s ->
  workers s' = <[i := y]> (workers s) -> accepted_of l = [] -> taken_of l = [] ->
  holds x = (finished_of l ++ holds y)%list -> accounts (ls ++ [l]) s'.
Proof.
  intros [Hc Hf Hh Hw] Hi Hq Hws Ha Ht Hx. constructor; rewrite ?Hq; [done|..].
  - unfold accepted, taken in *. rewrite !flat_map_app. simpl. rewrite Ha, Ht. simpl.
    by rewrite !app_nil_r.
  - unfold taken, finished in *. rewrite !flat_map_app. simpl. rewrite Ht. simpl.
    rewrite !app_nil_r, Hh, Hws, <- app_assoc. f_equiv.
    apply (inj (app (holds y))). rewrite <- (held_insert _ _ _ _ Hi), Hx.
    rewrite !(assoc (++)%list). by rewrite (comm (++)%list (finished_of l)).
  - by rewrite Hws, length_insert.
Qed.

Lemma accounts_same ls l s s' :
  accounts ls s -> queue s' = queue s -> workers s' = workers s ->
  accepted_of l = [] -> taken_of l = [] -> finished_of l = [] -> accounts (ls ++ [l]) s'.
Proof.
  intros [Hc Hf Hh Hw] Hq Hws Ha Ht Hfin.
  constructor; rewrite ?Hq, ?Hws; [done|..|done];
    unfold accepted, taken, finished in *; rewrite !flat_map_app; simpl;
    rewrite ?Ha, ?Ht, ?Hfin; simpl; by rewrite !app_nil_r.
Qed.

Lemma step_accounts ls s l s' : step to_vec cfg env s l s' -> accounts ls s -> accounts (ls ++ [l]) s'.
Proof.
  intros Hstep Hacc. destruct Hstep as [now p s|s|i p q s Hi Hq|i s Hi Hq Hs|i p now s Hi Ho
    |i p now s Hi Ho Hr|i p now s Hi Ho Hr|i p e s Hi He|i p b t s Hi Hm Hp
    |i p b e t s Hi Hm Hp|i p b t s Hi Hm Hp|i s Hi|i s Hi|i n now s Hi|t s Ht].
  - unfold submit. destruct (stopped s); [by apply (accounts_same _ _ s)|].
    destruct (circuit_open now s); [by apply (accounts_same _ _ s)|].
    destruct (Nat.ltb_spec (length (queue s)) (capacity cfg)) as [Hl|Hl];
      [|by apply (accounts_same _ _ s)].
    destruct Hacc as [Hc Hf Hh Hw]. constructor; simpl; [|..|done].
    + rewrite length_app. simpl. lia.
    + unfold accepted, taken in *. rewrite !flat_map_app. simpl.
      by rewrite Hf, app_nil_r, <- app_assoc.
    + unfold taken, finished in *. rewrite !flat_map_app. simpl. by rewrite !app_nil_r.
  - by apply (accounts_same _ _ s).
  - destruct Hacc as [Hc Hf Hh Hw]. rewrite Hq in Hc, Hf. constructor; simpl in *; [lia|..].
    + unfold accepted, taken in *. rewrite !flat_map_app. simpl.
      by rewrite Hf, app_nil_r, <- app_assoc.
    + unfold taken, finished in *. rewrite !flat_map_app. simpl. rewrite app_nil_r, Hh.
      rewrite <- app_assoc. f_equiv.
      pose proof (held_insert _ _ _ (WTaken p) Hi) as H. simpl in H. rewrite H.
      by rewrite Permutation_app_comm.
    + by rewrite length_insert.
  - by apply (accounts_worker _ _ s _ i WIdle WExited).
  - by apply (accounts_worker _ _ s _ i (WTaken p) WIdle).
  - by apply (accounts_worker _ _ s _ i (WTaken p) WFailed).
  - by apply (accounts_worker _ _ s _ i (WTaken p) (WAdmitted p)).
  - by apply (accounts_worker _ _ s _ i (WAdmitted p) WIdle).
  - by apply (accounts_worker _ _ s _ i (WAdmitted p) WAcked).
  - by apply (accounts_worker _ _ s _ i (WAdmitted p) WFailed).
  - by apply (accounts_worker _ _ s _ i (WAdmitted p) (WStuck p)).
  - by apply (accounts_worker _ _ s _ i WAcked WIdle).
  - by apply (accounts_worker _ _ s _ i WFailed (WCounted (u64_add (failures s) 1))).
  - apply (accounts_worker _ _ s _ i (WCounted n) WIdle); try done;
      unfold trip; by destruct (_ <=? _).
  - by apply (accounts_same _ _ s).
Qed.

Lemma steps_accounts s ls s' :
  steps (step to_vec cfg env) s ls s' -> forall ls0, accounts ls0 s -> accounts (ls0 ++ ls) s'.
Proof.
  induction 1 as [s|s l s1 ls s2 Hstep _ IH]; intros ls0 Hacc; [by rewrite app_nil_r|].
  replace (ls0 ++ l :: ls)%list with ((ls0 ++ [l]) ++ ls)%list by (by rewrite <- app_assoc).
  eapply IH, step_accounts; done.
Qed.

(** Every state a new publisher reaches. *)
Lemma audit_accounts t ls s :
  steps (step to_vec cfg env) (new cfg t) ls s -> accounts ls s.
Proof. intros Hs. exact (steps_accounts _ _ _ Hs [] (new_accounts t)). Qed.

(** [record_failure] run to completion. *)
Definition record_failure (now : Z) (s : AuditPublisher P T) : AuditPublisher P T :=
  let '(n, s') := count_failure s in trip cfg now n s'.

(** The deadline a trip at [now] sets. *)
Definition deadline (now : Z) : Z :=
  Z.min U64_MAX (now + default U64_MAX (try_from 0 U64_MAX
                                          (as_millis (circuit_breaker_cooldown cfg)))).
(** *** The scheduler is the relation *)

Lemma worker_step_sound i now s l s' :
  worker_step to_vec cfg i now s = Some (l, s') -> step to_vec cfg env s l s'.
Proof.
  unfold worker_step. destruct (workers s !! i) as [[|p|p|p| | |n|]|] eqn:Hi; [..|done|done].
  - destruct (queue s) as [|p q] eqn:Hq; [destruct (stopped s) eqn:Hs; [|done]|];
      intros [= <- <-]; by econstructor.
  - destruct (circuit_open now s) eqn:Ho; [|destruct (publisher_ready (transport s)) eqn:Hr];
      intros [= <- <-]; by econstructor.
  - destruct (marshal_audit to_vec p) as [b|e] eqn:Hm; [|intros [= <- <-]; by econstructor].
    destruct (publish b _ _) as [[[[]|e]|] t] eqn:Hp; intros [= <- <-]; by econstructor.
  - done.
  - intros [= <- <-]; by econstructor.
  - intros [= <- <-]. exact (step_count to_vec cfg env i s Hi).
  - intros [= <- <-]; by econstructor.
Qed.

Lemma exec_sound a s l s' :
  allowed env a s -> exec to_vec cfg a s = Some (l, s') -> step to_vec cfg env s l s'.
Proof.
  destruct a as [now p| |i now|t]; simpl; intros Ha.
  - pose proof (step_submit to_vec cfg env now p s) as H.
    destruct (submit cfg now p s). by intros [= <- <-].
  - intros [= <- <-]. constructor.
  - apply worker_step_sound.
  - intros [= <- <-]. by constructor.
Qed.

Lemma exec_complete s l s' :
  step to_vec cfg env s l s' -> exists a, allowed env a s /\ exec to_vec cfg a s = Some (l, s').
Proof.
  destruct 1 as [now p s|s|i p q s Hi Hq|i s Hi Hq Hs|i p now s Hi Ho
    |i p now s Hi Ho Hr|i p now s Hi Ho Hr|i p e s Hi He|i p b t s Hi Hm Hp
    |i p b e t s Hi Hm Hp|i p b t s Hi Hm Hp|i s Hi|i s Hi|i n now s Hi|t s Ht].
  - exists (ASubmit now p). simpl. by destruct (submit cfg now p s).
  - by exists AStop.
  - exists (AWorker i 0). simpl. unfold worker_step. by rewrite Hi, Hq.
  - exists (AWorker i 0). simpl. unfold worker_step. by rewrite Hi, Hq, Hs.
  - exists (AWorker i now). simpl. unfold worker_step. by rewrite Hi, Ho.
  - exists (AWorker i now). simpl. unfold worker_step. by rewrite Hi, Ho, Hr.
  - exists (AWorker i now). simpl. unfold worker_step. by rewrite Hi, Ho, Hr.
  - exists (AWorker i 0). simpl. unfold worker_step. by rewrite Hi, He.
  - exists (AWorker i 0). simpl. unfold worker_step. by rewrite Hi, Hm, Hp.
  - exists (AWorker i 0). simpl. unfold worker_step. by rewrite Hi, Hm, Hp.
  - exists (AWorker i 0). simpl. unfold worker_step. by rewrite Hi, Hm, Hp.
  - exists (AWorker i 0). simpl. unfold worker_step. by rewrite Hi.
  - exists (AWorker i 0). simpl. unfold worker_step. by rewrite Hi.
  - exists (AWorker i now). simpl. unfold worker_step. by rewrite Hi.
  - by exists (ATransport t).
Qed.

Lemma exec_all_steps acts s :
  Forall (fun a => forall s, allowed env a s) acts ->
  steps (step to_vec cfg env) s (exec_all to_vec cfg acts s).1 (exec_all to_vec cfg acts s).2.
Proof.
  intros Ha. apply run_acts_steps. eapply Forall_impl; [exact Ha|]. simpl.
  intros a Hall s0 l s1. by apply exec_sound.
Qed.

(** *** The work left *)

Lemma weights_insert (ws : list (Worker P)) i x y :
  ws !! i = Some x -> (weights (<[i := y]> ws) + weight x = weights ws + weight y)%nat.
Proof.
  unfold weights. revert i. induction ws as [|w ws IH]; intros [|i] Hi; simpl in *; [done..| |].
  - injection Hi as ->. lia.
  - specialize (IH i Hi). lia.
Qed.

Lemma weights_bound (ws : list (Worker P)) : (weights ws <= 5 * length ws)%nat.
Proof.
  unfold weights. induction ws as [|w ws IH]; [done|]. simpl in *.
  assert (weight w <= 5)%nat by (destruct w; simpl; lia). lia.
Qed.

(** Once stopped, no step adds work, and a worker's own steps take some away. *)
Lemma step_work s l s' :
  step to_vec cfg env s l s' -> stopped s = true ->
  stopped s' = true /\ ((if worker_label l then 1 else 0) + work s' <= work s)%nat.
Proof.
  assert (forall (s s' : AuditPublisher P T) i x y, workers s !! i = Some x -> queue s' = queue s ->
    workers s' = <[i := y]> (workers s) -> (weight y < weight x)%nat -> (1 + work s' <= work s)%nat)
    as Hw.
  { intros s0 s1 i x y Hi Hq Hws Hlt. unfold work. rewrite Hq, Hws.
    pose proof (weights_insert _ i x y Hi). lia. }
  intros Hstep Hs. destruct Hstep as [now p s|s|i p q s Hi Hq|i s Hi Hq Hst|i p now s Hi Ho
    |i p now s Hi Ho Hr|i p now s Hi Ho Hr|i p e s Hi He|i p b t s Hi Hm Hp
    |i p b e t s Hi Hm Hp|i p b t s Hi Hm Hp|i s Hi|i s Hi|i n now s Hi|t s Ht];
    cbn [worker_label]; try (split; [done|]; eapply (Hw _ _ i _ _ Hi); [reflexivity|reflexivity|simpl; lia]).
  - unfold submit. by rewrite Hs.
  - split; [done|]. unfold work. simpl. lia.
  - split; [done|]. pose proof (weights_insert _ i WIdle (WTaken p) Hi). unfold work. rewrite Hq.
    simpl in *. lia.
  - assert (forall n now, (trip cfg now n s).(stopped) = stopped s /\ (trip cfg now n s).(queue) = queue s /\ (trip cfg now n s).(workers) = workers s)
      as Htrip by (intros; unfold trip; by destruct (_ <=? _)).
    destruct (Htrip n now) as (H1 & H2 & H3). split; [by simpl; rewrite H1|].
    eapply (Hw _ _ i _ WIdle Hi); simpl; rewrite ?H3; [done..|lia].
  - split; [done|]. unfold work. simpl. lia.
Qed.

(** Nothing is accepted any more. *)
Lemma stopped_accepts s ls s' :
  steps (step to_vec cfg env) s ls s' -> stopped s = true -> accepted ls = [].
Proof.
  induction 1 as [s|s l s1 ls s2 Hstep _ IH]; intros Hs; [done|].
  destruct (step_work _ _ _ Hstep Hs) as [Hs1 _]. unfold accepted in *. simpl.
  rewrite (IH Hs1), app_nil_r. destruct Hstep; try done. unfold submit. by rewrite Hs.
Qed.

Lemma steps_work s ls s' :
  steps (step to_vec cfg env) s ls s' -> stopped s = true ->
  stopped s' = true /\ (moves ls + work s' <= work s)%nat.
Proof.
  unfold moves. induction 1 as [s|s l s1 ls s2 Hstep _ IH]; intros Hs; [by simpl|].
  destruct (step_work _ _ _ Hstep Hs) as [Hs1 Hw]. destruct (IH Hs1) as [Hs2 Hw2].
  split; [done|]. simpl. destruct (worker_label l); simpl; lia.
Qed.

(** Once stopped, exactly the workers at rest cannot move. *)
Lemma worker_enabled s i w now :
  stopped s = true -> workers s !! i = Some w ->
  is_Some (worker_step to_vec cfg i now s) <-> at_rest w = false.
Proof.
  intros Hs Hi. unfold worker_step. rewrite Hi. destruct w as [|p|p|p| | |n|]; simpl.
  all: try (split; [done|by eauto]).
  all: try (split; [by intros [? ?]|done]).
  - rewrite Hs. by destruct (queue s); split; eauto.
  - repeat case_match; by split; eauto.
  - repeat case_match; by split; eauto.
Qed.

Lemma some_enabled s now :
  stopped s = true ->
  (exists i, is_Some (worker_step to_vec cfg i now s)) <->
  ~ Forall (fun w => at_rest w = true) (workers s).
Proof.
  intros Hs. split.
  - intros (i & Hi) Hall. destruct (workers s !! i) as [w|] eqn:Hw.
    + apply (worker_enabled s i w now Hs Hw) in Hi.
      apply (Forall_lookup_1 _ _ _ _ Hall) in Hw. congruence.
    + unfold worker_step in Hi. rewrite Hw in Hi. by destruct Hi.
  - intros Hn. apply not_Forall_Exists in Hn; [|apply _]. apply Exists_exists in Hn as (w & Hw & Hr).
    apply list_elem_of_lookup in Hw as [i Hw]. exists i. apply (worker_enabled s i w now Hs Hw).
    by apply not_true_is_false.
Qed.

(** *** Workers that never return *)

Lemma stuck_insert (ws : list (Worker P)) i x y :
  ws !! i = Some x -> (sticks x ++ stuck (<[i := y]> ws))%list ≡ₚ (sticks y ++ stuck ws)%list.
Proof.
  revert i. induction ws as [|w ws IH]; intros i; [done|]. destruct i as [|i]; simpl.
  - intros [= ->]. rewrite !(assoc (++)%list). by rewrite (comm (++)%list (sticks x)).
  - intros Hi. specialize (IH i Hi). unfold stuck in *.
    rewrite !(assoc (++)%list), (comm (++)%list (sticks x)), (comm (++)%list (sticks y)).
    by rewrite <- !(assoc (++)%list), IH.
Qed.

Lemma step_stuck s l s' :
  step to_vec cfg env s l s' -> stuck (workers s') ≡ₚ (stuck (workers s) ++ stuck_of l)%list.
Proof.
  assert (forall (s s' : AuditPublisher P T) i x y z, workers s !! i = Some x ->
    workers s' = <[i := y]> (workers s) -> sticks x = [] -> z = sticks y ->
    stuck (workers s') ≡ₚ (stuck (workers s) ++ z)%list) as Hw.
  { intros s0 s1 i x y z Hi Hws Hx ->. rewrite Hws. pose proof (stuck_insert _ i x y Hi) as H.
    rewrite Hx in H. simpl in H. by rewrite H, (comm (++)%list). }
  intros Hstep. destruct Hstep as [now p s|s|i p q s Hi Hq|i s Hi Hq Hst|i p now s Hi Ho
    |i p now s Hi Ho Hr|i p now s Hi Ho Hr|i p e s Hi He|i p b t s Hi Hm Hp
    |i p b e t s Hi Hm Hp|i p b t s Hi Hm Hp|i s Hi|i s Hi|i n now s Hi|t s Ht];
    try (eapply (Hw _ _ i _ _ _ Hi); reflexivity); simpl; rewrite ?app_nil_r; try done.
  - unfold submit. by repeat case_match.
  - replace (workers (trip cfg now n s)) with (workers s) by (unfold trip; by destruct (_ <=? _)).
    pose proof (stuck_insert _ i _ WIdle Hi) as H. exact H.
Qed.

Lemma steps_stuck s ls s' :
  steps (step to_vec cfg env) s ls s' ->
  stuck (workers s') ≡ₚ (stuck (workers s) ++ unanswered ls)%list.
Proof.
  induction 1 as [s|s l s1 ls s2 Hstep _ IH]; [by rewrite app_nil_r|].
  unfold unanswered in *. simpl. by rewrite IH, (step_stuck _ _ _ Hstep), app_assoc.
Qed.

Lemma new_stuck t : stuck (workers (new (P := P) (T := T) cfg t)) = [].
Proof. unfold stuck, new. simpl. generalize (Nat.max (worker_count cfg) 1). by induction n. Qed.

Lemma stuck_held (ws : list (Worker P)) : stuck ws ⊆+ held ws.
Proof.
  unfold stuck, held. induction ws as [|w ws IH]; [done|]. simpl.
  apply submseteq_app; [|done]. destruct w; simpl; auto using submseteq_nil_l.
Qed.

Lemma at_rest_held (ws : list (Worker P)) :
  Forall (fun w => at_rest w = true) ws -> held ws = stuck ws.
Proof. unfold held, stuck. induction 1 as [|[] ws Hw _ IH]; simpl in *; by rewrite ?IH. Qed.

Lemma at_rest_exited (ws : list (Worker P)) :
  Forall (fun w => at_rest w = true) ws -> stuck ws = [] -> Forall (fun w => w = WExited) ws.
Proof.
  unfold stuck. induction 1 as [|[] ws Hw _ IH]; simpl in *; try done; intros Hs; by auto.
Qed.

Lemma insert_elem_of {A} (l : list A) i x y : x ∈ <[i := y]> l -> x = y \/ x ∈ l.
Proof.
  intros (j & Hj)%list_elem_of_lookup.
  apply list_lookup_insert_Some in Hj as [(_ & -> & _)|[_ Hj]]; [by left|right].
  by eapply list_elem_of_lookup_2.
Qed.

(** A worker returns only once the queue is closed and empty. *)
Definition exits_last (s : AuditPublisher P T) : Prop :=
  WExited ∈ workers s -> queue s = [] /\ stopped s = true.

Lemma step_exits_last s l s' : step to_vec cfg env s l s' -> exits_last s -> exits_last s'.
Proof.
  assert (forall (s s' : AuditPublisher P T) i y, y <> WExited -> exits_last s ->
    queue s' = queue s -> stopped s' = stopped s -> workers s' = <[i := y]> (workers s) ->
    exits_last s') as Hw.
  { intros s0 s1 i y Hy Hs Hq Hst Hws Hin. rewrite Hq, Hst. apply Hs. rewrite Hws in Hin.
    by apply insert_elem_of in Hin as [?|Hin]. }
  intros Hstep Hs. destruct Hstep as [now p s|s|i p q s Hi Hq|i s Hi Hq Hst|i p now s Hi Ho
    |i p now s Hi Ho Hr|i p now s Hi Ho Hr|i p e s Hi He|i p b t s Hi Hm Hp
    |i p b e t s Hi Hm Hp|i p b t s Hi Hm Hp|i s Hi|i s Hi|i n now s Hi|t s Ht]; try (eapply (Hw s _ i); cycle 4; [reflexivity|done|exact Hs|reflexivity|reflexivity]).
  - intros Hin. unfold submit in *. destruct (stopped s) eqn:Hst; [by apply Hs|].
    repeat case_match; simpl in *; destruct (Hs Hin); congruence.
  - intros Hin. by destruct (Hs Hin).
  - intros Hin. simpl in Hin. apply insert_elem_of in Hin as [?|Hin]; [done|].
    destruct (Hs Hin). congruence.
  - by intros _.
  - apply (Hw s _ i WIdle); simpl; unfold trip; try done; by destruct (_ <=? _).
  - exact Hs.
Qed.

End Lemmas.

Lemma record_failures_state {P T E} {Pub : Publisher T E} cfg (s : AuditPublisher P T) (ts : list Z) :
  failures s = 0 -> open_until_ms s = 0 -> Z.of_nat (length ts) < 2 ^ 64 ->
  let s' := fold_left (fun s t => record_failure cfg t s) ts s in
  failures s' = Z.of_nat (length ts) /\ queue s' = queue s /\ workers s' = workers s /\
  stopped s' = stopped s /\
  open_until_ms s' = if Z.of_nat (length ts) <? threshold cfg then 0
                     else deadline cfg (List.last ts 0).
Proof.
  intros Hf Ho. induction ts as [|t ts IH] using rev_ind; intros Hb.
  - unfold threshold. simpl. split_and!; try done. by rewrite (proj2 (Z.ltb_lt _ _)) by lia.
  - rewrite length_app in Hb |- *. simpl in Hb |- *.
    rewrite fold_left_app. simpl. destruct (IH ltac:(lia)) as (H1 & H2 & H3 & H4 & H5).
    set (s1 := fold_left _ ts s) in *. unfold record_failure, count_failure, trip.
    assert (u64_add (failures s1) 1 = Z.of_nat (length ts + 1)) as Hn.
    { unfold u64_add. rewrite H1, Z.mod_small; lia. }
    rewrite Hn. rewrite last_last. destruct (Z.leb_spec (threshold cfg) (Z.of_nat (length ts + 1)));
      simpl; split_and!; try done.
    + by rewrite (proj2 (Z.ltb_ge _ _)) by lia.
    + rewrite H5. rewrite !(proj2 (Z.ltb_lt _ _)) by lia. done.
Qed.

(** ** Theorems *)

(** C5: The publisher loses nothing silently: in any interleaving of callers and workers every
    accepted message is still queued, in the hands of a worker, published, or explicitly
    discarded, exactly once each; messages leave the queue in the order they were accepted, and
    at most [capacity + workers] of them are ever in flight. *)
Theorem audit_accounting {P T E J} {Pub : Publisher T E} (to_vec : P -> result bytes J) cfg
    (env : T -> T -> Prop) t ls s :
  steps (step to_vec cfg env) (new cfg t) ls s ->
  accepted ls = (taken ls ++ queue s)%list /\
  accepted ls ≡ₚ (finished ls ++ held (workers s) ++ queue s)%list /\
  (length (queue s) <= capacity cfg)%nat /\
  (length (held (workers s)) <= Nat.max (worker_count cfg) 1)%nat.
Proof.
  intros Hs. destruct (audit_accounts _ _ _ _ _ _ Hs) as [Hc Hf Hh Hw].
  simpl in *. split_and!; [done| |done|].
  - by rewrite Hf, Hh, <- app_assoc.
  - rewrite <- Hw. apply held_length.
Qed.

(** C30: The breaker opens at exactly [threshold] consecutive failures: with fewer of them a running
    publisher accepts as long as there is room, and with as many or more it refuses every message
    until the cooldown counted from the last failure is over, leaving the queue as it was. *)
Theorem audit_breaker_threshold {P T E} {Pub : Publisher T E} cfg (s : AuditPublisher P T) ts now p :
  failures s = 0 -> open_until_ms s = 0 -> stopped s = false -> 0 <= now ->
  Z.of_nat (length ts) < 2 ^ 64 ->
  let s' := fold_left (fun s t => record_failure cfg t s) ts s in
  (Z.of_nat (length ts) < threshold cfg -> (length (queue s) < capacity cfg)%nat ->
   submit cfg now p s' = (true, with_queue s' (queue s ++ [p])%list)) /\
  (threshold cfg <= Z.of_nat (length ts) -> now < deadline cfg (List.last ts 0) ->
   submit cfg now p s' = (false, s')).
Proof.
  intros Hf Ho Hst Hnow Hb. destruct (record_failures_state cfg s ts Hf Ho Hb)
    as (H1 & H2 & H3 & H4 & H5). cbv zeta.
  set (s' := fold_left _ ts s) in *. unfold submit, circuit_open.
  rewrite H4, Hst, H5, H2. split.
  - intros Hlt Hroom. rewrite (proj2 (Z.ltb_lt _ (threshold cfg))) by done.
    rewrite (proj2 (Z.ltb_ge _ _)) by done. by rewrite (proj2 (Nat.ltb_lt _ _)).
  - intros Hge Hd. rewrite (proj2 (Z.ltb_ge _ (threshold cfg))) by done.
    by rewrite (proj2 (Z.ltb_lt _ _)).
Qed.

(** The scheduler runs exactly the steps of the relation. *)
Theorem audit_exec_iff {P T E J} {Pub : Publisher T E} (to_vec : P -> result bytes J) cfg
    (env : T -> T -> Prop) (s : AuditPublisher P T) l s' :
  step to_vec cfg env s l s' <-> exists a, allowed env a s /\ exec to_vec cfg a s = Some (l, s').
Proof.
  split; [apply exec_complete|]. intros (a & Ha & He). by eapply exec_sound.
Qed.

(** C6: Stopping drains the queue unless the transport stalls. From the moment [stop] is called the
    workers take at most five steps per message still queued and per worker, however they are
    scheduled. Some worker can move unless each has returned or waits on a publish that was never
    answered. Then every message ever accepted was published or discarded, is held by such a
    publish, or is still queued, the last only when no worker returned; so when the transport
    answered every publish all workers have returned and nothing is left. *)
Theorem audit_stop_drains {P T E J} {Pub : Publisher T E} (to_vec : P -> result bytes J) cfg
    (env : T -> T -> Prop) t ls0 s ls s' now :
  steps (step to_vec cfg env) (new cfg t) ls0 s -> stopped s = true ->
  steps (step to_vec cfg env) s ls s' ->
  (moves ls + work s' <= work s)%nat /\
  (work s <= 5 * capacity cfg + 5 * Nat.max (worker_count cfg) 1)%nat /\
  ((exists i, is_Some (worker_step to_vec cfg i now s')) <->
   ~ Forall (fun w => at_rest w = true) (workers s')) /\
  (Forall (fun w => at_rest w = true) (workers s') ->
   accepted ls0 ≡ₚ (finished (ls0 ++ ls) ++ unanswered (ls0 ++ ls) ++ queue s')%list /\
   (WExited ∈ workers s' -> queue s' = []) /\
   (unanswered (ls0 ++ ls) = [] ->
    Forall (fun w => w = WExited) (workers s') /\ accepted ls0 ≡ₚ finished (ls0 ++ ls))).
Proof.
  intros Hs0 Hst Hs. pose proof (steps_app _ _ _ _ _ _ Hs0 Hs) as Hall.
  pose proof (audit_accounts _ _ _ _ _ _ Hs0) as [Hc0 _ _ Hw0].
  pose proof (audit_accounts _ _ _ _ _ _ Hall) as [_ Hf Hh Hw]. simpl in *.
  destruct (steps_work _ _ _ _ _ _ Hs Hst) as [Hst' Hmoves]. split_and!; [done|..].
  - unfold work. pose proof (weights_bound (workers s)) as Hb. lia.
  - by apply some_enabled.
  - intros Hrest. pose proof (steps_stuck _ _ _ _ _ _ Hall) as Hstuck.
    rewrite new_stuck in Hstuck. simpl in Hstuck.
    assert (WExited ∈ workers s' -> queue s' = []) as Hexit.
    { intros Hin. eapply (steps_inv _ exits_last (step_exits_last to_vec cfg env)); [exact Hall| |done].
      intros Hin0. simpl in Hin0. by apply elem_of_replicate in Hin0 as [? _]. }
    assert (accepted ls0 ≡ₚ (finished (ls0 ++ ls) ++ unanswered (ls0 ++ ls) ++ queue s')%list) as Hacc.
    { rewrite <- Hstuck, <- (at_rest_held _ Hrest), app_assoc, <- Hh, <- Hf. unfold accepted.
      rewrite flat_map_app. fold (accepted ls0) (accepted ls).
      by rewrite (stopped_accepts _ _ _ _ _ _ Hs Hst), app_nil_r. }
    split_and!; [done|done|]. intros Hun. rewrite Hun in *.
    apply Permutation_nil_r in Hstuck. pose proof (at_rest_exited _ Hrest Hstuck) as Hexited.
    split; [done|]. rewrite Hexit, app_nil_r in Hacc; [done|].
    destruct (workers s') as [|w ws]; [simpl in *; lia|]. apply Forall_cons in Hexited as [-> _]. by left.
Qed.

(** ** Witnesses *)

(** A transport that is ready and refuses everything; payloads are numbers. *)
#[local] Instance refusing : Publisher unit string := {
  publish _ _ := aio_ret (Err "refused");
  publisher_ready _ := true;
}.

Definition toy_vec (n : nat) : result bytes string := Ok [ascii_of_nat n].
Definition small_config : AuditPublisherConfig := mkConfig 1 2 "" 2 (from_secs 30).

(** Message 7 is accepted, taken by worker 0 and admitted, and its publish fails. *)
Definition toy_acts : list (act (P := nat) (T := unit)) :=
  [ASubmit 5 7%nat; AWorker 0 5; AWorker 0 5; AWorker 0 6].

Definition toy_labels : list (label (P := nat)) :=
  [LSubmit 7%nat true; LTake 7%nat; LInternal; LPublish 7%nat false].

Lemma toy_allowed : Forall (fun a => forall s, allowed (P := nat) (fun _ _ => False) a s) toy_acts.
Proof. by repeat constructor. Qed.

Lemma toy_run :
  steps (step toy_vec small_config (fun _ _ => False)) (new small_config tt) toy_labels
    (mkPublisher [] 0 0 false [WFailed] tt).
Proof. exact (exec_all_steps toy_vec small_config (fun _ _ => False) toy_acts _ toy_allowed). Qed.

Lemma audit_accounting_witness : accepted toy_labels ≡ₚ finished toy_labels.
Proof.
  destruct (audit_accounting toy_vec small_config (fun _ _ => False) tt _ _ toy_run)
    as (_ & H & _). simpl in *. exact H.
Defined.

Lemma audit_breaker_threshold_witness :
  let s := new (P := nat) small_config tt in
  submit small_config 9 7%nat (fold_left (fun s t => record_failure small_config t s) [1; 5] s) =
    (false, fold_left (fun s t => record_failure small_config t s) [1; 5] s).
Proof.
  destruct (audit_breaker_threshold small_config (new (P := nat) small_config tt) [1; 5] 9 7%nat)
    as [_ H]; [done|done|done|lia|done|].
  apply H; by vm_compute.
Defined.

(** Message 7 is queued when [stop] is called; the refusing transport makes the worker count a
    failure, and five more of its steps end it. *)
Definition toy_stopped : AuditPublisher nat unit :=
  with_stopped (submit small_config 5 7%nat (new small_config tt)).2.

Lemma toy_stopped_run :
  steps (step toy_vec small_config (fun _ _ => False)) (new small_config tt)
    [LSubmit 7%nat true; LStop] toy_stopped.
Proof.
  refine (exec_all_steps toy_vec small_config (fun _ _ => False) [ASubmit 5 7%nat; AStop] _ _).
  by repeat constructor.
Qed.

Definition toy_drain : list (act (P := nat) (T := unit)) := replicate 6 (AWorker 0 6).

Lemma audit_stop_drains_witness :
  let '(ls, s') := exec_all toy_vec small_config toy_drain toy_stopped in
  moves ls = 6%nat /\ workers s' = [WExited] /\ accepted [LSubmit 7%nat true; LStop] ≡ₚ finished ls.
Proof.
  assert (steps (step toy_vec small_config (fun _ _ => False)) toy_stopped
    (exec_all toy_vec small_config toy_drain toy_stopped).1
    (exec_all toy_vec small_config toy_drain toy_stopped).2) as Hrun
    by (apply exec_all_steps; by repeat constructor).
  destruct (audit_stop_drains toy_vec small_config (fun _ _ => False) tt _ _ _ _ 6
    toy_stopped_run eq_refl Hrun) as (_ & _ & _ & H).
  destruct (exec_all _ _ _ _) as [ls s'] eqn:Hex. vm_compute in Hex. injection Hex as <- <-.
  split_and!; [done|done|]. by destruct H as (_ & _ & [_ H]); [repeat constructor|done|].
Defined.

(** With a transport that stalls, the one worker takes message 7 and never returns; message 8
    stays queued, and [stop] waits for ever. *)
Definition stalling : Publisher unit string := {|
  publish _ _ := io_ret None;
  publisher_ready _ := true;
|}.

Example stop_waits_for_a_stalled_publish :
  let '(ls, s) := exec_all (Pub := stalling) toy_vec small_config
    ([ASubmit 5 7%nat; ASubmit 5 8%nat; AStop] ++ replicate 9 (AWorker 0 6))%list (new small_config tt) in
  workers s = [WStuck 7%nat] /\ queue s = [8%nat] /\ finished ls = [] /\
  worker_step (Pub := stalling) toy_vec small_config 0 7 s = None.
Proof. by vm_compute. Qed.
