(* ===== verification/AuditAmqp.v ===== *)
(** The audit trail over RabbitMQ: [pc-audit]'s publisher ([AuditPool]) with [pc-amqp]'s client
    ([Amqp]) as its transport, as the services run them. What the broker receives is related to
    the messages the publisher accepted. *)
From S2P Require Export AuditPool.
Local Open Scope string_scope.
Local Open Scope Z_scope.

Section Composition.
Context {P J W Conn Chan Consumer Props : Type} {PO : BasicProperties Props}.
Context {B : Broker W Conn Chan Consumer Props}.
Context (cmds : W -> list (BrokerCmd Conn Chan Consumer Props)).
Context (to_vec : P -> result bytes J) (cfg : AuditPublisherConfig).
Abbreviation Transport := (AmqpClient Conn Chan * W)%type.

(** A message as the broker receives it: routing key, body and properties. *)
Abbreviation Message := (string * bytes * Props)%type.

Definition message_of (c : BrokerCmd Conn Chan Consumer Props) : option Message :=
  match c with CPublish _ k d p _ => Some (k, d, p) | _ => None end.

Definition messages (l : list (BrokerCmd Conn Chan Consumer Props)) : list Message :=
  omap message_of l.

(** The properties of an audit message. *)
Definition audit_props : Props :=
  let props := with_content_type "application/json" default_props in
  if is_empty (message_ttl cfg) then props else with_expiration (message_ttl cfg) props.

(** [m] is what the client of queue [q] sends for payload [p]. *)
Definition carries (q : string) (m : Message) (p : P) : Prop :=
  exists b, marshal_audit to_vec p = Ok b /\ m = (q, b, audit_props).

(** The payloads handed to the client, and those it reported as confirmed. *)
Definition attempted_of (l : label (P := P)) : list P :=
  match l with LPublish p _ | LStuck p => [p] | _ => [] end.
Definition acked_of (l : label (P := P)) : list P :=
  match l with LPublish p true => [p] | _ => [] end.
Definition acked (ls : list label) : list P := flat_map acked_of ls.

(** The rest of the process may reconnect the client and make any call through it but a publish. *)
Definition quiet (t t' : Transport) : Prop :=
  Amqp.queue t'.1 = Amqp.queue t.1 /\
  exists added, cmds t'.2 = (cmds t.2 ++ added)%list /\
    Forall (fun call => is_publish call = false) added.

Context {laws : BrokerLaws B cmds}.
#[local] Set Default Proof Using "Type*".

Lemma silent_messages l : Forall (fun call => is_publish call = false) l -> messages l = [].
Proof. unfold messages. induction 1 as [|c l Hc _ IH]; [done|]. simpl. by destruct c. Qed.

Lemma connecting_messages q l : Forall (fun call => connecting q call = true) l -> messages l = [].
Proof. intros Hl. apply silent_messages. eapply Forall_impl; [exact Hl|]. by intros []. Qed.

Lemma messages_app l1 l2 : messages (l1 ++ l2) = (messages l1 ++ messages l2)%list.
Proof. apply omap_app. Qed.

(** One publish of the pool is at most one message, and exactly one when it is confirmed. *)
Lemma publish_messages data ttl (s : Transport) r s' :
  push_with_ttl data ttl s = (r, s') ->
  let props := with_content_type "application/json" default_props in
  let m := (Amqp.queue s.1, data, if is_empty ttl then props else with_expiration ttl props) in
  Amqp.queue s'.1 = Amqp.queue s.1 /\
  exists added, cmds s'.2 = (cmds s.2 ++ added)%list /\
    (messages added = [m] \/ messages added = [] /\ r <> Some (Ok tt)).
Proof.
  destruct s as [c w]. unfold push_with_ttl, aio_bind, get_client, publish_once, aio_try, aio_ret, io_ret. simpl.
  pose proof (ensure_state_calls (cmds := cmds) (c, w)) as [Hq (a1 & Ha1 & Hs1 & _)].
  destruct (ensure_state (c, w)) as [[[st|e]|] [c1 w1]]; simpl in *; cycle 1.
  1,2: intros [= <- <-]; split; [done|]; exists a1; split; [done|right];
    by rewrite (connecting_messages _ _ Hs1).
  unfold lift.
  match goal with |- context [basic_publish ?ch ?k ?d ?p w1] =>
    pose proof (publish_cmds ch k d p w1) as Hp; destruct (basic_publish ch k d p w1) as [[[[|]|e]|] w2]
  end; simpl in *; intros [= <- <-]; (split; [done|]); simpl; rewrite Hp, Ha1, <- app_assoc;
    (eexists; split; [reflexivity|]); rewrite messages_app, (connecting_messages _ _ Hs1); simpl.
  all: destruct (is_empty ttl) eqn:E; rewrite ?E; auto.
Qed.

(** A step of the pool adds the message of the payload it publishes, if any. *)
Lemma step_messages q (s : AuditPublisher P Transport) l s' :
  step to_vec cfg quiet s l s' -> Amqp.queue (transport s).1 = q ->
  Amqp.queue (transport s').1 = q /\
  exists added ps, cmds (transport s').2 = (cmds (transport s).2 ++ added)%list /\
    Forall2 (carries q) (messages added) ps /\
    ps `sublist_of` attempted_of l /\ acked_of l `sublist_of` ps.
Proof.
  assert (forall t, Amqp.queue t.1 = q -> acked_of l = [] -> t = transport s ->
    exists added ps, cmds t.2 = (cmds (transport s).2 ++ added)%list /\
      Forall2 (carries q) (messages added) ps /\
      ps `sublist_of` attempted_of l /\ acked_of l `sublist_of` ps) as Hnone.
  { intros t _ Hack ->. exists [], []. rewrite app_nil_r, Hack. split_and!; [done|constructor|
      apply sublist_nil_l|done]. }
  intros Hstep Hq. destruct Hstep as [now p s|s|i p r s Hi Hr|i s Hi Hr Hst|i p now s Hi Ho
    |i p now s Hi Ho Hr|i p now s Hi Ho Hr|i p e s Hi He|i p b t s Hi Hm Hp
    |i p b e t s Hi Hm Hp|i p b t s Hi Hm Hp|i s Hi|i s Hi|i n now s Hi|t s Ht];
    try (split; [exact Hq|]; by apply Hnone).
  - assert (transport (submit cfg now p s).2 = transport s) as E
      by (unfold submit; repeat case_match; done).
    rewrite E. split; [done|]. apply Hnone; [done| |done]. simpl. done.
  - apply publish_messages in Hp as [Hq' (added & Ha & [Hmsg|[_ Hbad]])]; [|done].
    simpl in *. split; [congruence|]. exists added, [p]. rewrite Hmsg, <- Hq.
    split_and!; [done|constructor; [by exists b|constructor]|done..].
  - apply publish_messages in Hp as [Hq' (added & Ha & Hmsg)]. simpl in *. split; [congruence|].
    destruct Hmsg as [Hmsg|[Hmsg _]]; exists added; [exists [p]|exists []]; rewrite Hmsg, <- Hq;
      (split_and!; [done| |by auto using sublist_nil_l|apply sublist_nil_l]);
      [constructor; [by exists b|constructor]|constructor].
  - apply publish_messages in Hp as [Hq' (added & Ha & Hmsg)]. simpl in *. split; [congruence|].
    destruct Hmsg as [Hmsg|[Hmsg _]]; exists added; [exists [p]|exists []]; rewrite Hmsg, <- Hq;
      (split_and!; [done| |by auto using sublist_nil_l|apply sublist_nil_l]);
      [constructor; [by exists b|constructor]|constructor].
  - assert (transport (with_worker (trip cfg now n s) i WIdle) = transport s) as E
      by (unfold trip; simpl; by destruct (_ <=? _)).
    rewrite E. split; [done|]. by apply Hnone.
  - destruct Ht as [Hq' (added & Ha & Hs)]. simpl. split; [congruence|].
    exists added, []. rewrite silent_messages by done.
    split_and!; [done|constructor|apply sublist_nil_l..].
Qed.

Lemma steps_messages q (s : AuditPublisher P Transport) ls s' :
  steps (step to_vec cfg quiet) s ls s' -> Amqp.queue (transport s).1 = q ->
  exists added ps, cmds (transport s').2 = (cmds (transport s).2 ++ added)%list /\
    Forall2 (carries q) (messages added) ps /\
    ps `sublist_of` flat_map attempted_of ls /\ acked ls `sublist_of` ps.
Proof.
  unfold acked. induction 1 as [s|s l s1 ls s2 Hstep _ IH]; intros Hq.
  { exists [], []. rewrite app_nil_r. split_and!; [done|constructor|done..]. }
  destruct (step_messages q s l s1 Hstep Hq) as (Hq1 & a1 & ps1 & Ha1 & Hc1 & Hs1 & Hk1).
  destruct (IH Hq1) as (a2 & ps2 & Ha2 & Hc2 & Hs2 & Hk2).
  exists (a1 ++ a2)%list, (ps1 ++ ps2)%list. rewrite messages_app. split_and!.
  - by rewrite Ha2, Ha1, app_assoc.
  - by apply Forall2_app.
  - simpl. by apply sublist_app.
  - simpl. by apply sublist_app.
Qed.
End Composition.

(** An attempt finishes its payload, or never ends. *)
Lemma attempted_finished {P} (ls : list (label (P := P))) :
  flat_map attempted_of ls ⊆+ (finished ls ++ unanswered ls)%list.
Proof.
  unfold finished, unanswered. induction ls as [|l ls IH]; [done|]. simpl.
  trans ((finished_of l ++ stuck_of l) ++ (flat_map finished_of ls ++ flat_map stuck_of ls))%list.
  - apply submseteq_app; [|done]. destruct l; simpl; auto using submseteq_nil_l.
  - rewrite <- !app_assoc. apply submseteq_app; [done|]. by rewrite !app_assoc, (comm (++)%list (stuck_of l)).
Qed.

(** ** Theorems *)

(** C7: The audit trail delivers at most once. Whatever callers and workers do, the broker receives
    only messages of accepted payloads, each payload's message at most once, on the client's own
    queue with the audit body and the configured TTL, and every publish reported as confirmed is
    among them. *)
Theorem audit_at_most_once {P J W Conn Chan Consumer Props} {PO : BasicProperties Props}
    (B : Broker W Conn Chan Consumer Props) (cmds : W -> list (BrokerCmd Conn Chan Consumer Props))
    (laws : BrokerLaws B cmds) (to_vec : P -> result bytes J) cfg c w ls s :
  steps (step to_vec cfg (quiet cmds)) (new cfg (c, w)) ls s ->
  exists added ps,
    cmds (transport s).2 = (cmds w ++ added)%list /\
    Forall2 (carries to_vec cfg (Amqp.queue c)) (messages added) ps /\
    ps ⊆+ accepted ls /\ acked ls `sublist_of` ps.
Proof.
  intros Hs. destruct (steps_messages cmds to_vec cfg (Amqp.queue c) _ _ _ Hs eq_refl)
    as (added & ps & Ha & Hc & Hsub & Hack).
  exists added, ps. split_and!; [done|done| |done].
  destruct (audit_accounts _ _ _ _ _ _ Hs) as [_ Hf Hh _].
  rewrite Hf, Hh. etrans; [apply sublist_submseteq; exact Hsub|].
  etrans; [apply attempted_finished|]. rewrite <- app_assoc. apply submseteq_app; [done|].
  apply submseteq_inserts_r. etrans; [|apply stuck_held].
  pose proof (steps_stuck _ _ _ _ _ _ Hs) as Hst. rewrite (new_stuck cfg) in Hst.
  by rewrite Hst.
Qed.

(** ** Witnesses

    A connected client of the acknowledging broker: one message is accepted, taken, admitted,
    published and confirmed. *)
#[local] Existing Instance toy_props.
#[local] Instance acking : Broker (list WCmd * nat) nat nat unit ToyProps := acking_broker.

Definition connected_client : AmqpClient nat nat :=
  mkClient "audit" "amqp://h" "amqp-app" (Some (mkState 7%nat 1%nat)).

Definition delivery_acts : list (act (P := nat) (T := (AmqpClient nat nat * (list WCmd * nat)))) :=
  [ASubmit 5 66%nat; AWorker 0 5; AWorker 0 5; AWorker 0 6].

Lemma audit_at_most_once_witness :
  let s := exec_all toy_vec small_config delivery_acts (new small_config (connected_client, ([], 0%nat))) in
  acked s.1 = [66%nat] /\
  exists m, messages (transport s.2).2.1 = [m] /\ carries toy_vec small_config "audit" m 66%nat.
Proof.
  pose proof (exec_all_steps toy_vec small_config (quiet fst) delivery_acts
    (new small_config (connected_client, ([], 0%nat)))) as Hrun.
  assert (Forall (fun a => forall s, allowed (quiet fst) a s) delivery_acts) as Hall
    by (by repeat constructor).
  specialize (Hrun Hall).
  destruct (audit_at_most_once acking_broker fst (toy_broker_laws _) toy_vec small_config connected_client
    ([], 0%nat) _ _ Hrun) as (added & ps & Ha & Hc & _ & Hk).
  split; [by vm_compute|].
  cbv zeta. rewrite Ha. change (([], 0%nat).1 ++ added)%list with added.
  assert (length (messages added) = 1%nat) as Hl.
  { vm_compute in Ha. by subst added. }
  assert (ps = [66%nat]) as ->.
  { apply Forall2_length in Hc. vm_compute in Hk. apply sublist_length in Hk as Hk1.
    destruct ps as [|p [|]]; simpl in *; try lia. apply sublist_cons_l in Hk as (l1 & l2 & E & _).
    destruct l1; simplify_eq/=; [done|by destruct l1]. }
  apply Forall2_cons_inv_r in Hc as (m & l & Hm & Hl2 & E). apply Forall2_nil_inv_r in Hl2 as ->.
  rewrite E. by exists m.
Defined.
