(* ===== verification/Config.v ===== *)
(** [pc-config]: the search for the [.env] file, the bootstrap of the process identity, and the
    validation of the environment ([crates/pc-config/src/lib.rs]).

    The file system is the predicate [exists_] and [dotenvy] the function [load]; a directory is
    the list of its components, innermost first. *)
From S2P Require Export Core.
Local Open Scope string_scope.
Local Open Scope Z_scope.
Local Open Scope rust_scope.

Inductive Level : Type := Warning | Error.

#[global] Instance Level_eq_dec : EqDecision Level.
Proof. solve_decision. Defined.

Definition Level_as_str (l : Level) : string :=
  match l with Warning => "warning" | Error => "error" end.

Record ConfigError : Type := mkConfigError {
  field : string;
  message : string;
  level : Level;
}.

Definition warn (field message : string) : ConfigError := mkConfigError field message Warning.

(** ** The [.env] file *)

(** An absolute directory, and its [.env] as a path. *)
Abbreviation Dir := (list string).

Fixpoint show_dir (d : Dir) : string :=
  match d with
  | [] => ""
  | c :: parent => show_dir parent +:+ "/" +:+ c
  end.

Definition dotenv_in (d : Dir) : string := show_dir d +:+ "/.env".

(** [Path::parent]. *)
Definition parent (d : Dir) : option Dir := match d with [] => None | _ :: p => Some p end.

Section FindEnv.
Context (exists_ : string -> bool) (env : Env) (current_dir exe_dir : option Dir).

(** The two explicit overrides. *)
Definition find_override (keys : list string) : option string :=
  fold_right (fun key rest =>
    match env key with
    | Some p => if negb (is_empty p) && exists_ p then Some p else rest
    | None => rest
    end) None keys.

(** The walk over at most [n] parents of [d]. *)
Fixpoint find_parents (n : nat) (d : Dir) : option string :=
  match n with
  | O => None
  | S n =>
      match parent d with
      | Some p => if exists_ (dotenv_in p) then Some (dotenv_in p) else find_parents n p
      | None => None
      end
  end.

Definition find_env_path : option string :=
  match find_override ["ENV_FILE"; "DOTENV_PATH"] with
  | Some p => Some p
  | None =>
  match
    match current_dir with
    | Some wd => if exists_ (dotenv_in wd) then Some (dotenv_in wd) else find_parents 5 wd
    | None => None
    end with
  | Some p => Some p
  | None =>
  match
    match exe_dir with
    | Some d => if exists_ (dotenv_in d) then Some (dotenv_in d) else None
    | None => None
    end with
  | Some p => Some p
  | None => List.find exists_ ["/app/.env"; "/.env"]
  end
  end
  end.
End FindEnv.

(** ** Validation *)

Definition env_nonempty (env : Env) (key : string) : bool :=
  match env key with Some v => negb (is_empty v) | None => false end.

Definition AUDITTRAIL_KEY_ALIASES : list (list string) :=
  [["RABBITMQ_HOST"; "RQ_HOST"];
   ["RABBITMQ_PORT"; "RQ_PORT"];
   ["RABBITMQ_VIRTUAL_HOST_AUDITTRAIL"; "RQ_VHOST"];
   ["RABBITMQ_USERNAME_AUDITTRAIL"; "RQ_USERNAME"];
   ["RABBITMQ_PASSWORD_AUDITTRAIL"; "RQ_PASSWORD"];
   ["RABBITMQ_QUEUE_AUDITTRAIL"; "RQ_QUEUE_AUDITTRAIL"]].

Definition count_configured (aliases : list (list string)) (present : string -> bool) : nat :=
  length (List.filter (fun row => existsb present row) aliases).

(** The environment's [APP_ENV], or the stored one. *)
Definition effective_app_env (env : Env) (id : Identity) : string :=
  match env "APP_ENV" with
  | Some v => if negb (is_empty v) then v else app_env_raw id
  | None => app_env_raw id
  end.

Definition validate_configuration (env : Env) (id : Identity) : list ConfigError :=
  let app_env := effective_app_env env id in
  let total := length AUDITTRAIL_KEY_ALIASES in
  let configured := count_configured AUDITTRAIL_KEY_ALIASES (env_nonempty env) in
  ((if negb (env_nonempty env "APP_NAME")
    then [warn "APP_NAME" "APP_NAME environment variable not set - using empty default"] else [])
   ++ (if is_empty app_env
       then [warn "APP_ENV" "APP_ENV environment variable not set - using empty default"]
       else if negb (one_of ["develop"; "staging"; "production"] app_env)
       then [warn "APP_ENV"
               ("APP_ENV has unexpected value '" +:+ app_env
                +:+ "' (expected: develop, staging, production)")]
       else [])
   ++ (if negb (env_nonempty env "SENTRY_DSN")
       then [warn "SENTRY_DSN" "SENTRY_DSN not set - error tracking disabled"] else [])
   ++ (if Nat.ltb 0 configured && Nat.ltb configured total
       then [warn "RabbitMQ" "RabbitMQ audit trail partially configured - audit trail may not work"]
       else if Nat.eqb configured 0
       then [warn "RabbitMQ" "RabbitMQ audit trail not configured - audit trail disabled"]
       else []))%list.

(** The fields of the JSON status. *)
Record ConfigurationStatus : Type := mkStatus {
  st_status : string;
  st_errors : nat;
  st_warnings : nat;
  st_issues : list ConfigError;
}.

Definition configuration_status (env : Env) (id : Identity) : ConfigurationStatus :=
  let issues := validate_configuration env id in
  let error_count := length (List.filter (fun e => bool_decide (level e = Error)) issues) in
  let warning_count := length (List.filter (fun e => bool_decide (level e = Warning)) issues) in
  let status :=
    if Nat.ltb 0 error_count then "unhealthy"
    else if Nat.ltb 0 warning_count then "degraded"
    else "healthy" in
  mkStatus status error_count warning_count issues.

(** ** Bootstrap *)

Section Bootstrap.
(** [dotenvy]: the environment after loading a file, or after its own search. *)
Context (load : option string -> Env -> Env).
Context (exists_ : string -> bool) (current_dir exe_dir : option Dir).

Definition load_dotenv (env : Env) : Env :=
  load (find_env_path exists_ env current_dir exe_dir) env.

Definition initialize_app (env : Env) (id : Identity)
  : result unit (list ConfigError) * Env * Identity :=
  let env := load_dotenv env in
  let id :=
    match env "APP_NAME" with
    | Some v => if negb (is_empty v) then set_app_name v id else id
    | None => id
    end in
  let mode id :=
    match env "APP_MODE" with
    | Some m => if negb (is_empty m) then set_app_env_raw m id else id
    | None => id
    end in
  let id :=
    match env "APP_ENV" with
    | Some v => if negb (is_empty v) then set_app_env_raw v id else mode id
    | None => mode id
    end in
  let findings := validate_configuration env id in
  (match findings with [] => Ok tt | _ :: _ => Err findings end, env, id).
End Bootstrap.

(** ** Lemmas *)

(** [d] and its first [n] parents. *)
Fixpoint parents (n : nat) (d : Dir) : list Dir :=
  match n with
  | O => []
  | S n => match parent d with Some p => p :: parents n p | None => [] end
  end.

Lemma find_parents_find exists_ n d :
  find_parents exists_ n d = List.find exists_ (map dotenv_in (parents n d)).
Proof.
  revert d. induction n as [|n IH]; intros d; [done|]. simpl.
  destruct (parent d) as [p|]; [|done]. simpl. by destruct (exists_ (dotenv_in p)).
Qed.

Lemma find_app_first {A} (f : A -> bool) l1 l2 :
  List.find f (l1 ++ l2) = match List.find f l1 with Some x => Some x | None => List.find f l2 end.
Proof. induction l1 as [|x l1 IH]; simpl; [done|]. by destruct (f x). Qed.

Definition opt_list {A} (o : option A) : list A := match o with Some x => [x] | None => [] end.

(** The values of the overrides that are set and not empty. *)
Definition overrides (env : Env) : list string :=
  flat_map (fun key => match env key with
                       | Some p => if negb (is_empty p) then [p] else []
                       | None => [] end) ["ENV_FILE"; "DOTENV_PATH"].

(** Every place searched, in order. *)
Definition candidates (env : Env) (current_dir exe_dir : option Dir) : list string :=
  (overrides env
   ++ flat_map (fun wd => map dotenv_in (wd :: parents 5 wd)) (opt_list current_dir)
   ++ map dotenv_in (opt_list exe_dir)
   ++ ["/app/.env"; "/.env"])%list.

Lemma overrides_length env : (length (overrides env) <= 2)%nat.
Proof.
  unfold overrides. simpl. destruct (env "ENV_FILE") as [p|], (env "DOTENV_PATH") as [q|]; simpl;
    try destruct (is_empty p); try destruct (is_empty q); simpl; lia.
Qed.

Lemma parents_length n d : (length (parents n d) <= n)%nat.
Proof.
  revert d. induction n as [|n IH]; intros d; simpl; [lia|].
  destruct (parent d) as [p|]; simpl; [|lia]. specialize (IH p). lia.
Qed.

Lemma count_configured_bounds aliases present :
  (count_configured aliases present <= length aliases)%nat /\
  (count_configured aliases present = length aliases <->
   Forall (fun row => existsb present row = true) aliases).
Proof.
  unfold count_configured. induction aliases as [|row rows [IH1 IH2]]; simpl; [done|].
  rewrite Forall_cons. destruct (existsb present row); simpl; (split; [lia|split]).
  - intros [=]. split; [done|by apply IH2].
  - intros [_ H]. f_equal. by apply IH2.
  - lia.
  - by intros [? _].
Qed.

Lemma validate_warnings env id :
  Forall (fun e => level e = Warning) (validate_configuration env id).
Proof.
  unfold validate_configuration. rewrite !Forall_app.
  split_and!; repeat case_match; repeat constructor.
Qed.

Lemma filter_level_warnings l :
  Forall (fun e => level e = Warning) l ->
  List.filter (fun e => bool_decide (level e = Error)) l = [] /\
  List.filter (fun e => bool_decide (level e = Warning)) l = l.
Proof. induction 1 as [|e l He _ [IH1 IH2]]; [done|]. simpl. rewrite He. simpl. by rewrite IH1, IH2. Qed.

Lemma if_cons_nil {A} (b : bool) (x : A) : (if b then [x] else []) = [] <-> b = false.
Proof. by destruct b. Qed.

Lemma validate_nil env id :
  validate_configuration env id = [] <->
  env_nonempty env "APP_NAME" = true /\
  In (effective_app_env env id) ["develop"; "staging"; "production"] /\
  env_nonempty env "SENTRY_DSN" = true /\
  Forall (fun row => existsb (env_nonempty env) row = true) AUDITTRAIL_KEY_ALIASES.
Proof.
  destruct (count_configured_bounds AUDITTRAIL_KEY_ALIASES (env_nonempty env)) as [Hle Hall].
  rewrite <- Hall, <- one_of_spec. unfold validate_configuration. clear Hall.
  set (n := count_configured _ _) in *. set (a := effective_app_env env id).
  rewrite !app_nil, !if_cons_nil, !negb_false_iff.
  assert ((if is_empty a then [warn "APP_ENV" "APP_ENV environment variable not set - using empty default"]
           else if negb (one_of ["develop"; "staging"; "production"] a)
           then [warn "APP_ENV" ("APP_ENV has unexpected value '" +:+ a
                 +:+ "' (expected: develop, staging, production)")]
           else []) = [] <-> one_of ["develop"; "staging"; "production"] a = true) as ->.
  { destruct (is_empty a) eqn:He; [apply is_empty_true in He; by rewrite He|].
    by rewrite if_cons_nil, negb_false_iff. }
  change (length AUDITTRAIL_KEY_ALIASES) with 6%nat in *.
  destruct (Nat.ltb_spec 0 n), (Nat.ltb_spec n 6), (Nat.eqb_spec n 0); simpl;
    try lia; intuition (try done; lia).
Qed.

(** ** Theorems *)

(** The [.env] file used is the first existing one of a fixed list of places: the overrides,
    the working directory and at most five of its parents, the binary's directory, and the two
    container mounts; so what is found always exists. *)
Theorem find_env_path_first exists_ env current_dir exe_dir :
  find_env_path exists_ env current_dir exe_dir =
    List.find exists_ (candidates env current_dir exe_dir) /\
  (forall p, find_env_path exists_ env current_dir exe_dir = Some p -> exists_ p = true) /\
  (length (candidates env current_dir exe_dir) <= 11)%nat.
Proof.
  assert (find_env_path exists_ env current_dir exe_dir =
    List.find exists_ (candidates env current_dir exe_dir)) as Heq.
  { unfold find_env_path, candidates. rewrite !find_app_first.
    assert (find_override exists_ env ["ENV_FILE"; "DOTENV_PATH"] =
            List.find exists_ (overrides env)) as ->.
    { unfold overrides. simpl. destruct (env "ENV_FILE") as [p|], (env "DOTENV_PATH") as [q|];
        simpl; try destruct (is_empty p); try destruct (is_empty q); simpl;
        try destruct (exists_ p); try destruct (exists_ q); done. }
    destruct (List.find exists_ (overrides env)); [done|].
    assert (match current_dir with
            | Some wd => if exists_ (dotenv_in wd) then Some (dotenv_in wd)
                         else find_parents exists_ 5 wd
            | None => None end =
            List.find exists_ (flat_map (fun wd => map dotenv_in (wd :: parents 5 wd))
                                 (opt_list current_dir))) as ->.
    { destruct current_dir as [wd|]; [|done]. rewrite find_parents_find.
      unfold opt_list. cbn [flat_map]. by rewrite app_nil_r. }
    destruct (List.find exists_ (flat_map _ _)); [done|].
    destruct exe_dir as [d|]; simpl; [|done]. by destruct (exists_ (dotenv_in d)). }
  split_and!; [done| |].
  - intros p. rewrite Heq. intros H. by apply List.find_some in H as [_ ?].
  - unfold candidates. rewrite !length_app. pose proof (overrides_length env).
    destruct current_dir as [wd|], exe_dir as [d|]; cbn [opt_list flat_map map];
      rewrite ?app_nil_r; cbn [length]; rewrite ?length_map; try pose proof (parents_length 5 wd); lia.
Qed.

(** The configuration is reported healthy exactly when it is complete: an application name, one
    of the three environments, a Sentry address, and every audit-trail setting under at least one
    of its names; anything less is degraded, never unhealthy. *)
Theorem configuration_status_healthy env id :
  (st_status (configuration_status env id) = "healthy" <->
   env_nonempty env "APP_NAME" = true /\
   In (effective_app_env env id) ["develop"; "staging"; "production"] /\
   env_nonempty env "SENTRY_DSN" = true /\
   Forall (fun row => existsb (env_nonempty env) row = true) AUDITTRAIL_KEY_ALIASES) /\
  st_errors (configuration_status env id) = 0%nat /\
  In (st_status (configuration_status env id)) ["healthy"; "degraded"].
Proof.
  rewrite <- validate_nil. unfold configuration_status.
  destruct (filter_level_warnings _ (validate_warnings env id)) as [-> ->].
  destruct (validate_configuration env id); simpl; split_and!; auto; by split.
Qed.

(** After the bootstrap the identity is the environment's: the name and the environment that
    are set win, [APP_MODE] is only used when [APP_ENV] is not, and nothing set means nothing
    changed; the call succeeds exactly when the validation is clean. *)
Theorem initialize_app_identity load exists_ cwd exe env id :
  let '(r, env', id') := initialize_app load exists_ cwd exe env id in
  (forall v, env' "APP_NAME" = Some v -> v <> "" -> app_name id' = v) /\
  (env_nonempty env' "APP_NAME" = false -> app_name id' = app_name id) /\
  (forall v, env' "APP_ENV" = Some v -> v <> "" -> app_env_raw id' = v) /\
  (forall m, env_nonempty env' "APP_ENV" = false -> env' "APP_MODE" = Some m -> m <> "" ->
     app_env_raw id' = m) /\
  (env_nonempty env' "APP_ENV" = false -> env_nonempty env' "APP_MODE" = false ->
   app_env_raw id' = app_env_raw id) /\
  (is_ok r = true <-> validate_configuration env' id' = []).
Proof.
  unfold initialize_app. set (env' := load_dotenv _ _ _ _ env).
  match goal with |- context [validate_configuration env' ?x] => set (id' := x) end.
  assert (app_name id' = match env' "APP_NAME" with
            | Some v => if negb (is_empty v) then v else app_name id | None => app_name id end /\
          app_env_raw id' = match env' "APP_ENV" with
            | Some v => if negb (is_empty v) then v else
                match env' "APP_MODE" with
                | Some m => if negb (is_empty m) then m else app_env_raw id | None => app_env_raw id end
            | None => match env' "APP_MODE" with
                | Some m => if negb (is_empty m) then m else app_env_raw id | None => app_env_raw id end
            end) as [Hn He].
  { unfold id'. destruct (env' "APP_NAME") as [v|]; [destruct (negb (is_empty v))|];
      (destruct (env' "APP_ENV") as [u|]; [destruct (negb (is_empty u))|]);
      (destruct (env' "APP_MODE") as [m|]; [destruct (negb (is_empty m))|]); done. }
  rewrite Hn, He. unfold env_nonempty. clear Hn He.
  assert (forall v, v <> "" -> is_empty v = false) as Hne by (intros v; apply is_empty_false).
  split_and!.
  - intros v -> Hv. by rewrite (Hne v Hv).
  - destruct (env' "APP_NAME") as [v|]; [|done]. by intros ->.
  - intros v -> Hv. by rewrite (Hne v Hv).
  - intros m H1 -> Hm. rewrite (Hne m Hm). destruct (env' "APP_ENV") as [v|]; [by rewrite H1|done].
  - intros H1 H2. destruct (env' "APP_ENV") as [v|]; [rewrite H1|];
      (destruct (env' "APP_MODE") as [m|]; [by rewrite H2|done]).
  - by destruct (validate_configuration env' id').
Qed.
