(* ===== verification/Health.v ===== *)
(** [pc-health]: the checks of Redis, RabbitMQ and Sentry, their worst-of reduction, and the pool
    statistics ([crates/pc-health/src/lib.rs]).

    The checks are clients of [pc-redis] and [pc-amqp]; the clock and tokio's timer are effects of
    the world, and Sentry's state is [pc-sentry]'s. *)
From S2P Require Export Redis Amqp.
Local Open Scope string_scope.
Local Open Scope Z_scope.
Local Open Scope rust_scope.

Definition HEALTHY : string := "healthy".
Definition DEGRADED : string := "degraded".
Definition UNHEALTHY : string := "unhealthy".
Definition REDIS_DEGRADED_AFTER : Z := from_millis 1000.

Record HealthStatus : Type := mkHealthStatus {
  component : string;
  status : string;
  message : string;
  latency_ms : option Z;
}.

Record HealthCheck : Type := mkHealthCheck {
  hc_app_name : string;
  hc_app_env : string;
  timestamp : string;
  overall_status : string;
  checks : list HealthStatus;
}.

Definition healthy (component : string) : HealthStatus := mkHealthStatus component HEALTHY "" None.

Definition unhealthy (component message : string) : HealthStatus :=
  mkHealthStatus component UNHEALTHY message None.

(** [worst_status]; the loop carries [worst] and returns at the first [UNHEALTHY]. *)
Fixpoint worst_from (worst : string) (statuses : list string) : string :=
  match statuses with
  | [] => worst
  | s :: rest =>
      if String.eqb s UNHEALTHY then UNHEALTHY
      else if String.eqb s DEGRADED then worst_from DEGRADED rest
      else worst_from worst rest
  end.

Definition worst_status (statuses : list string) : string := worst_from HEALTHY statuses.

Section Checks.
Context {W : Type} (env : Env).
Context (now : io W Z) (timeout : forall A, Z -> io W A -> io W (option A)).
(** The pooled client, when the process has one. *)
Context (redis : option (Z -> Cmd -> io W Outcome)).

Definition check_redis : io W HealthStatus :=
  match redis with
  | None => io_ret (unhealthy "redis" "redis client not initialized")
  | Some exec =>
      let! start := now in
      let! result := timeout _ (from_secs 2) (ping env exec) in
      let! stop := now in
      let elapsed := elapsed stop start in
      let latency := default U64_MAX (try_from 0 U64_MAX (as_millis elapsed)) in
      io_ret
        match result with
        | Some (Ok _) =>
            if REDIS_DEGRADED_AFTER <? elapsed
            then mkHealthStatus "redis" DEGRADED "high latency detected" (Some latency)
            else mkHealthStatus "redis" HEALTHY "" (Some latency)
        | Some (Err err) =>
            mkHealthStatus "redis" UNHEALTHY (RedisError_to_string err) (Some latency)
        | None => mkHealthStatus "redis" UNHEALTHY "redis health check timed out" (Some latency)
        end
  end.

(** [check_rabbitmq], from the readiness of the client. *)
Definition check_rabbitmq (ready : option bool) : HealthStatus :=
  match ready with
  | None => unhealthy "rabbitmq" "rabbitmq client not initialized"
  | Some true => healthy "rabbitmq"
  | Some false => mkHealthStatus "rabbitmq" DEGRADED "connection not ready" None
  end.

Definition check_sentry (sentry_enabled : bool) : HealthStatus :=
  if sentry_enabled then healthy "sentry"
  else unhealthy "sentry" "sentry client not initialized".

(** [check_health]; readiness of RabbitMQ and Sentry is read in the world left by the probe. *)
Definition check_health (rabbitmq : W -> option bool) (sentry : W -> bool)
  (timestamp_now : io W string) (id : Identity) : io W HealthCheck :=
  let! redis_check := check_redis in
  let! checks := (fun w => ([redis_check; check_rabbitmq (rabbitmq w); check_sentry (sentry w)], w)) in
  let overall := worst_status (map status checks) in
  let! ts := timestamp_now in
  io_ret (mkHealthCheck (app_name id) (app_env_raw id) ts overall checks).
End Checks.

(** ** Pool statistics *)

Record RedisPoolStats : Type := mkStats {
  total_conns : Z;
  idle_conns : Z;
  stale_conns : Z;
  hits : Z;
  misses : Z;
  timeouts : Z;
}.

Definition redis_pool_stats (redis : option RedisPoolStatus) : option RedisPoolStats :=
  match redis with
  | None => None
  | Some st => Some (mkStats (Redis.total st) (Redis.idle st) 0 0 0 0)
  end.

Record RedisMetricsDetailed : Type := mkMetrics {
  pool_stats : RedisPoolStats;
  hit_rate_percent : spec_float;
  active_conns : Z;
  pool_utilized_percent : spec_float;
}.

(** The quotient as a percentage, in IEEE binary64. *)
Definition ratio (numerator denominator : Z) : spec_float :=
  SFmul 53 1024 (SFdiv 53 1024 (f64_of_Z numerator) (f64_of_Z denominator)) (f64_of_Z 100).

Definition redis_metrics_detailed (redis : option RedisPoolStatus) : option RedisMetricsDetailed :=
  match redis_pool_stats redis with
  | None => None
  | Some st =>
      let active := saturating_sub (total_conns st) (idle_conns st) in
      let requests := u64_add (hits st) (misses st) in
      let hit_rate := if requests =? 0 then S754_zero false else ratio (hits st) requests in
      let utilized := if total_conns st =? 0 then S754_zero false
                      else ratio active (total_conns st) in
      Some (mkMetrics st hit_rate active utilized)
  end.

Example ratio_half : ratio 1 2 = f64_of_Z 50.
Proof. reflexivity. Qed.

(** ** Theorems *)

(** The reduction is the worst of its inputs, whatever their number and order: unhealthy when
    one is, otherwise degraded when one is, otherwise healthy. *)
Theorem worst_status_spec statuses :
  worst_status statuses =
    if one_of statuses UNHEALTHY then UNHEALTHY
    else if one_of statuses DEGRADED then DEGRADED else HEALTHY.
Proof.
  unfold worst_status, one_of.
  assert (forall worst, worst_from worst statuses =
    if existsb (String.eqb UNHEALTHY) statuses then UNHEALTHY
    else if existsb (String.eqb DEGRADED) statuses then DEGRADED else worst) as Hgen;
    [|apply Hgen].
  induction statuses as [|s rest IH]; intros worst; [done|]. cbn [worst_from existsb].
  rewrite (String.eqb_sym UNHEALTHY), (String.eqb_sym DEGRADED).
  destruct (String.eqb_spec s UNHEALTHY) as [->|]; [done|].
  destruct (String.eqb_spec s DEGRADED) as [->|]; cbn [orb]; rewrite IH; [|done].
  destruct (existsb (String.eqb UNHEALTHY) rest); [done|].
  by destruct (existsb (String.eqb DEGRADED) rest).
Qed.

(** The service is reported healthy exactly when all three dependencies are: Redis answered the
    probe within a second, the broker is ready, and Sentry is on. *)
Theorem check_health_healthy {W} env now timeout redis rabbitmq sentry ts id (w : W) :
  let '(h, _) := check_health env now timeout redis rabbitmq sentry ts id w in
  let '(r, w1) := check_redis env now timeout redis w in
  (overall_status h = HEALTHY <->
   status r = HEALTHY /\ rabbitmq w1 = Some true /\ sentry w1 = true) /\
  (status r = HEALTHY -> exists exec t0 w0 t1 w2,
     redis = Some exec /\ now w = (t0, w0) /\
     timeout _ (from_secs 2) (ping env exec) w0 = (Some (Ok tt), w2) /\
     (now w2).1 = t1 /\ elapsed t1 t0 <= from_secs 1).
Proof.
  unfold check_health, io_bind, io_ret.
  destruct (check_redis env now timeout redis w) as [r w1] eqn:Hr.
  destruct (ts w1) as [stamp w2]. cbn [overall_status]. split.
  - assert (In (status r) [HEALTHY; DEGRADED; UNHEALTHY]) as Hin.
    { revert Hr. unfold check_redis, io_bind, io_ret. destruct redis as [exec|]; [|intros [= <- _]; simpl; tauto].
      destruct (now w) as [t0 w0]. destruct (timeout _ _ _ w0) as [o w3]. destruct (now w3) as [t1 w4].
      intros [= <- _]. destruct o as [[[]|]|]; [destruct (_ <? _)|..]; simpl; tauto. }
    unfold worst_status. simpl. destruct (rabbitmq w1) as [[]|], (sentry w1);
      destruct Hin as [<-|[<-|[<-|[]]]]; vm_compute; split; (by intros (? & ? & ?)) || tauto || done.
  - revert Hr. unfold check_redis, io_bind, io_ret. destruct redis as [exec|]; [|by intros [= <- _]].
    destruct (now w) as [t0 w0] eqn:E0. destruct (timeout _ _ _ w0) as [o w3] eqn:Et.
    destruct (now w3) as [t1 w4] eqn:E1. intros [= <- _].
    destruct o as [[[]|]|]; simpl; [|done|done].
    destruct (Z.ltb_spec REDIS_DEGRADED_AFTER (elapsed t1 t0)); [done|]. intros _.
    exists exec, t0, w0, t1, w3. rewrite E1. split_and!; try done.
Qed.
