(* ===== verification/Db.v ===== *)
(** [pc-db]: pool configuration from the environment, its validation, the lifetime jitter and the
    pool builders ([crates/pc-db/src/lib.rs]).

    sqlx's [PoolOptions] is an interface with the laws of its builder methods, its connections and
    the random draw are effects of the world; the float arithmetic of the jitter is the Standard
    Library's IEEE binary64. A panic is [None]. *)
From S2P Require Export Core.
Local Open Scope string_scope.
Local Open Scope Z_scope.
Local Open Scope rust_scope.

(** [E] is [sqlx::Error]. *)
Inductive DbError (E : Type) : Type :=
| UnboundedMaxOpen (n : Z)
| NegativeMaxIdle (n : Z)
| MaxOpenOverflow (n : Z)
| MissingDsn
| Sqlx (e : E).
Arguments UnboundedMaxOpen {E} n.
Arguments NegativeMaxIdle {E} n.
Arguments MaxOpenOverflow {E} n.
Arguments MissingDsn {E}.
Arguments Sqlx {E} e.

Definition DbError_to_string {E : Type} (show : E -> string) (e : DbError E) : string :=
  match e with
  | UnboundedMaxOpen n =>
      "phdb: MaxOpenConns must be > 0 (0 means unlimited); got " +:+ show_Z n
  | NegativeMaxIdle n => "phdb: MaxIdleConns must be >= 0; got " +:+ show_Z n
  | MaxOpenOverflow n =>
      "phdb: MaxOpenConns " +:+ show_Z n +:+ " exceeds the u32 range accepted by sqlx"
  | MissingDsn => "phdb: connection string (DSN) is not set"
  | Sqlx e => show e
  end.

Record PoolConfig : Type := mkPool {
  max_open_conns : Z;
  max_idle_conns : Z;
  conn_max_lifetime : Z;
  conn_max_idle_time : Z;
  dsn : option string;
}.

Definition default_pool_config : PoolConfig :=
  mkPool 15 15 (from_secs (30 * 60)) (from_secs (5 * 60)) None.

(** ** From the environment *)

Definition duration_minutes (d : Z) : Z := default I64_MAX (try_from I64_MIN I64_MAX (as_secs d / 60)).

Definition minutes (n : Z) : Z :=
  from_secs (saturating_mul 0 U64_MAX (default 0 (try_from 0 U64_MAX (Z.max n 0))) 60).

Definition env_int_positive (env : Env) (key : string) (default : Z) : Z :=
  match env key with
  | Some v => match parse_i64 v with
              | Some n => if 0 <? n then n else default
              | None => default
              end
  | None => default
  end.

Definition from_env (env : Env) (prefix : string) : PoolConfig :=
  let d := default_pool_config in
  let lifetime_min := env_int_positive env (prefix +:+ "_CONN_MAX_LIFETIME")
                        (duration_minutes (conn_max_lifetime d)) in
  let idle_min := env_int_positive env (prefix +:+ "_CONN_MAX_IDLE_TIME")
                    (duration_minutes (conn_max_idle_time d)) in
  mkPool
    (env_int_positive env (prefix +:+ "_MAX_OPEN_CONN") (max_open_conns d))
    (env_int_positive env (prefix +:+ "_MAX_IDLE_CONN") (max_idle_conns d))
    (minutes lifetime_min)
    (minutes idle_min)
    (match env (prefix +:+ "_DSN") with
     | Some s => if negb (is_empty s) then Some s else None
     | None => None
     end).

Definition validate {E : Type} (cfg : PoolConfig) : result unit (DbError E) :=
  if max_open_conns cfg <=? 0 then Err (UnboundedMaxOpen (max_open_conns cfg))
  else if max_idle_conns cfg <? 0 then Err (NegativeMaxIdle (max_idle_conns cfg))
  else Ok tt.

Definition effective_max_idle_conns (cfg : PoolConfig) : Z :=
  Z.min (max_idle_conns cfg) (max_open_conns cfg).

(** ** Jitter *)

Definition apply_lifetime_jitter (base : Z) (rand_fraction : spec_float) : option Z :=
  if base =? 0 then Some base
  else
    let frac := clamp01 rand_fraction in
    match mul_f64 base (SFmul 53 1024 (float_of_decimal 53 1024 false 1 (-1)) frac) with
    | Some d => try_from 0 DUR_MAX (base + d)
    | None => None
    end.

(** ** Pools *)

(** [sqlx::pool::PoolOptions]. *)
Class PoolOptions (P : Type) : Type := {
  options_new : P;
  set_max_connections : Z -> P -> P;
  set_max_lifetime : option Z -> P -> P;
  set_idle_timeout : option Z -> P -> P;
  get_max_connections : P -> Z;
  get_max_lifetime : P -> option Z;
  get_idle_timeout : P -> option Z;
}.

(** Each builder method sets its own knob and no other. *)
Class PoolOptionsLaws {P : Type} (O : PoolOptions P) : Prop := {
  max_connections_set n p : get_max_connections (set_max_connections n p) = n;
  max_connections_lifetime l p :
    get_max_connections (set_max_lifetime l p) = get_max_connections p;
  max_connections_idle l p : get_max_connections (set_idle_timeout l p) = get_max_connections p;
  max_lifetime_set l p : get_max_lifetime (set_max_lifetime l p) = l;
  max_lifetime_idle l p : get_max_lifetime (set_idle_timeout l p) = get_max_lifetime p;
  idle_timeout_set l p : get_idle_timeout (set_idle_timeout l p) = l;
}.

Section Pools.
Context {W P C E : Type} {O : PoolOptions P}.
(** [rand::random::<f64>()] and the engine's [connect]. *)
Context (random : io W spec_float) (connect : P -> string -> io W (result C E)).

Definition some_if_nonzero (d : Z) : option Z := if d =? 0 then None else Some d.

Definition pool_options (cfg : PoolConfig) (effective_lifetime : Z) : result P (DbError E) :=
  let? _ := validate cfg in
  let? max_open := ok_or (try_from 0 U32_MAX (max_open_conns cfg))
                     (MaxOpenOverflow (max_open_conns cfg)) in
  Ok (set_idle_timeout (some_if_nonzero (conn_max_idle_time cfg))
       (set_max_lifetime (some_if_nonzero effective_lifetime)
          (set_max_connections max_open options_new))).

Definition lifetime_with_jitter (base : Z) : io W (option Z) :=
  let! fraction := random in io_ret (apply_lifetime_jitter base fraction).

(** [pg_pool_options] and [mysql_pool_options]: the same code at two engines. *)
Definition engine_pool_options (cfg : PoolConfig) : io W (option (result P (DbError E))) :=
  let! lifetime := lifetime_with_jitter (conn_max_lifetime cfg) in
  io_ret (option_map (pool_options cfg) lifetime).

(** [connect_pg] and [connect_mysql]. *)
Definition connect_engine (cfg : PoolConfig) : io W (option (result C (DbError E))) :=
  match dsn cfg with
  | None => io_ret (Some (Err MissingDsn))
  | Some dsn =>
      let! options := engine_pool_options cfg in
      match options with
      | None => io_ret None
      | Some (Err e) => io_ret (Some (Err e))
      | Some (Ok options) =>
          let! r := connect options dsn in io_ret (Some (res_map_err Sqlx r))
      end
  end.
End Pools.

(** ** Lemmas *)

Lemma env_int_positive_pos env key d : 0 < d <= I64_MAX -> 0 < env_int_positive env key d <= I64_MAX.
Proof.
  intros Hd. unfold env_int_positive. destruct (env key) as [v|]; [|done].
  destruct (parse_i64 v) as [n|] eqn:Hn; [|done].
  apply parse_signed_bounds in Hn. destruct (Z.ltb_spec 0 n); lia.
Qed.

Lemma validate_ok {E} cfg :
  0 < max_open_conns cfg -> 0 <= max_idle_conns cfg -> validate (E := E) cfg = Ok tt.
Proof.
  intros. unfold validate. destruct (Z.leb_spec (max_open_conns cfg) 0); [lia|].
  destruct (Z.ltb_spec (max_idle_conns cfg) 0); [lia|done].
Qed.

Lemma minutes_bounds n : 0 <= minutes n <= DUR_MAX.
Proof.
  unfold minutes, from_secs, saturating_mul, DUR_MAX, NANOS.
  set (m := default 0 _ * 60). unfold U64_MAX. lia.
Qed.

Lemma mul_f64_nonneg d x n : mul_f64 d x = Some n -> 0 <= n.
Proof.
  unfold mul_f64, try_from_secs_f64. destruct (SFmul _ _ _ _) as [| | |[] m e]; try done.
  - by intros [= <-].
  - intros H%try_from_Some. lia.
Qed.

(** A configured lifetime too long for the jitter: building the pool panics. *)
Example jitter_panics : apply_lifetime_jitter (minutes I64_MAX) (f64_of_Z 1) = None.
Proof. reflexivity. Qed.

Example jitter_full : apply_lifetime_jitter (minutes 30) (f64_of_Z 1) = Some (minutes 33).
Proof. reflexivity. Qed.

(** ** Theorems *)

(** A pool is never unbounded: the options built allow exactly the configured number of
    connections, which is between one and the largest [u32], a zero duration leaves its knob
    unset, and every refusal is one of the three documented ones, in that order. *)
Theorem pool_never_unbounded {P E} (O : PoolOptions P) (laws : PoolOptionsLaws O) cfg lifetime :
  match pool_options (E := E) cfg lifetime with
  | Ok opts =>
      get_max_connections opts = max_open_conns cfg /\ 1 <= get_max_connections opts <= U32_MAX /\
      0 <= effective_max_idle_conns cfg <= get_max_connections opts /\
      get_max_lifetime opts = some_if_nonzero lifetime /\
      get_idle_timeout opts = some_if_nonzero (conn_max_idle_time cfg)
  | Err e =>
      (max_open_conns cfg <= 0 /\ e = UnboundedMaxOpen (max_open_conns cfg)) \/
      (0 < max_open_conns cfg /\ max_idle_conns cfg < 0 /\
       e = NegativeMaxIdle (max_idle_conns cfg)) \/
      (U32_MAX < max_open_conns cfg /\ 0 <= max_idle_conns cfg /\
       e = MaxOpenOverflow (max_open_conns cfg))
  end.
Proof.
  unfold pool_options, validate, res_bind, ok_or.
  destruct (Z.leb_spec (max_open_conns cfg) 0); [by left|].
  destruct (Z.ltb_spec (max_idle_conns cfg) 0); [right; by left|].
  destruct (try_from 0 U32_MAX (max_open_conns cfg)) as [n|] eqn:Hn.
  - apply try_from_Some in Hn as [? ?]; subst n.
    rewrite max_connections_idle, max_connections_lifetime, max_connections_set,
      max_lifetime_idle, max_lifetime_set, idle_timeout_set.
    unfold effective_max_idle_conns. split_and!; try done; lia.
  - right; right. split_and!; try done. unfold try_from in Hn.
    destruct (Z.leb_spec 0 (max_open_conns cfg)), (Z.leb_spec (max_open_conns cfg) U32_MAX);
      simpl in Hn; try done; lia.
Qed.

(** Whatever the environment holds, [from_env] gives a valid configuration: positive counts, a
    default for everything missing, malformed or not positive, and durations a [Duration] can
    hold; the only way such a configuration is refused is a count beyond [u32]. *)
Theorem from_env_valid {E} env prefix :
  let cfg := from_env env prefix in
  validate (E := E) cfg = Ok tt /\ 0 < max_idle_conns cfg /\
  0 <= conn_max_lifetime cfg <= DUR_MAX /\ 0 <= conn_max_idle_time cfg <= DUR_MAX /\
  (forall v, env (prefix +:+ "_MAX_OPEN_CONN") = Some v ->
     max_open_conns cfg = match parse_i64 v with
                          | Some n => if 0 <? n then n else 15
                          | None => 15 end).
Proof.
  unfold from_env. cbn [max_open_conns max_idle_conns conn_max_lifetime conn_max_idle_time].
  pose proof (env_int_positive_pos env (prefix +:+ "_MAX_OPEN_CONN") 15 ltac:(done)).
  pose proof (env_int_positive_pos env (prefix +:+ "_MAX_IDLE_CONN") 15 ltac:(done)).
  split_and!; try apply minutes_bounds; try (simpl; lia).
  - apply validate_ok; simpl; lia.
  - intros v Hv. unfold env_int_positive. rewrite Hv. done.
Qed.

(** The jitter only lengthens a lifetime, and what it returns is a [Duration]; a zero lifetime,
    which means no expiry, stays zero. *)
Theorem jitter_lengthens base fraction d :
  0 <= base -> apply_lifetime_jitter base fraction = Some d ->
  base <= d /\ (0 < base -> d <= DUR_MAX) /\ (base = 0 -> d = 0).
Proof.
  intros Hb. unfold apply_lifetime_jitter. destruct (Z.eqb_spec base 0) as [->|]; [intros [= <-]; lia|].
  destruct (mul_f64 base _) as [x|] eqn:Hx; [|done]. apply mul_f64_nonneg in Hx.
  intros [? ?]%try_from_Some. lia.
Qed.

(** ** Witnesses *)

#[local] Instance triple_options : PoolOptions (Z * option Z * option Z) := {
  options_new := (10, Some (from_secs 1800), Some (from_secs 600));
  set_max_connections n p := (n, p.1.2, p.2);
  set_max_lifetime l p := (p.1.1, l, p.2);
  set_idle_timeout l p := (p.1, l);
  get_max_connections p := p.1.1;
  get_max_lifetime p := p.1.2;
  get_idle_timeout p := p.2;
}.

#[local] Instance triple_options_laws : PoolOptionsLaws triple_options.
Proof. by constructor. Qed.

Lemma pool_never_unbounded_witness :
  exists opts, pool_options (E := unit) default_pool_config (minutes 30) = Ok opts /\
               get_max_connections opts = 15.
Proof.
  pose proof (pool_never_unbounded (E := unit) triple_options triple_options_laws
                default_pool_config (minutes 30)) as H.
  destruct (pool_options default_pool_config (minutes 30)) as [opts|e] eqn:E; [|by vm_compute in E].
  exists opts. split; [done|]. by destruct H as [-> _].
Defined.

Lemma jitter_lengthens_witness : minutes 30 <= minutes 33.
Proof. by apply (jitter_lengthens (minutes 30) (f64_of_Z 1) (minutes 33)); vm_compute. Defined.
