(* ===== verification/Sentry.v ===== *)
(** [pc-sentry]: start-up of the error reporter, its global breadcrumb context, and the hook that
    turns forwarded log lines into Sentry events ([crates/pc-sentry/src/lib.rs]).

    The Sentry SDK is an interface: binding a client, scopes, breadcrumbs, captures and flushes
    are effects of the world, and [HubLaws] states that they record what they were given, in
    order, and which environment a client started from its options has. The log lines come from
    [pc-log]'s forwarding. *)
From S2P Require Export Log.
Local Open Scope string_scope.
Local Open Scope Z_scope.
Local Open Scope rust_scope.

Definition DEFAULT_FUNC : string := "paycloud-be-func".
Definition DEFAULT_EXCEPTION_TYPE : string := "Log".
Definition BREADCRUMB_DEPTH : nat := 5.
Definition BREADCRUMB_DEPTH_RECEIVE_LOG : nat := 10.
Definition DEFAULT_TRACES_SAMPLE_RATE : spec_float := binary_normalize 24 128 1 0 false.

Record SentryData : Type := mkSentryData {
  service : string;
  module : string;
  function : string;
}.

(** [to_map]. *)
Definition to_map (d : SentryData) : gmap string string :=
  <["function" := function d]> (<["module" := module d]> (<["service" := service d]> ∅)).

Record SentryOptions : Type := mkOptions {
  dsn : string;
  environment : string;
  release : string;
  traces_sample_rate : spec_float;
  debug : bool;
  data : option SentryData;
}.

Definition options_default : SentryOptions :=
  mkOptions "" "" "" DEFAULT_TRACES_SAMPLE_RATE false None.

Definition or_default (o : option string) : string := default "" o.

Definition from_env (env : Env) (id : Identity) : SentryOptions :=
  let environment :=
    match env "SENTRY_ENVIRONMENT" with
    | Some v => if negb (is_empty v) then v else app_env_raw id
    | None => app_env_raw id
    end in
  let traces_sample_rate :=
    match env "SENTRY_TRACES_SAMPLE_RATE" with
    | Some v => default DEFAULT_TRACES_SAMPLE_RATE (parse_f32 (trim v))
    | None => DEFAULT_TRACES_SAMPLE_RATE
    end in
  let debug := one_of ["1"; "true"; "yes"; "on"]
                 (to_ascii_lowercase (trim (or_default (env "SENTRY_DEBUG")))) in
  mkOptions (or_default (env "SENTRY_DSN")) environment (or_default (env "SENTRY_RELEASE"))
    traces_sample_rate debug None.

(** ** Titles, prefixes and levels *)

Definition issue_title (func env : string) : string := "[" +:+ func +:+ "] [env=" +:+ env +:+ "]".
Definition exception_value (level msg : string) : string := "[" +:+ level +:+ "] " +:+ msg.

Definition extract_log_prefix (message : string) : string * string :=
  let msg := trim message in
  let otherwise := (DEFAULT_EXCEPTION_TYPE, msg) in
  match strip_prefix "[" msg with
  | None => otherwise
  | Some rest =>
      match split_once_char "]" rest with
      | Some (ex_type, ex_value) =>
          if negb (is_empty ex_type) then (ex_type, trim ex_value) else otherwise
      | None => otherwise
      end
  end.

(** The variants of [sentry::Level]. *)
Inductive SentryLevel : Type := LFatal | LError | LWarning | LInfo | LDebug.

Definition sentry_level_for (level : string) : SentryLevel :=
  if String.eqb level "fatal" then LFatal
  else if String.eqb level "error" then LError
  else if String.eqb level "warn" then LWarning
  else if String.eqb level "info" then LInfo
  else LDebug.

(** ** The hub *)

(** What the crate asks of the SDK: the fields it sets, the others at their defaults. *)
Record Breadcrumb : Type := mkBreadcrumb {
  ty : string;
  category : option string;
  b_message : option string;
  b_level : SentryLevel;
  b_data : gmap string string;
}.

Record Event : Type := mkEvent {
  e_level : SentryLevel;
  e_message : option string;
  exception : list (string * option string);
}.

Record ClientOptions (Dsn : Type) : Type := mkClientOptions {
  c_dsn : option Dsn;
  c_environment : option string;
  c_release : option string;
  c_traces_rate : spec_float;
  c_debug : bool;
  c_attach_stacktrace : bool;
  c_max_breadcrumbs : nat;
}.
Arguments mkClientOptions {Dsn} c_dsn c_environment c_release c_traces_rate c_debug
  c_attach_stacktrace c_max_breadcrumbs.
Arguments c_dsn {Dsn} c.
Arguments c_environment {Dsn} c.
Arguments c_release {Dsn} c.
Arguments c_traces_rate {Dsn} c.
Arguments c_debug {Dsn} c.
Arguments c_attach_stacktrace {Dsn} c.
Arguments c_max_breadcrumbs {Dsn} c.

(** [sentry_init] reads the process environment for the options left unset, and the profile the
    program was built with. *)
Class Hub (W Dsn Guard : Type) : Type := {
  parse_dsn : string -> option Dsn;
  sentry_init : Env -> ClientOptions Dsn -> io W Guard;
  debug_assertions : bool;
  hub_client : W -> option (ClientOptions Dsn);
  with_scope : option SentryLevel -> io W unit -> io W unit;
  add_breadcrumb : Breadcrumb -> io W unit;
  capture_event : Event -> io W unit;
  capture_message : string -> SentryLevel -> io W unit;
  client_flush : Z -> io W unit;
}.

(** The process globals of the crate, and of [pc-log]'s forwarding. *)
Record Globals : Type := mkGlobals {
  SENTRY_DATA : option SentryData;
  forwarding : option Z;
  identity : Identity;
}.

Section Client.
Context {W Dsn Guard : Type} {H : Hub W Dsn Guard}.
Abbreviation S := (Globals * W)%type.

Definition set_sentry_data (d : SentryData) : io S unit :=
  fun '(g, w) => (tt, (mkGlobals (Some d) (forwarding g) (identity g), w)).

Definition sentry_data (s : S) : option SentryData := SENTRY_DATA s.1.

Definition opt_cow (s : string) : option string := if is_empty s then None else Some s.

(** The defaults overlaid with what [overrides] sets. *)
Definition overlay (id : Identity) (overrides : option SentryData) : SentryData :=
  let data := mkSentryData (app_name id) (app_env_raw id) DEFAULT_FUNC in
  match overrides with
  | None => data
  | Some o =>
      mkSentryData
        (if negb (is_empty (service o)) then service o else service data)
        (if negb (is_empty (module o)) then module o else module data)
        (if negb (is_empty (function o)) then function o else function data)
  end.

Definition client_options (options : SentryOptions) : ClientOptions Dsn :=
  mkClientOptions (parse_dsn (dsn options)) (opt_cow (environment options))
    (opt_cow (release options)) (traces_sample_rate options) (debug options) false
    BREADCRUMB_DEPTH_RECEIVE_LOG.

Definition init (env : Env) (options : SentryOptions) : io S (option Guard) :=
  fun '(g, w) =>
    let g := mkGlobals (SENTRY_DATA g) (Some (forwarding_levels env)) (identity g) in
    if is_empty (dsn options) then (None, (g, w))
    else
      let '(guard, w) := sentry_init env (client_options options) w in
      let '(_, s) := set_sentry_data (overlay (identity g) (data options)) (g, w) in
      (Some guard, s).

Definition sentry_enabled (w : W) : bool := match hub_client w with Some _ => true | None => false end.

Definition flush (timeout : Z) : io W unit :=
  fun w => match hub_client w with Some _ => client_flush timeout w | None => (tt, w) end.

Definition resolve_env (id : Identity) (w : W) : string :=
  match hub_client w with
  | Some client =>
      match c_environment client with
      | Some env => if negb (is_empty env) then env else app_env_raw id
      | None => app_env_raw id
      end
  | None => app_env_raw id
  end.

(** The capture of [receive_log]. *)
Definition capture (id : Identity) (level message : string) : io W unit :=
  fun w =>
    if String.eqb level "error" || String.eqb level "fatal" then
      let '(ex_type, ex_value) := extract_log_prefix message in
      let env := resolve_env id w in
      capture_event
        (mkEvent (sentry_level_for level) (Some message)
           [(issue_title ex_type env, Some (exception_value level ex_value))]) w
    else capture_message message (sentry_level_for level) w.

Definition receive_log (level message : string) : io S unit :=
  fun '(g, w) =>
    match hub_client w with
    | None => (tt, (g, w))
    | Some _ =>
        let sentry_level := sentry_level_for level in
        let '(_, w) :=
          with_scope (Some sentry_level)
            (let! _ :=
               match SENTRY_DATA g with
               | Some d => add_breadcrumb (mkBreadcrumb "default" (Some level) (Some message)
                                             sentry_level (to_map d))
               | None => io_ret tt
               end in
             capture (identity g) level message) w in
        (tt, (g, w))
    end.

(** A line emitted by [pc-log] once [init] has installed the hook. *)
Definition log_line (level pfx message : string) : io S unit :=
  fun '(g, w) =>
    match forward (forwarding g) level pfx message with
    | Some (level, rendered) => receive_log level rendered (g, w)
    | None => (tt, (g, w))
    end.
End Client.

(** ** What the SDK records *)

Inductive HubCall : Type :=
| CBreadcrumb (b : Breadcrumb)
| CEvent (e : Event)
| CMessage (message : string) (level : SentryLevel).

(** The environment of a client whose options leave it unset. *)
Definition unset_environment (env : Env) (debug_assertions : bool) : string :=
  default (if debug_assertions then "development" else "production") (env "SENTRY_ENVIRONMENT").

(** [calls] is what the SDK was handed so far; whether a client sends it (its DSN, its transport)
    is the SDK's. A client takes its environment from its options, or from [apply_defaults]. *)
Class HubLaws {W Dsn Guard : Type} (H : Hub W Dsn Guard) (calls : W -> list HubCall) : Prop := {
  init_client env o w : exists o', hub_client (sentry_init env o w).2 = Some o' /\
    c_environment o' =
      Some (default (unset_environment env (@debug_assertions W Dsn Guard H)) (c_environment o));
  breadcrumb_calls b w : calls (add_breadcrumb b w).2 = (calls w ++ [CBreadcrumb b])%list;
  breadcrumb_client b w : hub_client (add_breadcrumb b w).2 = hub_client w;
  event_calls e w : calls (capture_event e w).2 = (calls w ++ [CEvent e])%list;
  event_client e w : hub_client (capture_event e w).2 = hub_client w;
  message_calls m l w : calls (capture_message m l w).2 = (calls w ++ [CMessage m l])%list;
  message_client m l w : hub_client (capture_message m l w).2 = hub_client w;
  scope_calls l m w : exists w',
    calls w' = calls w /\ hub_client w' = hub_client w /\
    calls (with_scope l m w).2 = calls (m w').2 /\
    hub_client (with_scope l m w).2 = hub_client (m w').2;
}.

(** ** Lemmas *)

Lemma strip_bracket r : strip_prefix "[" (String "[" r) = Some r.
Proof. by destruct r. Qed.

Lemma extract_bracketed p body :
  is_empty p = false -> contains_char "]" p = false ->
  trim_end (" " +:+ body) = " " +:+ body ->
  extract_log_prefix ("[" +:+ p +:+ "] " +:+ body) = (p, trim body).
Proof.
  intros Hp Hfree Hend. unfold extract_log_prefix.
  change ("[" +:+ p +:+ "] " +:+ body) with ("" +:+ String "[" (p +:+ String "]" (" " +:+ body))).
  rewrite trim_stop, trim_end_stop_s, Hend by done.
  change (trim_start "" +:+ String "[" (p +:+ String "]" (" " +:+ body)))
    with (String "[" (p +:+ String "]" (" " +:+ body))).
  rewrite strip_bracket, split_once_char_app by done. rewrite Hp. done.
Qed.

Section Recorded.
Context {W Dsn Guard : Type} {H : Hub W Dsn Guard} {calls : W -> list HubCall}.
Context {laws : HubLaws H calls}.

Definition breadcrumb_of (g : Globals) (level message : string) : list HubCall :=
  match SENTRY_DATA g with
  | Some d => [CBreadcrumb (mkBreadcrumb "default" (Some level) (Some message)
                              (sentry_level_for level) (to_map d))]
  | None => []
  end.

Definition capture_of (g : Globals) (w : W) (level message : string) : HubCall :=
  if String.eqb level "error" || String.eqb level "fatal" then
    CEvent (mkEvent (sentry_level_for level) (Some message)
      [(issue_title (extract_log_prefix message).1 (resolve_env (identity g) w),
        Some (exception_value level (extract_log_prefix message).2))])
  else CMessage message (sentry_level_for level).

Lemma capture_calls g level message w :
  calls (capture (identity g) level message w).2 =
    (calls w ++ [capture_of g w level message])%list /\
  hub_client (capture (identity g) level message w).2 = hub_client w.
Proof using laws.
  unfold capture, capture_of. destruct (_ || _).
  - destruct (extract_log_prefix message) as [t v]. split; [apply event_calls|apply event_client].
  - split; [apply message_calls|apply message_client].
Qed.

Lemma resolve_env_client id w w' :
  hub_client w' = hub_client w -> resolve_env id w' = resolve_env id w.
Proof. unfold resolve_env. by intros ->. Qed.

(** One record is at most one breadcrumb, then exactly one capture. *)
Lemma receive_log_calls g w level message :
  let '(_, (g', w')) := receive_log level message (g, w) in
  g' = g /\ hub_client w' = hub_client w /\
  calls w' = (calls w ++ (if sentry_enabled w
                          then breadcrumb_of g level message ++ [capture_of g w level message]
                          else []))%list.
Proof using laws.
  unfold receive_log, sentry_enabled.
  destruct (hub_client w) as [c|] eqn:Hc; [|by rewrite app_nil_r].
  match goal with |- context [with_scope ?l ?m w] => destruct (scope_calls l m w) as (w0 & Hw0 & Hcl & Hs & Hsc) end.
  destruct (with_scope _ _ w) as [u w1]; simpl in *. split; [done|].
  rewrite Hs, Hsc. clear Hs Hsc u w1.
  assert (forall w2, hub_client w2 = hub_client w ->
            capture_of g w2 level message = capture_of g w level message) as Hsame.
  { intros w2 Hw2. unfold capture_of. by rewrite (resolve_env_client _ _ _ Hw2). }
  unfold io_bind, breadcrumb_of. destruct (SENTRY_DATA g) as [d|].
  - pose proof (breadcrumb_calls (mkBreadcrumb "default" (Some level) (Some message)
      (sentry_level_for level) (to_map d)) w0) as Hb.
    pose proof (breadcrumb_client (mkBreadcrumb "default" (Some level) (Some message)
      (sentry_level_for level) (to_map d)) w0) as Hbc.
    destruct (add_breadcrumb _ w0) as [u w2]; simpl in *.
    destruct (capture_calls g level message w2) as [-> ->].
    rewrite Hb, Hw0, Hsame, <- app_assoc by congruence. split; [congruence|done].
  - simpl. destruct (capture_calls g level message w0) as [-> ->].
    rewrite Hw0, Hsame by done. split; [congruence|done].
Qed.
End Recorded.

(** ** Theorems *)

(** C37: An error logged after start-up is handed to Sentry as one issue: titled by the line's
    bracketed prefix and the configured environment, valued by the level and the rest of the line,
    with one breadcrumb carrying the process context before it. When no environment is configured
    the title has the client's own ([SENTRY_ENVIRONMENT], else the build profile's), and the
    [APP_ENV] fallback applies only to a [SENTRY_ENVIRONMENT] that is set and empty. *)
Theorem error_line_issue {W Dsn Guard} (H : Hub W Dsn Guard) (calls : W -> list HubCall)
    (laws : HubLaws H calls) env options g w p body guard s :
  init env options (g, w) = (guard, s) ->
  is_empty (dsn options) = false ->
  Z.land (forwarding_levels env) FORWARD_ERROR <> 0 ->
  is_empty p = false -> contains_char "]" p = false ->
  trim_end (" " +:+ body) = " " +:+ body -> is_empty body = false ->
  let line := "[" +:+ p +:+ "] " +:+ body in
  let e :=
    if negb (is_empty (environment options)) then environment options
    else match env "SENTRY_ENVIRONMENT" with
         | Some "" => app_env_raw (identity g)
         | Some v => v
         | None => if @debug_assertions W Dsn Guard H then "development" else "production"
         end in
  calls (log_line "error" ("[" +:+ p +:+ "]") body s).2.2 =
    (calls s.2 ++
     [CBreadcrumb (mkBreadcrumb "default" (Some "error") (Some line) LError
                     (to_map (overlay (identity g) (data options))));
      CEvent (mkEvent LError (Some line)
                [("[" +:+ p +:+ "] [env=" +:+ e +:+ "]", Some ("[error] " +:+ trim body))])])%list.
Proof.
  intros Hinit Hdsn Hlevel Hp Hfree Hend Hbody line e.
  unfold init in Hinit. rewrite Hdsn in Hinit.
  destruct (init_client env (client_options options) w) as (o & Hcl & Henv).
  destruct (sentry_init env (client_options options) w) as [gd w1]. simpl in Hinit, Hcl.
  injection Hinit as <- <-. unfold log_line. cbn [forwarding].
  assert (forward (Some (forwarding_levels env)) "error" ("[" +:+ p +:+ "]") body =
          Some ("error", line)) as ->.
  { unfold forward. change (level_flag "error") with FORWARD_ERROR.
    rewrite (proj2 (Z.eqb_neq _ _) Hlevel), Hbody. cbn [negb is_empty].
    unfold line. by rewrite <- !app_assoc_s. }
  set (g1 := mkGlobals _ _ _).
  pose proof (receive_log_calls (laws := laws) g1 w1 "error" line) as Hr.
  destruct (receive_log "error" line (g1, w1)) as [u [g2 w2]]. destruct Hr as (_ & _ & Hr). simpl.
  rewrite Hr. unfold sentry_enabled. rewrite Hcl. cbn [breadcrumb_of g1 SENTRY_DATA app].
  unfold capture_of. cbn [String.eqb Ascii.eqb Bool.eqb orb]. unfold line.
  rewrite extract_bracketed by done. cbn [fst snd]. unfold resolve_env. rewrite Hcl, Henv.
  unfold issue_title, exception_value, e, client_options, opt_cow, unset_environment. simpl.
  destruct (is_empty (environment options)) eqn:He; simpl; rewrite ?He; [|done].
  destruct (env "SENTRY_ENVIRONMENT") as [[|c v]|]; simpl; [done..|].
  by destruct debug_assertions.
Qed.

(** Without a client a record goes nowhere; with one it is captured exactly once, as an event when
    it is an error or fatal and as a message otherwise, preceded by a breadcrumb exactly when the
    process context is set; the globals never change. *)
Theorem receive_log_once {W Dsn Guard} (H : Hub W Dsn Guard) (calls : W -> list HubCall)
    (laws : HubLaws H calls) g w level message :
  let '(_, (g', w')) := receive_log level message (g, w) in
  g' = g /\
  (hub_client w = None -> calls w' = calls w) /\
  (hub_client w <> None -> exists pre c,
     calls w' = (calls w ++ pre ++ [c])%list /\
     (pre = [] <-> SENTRY_DATA g = None) /\ (length pre <= 1)%nat /\
     match c with
     | CEvent e => In level ["error"; "fatal"] /\ e_message e = Some message
     | CMessage m _ => ~ In level ["error"; "fatal"] /\ m = message
     | CBreadcrumb _ => False
     end).
Proof.
  pose proof (receive_log_calls (laws := laws) g w level message) as Hr.
  destruct (receive_log level message (g, w)) as [u [g' w']]. destruct Hr as (-> & _ & Hr).
  split; [done|]. unfold sentry_enabled in Hr. split.
  - intros Hn. rewrite Hr, Hn. apply app_nil_r.
  - intros Hn. destruct (hub_client w) as [c|]; [|done].
    exists (breadcrumb_of g level message), (capture_of g w level message). split; [done|].
    unfold breadcrumb_of, capture_of. destruct (SENTRY_DATA g); simpl;
      (split; [split; by intros|split; [lia|]]);
      destruct (String.eqb_spec level "error"), (String.eqb_spec level "fatal"); simpl;
      (split; [|done]); naive_solver.
Qed.

(** ** Witnesses: a hub that keeps its client and what it recorded *)

Abbreviation ToyHub := (option (ClientOptions string) * list HubCall)%type.

Definition toy_apply_defaults (env : Env) (o : ClientOptions string) : ClientOptions string :=
  mkClientOptions (c_dsn o) (Some (default (unset_environment env false) (c_environment o)))
    (c_release o) (c_traces_rate o) (c_debug o) (c_attach_stacktrace o) (c_max_breadcrumbs o).

#[local] Instance toy_hub : Hub ToyHub string unit := {|
  parse_dsn s := Some s;
  sentry_init env o := fun w => (tt, (Some (toy_apply_defaults env o), w.2));
  debug_assertions := false;
  hub_client w := w.1;
  with_scope _ m := m;
  add_breadcrumb b := fun w => (tt, (w.1, (w.2 ++ [CBreadcrumb b])%list));
  capture_event e := fun w => (tt, (w.1, (w.2 ++ [CEvent e])%list));
  capture_message m l := fun w => (tt, (w.1, (w.2 ++ [CMessage m l])%list));
  client_flush _ := fun w => (tt, w);
|}.

#[local] Instance toy_hub_laws : HubLaws toy_hub snd.
Proof.
  constructor; try done; [intros env o w; by eexists|]. intros l m w. by exists w.
Qed.

Definition toy_options (environment : string) : SentryOptions :=
  mkOptions "https://key@sentry/1" environment "" DEFAULT_TRACES_SAMPLE_RATE false None.

Definition toy_globals : Globals := mkGlobals None None (mkIdentity "svc" "develop").

Lemma error_line_issue_witness :
  exists b, (log_line "error" "[Push]" "broker down"
               (init (fun _ => None) (toy_options "staging") (toy_globals, (None, []))).2).2.2.2 =
    [CBreadcrumb b;
     CEvent (mkEvent LError (Some "[Push] broker down")
               [("[Push] [env=staging]", Some "[error] broker down")])].
Proof.
  eexists. etransitivity.
  - apply (error_line_issue toy_hub snd toy_hub_laws (fun _ => None) (toy_options "staging")
             toy_globals (None, []) "Push" "broker down" (Some tt)
             (init (fun _ => None) (toy_options "staging") (toy_globals, (None, []))).2);
      vm_compute; congruence.
  - reflexivity.
Defined.

(** [APP_ENV] is [develop], and the title does not say so. *)
Example app_env_not_in_title :
  List.map (fun c => match c with CEvent e => map fst (exception e) | _ => [] end)
    (log_line "error" "[Push]" "broker down"
       (init (fun _ => None) (toy_options "") (toy_globals, (None, []))).2).2.2.2 =
  [[]; ["[Push] [env=production]"]].
Proof. vm_compute. reflexivity. Qed.

Lemma receive_log_once_witness :
  (receive_log "info" "started" (toy_globals, (None, []))).2.2.2 = [].
Proof.
  pose proof (receive_log_once toy_hub snd toy_hub_laws toy_globals (None, []) "info" "started") as H.
  destruct (receive_log "info" "started" (toy_globals, (None, []))) as [u [g' w']].
  destruct H as [_ [H _]]. by apply H.
Defined.
