(* ===== verification/S3minio.v ===== *)
(** [pc-s3minio]: object-storage requests, the [Client] interface with its gRPC and HTTP
    implementations, and the facade over it ([crates/pc-s3minio/src/lib.rs]).

    The trait [Client] is a type class, implemented by [GrpcClient] over the service-owned
    [GrpcService] and by [HttpClient] over an HTTP transport (reqwest, an interface here). *)
From S2P Require Export Core.
Local Open Scope string_scope.
Local Open Scope Z_scope.
Local Open Scope rust_scope.

Definition CODE_OK : Z := 0.

Record DownloadRequest : Type := mkDownloadRequest {
  object : string;
  dr_path : string;
  dr_bucket : string;
  dr_expires : Z;
  dr_user_id : Z;
  dr_merchant_id : Z;
}.

Record DownloadResponse : Type := mkDownloadResponse {
  dl_code : Z;
  dl_status : string;
  dl_message : string;
  dl_data : string;
}.

Record UploadRequest : Type := mkUploadRequest {
  filename : string;
  size : Z;
  content_type : string;
  content : bytes;
  ur_bucket : string;
  ur_path : string;
  ur_expires : Z;
  ur_user_id : Z;
  ur_merchant_id : Z;
}.

Record UploadResult : Type := mkUploadResult {
  up_filename : string;
  up_url : string;
  presigned_url : string;
}.

Record UploadResponse : Type := mkUploadResponse {
  up_code : Z;
  up_status : string;
  up_message : string;
  up_data : option UploadResult;
}.

Record HealthResponse : Type := mkHealthResponse {
  h_code : Z;
  h_message : string;
  h_status : string;
}.

Record ReadyResponse : Type := mkReadyResponse {
  r_code : Z;
  r_message : string;
  r_status : string;
  dependencies : gmap string string;
}.

Record FileDownloadResponse : Type := mkFileDownloadResponse {
  f_code : Z;
  f_message : string;
  f_status : string;
  f_data : bytes;
  f_content_type : string;
  f_filename : string;
}.

Record ViewResponse : Type := mkViewResponse {
  v_code : Z;
  v_message : string;
  v_status : string;
  v_data : bytes;
  v_content_type : string;
}.

(** [H] is [reqwest::Error] and [I] [std::io::Error]. *)
Inductive S3MinioError (H I : Type) : Type :=
| Remote (operation message : string)
| Missing (what : string)
| MissingUploadData
| InvalidRequest (why : string)
| Unsupported (what : string)
| Grpc (status : string)
| Http (e : H)
| Io (e : I).
Arguments Remote {H I} operation message.
Arguments Missing {H I} what.
Arguments MissingUploadData {H I}.
Arguments InvalidRequest {H I} why.
Arguments Unsupported {H I} what.
Arguments Grpc {H I} status.
Arguments Http {H I} e.
Arguments Io {H I} e.

(** ** Requests *)

(** [.filter(|v| !v.is_empty()).unwrap_or_default()] and its numeric form. *)
Definition nonempty_or_default (o : option string) : string :=
  match o with Some v => if negb (is_empty v) then v else "" | None => "" end.
Definition positive_or_default (o : option Z) : Z :=
  match o with Some v => if 0 <? v then v else 0 | None => 0 end.

Definition build_download_request (object : string) (user_id merchant_id : Z)
  (path bucket : option string) (expires : option Z) : DownloadRequest :=
  mkDownloadRequest object (nonempty_or_default path) (nonempty_or_default bucket)
    (positive_or_default expires) user_id merchant_id.

(** [Path::file_name]: the last component, empty and [.] components skipped, unless it is [..]. *)
Definition file_name (path : string) : option string :=
  match last (List.filter (fun c => negb (is_empty c || String.eqb c ".")) (split_char "/" path)) with
  | Some name => if String.eqb name ".." then None else Some name
  | None => None
  end.

(** [Path::extension]: after the last dot of the name, unless that dot starts it. *)
Definition extension (path : string) : option string :=
  match file_name path with
  | Some name => match rsplit_once "." name with
                 | Some (stem, ext) => if is_empty stem then None else Some ext
                 | None => None
                 end
  | None => None
  end.

Definition mime_from_extension (path : string) : string :=
  let ext := to_ascii_lowercase (default "" (extension path)) in
  if String.eqb ext "json" then "application/json"
  else if String.eqb ext "pdf" then "application/pdf"
  else if String.eqb ext "png" then "image/png"
  else if one_of ["jpg"; "jpeg"] ext then "image/jpeg"
  else if String.eqb ext "csv" then "text/csv"
  else if String.eqb ext "txt" then "text/plain"
  else "application/octet-stream".

Example mime_examples :
  mime_from_extension "/tmp/report.PDF" = "application/pdf" /\
  mime_from_extension "photos/a.b.JpEg/" = "image/jpeg" /\
  mime_from_extension ".json" = "application/octet-stream" /\
  mime_from_extension "a/.." = "application/octet-stream".
Proof. done. Qed.

(** [build_upload_request_for_file]; [read] is [std::fs::read]. *)
Definition build_upload_request_for_file {W H I : Type} (read : string -> io W (result bytes I))
  (user_id merchant_id : Z) (path file_location : string) (bucket : option string)
  (expires : option Z) : io W (result UploadRequest (S3MinioError H I)) :=
  let! content := read file_location in
  match content with
  | Err e => io_ret (Err (Io e))
  | Ok content =>
      io_ret (Ok (mkUploadRequest (default "" (file_name file_location))
                    (default U64_MAX (try_from 0 U64_MAX (Z.of_nat (length content))))
                    (mime_from_extension file_location) content (nonempty_or_default bucket) path
                    (positive_or_default expires) user_id merchant_id))
  end.

(** ** The [Client] interface *)

Class Client (C W H I : Type) : Type := {
  download : C -> DownloadRequest -> io W (result DownloadResponse (S3MinioError H I));
  generate_view_url : C -> DownloadRequest -> io W (result DownloadResponse (S3MinioError H I));
  upload : C -> UploadRequest -> io W (result UploadResponse (S3MinioError H I));
  health : C -> io W (result HealthResponse (S3MinioError H I));
  ready : C -> io W (result ReadyResponse (S3MinioError H I));
  download_file : C -> DownloadRequest -> io W (result FileDownloadResponse (S3MinioError H I));
  view : C -> string -> io W (result ViewResponse (S3MinioError H I));
}.

Definition ensure_ok {H I : Type} (operation : string) (code : Z) (message : string)
  : result unit (S3MinioError H I) :=
  if code =? CODE_OK then Ok tt
  else Err (Remote operation (if is_empty message then operation +:+ " failed" else message)).

Section Facade.
Context {C W H I : Type} {Cl : Client C W H I}.

Definition lift {A : Type} (r : result A (S3MinioError H I))
  : io W (result A (S3MinioError H I)) := io_ret r.

(** The common part of the two URL operations. *)
Definition url_of (request : DownloadRequest) (operation : string) (response : DownloadResponse)
  : io W (result string (S3MinioError H I)) :=
  let!? _ := lift (ensure_ok operation (dl_code response) (dl_message response)) in
  io_ret (Ok (if is_empty (dl_data response) then object request else dl_data response)).

Definition get_presigned_url (c : C) (request : DownloadRequest)
  : io W (result string (S3MinioError H I)) :=
  let!? response := download c request in url_of request "download" response.

Definition get_view_url (c : C) (request : DownloadRequest)
  : io W (result string (S3MinioError H I)) :=
  let!? response := generate_view_url c request in url_of request "view" response.

Definition s3_upload (c : C) (request : UploadRequest)
  : io W (result UploadResult (S3MinioError H I)) :=
  let!? response := upload c request in
  let!? _ := lift (ensure_ok "upload" (up_code response) (up_message response)) in
  lift (ok_or (up_data response) MissingUploadData).

Definition s3_health (c : C) : io W (result HealthResponse (S3MinioError H I)) :=
  let!? response := health c in
  let!? _ := lift (ensure_ok "health" (h_code response) (h_message response)) in
  io_ret (Ok response).

Definition s3_ready (c : C) : io W (result ReadyResponse (S3MinioError H I)) :=
  let!? response := ready c in
  let!? _ := lift (ensure_ok "ready" (r_code response) (r_message response)) in
  io_ret (Ok response).
End Facade.

(** ** gRPC *)

(** A status is carried by its text. *)
Class GrpcService (T W : Type) : Type := {
  svc_download : T -> DownloadRequest -> io W (result DownloadResponse string);
  svc_generate_view_url : T -> DownloadRequest -> io W (result DownloadResponse string);
  svc_upload : T -> UploadRequest -> io W (result UploadResponse string);
  svc_health : T -> io W (result string string);
}.

Record GrpcClient (T : Type) : Type := mkGrpcClient { grpc_service : T }.
Arguments mkGrpcClient {T} grpc_service.
Arguments grpc_service {T} g.

Section GrpcTransport.
Context {T W H I : Type} {Svc : GrpcService T W}.

(** [?] through [From<tonic::Status>]. *)
Definition from_status {A : Type} (m : io W (result A string))
  : io W (result A (S3MinioError H I)) :=
  let! r := m in io_ret (res_map_err Grpc r).

Definition grpc_health (c : GrpcClient T) : io W (result HealthResponse (S3MinioError H I)) :=
  let!? raw := from_status (svc_health (grpc_service c)) in
  let trimmed := trim raw in
  let status := if eq_ignore_ascii_case trimmed "ok" then "ok" else trimmed in
  let code := if String.eqb status "ok" then CODE_OK else 503 in
  io_ret (Ok (mkHealthResponse code "grpc health" status)).

Definition grpc_ready (c : GrpcClient T) : io W (result ReadyResponse (S3MinioError H I)) :=
  let!? h := grpc_health c in
  let status := if is_empty (h_status h) then "unavailable" else h_status h in
  io_ret (Ok (mkReadyResponse (h_code h) "grpc readiness" status {["grpc" := status]})).

#[export] Instance grpc_client : Client (GrpcClient T) W H I := {|
  download c request := from_status (svc_download (grpc_service c) request);
  generate_view_url c request := from_status (svc_generate_view_url (grpc_service c) request);
  upload c request := from_status (svc_upload (grpc_service c) request);
  health := grpc_health;
  ready := grpc_ready;
  download_file _ _ := io_ret (Err (Unsupported "download_file is not exposed over s3minio grpc yet"));
  view _ _ := io_ret (Err (Unsupported "view stream is not exposed over s3minio grpc yet"));
|}.
End GrpcTransport.

(** ** HTTP *)

(** A multipart form, its parts in order. *)
Inductive Part : Type :=
| BytesPart (name : string) (data : bytes) (file_name mime : string)
| TextPart (name value : string).

Record Envelope (D : Type) : Type := mkEnvelope {
  en_code : Z;
  en_status : string;
  en_message : string;
  en_data : option D;
}.
Arguments mkEnvelope {D} en_code en_status en_message en_data.
Arguments en_code {D} e.
Arguments en_status {D} e.
Arguments en_message {D} e.
Arguments en_data {D} e.

(** [reqwest]: sending, reading a response, and its JSON values [J]. *)
Class HttpTransport (X W R J H : Type) : Type := {
  default_client : Z -> result X H;
  post_json : X -> string -> DownloadRequest -> io W (result R H);
  post_form : X -> string -> list Part -> io W (result R H);
  get_query : X -> string -> list (string * string) -> io W (result R H);
  mime_str : string -> result unit H;
  status_u16 : R -> Z;
  status_text : R -> string;
  is_success : R -> bool;
  header_content_type : R -> option string;
  json_value : R -> io W (result (Envelope J) H);
  json_upload : R -> io W (result (Envelope UploadResult) H);
  body_bytes : R -> io W (result bytes H);
  as_str : J -> option string;
}.

Record HttpClient (X : Type) : Type := mkHttpClient { base_url : string; http : X }.
Arguments mkHttpClient {X} base_url http.
Arguments base_url {X} h.
Arguments http {X} h.

Section HttpTransport.
Context {X W R J H I : Type} {Tr : HttpTransport X W R J H}.

Definition http_new (base_url : string) (client : option X)
  : result (HttpClient X) (S3MinioError H I) :=
  let? client := match client with
                 | Some client => Ok client
                 | None => res_map_err Http (default_client (from_secs 30))
                 end in
  Ok (mkHttpClient (trim_end_matches "/" base_url) client).

Definition url (c : HttpClient X) (path : string) : string := base_url c +:+ path.

(** [?] on a [reqwest] result. *)
Definition sent {A : Type} (m : io W (result A H)) : io W (result A (S3MinioError H I)) :=
  let! r := m in io_ret (res_map_err Http r).

Definition download_like (c : HttpClient X) (endpoint : string) (request : DownloadRequest)
  : io W (result DownloadResponse (S3MinioError H I)) :=
  let!? response := sent (post_json (http c) (url c endpoint) request) in
  let!? envelope := sent (json_value response) in
  if negb (is_success response) then
    io_ret (Err (Remote "download"
      (if is_empty (en_message envelope) then status_text response else en_message envelope)))
  else
    let data := match en_data envelope with
                | Some value => default "" (as_str value)
                | None => ""
                end in
    io_ret (Ok (mkDownloadResponse (en_code envelope) (en_status envelope) (en_message envelope)
                  data)).

(** The form of an upload. *)
Definition upload_form (request : UploadRequest) (mime : string) : list Part :=
  ([BytesPart "object" (content request) (filename request) mime; TextPart "signed" "true"]
   ++ (if negb (is_empty (ur_path request)) then [TextPart "path" (ur_path request)] else [])
   ++ (if negb (is_empty (ur_bucket request)) then [TextPart "bucket" (ur_bucket request)] else [])
   ++ (if 0 <? ur_expires request then [TextPart "expires" (show_Z (ur_expires request))] else []))%list.

Definition http_upload (c : HttpClient X) (request : UploadRequest)
  : io W (result UploadResponse (S3MinioError H I)) :=
  if is_empty (filename request) then io_ret (Err (InvalidRequest "upload filename is required"))
  else
    let mime := if is_empty (content_type request) then "application/octet-stream"
                else content_type request in
    match mime_str mime with
    | Err e => io_ret (Err (Http e))
    | Ok _ =>
        let!? response := sent (post_form (http c) (url c "/api/v2/upload")
                                  (upload_form request mime)) in
        if negb (is_success response) then io_ret (Err (Remote "upload" (status_text response)))
        else
          let!? envelope := sent (json_upload response) in
          io_ret (Ok (mkUploadResponse (en_code envelope) (en_status envelope)
                        (en_message envelope) (en_data envelope)))
    end.

Definition http_health (c : HttpClient X) : io W (result HealthResponse (S3MinioError H I)) :=
  let!? response := sent (get_query (http c) (url c "/healthz") []) in
  if negb (is_success response) then io_ret (Err (Remote "health" (status_text response)))
  else io_ret (Ok (mkHealthResponse CODE_OK "http health" "ok")).

Definition http_ready (c : HttpClient X) : io W (result ReadyResponse (S3MinioError H I)) :=
  let!? response := sent (get_query (http c) (url c "/readyz") []) in
  let status := if is_success response then "ok" else "unavailable" in
  io_ret (Ok (mkReadyResponse (status_u16 response) "http ready" status {["http" := status]})).

(** The tail of [download_file] and [view]: the raw body of a successful answer. *)
Definition raw_body {A : Type} (operation : string) (k : R -> bytes -> string -> A) (response : R)
  : io W (result A (S3MinioError H I)) :=
  let content_type := default "" (header_content_type response) in
  if negb (is_success response) then io_ret (Err (Remote operation (status_text response)))
  else
    let!? data := sent (body_bytes response) in
    io_ret (Ok (k response data content_type)).

Definition http_download_file (c : HttpClient X) (request : DownloadRequest)
  : io W (result FileDownloadResponse (S3MinioError H I)) :=
  let!? response := sent (post_json (http c) (url c "/api/v2/download_file") request) in
  raw_body "download file" (fun r data ct =>
    mkFileDownloadResponse (status_u16 r) "download file" (status_text r) data ct "") response.

Definition http_view (c : HttpClient X) (path : string)
  : io W (result ViewResponse (S3MinioError H I)) :=
  if is_empty path then io_ret (Err (InvalidRequest "view path is required"))
  else
    let!? response := sent (get_query (http c) (url c "/api/v2/view") [("path", path)]) in
    raw_body "view" (fun r data ct =>
      mkViewResponse (status_u16 r) "view" (status_text r) data ct) response.

#[export] Instance http_client : Client (HttpClient X) W H I := {|
  download c request := download_like c "/api/v2/download" request;
  generate_view_url c request := download_like c "/api/v2/generate_view_url" request;
  upload := http_upload;
  health := http_health;
  ready := http_ready;
  download_file := http_download_file;
  view := http_view;
|}.
End HttpTransport.

(** ** Theorems *)

(** Readiness over gRPC: the facade answers ready exactly when the service's health text is [ok]
    up to case and surrounding whitespace, and then reports [ok] for the service and for its one
    dependency; any other answer is refused under the name of the operation. *)
Theorem grpc_ready_iff {T W H I} (Svc : GrpcService T W) (c : GrpcClient T) (w : W) :
  let '(r, _) := s3_ready (H := H) (I := I) c w in
  match (svc_health (grpc_service c) w).1 with
  | Ok raw =>
      if eq_ignore_ascii_case (trim raw) "ok"
      then r = Ok (mkReadyResponse CODE_OK "grpc readiness" "ok" {["grpc" := "ok"]})
      else r = Err (Remote "ready" "grpc readiness")
  | Err e => r = Err (Grpc e)
  end.
Proof.
  unfold s3_ready, ready, grpc_client, grpc_ready, grpc_health, from_status, io_try, io_bind, io_ret, lift.
  destruct (svc_health (grpc_service c) w) as [[raw|e] w']; simpl; [|done].
  destruct (eq_ignore_ascii_case (trim raw) "ok") eqn:Hok; simpl; [done|].
  destruct (String.eqb_spec (trim raw) "ok") as [Heq|]; [by rewrite Heq in Hok|done].
Qed.

(** Over HTTP the facade never answers ready: [ready] carries the HTTP status in its code, and the
    facade only accepts [CODE_OK], which is no HTTP status; its own [health] does succeed. *)
Theorem http_ready_never_ok {X W R J H I} (Tr : HttpTransport X W R J H) (c : HttpClient X) (w : W) :
  (forall r, 100 <= status_u16 r) ->
  (forall resp, (s3_ready (H := H) (I := I) c w).1 <> Ok resp) /\
  (forall r w', get_query (http c) (url c "/healthz") [] w = (Ok r, w') -> is_success r = true ->
     (s3_health (H := H) (I := I) c w).1 = Ok (mkHealthResponse CODE_OK "http health" "ok")).
Proof.
  intros Hst. split.
  - intros resp. unfold s3_ready, ready, http_client, http_ready, sent, io_try, io_bind, io_ret, lift.
    destruct (get_query _ _ _ w) as [[r|e] w']; simpl; [|done].
    unfold ensure_ok, CODE_OK. simpl. specialize (Hst r).
    rewrite (proj2 (Z.eqb_neq (status_u16 r) 0)) by lia. done.
  - intros r w' Hg Hs. unfold s3_health, health, http_client, http_health, sent, io_try, io_bind,
      io_ret, lift. rewrite Hg. simpl. by rewrite Hs.
Qed.

(** A URL from the facade is the answer of a client call that reported [CODE_OK]: its data, or the
    object's own name when it has none. A reported failure is never a URL, and carries the
    service's message, or the operation's when there is none. *)
Theorem presigned_url_ok {C W H I} (Cl : Client C W H I) (c : C) request (w : W) :
  let '(r, w1) := get_presigned_url c request w in
  match download c request w with
  | (Ok resp, w') =>
      w1 = w' /\
      (dl_code resp = CODE_OK ->
       r = Ok (if is_empty (dl_data resp) then object request else dl_data resp)) /\
      (dl_code resp <> CODE_OK -> exists message, r = Err (Remote "download" message) /\
         is_empty message = false /\ (is_empty (dl_message resp) = false -> message = dl_message resp))
  | (Err e, w') => w1 = w' /\ r = Err e
  end.
Proof.
  unfold get_presigned_url, url_of, io_try, io_ret, lift.
  destruct (download c request w) as [[resp|e] w']; [|done]. unfold ensure_ok.
  destruct (Z.eqb_spec (dl_code resp) CODE_OK); [done|]. split; [done|]. split; [done|]. intros _.
  eexists. split; [reflexivity|]. by destruct (is_empty (dl_message resp)) eqn:Hm.
Qed.

(** ** Witnesses *)

#[local] Instance toy_transport : HttpTransport unit unit Z string string := {|
  default_client _ := Ok tt;
  post_json _ _ _ := io_ret (Ok 200);
  post_form _ _ _ := io_ret (Ok 200);
  get_query _ _ _ := io_ret (Ok 200);
  mime_str _ := Ok tt;
  status_u16 r := Z.max 100 r;
  status_text r := show_Z r;
  is_success r := (200 <=? r) && (r <? 300);
  header_content_type _ := None;
  json_value _ := io_ret (Ok (mkEnvelope 0 "ok" "" None));
  json_upload _ := io_ret (Ok (mkEnvelope 0 "ok" "" None));
  body_bytes _ := io_ret (Ok []);
  as_str s := Some s;
|}.

Lemma http_ready_never_ok_witness :
  (s3_health (H := string) (I := unit) (mkHttpClient "http://s3" tt) tt).1 =
    Ok (mkHealthResponse CODE_OK "http health" "ok").
Proof.
  apply (http_ready_never_ok toy_transport (mkHttpClient "http://s3" tt) tt) with (r := 200) (w' := tt);
    [intros r; simpl; lia|done|done].
Defined.
