(* ===== verification/Trace.v ===== *)
(** [pc-trace]: exporter configuration, start-up and shutdown of the telemetry pipeline, and the
    propagation of trace context in message headers
    ([crates/pc-trace/src/{config,lib,amqp}.rs]).

    OpenTelemetry's exporters, providers and propagators, and lapin's header tables, are
    interfaces; the float arithmetic of sampling ratios and durations is IEEE binary64. *)
From S2P Require Export Core.
Local Open Scope string_scope.
Local Open Scope Z_scope.
Local Open Scope rust_scope.

(** ** Parsing helpers *)

(** The frozen field keys of logs and telemetry. *)
Module fields.
Definition TRACE_ID : string := "trace_id".
Definition SPAN_ID : string := "span_id".
Definition TICKET_ID : string := "ticket_id".
Definition REFF_NO : string := "reff_no".
Definition MERCHANT_ID : string := "merchant_id".
Definition ORDER_ID : string := "order_id".
Definition TRX_ID : string := "trx_id".
Definition TRX_NO : string := "trx_no".
Definition SERVICE : string := "service".
Definition ROUTE : string := "route".
Definition VENDOR : string := "vendor".
End fields.

Definition trimmed_env (env : Env) (key : string) : string := trim (default "" (env key)).

Fixpoint first_non_empty (vals : list string) : string :=
  match vals with
  | [] => ""
  | v :: rest => let s := trim v in if negb (is_empty s) then s else first_non_empty rest
  end.

Definition truthy (v : string) : bool :=
  one_of ["1"; "t"; "true"; "y"; "yes"; "on"] (to_ascii_lowercase (trim v)).

Definition env_bool (env : Env) (key : string) (def : bool) : bool :=
  let v := trimmed_env env key in if is_empty v then def else truthy v.

(** [usize] is 64 bits wide. *)
Definition env_int (env : Env) (key : string) (def : Z) : Z :=
  let v := trimmed_env env key in if is_empty v then def else default def (parse_u64 v).

Definition env_float (env : Env) (key : string) (def : spec_float) : spec_float :=
  let v := trimmed_env env key in if is_empty v then def else default def (parse_f64 v).

Definition is_finite (x : spec_float) : bool :=
  match x with S754_zero _ | S754_finite _ _ _ => true | _ => false end.

(** The units, in the order they are tried, and their lengths in seconds. *)
Definition GO_UNITS : list (string * spec_float) :=
  [("ns", float_of_decimal 53 1024 false 1 (-9)); ("us", float_of_decimal 53 1024 false 1 (-6));
   ("ms", float_of_decimal 53 1024 false 1 (-3)); ("s", f64_of_Z 1); ("m", f64_of_Z 60);
   ("h", f64_of_Z 3600)].

Fixpoint parse_units (units : list (string * spec_float)) (s : string) : option Z :=
  match units with
  | [] => None
  | (suffix, seconds_per_unit) :: rest =>
      match strip_suffix suffix s with
      | None => parse_units rest s
      | Some num =>
          match parse_f64 (trim num) with
          | None => None
          | Some value =>
              if SFltb value (f64_of_Z 0) || negb (is_finite value) then None
              else try_from_secs_f64 (SFmul 53 1024 value seconds_per_unit)
          end
      end
  end.

Definition parse_go_duration (s : string) : option Z := parse_units GO_UNITS (trim s).

Definition env_duration (env : Env) (key : string) (def : Z) : Z :=
  let v := trimmed_env env key in if is_empty v then def else default def (parse_go_duration v).

Definition parse_resource_attrs (raw : string) : gmap string string :=
  if is_empty (trim raw) then ∅
  else
    fold_left (fun out kv =>
      match split_once_char "=" (trim kv) with
      | Some (k, v) => let k := trim k in if negb (is_empty k) then <[k := trim v]> out else out
      | None => out
      end) (split_char "," raw) ∅.

Example go_durations :
  parse_go_duration "5s" = Some (from_secs 5) /\ parse_go_duration "1500ms" = Some (from_millis 1500) /\
  parse_go_duration " 1.5h " = Some (from_secs 5400) /\ parse_go_duration "100us" = Some 100000 /\
  parse_go_duration "-1s" = None /\ parse_go_duration "1h30m" = None /\ parse_go_duration "5" = None.
Proof. vm_compute. done. Qed.

(** ** Configuration *)

Record Config : Type := mkConfig {
  enabled : bool;
  service_name : string;
  service_version : string;
  environment : string;
  endpoint : string;
  insecure : bool;
  sampling_ratio : spec_float;
  dial_timeout : Z;
  batch_timeout : Z;
  batch_max_export_size : Z;
  metric_export_interval : Z;
  resource_attributes : gmap string string;
}.

Definition from_env (env : Env) : Config :=
  let endpoint := trimmed_env env "OTEL_EXPORTER_OTLP_ENDPOINT" in
  let enabled :=
    let v := trimmed_env env "OTEL_ENABLED" in
    if negb (is_empty v) then truthy v else negb (is_empty endpoint) in
  mkConfig enabled (trimmed_env env "OTEL_SERVICE_NAME") (trimmed_env env "OTEL_SERVICE_VERSION")
    (first_non_empty [default "" (env "OTEL_DEPLOYMENT_ENV"); default "" (env "APP_ENV"); "dev"])
    endpoint
    (env_bool env "OTEL_EXPORTER_OTLP_INSECURE" true)
    (env_float env "OTEL_TRACES_SAMPLER_ARG" (f64_of_Z 1))
    (env_duration env "OTEL_DIAL_TIMEOUT" (from_secs 5))
    (env_duration env "OTEL_BATCH_TIMEOUT" (from_secs 5))
    (env_int env "OTEL_BATCH_MAX_EXPORT_SIZE" 512)
    (env_duration env "OTEL_METRIC_EXPORT_INTERVAL" (from_secs 15))
    (parse_resource_attrs (trimmed_env env "OTEL_RESOURCE_ATTRIBUTES")).

Definition if_zero (d def : Z) : Z := if d =? 0 then def else d.

Definition with_defaults (c : Config) : Config :=
  mkConfig (enabled c) (service_name c) (service_version c)
    (if is_empty (environment c) then "dev" else environment c)
    (endpoint c) (insecure c)
    (if SFeqb (sampling_ratio c) (f64_of_Z 0) then f64_of_Z 1 else sampling_ratio c)
    (if_zero (dial_timeout c) (from_secs 5))
    (if_zero (batch_timeout c) (from_secs 5))
    (if_zero (batch_max_export_size c) 512)
    (if_zero (metric_export_interval c) (from_secs 15))
    (resource_attributes c).

(** ** Start-up and shutdown *)

Inductive TraceError : Type :=
| EmptyServiceName
| EmptyEndpoint
| RatioOutOfRange (ratio : spec_float)
| ZeroDialTimeout
| BuildSpanExporter (e : string)
| BuildMetricExporter (e : string).

Definition ensure_required (c : Config) : result unit TraceError :=
  if is_empty (service_name c) then Err EmptyServiceName
  else if is_empty (endpoint c) then Err EmptyEndpoint
  else if negb (SFleb (f64_of_Z 0) (sampling_ratio c) && SFleb (sampling_ratio c) (f64_of_Z 1))
  then Err (RatioOutOfRange (sampling_ratio c))
  else if dial_timeout c =? 0 then Err ZeroDialTimeout
  else Ok tt.

(** OpenTelemetry's SDK. An exporter is given the endpoint, the timeout and whether the gRPC
    protocol is requested; a provider its exporter, the resource attributes and its own setting. *)
Class Otel (W Span Metric Tracer Meter : Type) : Type := {
  span_exporter : string -> Z -> bool -> io W (result Span string);
  metric_exporter : string -> Z -> bool -> io W (result Metric string);
  tracer_provider : Span -> list (string * string) -> spec_float -> io W Tracer;
  meter_provider : Metric -> Z -> list (string * string) -> io W Meter;
  set_globals : Tracer -> Meter -> io W unit;
  tracer_shutdown : Tracer -> io W (result unit string);
  meter_shutdown : Meter -> io W (result unit string);
}.

Definition key_le (a b : string * string) : Prop := String.leb a.1 b.1 = true.

#[export] Instance key_le_dec a b : Decision (key_le a b).
Proof. unfold key_le. apply _. Defined.

(** A [BTreeMap] is iterated in the order of its keys. *)
Definition resource_attrs (c : Config) : list (string * string) :=
  ([("service.name", service_name c); ("service.version", service_version c);
    ("deployment.environment", environment c)]
   ++ merge_sort key_le (map_to_list (resource_attributes c)))%list.

Section Pipeline.
Context {W Span Metric Tracer Meter : Type} {O : Otel W Span Metric Tracer Meter}.

(** The state is the flag [ENABLED] and the world. *)
Abbreviation S := (bool * W)%type.

Definition is_enabled (s : S) : bool := s.1.

Record TraceGuard : Type := mkGuard { tracer : option Tracer; meter : option Meter }.

Definition disabled : TraceGuard := mkGuard None None.

(** [shutdown] of one provider, if the guard still holds it: the error it reports. *)
Definition shutdown_one {P : Type} (what : string) (close : P -> io W (result unit string))
  (p : option P) : io W (list string) :=
  match p with
  | None => io_ret []
  | Some p =>
      let! r := close p in
      io_ret (match r with Ok _ => [] | Err e => [what +:+ " shutdown: " +:+ e] end)
  end.

Definition shutdown (g : TraceGuard) : S -> result unit string * TraceGuard * S :=
  fun '(_, w) =>
    let '(errs1, w) := shutdown_one "tracer" tracer_shutdown (tracer g) w in
    let '(errs2, w) := shutdown_one "meter" meter_shutdown (meter g) w in
    let errs := (errs1 ++ errs2)%list in
    (match errs with [] => Ok tt | _ :: _ => Err (String.concat "; " errs) end, disabled, (false, w)).

Definition drop (g : TraceGuard) (s : S) : S := (shutdown g s).2.

Definition build_pipeline (c : Config) : io W (result TraceGuard TraceError) :=
  let attrs := resource_attrs c in
  let! span := span_exporter (endpoint c) (dial_timeout c) (insecure c) in
  match span with
  | Err e => io_ret (Err (BuildSpanExporter e))
  | Ok span =>
      let! t := tracer_provider span attrs (sampling_ratio c) in
      let! metric := metric_exporter (endpoint c) (dial_timeout c) (insecure c) in
      match metric with
      | Err e => io_ret (Err (BuildMetricExporter e))
      | Ok metric =>
          let! m := meter_provider metric (metric_export_interval c) attrs in
          let! _ := set_globals t m in
          io_ret (Ok (mkGuard (Some t) (Some m)))
      end
  end.

Definition init (c : Config) : io S (result TraceGuard TraceError) :=
  fun '(flag, w) =>
    let c := with_defaults c in
    if negb (enabled c) then (Ok disabled, (flag, w))
    else
      match ensure_required c with
      | Err e => (Err e, (flag, w))
      | Ok _ =>
          match build_pipeline c w with
          | (Ok g, w) => (Ok g, (true, w))
          | (Err e, w) => (Err e, (flag, w))
          end
      end.

Definition init_from_env (env : Env) : io S (result TraceGuard TraceError) := init (from_env env).
End Pipeline.
Arguments TraceGuard Tracer Meter : clear implicits.

(** ** Propagation in message headers *)

(** lapin's [FieldTable] and its values: a table is read and written by key, and a long string is
    read back as the bytes it was made of. *)
Class FieldTable (F V : Type) : Type := {
  ft_insert : string -> V -> F -> F;
  ft_get : F -> string -> option V;
  ft_keys : F -> list string;
  long_string : string -> V;
  as_long_string : V -> option bytes;
  as_short_string : V -> option string;
}.

Class FieldTableLaws {F V : Type} (T : FieldTable F V) : Prop := {
  ft_get_insert k v f : ft_get (ft_insert k v f) k = Some v;
  ft_get_other k k' v f : k <> k' -> ft_get (ft_insert k v f) k' = ft_get f k';
  as_long_long s : as_long_string (long_string s) = Some (as_bytes s);
}.

Section Headers.
Context {F V Ctx : Type} {T : FieldTable F V}.
(** The composite propagator: the fields it sets for a context, and the context it reads through
    a getter and the list of keys. *)
Context (context_fields : Ctx -> list (string * string)).
Context (context_of : (string -> option string) -> list string -> Ctx).

(** [AmqpInjector::set]. *)
Definition injector_set (key value : string) (headers : F) : F :=
  if is_empty key then headers else ft_insert key (long_string value) headers.

(** [AmqpExtractor::get]. *)
Definition extractor_get (headers : F) (key : string) : option string :=
  match ft_get headers key with
  | None => None
  | Some v =>
      match as_long_string v with
      | Some b => from_utf8 b
      | None => as_short_string v
      end
  end.

(** [AmqpExtractor::keys]. *)
Definition extractor_keys (headers : F) : list string := ft_keys headers.

Definition inject_amqp (cx : Ctx) (headers : F) : F :=
  fold_left (fun h '(k, v) => injector_set k v h) (context_fields cx) headers.

Definition extract_amqp (headers : F) : Ctx := context_of (extractor_get headers) (extractor_keys headers).
End Headers.

(** ** Phase histograms *)

Definition DEFAULT_PHASE_BUCKETS : list spec_float :=
  map f64_of_Z [5; 10; 25; 50; 100; 250; 500; 1000; 2500; 5000; 10000].

(** The boundaries [PhaseHistogram::new] asks for. *)
Definition phase_boundaries (buckets : list spec_float) : list spec_float :=
  match buckets with [] => DEFAULT_PHASE_BUCKETS | _ :: _ => buckets end.

Section Histogram.
Context {W : Type} (now : io W Z).
(** [Histogram::record]. *)
Context (hist_record : spec_float -> list (string * string) -> io W unit).

Definition record (phase : string) (duration : Z) (extra : list (string * string)) : io W unit :=
  hist_record (f64_of_Z (as_millis duration)) (("phase", phase) :: extra).

(** [observe]: the clock is read now, and again when the closure it returns is called. *)
Definition observe (phase : string) (extra : list (string * string)) : io W (io W unit) :=
  let! start := now in
  io_ret (let! stop := now in record phase (elapsed stop start) extra).
End Histogram.

(** ** Lemmas *)

Definition clean (s : string) : Prop := trim_start s = s /\ trim_end s = s.

Lemma clean_trim s : clean s -> trim s = s.
Proof.
  intros [Hs He]. unfold trim. unfold trim_start in Hs. unfold trim_end in He.
  rewrite <- Hs at 2. rewrite <- (as_of_bytes (trim_start_b (as_bytes s))), Hs at 1. by rewrite He, Hs.
Qed.

(** What is refused, in the order of the checks; a zero dial timeout has been replaced by then. *)
Lemma ensure_required_spec c :
  match ensure_required c with
  | Ok _ => service_name c <> "" /\ endpoint c <> "" /\
            SFleb (f64_of_Z 0) (sampling_ratio c) = true /\
            SFleb (sampling_ratio c) (f64_of_Z 1) = true
  | Err EmptyServiceName => service_name c = ""
  | Err EmptyEndpoint => service_name c <> "" /\ endpoint c = ""
  | Err (RatioOutOfRange x) =>
      x = sampling_ratio c /\
      SFleb (f64_of_Z 0) (sampling_ratio c) && SFleb (sampling_ratio c) (f64_of_Z 1) = false
  | Err ZeroDialTimeout => dial_timeout c = 0
  | Err _ => False
  end.
Proof.
  unfold ensure_required. destruct (is_empty (service_name c)) eqn:Hn; [by apply is_empty_true|].
  apply is_empty_false in Hn.
  destruct (is_empty (endpoint c)) eqn:He; [by apply is_empty_true in He|].
  apply is_empty_false in He. destruct (_ && _) eqn:Hr; cbn [negb]; [|done].
  apply andb_true_iff in Hr as [? ?]. by destruct (Z.eqb_spec (dial_timeout c) 0).
Qed.

#[local] Instance key_le_total : Total key_le.
Proof.
  intros a b. unfold key_le, String.leb. rewrite (String.compare_antisym a.1 b.1).
  destruct (String.compare b.1 a.1); simpl; auto.
Qed.

(** The attributes: the identity first, then the configured ones by key. *)
Lemma resource_attrs_spec c : exists extra,
  resource_attrs c =
    (("service.name", service_name c) :: ("service.version", service_version c)
       :: ("deployment.environment", environment c) :: extra)%list /\
  extra ≡ₚ map_to_list (resource_attributes c) /\ Sorted key_le extra.
Proof.
  eexists. split; [reflexivity|]. split; [apply merge_sort_Permutation|apply Sorted_merge_sort, _].
Qed.

Lemma shutdown_one_spec {W P} what (close : P -> io W (result unit string)) p w :
  ((shutdown_one what close p w).1 = [] <-> (forall x, p = Some x -> (close x w).1 = Ok tt)) /\
  (shutdown_one what close p w).2 = match p with Some x => (close x w).2 | None => w end.
Proof.
  unfold shutdown_one, io_bind, io_ret. destruct p as [x|]; [|done].
  destruct (close x w) as [[[]|e] w'] eqn:Hc; simpl; split; try done; split; try done.
  - intros _ y [= <-]. by rewrite Hc.
  - intros H. specialize (H x eq_refl). by rewrite Hc in H.
Qed.

(** One [key=value] entry. *)
Definition entry (kv : string * string) : string := kv.1 +:+ String "=" kv.2.

Definition clean_entry (kv : string * string) : Prop :=
  clean kv.1 /\ clean kv.2 /\ is_empty kv.1 = false /\
  contains_char "=" kv.1 = false /\ contains_char "," kv.1 = false /\
  contains_char "," kv.2 = false.

Lemma trim_entry kv : clean_entry kv -> trim (entry kv) = entry kv.
Proof.
  intros ([Hk _] & [_ Hv] & _). unfold entry. by rewrite trim_stop, Hk, Hv.
Qed.

Lemma entry_free kv : clean_entry kv -> contains_char "," (entry kv) = false.
Proof.
  intros (_ & _ & _ & _ & Hk & Hv). unfold entry. by rewrite contains_char_app, Hk.
Qed.

Definition print_attrs (l : list (string * string)) : string := String.concat "," (map entry l).

Lemma print_attrs_nonempty kv l : is_empty (trim (print_attrs (kv :: l))) = false.
Proof.
  unfold print_attrs. set (r := map entry l).
  assert (exists q, String.concat "," (entry kv :: r) = kv.1 +:+ String "=" q) as [q Hq].
  { destruct r as [|x r]; [by exists kv.2|]. exists (kv.2 +:+ "," +:+ String.concat "," (x :: r)).
    change (String.concat "," (entry kv :: x :: r))
      with (entry kv +:+ "," +:+ String.concat "," (x :: r)).
    unfold entry at 1. by rewrite <- app_assoc_s. }
  simpl map. fold r. rewrite Hq, trim_stop by done. by destruct (trim_start kv.1).
Qed.

Lemma inject_other {F V} {T : FieldTable F V} {laws : FieldTableLaws T} (l : list (string * string)) (h : F) k :
  ~ In k (map fst l) ->
  ft_get (fold_left (fun h '(k, v) => injector_set k v h) l h) k = ft_get h k.
Proof.
  revert h. induction l as [|[k1 v1] l IH]; intros h Hk; simpl in *; [done|].
  rewrite IH by tauto. unfold injector_set. destruct (is_empty k1); [done|]. apply ft_get_other. tauto.
Qed.

(** ** Theorems *)

(** C38: Start-up is a gate, and what it starts is the configuration with its defaults filled in.
    A disabled configuration does nothing. An enabled one without a name or an endpoint, or with a
    sampling ratio outside [0, 1] or not a number, is refused before any exporter is built. Else
    both exporters are built for the endpoint with the dial timeout (5 s for zero), the tracer
    samples at the ratio (everything for zero), the meter reads at its interval (15 s for zero),
    both describe the same resource, both are installed, the guard holds them, and the flag is
    raised; the first exporter that fails ends the start-up with its error and the flag as it was. *)
Theorem init_gate {W Span Metric Tracer Meter} (O : Otel W Span Metric Tracer Meter) c flag (w : W) :
  let '(r, (flag', w')) := init c (flag, w) in
  let ratio := if SFeqb (sampling_ratio c) (f64_of_Z 0) then f64_of_Z 1 else sampling_ratio c in
  let in_range := SFleb (f64_of_Z 0) ratio && SFleb ratio (f64_of_Z 1) in
  let timeout := if dial_timeout c =? 0 then from_secs 5 else dial_timeout c in
  let interval :=
    if metric_export_interval c =? 0 then from_secs 15 else metric_export_interval c in
  let attrs extra :=
    (("service.name", service_name c) :: ("service.version", service_version c)
       :: ("deployment.environment", if is_empty (environment c) then "dev" else environment c)
       :: extra)%list in
  let span := span_exporter (endpoint c) timeout (insecure c) w in
  let metric t_w := metric_exporter (endpoint c) timeout (insecure c) t_w in
  if negb (enabled c) then r = Ok disabled /\ flag' = flag /\ w' = w
  else match r with
  | Err EmptyServiceName => service_name c = "" /\ flag' = flag /\ w' = w
  | Err EmptyEndpoint => endpoint c = "" /\ flag' = flag /\ w' = w
  | Err (RatioOutOfRange x) => x = ratio /\ in_range = false /\ flag' = flag /\ w' = w
  | Err ZeroDialTimeout => False
  | _ =>
      service_name c <> "" /\ endpoint c <> "" /\ in_range = true /\
      exists extra, extra ≡ₚ map_to_list (resource_attributes c) /\ Sorted key_le extra /\
      match span with
      | (Err e, w1) => r = Err (BuildSpanExporter e) /\ flag' = flag /\ w' = w1
      | (Ok sp, w1) =>
          let '(t, w2) := tracer_provider sp (attrs extra) ratio w1 in
          match metric w2 with
          | (Err e, w3) => r = Err (BuildMetricExporter e) /\ flag' = flag /\ w' = w3
          | (Ok me, w3) =>
              let '(m, w4) := meter_provider me interval (attrs extra) w3 in
              r = Ok (mkGuard (Some t) (Some m)) /\ flag' = true /\ w' = (set_globals t m w4).2
          end
      end
  end.
Proof.
  unfold init. change (enabled (with_defaults c)) with (enabled c).
  destruct (enabled c); cbn [negb]; [|done].
  pose proof (ensure_required_spec (with_defaults c)) as Hreq.
  destruct (ensure_required (with_defaults c)) as [[]|[]]; try done.
  2:{ by destruct Hreq. }
  2:{ unfold with_defaults in Hreq. by destruct Hreq. }
  2:{ exfalso. unfold with_defaults, if_zero in Hreq. cbn [dial_timeout] in Hreq.
      by destruct (Z.eqb_spec (dial_timeout c) 0). }
  destruct (resource_attrs_spec (with_defaults c)) as (extra & Ha & Hp & Hs).
  unfold build_pipeline, io_bind, io_ret. rewrite Ha. clear Ha. unfold with_defaults, if_zero in *.
  cbn [service_name service_version environment endpoint insecure sampling_ratio dial_timeout
       metric_export_interval resource_attributes] in *.
  destruct Hreq as (Hn & He & H0 & H1).
  destruct (span_exporter _ _ _ w) as [[sp|e] w1] eqn:Esp;
    [|split_and!; try done; [by rewrite H0, H1|by exists extra]].
  destruct (tracer_provider _ _ _ w1) as [t w2] eqn:Et.
  destruct (metric_exporter _ _ _ w2) as [[me|e] w3] eqn:Eme;
    [|split_and!; try done; [by rewrite H0, H1|exists extra; rewrite Et, Eme; done]].
  destruct (meter_provider _ _ _ w3) as [m w4] eqn:Em.
  destruct (set_globals t m w4) as [u w5] eqn:Eg.
  split_and!; try done; [by rewrite H0, H1|].
  exists extra. rewrite Et, Eme, Em, Eg. done.
Qed.

(** A guard shuts its providers down once: whatever they answer, it is left holding none and the
    flag is down, so shutting it down again, or dropping it, is clean and touches nothing; the
    result is a success exactly when no provider reported an error. *)
Theorem shutdown_once {W Span Metric Tracer Meter} (O : Otel W Span Metric Tracer Meter)
    (g : TraceGuard Tracer Meter) flag (w : W) :
  let '(r, g', (flag', w')) := shutdown g (flag, w) in
  g' = disabled /\ flag' = false /\
  shutdown g' (flag', w') = (Ok tt, disabled, (false, w')) /\
  drop g' (flag', w') = (false, w') /\
  (r = Ok tt <->
   (forall t, tracer g = Some t -> (tracer_shutdown t w).1 = Ok tt) /\
   (forall m, meter g = Some m ->
      (meter_shutdown m match tracer g with Some t => (tracer_shutdown t w).2 | None => w end).1 = Ok tt)).
Proof.
  unfold shutdown. destruct g as [t m]. cbn [tracer meter].
  pose proof (shutdown_one_spec "tracer" tracer_shutdown t w) as [Ht Htw].
  destruct (shutdown_one "tracer" tracer_shutdown t w) as [errs1 w1]. cbn [fst snd] in *. subst w1.
  set (w1 := match t with Some _ => _ | None => w end).
  pose proof (shutdown_one_spec "meter" meter_shutdown m w1) as [Hm _].
  destruct (shutdown_one "meter" meter_shutdown m w1) as [errs2 w2]. cbn [fst snd] in *.
  split_and!; try done. rewrite <- Ht, <- Hm.
  destruct errs1, errs2; simpl; split; try done; by intros [? ?].
Qed.

(** Resource attributes survive printing: parsing [k1=v1,k2=v2,...] gives back the attributes, a
    later entry replacing an earlier one of the same key; values may hold [=]. *)
Theorem resource_attrs_roundtrip l :
  Forall clean_entry l ->
  parse_resource_attrs (print_attrs l) = fold_left (fun m kv => <[kv.1 := kv.2]> m) l ∅.
Proof.
  intros Hl. destruct l as [|kv l]; [done|]. unfold parse_resource_attrs.
  rewrite print_attrs_nonempty. unfold print_attrs. simpl map.
  rewrite split_char_join.
  2:{ change (entry kv :: map entry l) with (map entry (kv :: l)). apply Forall_map.
      eapply Forall_impl; [exact Hl|]. apply entry_free. }
  change (entry kv :: map entry l) with (map entry (kv :: l)).
  generalize (∅ : gmap string string). induction Hl as [|[k v] l' Hkv Hl IH]; intros m; [done|].
  cbn [map fold_left]. rewrite IH. f_equal. rewrite trim_entry by done.
  destruct Hkv as (Hk & Hv & Hne & Heq & _). cbn [fst snd] in *. unfold entry. cbn [fst snd].
  rewrite split_once_char_app by done. rewrite !clean_trim by done. by rewrite Hne.
Qed.

(** What is injected in a message's headers is what its receiver extracts: every field of the
    context, under its own key, and every other header as it was. *)
Theorem amqp_headers_roundtrip {F V Ctx} (T : FieldTable F V) (laws : FieldTableLaws T)
    (context_fields : Ctx -> list (string * string)) cx (headers : F) :
  NoDup (map fst (context_fields cx)) ->
  (forall k v, In (k, v) (context_fields cx) -> is_empty k = false -> utf8_valid (as_bytes v) = true ->
     extractor_get (inject_amqp context_fields cx headers) k = Some v) /\
  (forall k, ~ In k (map fst (context_fields cx)) ->
     extractor_get (inject_amqp context_fields cx headers) k = extractor_get headers k).
Proof.
  unfold inject_amqp. generalize (context_fields cx). intros l Hnd. split.
  - intros k v Hin Hk Hv. revert headers. induction l as [|[k1 v1] l IH]; intros headers; [done|].
    cbn [fold_left map fst] in *. apply NoDup_cons in Hnd as [Hnot Hnd].
    destruct Hin as [[= -> ->]|Hin]; [|by apply IH].
    unfold extractor_get. rewrite inject_other by by rewrite <- list_elem_of_In.
    unfold injector_set. rewrite Hk, ft_get_insert, as_long_long. unfold from_utf8. rewrite Hv.
    by rewrite of_as_bytes.
  - intros k Hk. unfold extractor_get. by rewrite inject_other.
Qed.

(** ** Witnesses *)

#[local] Instance list_table : FieldTable (list (string * string)) string := {|
  ft_insert k v f := (k, v) :: f;
  ft_get f k := option_map snd (List.find (fun kv => String.eqb kv.1 k) f);
  ft_keys f := map fst f;
  long_string s := s;
  as_long_string v := Some (as_bytes v);
  as_short_string _ := None;
|}.

#[local] Instance list_table_laws : FieldTableLaws list_table.
Proof.
  constructor; simpl; intros.
  - by rewrite String.eqb_refl.
  - by rewrite (proj2 (String.eqb_neq k k')).
  - done.
Qed.

Lemma resource_attrs_roundtrip_witness :
  parse_resource_attrs "team=payments,query=a=b" =
    <["query" := "a=b"]> (<["team" := "payments"]> ∅).
Proof.
  apply (resource_attrs_roundtrip [("team", "payments"); ("query", "a=b")]).
  by repeat constructor.
Defined.

Lemma amqp_headers_roundtrip_witness :
  extractor_get (inject_amqp (fun _ : unit => [("traceparent", "00-1-2-01"); ("baggage", "k=v")]) tt
                   [("x-retry", "1")]) "baggage" = Some "k=v".
Proof.
  apply (amqp_headers_roundtrip list_table list_table_laws
           (fun _ : unit => [("traceparent", "00-1-2-01"); ("baggage", "k=v")]) tt [("x-retry", "1")]);
    [by apply (bool_decide_eq_true_1 _); vm_compute|simpl; tauto|done|done].
Defined.
