(* ===== verification/Lint.v ===== *)
(** [xtask/src/lint_mirrors.rs] and [xtask/src/main.rs]: the workspace's own lint. It reads the
    sources of six crates line by line, reports every exported item whose doc block carries no
    annotation, and compares the report with a baseline file as a ratchet.

    The file system is a tree of [node]s; [read_to_string], [read_dir] and [write] fail as the
    tree says. [char::is_alphanumeric] beyond ASCII is the parameter [wide_alphanumeric] on the
    UTF-8 encoding of one character. *)
From S2P Require Export RustStd.
Local Open Scope string_scope.
Local Open Scope Z_scope.

(** ** Strings: what the lint adds to [RustStd] *)

Definition LF : ascii := "010"%char.
Definition CR : ascii := "013"%char.

(** [str::lines]: pieces ended by a line feed, each without its line feed and one carriage
    return before it; a last piece without a line feed is kept as it is, unless it is empty. *)
Definition strip_cr (s : string) : string :=
  match strip_suffix (String CR EmptyString) s with Some l => l | None => s end.

Fixpoint lines_of_pieces (ps : list string) : list string :=
  match ps with
  | [] => []
  | [last] => if is_empty last then [] else [last]
  | p :: rest => strip_cr p :: lines_of_pieces rest
  end.

Definition lines (s : string) : list string := lines_of_pieces (split_char LF s).

(** [str::matches(c).count()]. *)
Fixpoint count_char (c : ascii) (s : string) : Z :=
  match s with
  | EmptyString => 0
  | String a s' => (if Ascii.eqb a c then 1 else 0) + count_char c s'
  end.

(** [str::contains] with a string pattern. *)
Definition contains (p s : string) : bool :=
  match split_once p s with Some _ => true | None => false end.

(** [str::replace] of one character. *)
Fixpoint replace_char (a b : ascii) (s : string) : string :=
  match s with
  | EmptyString => EmptyString
  | String x s' => String (if Ascii.eqb x a then b else x) (replace_char a b s')
  end.

Definition I32_MAX : Z := 2 ^ 31 - 1.

(** [i32] addition, wrapping; [scan_depth_exact] shows it never wraps on a source that fits. *)
Definition i32_add (a b : Z) : Z := (a + b + 2 ^ 31) mod 2 ^ 32 - 2 ^ 31.

(** [i32::try_from(n).unwrap_or(0)] of a [usize]. *)
Definition i32_or_zero (n : Z) : Z := default 0 (try_from 0 I32_MAX n).

(** The first character of a UTF-8 string and the rest. *)
Definition next_char (l : bytes) : option (bytes * bytes) :=
  match l with
  | a :: r =>
      if in_range 0 127 a then Some ([a], r)
      else if in_range 194 223 a then
        match r with
        | b :: r' => if cont b then Some ([a; b], r') else None
        | _ => None
        end
      else if in_range 224 239 a then
        match r with
        | b :: c :: r' => if cont b && cont c then Some ([a; b; c], r') else None
        | _ => None
        end
      else
        match r with
        | b :: c :: d :: r' =>
            if in_range 240 244 a && cont b && cont c && cont d then Some ([a; b; c; d], r')
            else None
        | _ => None
        end
  | [] => None
  end.

(** [chars().take_while(p).collect::<String>()], one character at a time. *)
Fixpoint take_while_chars (fuel : nat) (p : bytes -> bool) (l : bytes) : bytes :=
  match fuel with
  | O => []
  | S n =>
      match next_char l with
      | Some (ch, r) => if p ch then (ch ++ take_while_chars n p r)%list else []
      | None => []
      end
  end.

(** A [BTreeSet<String>]: its elements in increasing byte order, without duplicates. *)
Fixpoint btree_insert (k : string) (s : list string) : list string :=
  match s with
  | [] => [k]
  | x :: r => match String.compare k x with
              | Lt => k :: s
              | Eq => s
              | Gt => x :: btree_insert k r
              end
  end.
Definition btree_of (l : list string) : list string := foldr btree_insert [] l.
Definition btree_contains (k : string) (s : list string) : bool := existsb (String.eqb k) s.

(** ** The scanner *)

Section Scanner.

(** Whether a character outside ASCII, given by its UTF-8 encoding, is alphanumeric. *)
Variable wide_alphanumeric : bytes -> bool.

Definition ANNOTATIONS : list string := ["mirrors:"; "no-go-equivalent:"].

(** [c.is_alphanumeric() || *c == '_'] *)
Definition word_char (ch : bytes) : bool :=
  match ch with
  | [a] => in_range 48 57 a || in_range 65 90 a || in_range 97 122 a || Ascii.eqb a "_"
  | _ => wide_alphanumeric ch
  end.

Definition keywords : list string :=
  ["fn "; "struct "; "enum "; "trait "; "type "; "const "; "static "; "union "].

(** The loop of [exported_item] over the keywords: the first that prefixes [rest] decides. *)
Fixpoint item_name (ks : list string) (rest : string) : option string :=
  match ks with
  | [] => None
  | keyword :: ks' =>
      match strip_prefix keyword rest with
      | Some tail =>
          let name := of_bytes
            (take_while_chars (String.length tail) word_char (as_bytes tail)) in
          if is_empty name then None else Some name
      | None => item_name ks' rest
      end
  end.

(** Return the item's name when [line] declares an exported item. *)
Definition exported_item (line : string) : option string :=
  if starts_with "pub(crate)" line || starts_with "pub(super)" line then None
  else match strip_prefix "pub " line with
       | None => None
       | Some rest =>
           if starts_with "use " rest || starts_with "mod " rest then None
           else
             let rest := match strip_prefix "async " rest with
                         | Some r => r
                         | None => default rest (strip_prefix "unsafe " rest)
                         end in
             item_name keywords rest
       end.

Definition line_at (ls : list string) (i : nat) : string := trim (nth i ls EmptyString).

Definition is_comment (line : string) : bool :=
  starts_with "///" line || starts_with "//!" line || starts_with "//" line.

Definition annotated (line : string) : bool := existsb (fun a => contains a line) ANNOTATIONS.

(** A line between the doc block and its item: an attribute, or a blank line under a comment. *)
Definition between (ls : list string) (i : nat) : bool :=
  starts_with "#" (line_at ls i)
  || (is_empty (line_at ls i) && (0 <? Z.of_nat i) && starts_with "//" (line_at ls (i - 1))).

(** Walk backwards over the doc block and attributes attached to [index]. *)
Fixpoint has_annotation (ls : list string) (index : nat) : bool :=
  match index with
  | O => false
  | S i =>
      if is_comment (line_at ls i) then
        if annotated (line_at ls i) then true else has_annotation ls i
      else if between ls i then has_annotation ls i
      else false
  end.

Record Scan := mkScan {
  test_depth : option Z;
  depth : Z;
  out : list string;
}.

(** The key of an [Export]: [{rel_path}:{index + 1}:{item}]. *)
Definition export_key (rel_path : string) (index : nat) (item : string) : string :=
  rel_path +:+ ":" +:+ show_Z (Z.of_nat index + 1) +:+ ":" +:+ item.

(** The body of the loop of [scan] for one line. *)
Definition scan_line (rel_path : string) (ls : list string) (index : nat) (raw : string)
  (st : Scan) : Scan :=
  let line := trim raw in
  let test :=
    match test_depth st with
    | None => if String.eqb line "#[cfg(test)]" || starts_with "#[cfg(test)]" line
              then Some (depth st) else None
    | Some d => Some d
    end in
  let opens := i32_or_zero (count_char "{" raw) in
  let closes := i32_or_zero (count_char "}" raw) in
  let depth_before := depth st in
  let depth' := i32_add (depth st) (opens - closes) in
  match test with
  | Some entry_depth =>
      mkScan (if (depth' <=? entry_depth) && (0 <? closes) then None else test) depth' (out st)
  | None =>
      let skip := mkScan None depth' (out st) in
      match exported_item line with
      | None => skip
      | Some item =>
          if (0 <? depth_before) && negb (starts_with "pub" line) then skip
          else if has_annotation ls index then skip
          else mkScan None depth' (out st ++ [export_key rel_path index item])%list
      end
  end.

Fixpoint scan_from (rel_path : string) (ls : list string) (index : nat) (todo : list string)
  (st : Scan) : Scan :=
  match todo with
  | [] => st
  | raw :: todo' => scan_from rel_path ls (S index) todo' (scan_line rel_path ls index raw st)
  end.

(** Find exported items lacking an annotation in their immediately preceding doc block. *)
Definition scan (source rel_path : string) (acc : list string) : list string :=
  out (scan_from rel_path (lines source) 0 (lines source) (mkScan None 0 acc)).

End Scanner.

(** ** The file tree and the run *)

(** What [std::fs] finds at a path: a file with the answer of [read_to_string], or a directory
    with the answer of [read_dir], whose entries may fail one by one. An error is its text. *)
Inductive node : Type :=
| File (content : result string string)
| Dir (entries : result (list (result (string * node) string)) string).

Definition is_dir (n : node) : bool := match n with Dir _ => true | File _ => false end.

(** A path relative to the workspace root, by components; [display] puts the root before it. *)
Abbreviation path := (list string).

Definition join_path (p : path) : string := String.concat "/" p.

(** [Ord] on [Path] compares the components. *)
Fixpoint path_leb (p q : path) : bool :=
  match p, q with
  | [], _ => true
  | _ :: _, [] => false
  | a :: p', b :: q' => match String.compare a b with
                        | Lt => true
                        | Eq => path_leb p' q'
                        | Gt => false
                        end
  end.

(** [path.extension().is_some_and(|e| e == "rs")]: a name that starts with its only dot has no
    extension. *)
Definition extension_is_rs (name : string) : bool :=
  match rsplit_once "." name with
  | Some (stem, ext) => negb (is_empty stem) && String.eqb ext "rs"
  | None => false
  end.

Definition SCOPE : list string :=
  ["pc-amqp"; "pc-audit"; "pc-auth"; "pc-health"; "pc-s3minio"; "pc-snapbi"].

Definition BASELINE : string := "xtask/mirrors-baseline.txt".

Inductive ExitCode := SUCCESS | FAILURE.

(** One [println!] or [eprintln!]. *)
Inductive printed := Out (text : string) | ErrOut (text : string).

(** The parts of the disk the lint touches. [krate_src k] is the node at [crates/<k>/src];
    [write_baseline] is what [std::fs::write] of a text answers and leaves in the file. *)
Record Workspace := mkWorkspace {
  root : string;
  krate_src : string -> option node;
  baseline_file : result string string;
  write_baseline : string -> result unit string * result string string;
}.

Definition path_le (p q : path * result string string) : Prop := path_leb p.1 q.1 = true.
Definition string_le (a b : string) : Prop := String.leb a b = true.
#[global] Instance path_le_dec p q : Decision (path_le p q).
Proof. unfold path_le. apply _. Defined.
#[global] Instance string_le_dec a b : Decision (string_le a b).
Proof. unfold string_le. apply _. Defined.

Section Run.

Variable wide_alphanumeric : bytes -> bool.

Definition display (root : string) (p : path) : string := root +:+ "/" +:+ join_path p.

(** The [.rs] files below a directory, in the order [read_dir] answers. *)
Fixpoint collect_rs (root : string) (dir : path) (n : node)
  (acc : list (path * result string string)) {struct n}
  : result (list (path * result string string)) string :=
  match n with
  | File _ => Err ("reading " +:+ display root dir +:+ ": Not a directory (os error 20)")
  | Dir (Err e) => Err ("reading " +:+ display root dir +:+ ": " +:+ e)
  | Dir (Ok entries) =>
      (fix each (es : list (result (string * node) string))
           (acc : list (path * result string string)) :=
         match es with
         | [] => Ok acc
         | Err e :: _ => Err ("reading " +:+ display root dir +:+ ": " +:+ e)
         | Ok (name, child) :: es' =>
             let here := (dir ++ [name])%list in
             match child with
             | Dir _ => match collect_rs root here child acc with
                        | Ok acc' => each es' acc'
                        | Err e => Err e
                        end
             | File c =>
                 each es' (if extension_is_rs name then acc ++ [(here, c)] else acc)%list
             end
         end) entries acc
  end.

(** Scan the sorted files of one crate. *)
Fixpoint scan_files (root : string) (files : list (path * result string string))
  (acc : list string) : result (list string) string :=
  match files with
  | [] => Ok acc
  | (file, content) :: rest =>
      match content with
      | Err e => Err ("reading " +:+ display root file +:+ ": " +:+ e)
      | Ok source =>
          let rel := replace_char "\" "/" (join_path file) in
          scan_files root rest (scan wide_alphanumeric source rel acc)
      end
  end.

Fixpoint collect_krates (root : string) (src : string -> option node) (krates : list string)
  (acc : list string) : result (list string) string :=
  match krates with
  | [] => Ok acc
  | krate :: rest =>
      let dir := ["crates"; krate; "src"] in
      match src krate with
      | Some n =>
          if is_dir n then
            match collect_rs root dir n [] with
            | Err e => Err e
            | Ok files =>
                match scan_files root (merge_sort path_le files) acc with
                | Err e => Err e
                | Ok acc' => collect_krates root src rest acc'
                end
            end
          else Err ("crate `" +:+ krate +:+ "` is in SCOPE but " +:+ display root dir
                    +:+ " does not exist")
      | None => Err ("crate `" +:+ krate +:+ "` is in SCOPE but " +:+ display root dir
                     +:+ " does not exist")
      end
  end.

Definition collect (w : Workspace) : result (list string) string :=
  match collect_krates (root w) (krate_src w) SCOPE [] with
  | Ok found => Ok (merge_sort string_le found)
  | Err e => Err e
  end.

Definition baseline_entry (l : string) : bool := negb (is_empty l) && negb (starts_with "#" l).

Definition read_baseline (w : Workspace) : list string :=
  btree_of (filter (fun l => baseline_entry l = true)
    (map trim (lines (default EmptyString (res_ok (baseline_file w)))))).

Definition nl : string := String LF EmptyString.

Definition baseline_header : string :=
  "# Exported items still missing a `mirrors:` / `no-go-equivalent:` annotation." +:+ nl
  +:+ "#" +:+ nl
  +:+ "# Accepted debt, not approval. Shrink it; do not grow it. Regenerate with" +:+ nl
  +:+ "# `cargo xtask lint-mirrors --update-baseline` ONLY when paying debt down or" +:+ nl
  +:+ "# bringing a new crate into scope — never to silence a new export." +:+ nl.

(** The text [--update-baseline] writes. *)
Definition render_baseline (found : list string) : string :=
  foldl (fun out key => out +:+ key +:+ nl) baseline_header found.

Definition show_len {A : Type} (l : list A) : string := show_Z (Z.of_nat (length l)).

Definition new_report (new : list string) : string :=
  nl +:+ "lint-mirrors: " +:+ show_len new
  +:+ " exported item(s) have no `mirrors:` or `no-go-equivalent:` annotation." +:+ nl
  +:+ nl
  +:+ "This workspace is a port. Record what the Go original is, or say there isn't one:" +:+ nl
  +:+ nl +:+ "    /// mirrors: `pkg.GoSymbol`" +:+ nl
  +:+ nl +:+ "    /// mirrors: `pkg.GoOne` + `pkg.GoTwo`      (when it really is more than one)"
  +:+ nl
  +:+ nl +:+ "    /// no-go-equivalent: <why>" +:+ nl.

Definition stale_report (stale : list string) : string :=
  nl +:+ "lint-mirrors: " +:+ show_len stale
  +:+ " baseline entr(y/ies) no longer match any export." +:+ nl
  +:+ "Renamed, deleted, or annotated? Either way run "
  +:+ "`cargo xtask lint-mirrors --update-baseline` so the ratchet cannot rot:" +:+ nl.

Definition listed (keys : list string) : list printed := map (fun k => ErrOut ("  " +:+ k)) keys.

(** The two sides of the ratchet. *)
Definition new_keys (found baseline : list string) : list string :=
  filter (fun k => btree_contains k baseline = false) (btree_of found).
Definition stale_keys (found baseline : list string) : list string :=
  filter (fun k => btree_contains k (btree_of found) = false) baseline.

Definition run (args : list string) (w : Workspace) : (ExitCode * list printed) * Workspace :=
  let show_all := existsb (fun a => String.eqb a "--all") args in
  let update := existsb (fun a => String.eqb a "--update-baseline") args in
  match collect w with
  | Err err => ((FAILURE, [ErrOut ("lint-mirrors: " +:+ err)]), w)
  | Ok found =>
      if update then
        let '(answer, file_after) := write_baseline w (render_baseline found) in
        let w' := mkWorkspace (root w) (krate_src w) file_after (write_baseline w) in
        match answer with
        | Err err => ((FAILURE, [ErrOut ("lint-mirrors: writing baseline: " +:+ err)]), w')
        | Ok _ => ((SUCCESS, [Out ("lint-mirrors: baseline updated with " +:+ show_len found
                                   +:+ " entries")]), w')
        end
      else if show_all then
        ((SUCCESS, (map Out found
                    ++ [Out (nl +:+ show_len found
                             +:+ " unannotated exported item(s) in scope")])%list), w)
      else
        let baseline := read_baseline w in
        let new := new_keys found baseline in
        let stale := stale_keys found baseline in
        match new, stale with
        | [], [] =>
            ((SUCCESS, [Out ("lint-mirrors: ok — " +:+ show_len found
                             +:+ " known unannotated item(s), none new")]), w)
        | _, _ =>
            ((FAILURE,
              ((match new with [] => [] | _ => ErrOut (new_report new) :: listed new end)
               ++ (match stale with [] => [] | _ => ErrOut (stale_report stale) :: listed stale
                   end))%list), w)
        end
  end.

Definition USAGE : string :=
  "cargo xtask <task>" +:+ nl
  +:+ nl
  +:+ "Tasks:" +:+ nl
  +:+ "  lint-mirrors [--all] [--update-baseline]" +:+ nl
  +:+ "      Check that exported items in port-critical crates record what Go symbol" +:+ nl
  +:+ "      they were checked against." +:+ nl
  +:+ nl
  +:+ "      --all              report every unannotated item, ignoring the baseline" +:+ nl
  +:+ "      --update-baseline  rewrite the baseline to match reality (use when paying" +:+ nl
  +:+ "                         debt down, and when adding a crate to the scope)" +:+ nl.

(** [main] on the arguments after the program name. *)
Definition main (args : list string) (w : Workspace) : (ExitCode * list printed) * Workspace :=
  match args with
  | [] => ((SUCCESS, [Out USAGE]), w)
  | task :: rest =>
      if String.eqb task "lint-mirrors" then run rest w
      else if String.eqb task "-h" || String.eqb task "--help" || String.eqb task "help"
      then ((SUCCESS, [Out USAGE]), w)
      else ((FAILURE, [ErrOut ("unknown task: " +:+ task +:+ nl +:+ nl +:+ USAGE)]), w)
  end.

End Run.

(** ** Ordered sets and lines *)

Lemma elem_of_btree_insert k x s : k ∈ btree_insert x s <-> k = x \/ k ∈ s.
Proof.
  induction s as [|y s IH]; simpl; [set_solver|].
  destruct (String.compare x y) eqn:Hc; [|set_solver|set_solver].
  apply String.compare_eq_iff in Hc as ->. set_solver.
Qed.

Lemma elem_of_btree_of k l : k ∈ btree_of l <-> k ∈ l.
Proof.
  induction l as [|x l IH]; [done|]. unfold btree_of in *. simpl.
  rewrite elem_of_btree_insert, IH. set_solver.
Qed.

Lemma btree_contains_spec k s : btree_contains k s = true <-> k ∈ s.
Proof.
  unfold btree_contains. rewrite existsb_exists. setoid_rewrite <- list_elem_of_In.
  split; [by intros (x & Hx & ->%String.eqb_eq)|].
  intros H. exists k. by rewrite String.eqb_refl.
Qed.

Lemma filter_nil_iff {A} (P : A -> Prop) `{forall x, Decision (P x)} l :
  filter P l = [] <-> forall x, x ∈ l -> ~ P x.
Proof.
  split.
  - intros Hf x Hx HP. assert (Hin : x ∈ filter P l) by (by apply list_elem_of_filter).
    rewrite Hf in Hin. by apply not_elem_of_nil in Hin.
  - intros Hn. destruct (filter P l) as [|x r] eqn:E; [done|].
    assert (Hin : x ∈ filter P l) by (rewrite E; apply list_elem_of_here).
    apply list_elem_of_filter in Hin as [HP Hx]. by destruct (Hn x Hx).
Qed.

#[global] Arguments nl : simpl never.

Lemma strip_cr_id s : strip_suffix (String CR "") s = None -> strip_cr s = s.
Proof. unfold strip_cr. by intros ->. Qed.

(** Lines that hold no line feed and end in no carriage return read back as written. *)
Definition line_ok (l : string) : Prop := contains_char LF l = false /\ strip_cr l = l.

Lemma lines_cons l rest :
  line_ok l -> lines (l +:+ nl +:+ rest) = l :: lines rest.
Proof.
  intros [Hlf Hcr]. unfold lines, nl. simpl.
  rewrite split_char_app by done. simpl.
  destruct (split_char LF rest) eqn:E; [|by rewrite Hcr].
  exfalso. destruct rest; simpl in E; [done|]. destruct (Ascii.eqb _ _); [done|].
  by destruct (split_char LF rest).
Qed.

Lemma lines_unlines ls :
  Forall line_ok ls -> lines (foldr (fun l r => l +:+ nl +:+ r) "" ls) = ls.
Proof.
  induction 1 as [|l ls Hl _ IH]; [done|]. cbn [foldr]. rewrite lines_cons by done. by f_equal.
Qed.

Lemma render_unlines found :
  render_baseline found = baseline_header +:+ foldr (fun l r => l +:+ nl +:+ r) "" found.
Proof.
  unfold render_baseline. generalize baseline_header. induction found as [|k r IH]; intros h.
  - simpl. by rewrite app_nil_r_s.
  - simpl foldl. rewrite IH. simpl foldr. by rewrite <- !app_assoc_s.
Qed.

(** The header is five comment lines. *)
Lemma lines_header rest :
  exists hs, lines (baseline_header +:+ rest) = (hs ++ lines rest)%list /\
             Forall (fun h => baseline_entry (trim h) = false) hs.
Proof.
  unfold baseline_header. rewrite <- !app_assoc_s.
  eexists (_ :: _ :: _ :: _ :: _ :: []). split.
  - rewrite !lines_cons by (vm_compute; done). reflexivity.
  - repeat constructor.
Qed.

(** ** The scanner against a reference *)

Section ScannerFacts.

Variable wide_alphanumeric : bytes -> bool.
Abbreviation exported_item := (exported_item wide_alphanumeric).
Abbreviation scan_line := (scan_line wide_alphanumeric).
Abbreviation scan_from := (scan_from wide_alphanumeric).

Definition test_attr (raw : string) : bool := starts_with "#[cfg(test)]" (trim raw).

(** What one line contributes when it is outside test code, whatever its brace depth. *)
Definition finding (rel : string) (ls : list string) (i : nat) (raw : string) : list string :=
  match exported_item (trim raw) with
  | Some item => if has_annotation ls i then [] else [export_key rel i item]
  | None => []
  end.

Fixpoint findings (rel : string) (ls : list string) (i : nat) (todo : list string)
  : list string :=
  match todo with
  | [] => []
  | raw :: r => (finding rel ls i raw ++ findings rel ls (S i) r)%list
  end.

(** Net brace depth of a line, and the braces of a source. *)
Definition net (raw : string) : Z := count_char "{" raw - count_char "}" raw.
Definition braces (ls : list string) : Z :=
  foldr (fun raw n => count_char "{" raw + count_char "}" raw + n) 0 ls.

(** A block entered at depth [0]: only its last line closes a brace at or below that depth. *)
Fixpoint closes_at_end (d : Z) (block : list string) : Prop :=
  match block with
  | [] => False
  | raw :: rest =>
      let closed := d + net raw <= 0 /\ 0 < count_char "}" raw in
      match rest with
      | [] => closed
      | _ => ~ closed /\ closes_at_end (d + net raw) rest
      end
  end.

Lemma starts_with_pub line item : exported_item line = Some item -> starts_with "pub" line = true.
Proof.
  unfold Lint.exported_item. destruct (_ || _); [done|].
  destruct (strip_prefix "pub " line) as [r|] eqn:E; [|done]. intros _.
  by apply strip_prefix_Some in E as ->.
Qed.

(** The guard on the brace depth never fires: an exported item's line starts with [pub]. *)
Lemma scan_line_plain rel ls i raw d acc :
  test_attr raw = false ->
  scan_line rel ls i raw (mkScan None d acc) =
  mkScan None (i32_add d (i32_or_zero (count_char "{" raw) - i32_or_zero (count_char "}" raw)))
    (acc ++ finding rel ls i raw)%list.
Proof.
  unfold test_attr, Lint.scan_line, finding. simpl. intros Ht.
  replace (String.eqb (trim raw) "#[cfg(test)]") with false
    by (symmetry; apply String.eqb_neq; intros E; by rewrite E in Ht).
  rewrite Ht. simpl. destruct (Lint.exported_item _ _) as [item|] eqn:Hi; [|by rewrite app_nil_r].
  rewrite (starts_with_pub _ _ Hi), andb_false_r.
  destruct (has_annotation ls i); [by rewrite app_nil_r|done].
Qed.

Lemma count_char_nonneg c s : 0 <= count_char c s.
Proof. induction s; simpl; [lia|]. case_match; lia. Qed.

Lemma i32_or_zero_fits n : 0 <= n <= I32_MAX -> i32_or_zero n = n.
Proof. intros H. unfold i32_or_zero. by rewrite (proj2 (try_from_Some 0 I32_MAX n n)). Qed.

Lemma i32_add_fits a b : Z.abs (a + b) <= I32_MAX -> i32_add a b = a + b.
Proof. unfold I32_MAX, i32_add. intros H. rewrite Z.mod_small; lia. Qed.

Lemma braces_nonneg ls : 0 <= braces ls.
Proof.
  induction ls as [|raw ls IH]; simpl; [lia|].
  pose proof (count_char_nonneg "{" raw). pose proof (count_char_nonneg "}" raw). lia.
Qed.

(** On a source whose braces fit [i32] the depth is exact. *)
Lemma depth_exact d raw rest :
  Z.abs d + braces (raw :: rest) <= I32_MAX ->
  i32_add d (i32_or_zero (count_char "{" raw) - i32_or_zero (count_char "}" raw)) = d + net raw
  /\ Z.abs (d + net raw) + braces rest <= I32_MAX
  /\ i32_or_zero (count_char "}" raw) = count_char "}" raw.
Proof.
  simpl. unfold net. pose proof (count_char_nonneg "{" raw) as H1.
  pose proof (count_char_nonneg "}" raw) as H2. pose proof (braces_nonneg rest) as H3.
  intros H. rewrite !i32_or_zero_fits, i32_add_fits by lia. lia.
Qed.

Lemma scan_from_plain rel ls todo : forall i d acc,
  Forall (fun raw => test_attr raw = false) todo ->
  exists d', scan_from rel ls i todo (mkScan None d acc)
             = mkScan None d' (acc ++ findings rel ls i todo)%list
             /\ (Z.abs d + braces todo <= I32_MAX -> d' = d + foldr (fun r n => net r + n) 0 todo).
Proof.
  induction todo as [|raw todo IH]; intros i d acc Hall.
  - exists d. simpl. rewrite app_nil_r. split; [done|lia].
  - apply Forall_cons in Hall as [Hraw Hall]. cbn [Lint.scan_from].
    rewrite scan_line_plain by done.
    edestruct IH as (d' & -> & Hd'); [done|]. exists d'. simpl findings. rewrite app_assoc.
    split; [done|]. intros Hfit. apply depth_exact in Hfit as (Heq & Hfit & _).
    rewrite Heq in Hd'. rewrite Hd' by done. simpl. lia.
Qed.

(** Inside a test block nothing is reported until the line that closes it. *)
Lemma scan_from_block rel ls todo : forall i base d acc block,
  closes_at_end (d - base) block -> Z.abs d + braces block <= I32_MAX ->
  scan_from rel ls i (block ++ todo) (mkScan (Some base) d acc) =
  scan_from rel ls (i + length block) todo
    (mkScan None (d + foldr (fun r n => net r + n) 0 block) acc).
Proof.
  intros i base d acc block. revert i d. induction block as [|raw block IH]; intros i d; [done|].
  intros Hc Hfit. apply depth_exact in Hfit as (Heq & Hfit & Hcl).
  cbn [app Lint.scan_from]. unfold Lint.scan_line. simpl test_depth. simpl depth. cbv zeta iota.
  rewrite Heq, Hcl. cbn [closes_at_end] in Hc. cbv zeta in Hc.
  destruct block as [|raw2 block].
  - destruct Hc as [H1 H2].
    rewrite (proj2 (Z.leb_le _ _)), (proj2 (Z.ltb_lt _ _)) by lia. simpl.
    rewrite Nat.add_1_r. by rewrite Z.add_0_r.
  - destruct Hc as [Hn Hc].
    replace (_ && _) with false; cycle 1.
    { symmetry. apply andb_false_iff. rewrite Z.leb_gt, Z.ltb_ge. lia. }
    rewrite IH; [|by replace (d + net raw - base) with (d - base + net raw) by lia|done].
    f_equal; [simpl; lia|]. f_equal. simpl. lia.
Qed.

(** The line with the attribute opens the block. *)
Lemma scan_from_test rel ls i raw block todo d acc :
  test_attr raw = true -> closes_at_end 0 (raw :: block) ->
  Z.abs d + braces (raw :: block) <= I32_MAX ->
  scan_from rel ls i ((raw :: block) ++ todo) (mkScan None d acc) =
  scan_from rel ls (i + length (raw :: block)) todo
    (mkScan None (d + foldr (fun r n => net r + n) 0 (raw :: block)) acc).
Proof.
  intros Ht Hc Hfit. rewrite <- (scan_from_block rel ls todo i d d acc (raw :: block));
    [|by rewrite Z.sub_diag|done].
  cbn [app Lint.scan_from]. f_equal. unfold Lint.scan_line. simpl.
  unfold test_attr in Ht. by rewrite Ht, orb_true_r.
Qed.

Lemma braces_app a b : braces (a ++ b) = braces a + braces b.
Proof. induction a; simpl; lia. Qed.

Lemma net_braces ls : Z.abs (foldr (fun r n => net r + n) 0 ls) <= braces ls.
Proof.
  induction ls as [|raw ls IH]; [done|]. cbn [foldr]. unfold braces in *. cbn [foldr].
  unfold net at 1. pose proof (count_char_nonneg "{" raw). pose proof (count_char_nonneg "}" raw).
  lia.
Qed.

(** ** Segments: a source as code lines and test blocks *)

Inductive segment := Code (raw : string) | TestBlock (block : list string).

Definition seg_lines (s : segment) : list string :=
  match s with Code raw => [raw] | TestBlock block => block end.

Definition seg_ok (s : segment) : Prop :=
  match s with
  | Code raw => test_attr raw = false
  | TestBlock [] => False
  | TestBlock (raw :: rest) => test_attr raw = true /\ closes_at_end 0 (raw :: rest)
  end.

(** The keys of the code lines, numbered as in the whole source. *)
Fixpoint exports (rel : string) (ls : list string) (i : nat) (segs : list segment)
  : list string :=
  match segs with
  | [] => []
  | Code raw :: r => (finding rel ls i raw ++ exports rel ls (S i) r)%list
  | TestBlock block :: r => exports rel ls (i + length block) r
  end.

Lemma scan_from_segments rel ls segs : forall i d acc,
  Forall seg_ok segs ->
  Z.abs d + braces (mjoin (map seg_lines segs)) <= I32_MAX ->
  out (scan_from rel ls i (mjoin (map seg_lines segs)) (mkScan None d acc)) =
  (acc ++ exports rel ls i segs)%list.
Proof.
  induction segs as [|[raw|[|raw block]] segs IH]; intros i d acc Hok Hfit.
  - simpl. by rewrite app_nil_r.
  - apply Forall_cons in Hok as [Hraw Hok]. simpl in Hraw. cbn [mjoin list_join map seg_lines app].
    cbn [Lint.scan_from]. rewrite scan_line_plain by done.
    apply depth_exact in Hfit as (-> & Hfit & _). rewrite IH by done.
    simpl exports. by rewrite app_assoc.
  - apply Forall_cons in Hok as [[] _].
  - apply Forall_cons in Hok as [[Ht Hc] Hok].
    change (mjoin (map seg_lines (TestBlock (raw :: block) :: segs)))
      with ((raw :: block) ++ mjoin (map seg_lines segs))%list in Hfit |- *.
    rewrite braces_app in Hfit.
    pose proof (braces_nonneg (mjoin (map seg_lines segs))).
    pose proof (net_braces (raw :: block)).
    rewrite scan_from_test by (done || lia). rewrite IH by (done || lia). done.
Qed.


(** ** What the report should be, told without the scanner *)

(** The longest run of word characters a text starts with. *)
Inductive Word : bytes -> bytes -> Prop :=
| Word_end l :
    (forall ch r, next_char l = Some (ch, r) -> word_char wide_alphanumeric ch = false) -> Word l []
| Word_more l ch r name :
    next_char l = Some (ch, r) -> word_char wide_alphanumeric ch = true -> Word r name ->
    Word l (ch ++ name).

(** A line that declares an exported item of that name: [pub], at most one of [async] and [unsafe],
    the keyword of an item, a name. *)
Definition Declares (line name : string) : Prop :=
  exists modifier keyword tail,
    line = "pub " +:+ modifier +:+ keyword +:+ tail /\
    modifier ∈ [""; "async "; "unsafe "] /\
    keyword ∈ ["fn "; "struct "; "enum "; "trait "; "type "; "const "; "static "; "union "] /\
    Word (as_bytes tail) (as_bytes name) /\ name <> "".

(** A comment above line [i] carries an annotation, and only comments, attributes and blank lines
    right under a comment are between the two. *)
Definition Annotated (ls : list string) (i : nat) : Prop :=
  exists j, (j < i)%nat /\ starts_with "//" (line_at ls j) = true /\
    (exists a b, line_at ls j = a +:+ "mirrors:" +:+ b \/ line_at ls j = a +:+ "no-go-equivalent:" +:+ b) /\
    forall k, (j < k < i)%nat ->
      starts_with "//" (line_at ls k) = true \/ starts_with "#" (line_at ls k) = true \/
      line_at ls k = "" /\ exists k', k = S k' /\ starts_with "//" (line_at ls k') = true.

(** A line without braces that does not end an item. *)
Definition bare (l : string) : Prop :=
  contains_char "{" l = false /\ contains_char "}" l = false /\ contains_char ";" l = false.

(** The net brace depth of some lines. *)
Definition nets (ls : list string) : Z := foldr (fun raw n => net raw + n) 0 ls.

(** An item under [#[cfg(test)]] with a braced body, from the attribute to the line on which the
    braces balance. *)
Definition Braced (block : list string) : Prop :=
  exists attrs first rest a b,
    block = (attrs ++ first :: rest)%list /\ (exists raw l, block = raw :: l /\ test_attr raw = true) /\
    Forall bare attrs /\ first = a +:+ "{" +:+ b /\ bare a /\ nets (first :: rest) = 0 /\
    forall p q, first :: rest = (p ++ q)%list -> p <> [] -> q <> [] -> 0 < nets p.

(** The report of a source cut into test blocks and other lines, from line [i] on. *)
Inductive Report (rel : string) (ls : list string) : nat -> list segment -> list string -> Prop :=
| Report_end i : Report rel ls i [] []
| Report_test i block segs keys :
    Braced block -> Report rel ls (i + length block) segs keys ->
    Report rel ls i (TestBlock block :: segs) keys
| Report_found i raw segs name keys :
    test_attr raw = false -> Declares (trim raw) name -> ~ Annotated ls i ->
    Report rel ls (S i) segs keys ->
    Report rel ls i (Code raw :: segs)
      ((rel +:+ ":" +:+ show_Z (Z.of_nat i + 1) +:+ ":" +:+ name) :: keys)
| Report_quiet i raw segs keys :
    test_attr raw = false -> (forall name, Declares (trim raw) name -> Annotated ls i) ->
    Report rel ls (S i) segs keys -> Report rel ls i (Code raw :: segs) keys.

(** *** The scanner's tests decide these relations *)

Lemma next_char_app l ch r : next_char l = Some (ch, r) -> l = (ch ++ r)%list /\ ch <> [].
Proof.
  unfold next_char. destruct l as [|a l]; [done|]. repeat case_match; intros E; simplify_eq/=; done.
Qed.

Lemma take_while_word fuel l :
  (length l <= fuel)%nat -> Word l (take_while_chars fuel (word_char wide_alphanumeric) l).
Proof.
  revert l. induction fuel as [|fuel IH]; intros l Hl; simpl.
  - destruct l; [|simpl in Hl; lia]. by constructor.
  - destruct (next_char l) as [[ch r]|] eqn:E; [|constructor; congruence].
    destruct (word_char wide_alphanumeric ch) eqn:Hw; [|constructor; congruence].
    apply (Word_more l ch r); [done..|]. apply IH.
    apply next_char_app in E as [-> Hne]. rewrite length_app in Hl. destruct ch; [done|]. simpl in Hl. lia.
Qed.

Lemma word_unique l n1 : Word l n1 -> forall n2, Word l n2 -> n1 = n2.
Proof.
  induction 1 as [l He|l ch r n1 E Hw _ IH]; intros n2 H2; inversion H2 as [? He'|? ch' r' ? E' Hw' H']; subst.
  - done.
  - specialize (He _ _ E'). congruence.
  - specialize (He' _ _ E). congruence.
  - rewrite E in E'. injection E' as <- <-. f_equal. by apply IH.
Qed.

Lemma word_name tail :
  let name := of_bytes (take_while_chars (String.length tail) (word_char wide_alphanumeric) (as_bytes tail)) in
  forall n, Word (as_bytes tail) (as_bytes n) <-> n = name.
Proof.
  intros name n.
  assert (Word (as_bytes tail) (as_bytes name)) as Hname.
  { unfold name. rewrite as_of_bytes. apply take_while_word.
    clear. induction tail as [|a s IH]; simpl; [lia|]. unfold as_bytes in *. simpl in *. lia. }
  split; [|by intros ->]. intros Hn. rewrite <- (of_as_bytes n), <- (of_as_bytes name).
  f_equal. by eapply word_unique.
Qed.

Lemma item_name_word ks rest name :
  item_name wide_alphanumeric ks rest = Some name ->
  exists keyword tail, keyword ∈ ks /\ rest = keyword +:+ tail /\
    Word (as_bytes tail) (as_bytes name) /\ name <> "".
Proof.
  induction ks as [|k ks IH]; cbn [item_name]; [done|].
  destruct (strip_prefix k rest) as [tail|] eqn:E.
  - apply strip_prefix_Some in E as ->. destruct (is_empty _) eqn:He; [done|]. intros [= <-].
    exists k, tail. split_and!; [by left|done|by apply word_name|]. intros E. by rewrite E in He.
  - intros (keyword & tail & Hin & H)%IH. exists keyword, tail. split; [by right|done].
Qed.

Lemma exported_item_keyword modifier keyword tail :
  modifier ∈ [""; "async "; "unsafe "] ->
  keyword ∈ ["fn "; "struct "; "enum "; "trait "; "type "; "const "; "static "; "union "] ->
  exported_item ("pub " +:+ modifier +:+ keyword +:+ tail) =
  let name := of_bytes
    (take_while_chars (String.length tail) (word_char wide_alphanumeric) (as_bytes tail)) in
  if is_empty name then None else Some name.
Proof.
  rewrite !elem_of_cons. intros Hm Hk.
  destruct Hm as [->|[->|[->|[]%elem_of_nil]]];
    destruct Hk as [->|[->|[->|[->|[->|[->|[->|[->|[]%elem_of_nil]]]]]]]]; reflexivity.
Qed.

Lemma exported_item_declares line name : exported_item line = Some name <-> Declares line name.
Proof.
  split.
  - unfold Lint.exported_item. destruct (_ || _); [done|].
    destruct (strip_prefix "pub " line) as [rest|] eqn:E; [|done]. apply strip_prefix_Some in E as ->.
    destruct (_ || _); [done|]. cbv zeta.
    destruct (strip_prefix "async " rest) as [r1|] eqn:E1;
      [|destruct (strip_prefix "unsafe " rest) as [r1|] eqn:E2]; cbn [from_option id];
      intros (keyword & tail & Hin & -> & Hw & Hne)%item_name_word.
    + apply strip_prefix_Some in E1 as ->. exists "async ", keyword, tail.
      split_and!; [done|set_solver|exact Hin|done..].
    + apply strip_prefix_Some in E2 as ->. exists "unsafe ", keyword, tail.
      split_and!; [done|set_solver|exact Hin|done..].
    + exists "", keyword, tail. split_and!; [done|set_solver|exact Hin|done..].
  - intros (modifier & keyword & tail & -> & Hm & Hk & Hw & Hne).
    rewrite (exported_item_keyword modifier keyword tail Hm Hk). cbv zeta.
    apply word_name in Hw. rewrite <- Hw. by destruct name.
Qed.

Lemma contains_spec p s : contains p s = true <-> exists a b, s = a +:+ p +:+ b.
Proof.
  unfold contains. split.
  - destruct (split_once p s) as [[a b]|] eqn:E; [|done]. intros _. exists a, b. by apply split_once_Some.
  - intros (a & b & ->). induction a as [|x a IH].
    + simpl. destruct (p +:+ b) eqn:E; cbn [split_once]; by rewrite <- E, strip_prefix_app.
    + change (String x a +:+ p +:+ b) with (String x (a +:+ p +:+ b)). cbn [split_once].
      destruct (strip_prefix p _); [done|]. by destruct (split_once p (a +:+ p +:+ b)) as [[]|].
Qed.

(** A balanced block is what the scanner skips: no line but its last closes it. *)
Lemma count_char_app c a b : count_char c (a +:+ b) = count_char c a + count_char c b.
Proof. induction a as [|x a IH]; simpl; [done|]. rewrite IH. lia. Qed.

Lemma count_char_free c s : contains_char c s = false -> count_char c s = 0.
Proof.
  induction s as [|x s IH]; simpl; [done|]. intros [Hx Hs]%orb_false_iff. rewrite Hx, IH by done. done.
Qed.

Lemma bare_net l : bare l -> net l = 0 /\ count_char "}" l = 0.
Proof. intros (H1 & H2 & _). unfold net. by rewrite !count_char_free. Qed.

Lemma balanced_closes block d :
  block <> [] -> d + nets block = 0 -> 0 <= d ->
  (d = 0 -> exists raw, head block = Some raw /\ 0 < count_char "{" raw) ->
  (forall p q, block = (p ++ q)%list -> p <> [] -> q <> [] -> 0 < d + nets p) ->
  closes_at_end d block.
Proof.
  revert d. induction block as [|raw rest IH]; intros d Hne Hsum Hd Hopen Hpre; [done|]. cbn [closes_at_end].
  unfold nets in Hsum. simpl in Hsum. destruct rest as [|raw2 rest].
  - simpl in Hsum. split; [lia|]. unfold net in *.
    destruct (decide (d = 0)) as [->|Hd0].
    + destruct Hopen as (x & Hx & Hc); [done|]. simpl in Hx. injection Hx as <-. lia.
    + pose proof (count_char_nonneg "{" raw). lia.
  - pose proof (Hpre [raw] (raw2 :: rest) eq_refl ltac:(done) ltac:(done)) as Hpos.
    unfold nets in Hpos. simpl in Hpos, Hsum. split; [lia|]. apply IH; [done|unfold nets; simpl; lia|lia|intros; lia|].
    intros p q E Hp Hq. specialize (Hpre (raw :: p) q ltac:(by rewrite E) ltac:(done) Hq).
    unfold nets in *. simpl in Hpre. lia.
Qed.

Lemma Braced_ok block : Braced block -> seg_ok (TestBlock block).
Proof.
  intros (attrs & first & rest & a & b & -> & (raw & l & E & Ht) & Hattrs & Hfirst & Ha & Hsum & Hpre).
  assert (closes_at_end 0 (first :: rest)) as Hc.
  { apply balanced_closes; [done|lia|lia| |by intros; apply Hpre with q].
    intros _. exists first. split; [done|]. rewrite Hfirst, !count_char_app. simpl.
    pose proof (count_char_nonneg "{" a). pose proof (count_char_nonneg "{" b). lia. }
  rewrite E. change (test_attr raw = true /\ closes_at_end 0 (raw :: l)). split; [done|].
  rewrite <- E. clear E Ht Hsum Hpre Hfirst.
  induction Hattrs as [|x attrs Hx _ IH]; [exact Hc|]. apply bare_net in Hx as [Hn Hz].
  cbn [app closes_at_end]. rewrite Hn, Hz.
  destruct (attrs ++ first :: rest)%list eqn:E; [by destruct attrs|]. split; [lia|exact IH].
Qed.

Lemma annotated_spec line :
  annotated line = true <->
  exists a b, line = a +:+ "mirrors:" +:+ b \/ line = a +:+ "no-go-equivalent:" +:+ b.
Proof.
  unfold annotated. cbn [existsb ANNOTATIONS]. rewrite orb_false_r, orb_true_iff, !contains_spec. naive_solver.
Qed.

Lemma is_comment_spec line : is_comment line = starts_with "//" line.
Proof.
  assert (forall p, starts_with ("//" +:+ p) line = true -> starts_with "//" line = true) as H.
  { intros p. unfold starts_with at 1. destruct (strip_prefix _ line) as [r|] eqn:E; [|done]. intros _.
    by apply strip_prefix_Some in E as ->. }
  unfold is_comment. destruct (starts_with "///" line) eqn:E1; [by rewrite (H "/" E1)|].
  destruct (starts_with "//!" line) eqn:E2; [by rewrite (H "!" E2)|done].
Qed.

Lemma between_spec ls k :
  is_comment (line_at ls k) || between ls k = true <->
  starts_with "//" (line_at ls k) = true \/ starts_with "#" (line_at ls k) = true \/
  line_at ls k = "" /\ exists k', k = S k' /\ starts_with "//" (line_at ls k') = true.
Proof.
  unfold between. rewrite is_comment_spec, !orb_true_iff, !andb_true_iff.
  assert (is_empty (line_at ls k) = true <-> line_at ls k = "") as -> by (by destruct (line_at ls k)).
  rewrite Z.ltb_lt. destruct k as [|k].
  - split; [|intros [H|[H|(_ & k' & E & _)]]; auto; done]. intros [H|[H|[[_ H] _]]]; auto; lia.
  - replace (S k - 1)%nat with k by lia. split.
    + intros [H|[H|[[H _] H']]]; auto. do 2 right. split; [done|]. by exists k.
    + intros [H|[H|(H & k' & [= <-] & H')]]; auto. do 2 right. split; [split; [done|lia]|done].
Qed.

(** The walk of [has_annotation] credits an annotation exactly when nothing but comments,
    attributes and blank lines under a comment separates it from the item. *)
Lemma has_annotation_spec ls index : has_annotation ls index = true <-> Annotated ls index.
Proof.
  assert (has_annotation ls index = true <->
    exists j, (j < index)%nat /\ is_comment (line_at ls j) = true /\ annotated (line_at ls j) = true /\
      forall k, (j < k < index)%nat -> is_comment (line_at ls k) || between ls k = true) as ->.
  { induction index as [|i IH]; simpl; [split; [done|]; intros (j & ? & _); lia|].
    split.
    - destruct (is_comment (line_at ls i)) eqn:Hc.
      + destruct (annotated (line_at ls i)) eqn:Ha.
        * intros _. exists i. split_and!; [lia|done|done|]. lia.
        * intros (j & Hj & H1 & H2 & H3)%IH. exists j. split_and!; [lia|done|done|].
          intros k Hk. destruct (decide (k = i)) as [-> |]; [by rewrite Hc|]. apply H3. lia.
      + destruct (between ls i) eqn:Hb; [|done].
        intros (j & Hj & H1 & H2 & H3)%IH. exists j. split_and!; [lia|done|done|].
        intros k Hk. destruct (decide (k = i)) as [-> |]; [by rewrite Hb, orb_true_r|]. apply H3. lia.
    - intros (j & Hj & H1 & H2 & H3). destruct (decide (j = i)) as [-> |Hne]; [by rewrite H1, H2|].
      assert (has_annotation ls i = true) as Hr
        by (apply IH; exists j; split_and!; [lia|done|done|intros k Hk; apply H3; lia]).
      specialize (H3 i ltac:(lia)). rewrite Hr.
      destruct (is_comment (line_at ls i)); [by destruct (annotated (line_at ls i))|].
      simpl in H3. by rewrite H3. }
  unfold Annotated. setoid_rewrite is_comment_spec. setoid_rewrite annotated_spec.
  split; intros (j & Hj & Hc & Ha & Hk); exists j; split_and!; try done; intros k Hr.
  - apply between_spec. rewrite is_comment_spec. by apply Hk.
  - rewrite <- is_comment_spec. apply between_spec. by apply Hk.
Qed.

(** *** The report *)

Definition seg_view (s : segment) : Prop :=
  match s with Code raw => test_attr raw = false | TestBlock block => Braced block end.

Lemma seg_view_ok s : seg_view s -> seg_ok s.
Proof. destruct s as [raw|block]; [done|]. apply Braced_ok. Qed.

Lemma exports_report rel ls segs i :
  Forall seg_view segs -> Report rel ls i segs (exports rel ls i segs).
Proof.
  intros Hall. revert i. induction Hall as [|[raw|block] segs Hs _ IH]; intros i; cbn [exports].
  - constructor.
  - unfold finding. destruct (exported_item (trim raw)) as [name|] eqn:E.
    + apply exported_item_declares in E as Hd. destruct (has_annotation ls i) eqn:Ha.
      * apply Report_quiet; [done| |done]. intros. by apply has_annotation_spec.
      * apply (Report_found rel ls i raw segs name); [done|done| |done].
        rewrite <- has_annotation_spec. by rewrite Ha.
    + apply Report_quiet; [done| |done]. intros name Hd%exported_item_declares. congruence.
  - by constructor.
Qed.
End ScannerFacts.

(** ** Keys are single, trimmed lines *)

(** A character of an identifier, as [take_while] sees it. *)
Definition wide_ok (wide : bytes -> bool) : Prop :=
  (forall a b, wide [a; b] = true -> ws2 a b = false) /\
  (forall a b c, wide [a; b; c] = true -> ws3 a b c = false).

Lemma in_range_ne lo hi a x : in_range lo hi a = true -> in_range lo hi x = false -> a <> x.
Proof. intros H1 H2 ->. congruence. Qed.

Lemma cont_ws c :
  cont c = true ->
  ws1 c = false /\ (forall b, ws2 c b = false) /\ (forall a b, ws3 c a b = false) /\
  c <> LF /\ c <> CR.
Proof.
  unfold cont. intros H. split_and!;
    [| | |by eapply in_range_ne|by eapply in_range_ne];
    unfold in_range, ws1, ws2, ws3 in *; zbool; intros;
    rewrite ?(proj2 (Z.eqb_neq (byte_of c) _)) by lia; rewrite ?andb_false_r; try done.
  rewrite (proj2 (Z.leb_gt (byte_of c) 13)) by lia. by rewrite andb_false_r.
Qed.

(** A character that is no whitespace ends a trimmed string. *)
Definition solid (ch : bytes) : Prop :=
  (forall l, trim_end_b (l ++ ch) = (l ++ ch)%list) /\
  Forall (fun a => a <> LF) ch /\ (exists l a, ch = (l ++ [a])%list /\ a <> CR).

Lemma rev_drop_fix f2 f3 (l ch : bytes) :
  drop_ws f2 f3 (rev ch ++ rev l) = (rev ch ++ rev l)%list ->
  rev (drop_ws f2 f3 (rev (l ++ ch))) = (l ++ ch)%list.
Proof. intros H. by rewrite rev_app_distr, H, <- rev_app_distr, rev_involutive. Qed.

Lemma solid_1 a : printable a = true -> solid [a].
Proof.
  intros Ha. split; [|split].
  - intros l. rewrite trim_end_stop by done. done.
  - repeat constructor. by intros ->.
  - exists [], a. split; [done|]. by intros ->.
Qed.

Lemma solid_2 a b : in_range 194 223 a = true -> cont b = true -> ws2 a b = false -> solid [a; b].
Proof.
  intros Ha Hb Hw. pose proof (cont_ws _ Hb) as (Hb1 & _ & _ & Hb4 & Hb5).
  split; [|split].
  - intros l. apply rev_drop_fix. simpl. rewrite Hb1, Hw.
    destruct (rev l) as [|x r]; [done|].
    replace (ws3 x a b) with false; [done|]. unfold in_range, ws3 in *. symmetry. zbool.
    rewrite !(proj2 (Z.eqb_neq (byte_of a) _)) by lia.
    by rewrite ?andb_false_r.
  - repeat constructor; [|done]. by eapply in_range_ne.
  - by exists [a], b.
Qed.

Lemma solid_3 a b c :
  in_range 224 239 a = true -> cont b = true -> cont c = true -> ws3 a b c = false ->
  solid [a; b; c].
Proof.
  intros Ha Hb Hc Hw. pose proof (cont_ws _ Hb) as (_ & Hb2 & _ & Hb4 & _).
  pose proof (cont_ws _ Hc) as (Hc1 & _ & _ & Hc4 & Hc5). split; [|split].
  - intros l. apply rev_drop_fix. simpl. by rewrite Hc1, Hb2, Hw.
  - repeat constructor; [|done|done]. by eapply in_range_ne.
  - by exists [a; b], c.
Qed.

Lemma solid_4 a b c d :
  in_range 240 244 a = true -> cont b = true -> cont c = true -> cont d = true ->
  solid [a; b; c; d].
Proof.
  intros Ha Hb Hc Hd. pose proof (cont_ws _ Hb) as (_ & _ & Hb3 & Hb4 & _).
  pose proof (cont_ws _ Hc) as (_ & Hc2 & _ & Hc4 & _).
  pose proof (cont_ws _ Hd) as (Hd1 & _ & _ & Hd4 & Hd5). split; [|split].
  - intros l. apply rev_drop_fix. simpl. by rewrite Hd1, Hc2, Hb3.
  - repeat constructor; [|done..]. by eapply in_range_ne.
  - by exists [a; b; c], d.
Qed.

Section Keys.

Variable wide_alphanumeric : bytes -> bool.
Hypothesis wide_not_space : wide_ok wide_alphanumeric.
Abbreviation word_char := (word_char wide_alphanumeric).

Lemma word_char_solid l ch r :
  next_char l = Some (ch, r) -> word_char ch = true -> solid ch.
Proof using wide_not_space.
  destruct wide_not_space as [W2 W3]. unfold next_char. destruct l as [|a l]; [done|].
  destruct (in_range 0 127 a); [|destruct (in_range 194 223 a) eqn:E2;
    [|destruct (in_range 224 239 a) eqn:E3]].
  - intros [= <- <-] Hw. apply solid_1. unfold Lint.word_char, printable, in_range in *.
    destruct (Ascii.eqb_spec a "_") as [-> |]; [done|]. rewrite orb_false_r in Hw.
    apply andb_true_iff. rewrite !Z.leb_le. rewrite !orb_true_iff, !andb_true_iff, !Z.leb_le in Hw.
    lia.
  - destruct l as [|b l]; [done|]. destruct (cont b) eqn:Hb; [|done].
    intros [= <- <-] Hw. apply solid_2; auto.
  - destruct l as [|b [|c l]]; [done..|]. destruct (cont b && cont c) eqn:Hbc; [|done].
    intros [= <- <-] Hw. zbool. apply solid_3; auto.
  - destruct l as [|b [|c [|d l]]]; [done..|].
    destruct (in_range 240 244 a && cont b && cont c && cont d) eqn:Hbc; [|done].
    intros [= <- <-] Hw. zbool. by apply solid_4.
Qed.

Lemma take_while_solid fuel : forall l,
  take_while_chars fuel word_char l = [] \/
  exists l' ch, take_while_chars fuel word_char l = (l' ++ ch)%list /\ solid ch /\
                Forall (fun a => a <> LF) l'.
Proof using wide_not_space.
  induction fuel as [|n IH]; intros l; [by left|]. simpl.
  destruct (next_char l) as [[ch r]|] eqn:E; [|by left].
  destruct (word_char ch) eqn:Hw; [|by left]. right.
  pose proof (word_char_solid _ _ _ E Hw) as Hs.
  destruct (IH r) as [-> |(l' & ch' & -> & Hs' & Hl')].
  - exists [], ch. rewrite app_nil_r. split_and!; [done|done|constructor].
  - exists (ch ++ l')%list, ch'. rewrite app_assoc. split_and!; [done|done|].
    apply Forall_app. split; [apply Hs|done].
Qed.

Lemma exported_item_solid line item :
  exported_item wide_alphanumeric line = Some item ->
  exists l ch, as_bytes item = (l ++ ch)%list /\ solid ch /\ Forall (fun a => a <> LF) l.
Proof using wide_not_space.
  unfold exported_item. destruct (_ || _); [done|].
  destruct (strip_prefix "pub " line) as [rest|]; [|done]. destruct (_ || _); [done|].
  generalize (match strip_prefix "async " rest with
              | Some r => r | None => default rest (strip_prefix "unsafe " rest) end).
  clear rest. intros rest. cbv zeta. generalize keywords.
  intros ks. induction ks as [|k ks IH]; cbn [item_name]; [done|].
  destruct (strip_prefix k rest) as [tail|]; [|done].
  destruct (is_empty _) eqn:He; [done|]. intros [= <-]. rewrite as_of_bytes.
  destruct (take_while_solid (String.length tail) (as_bytes tail)) as [E|?]; [|done].
  by rewrite E in He.
Qed.

(** What a key needs to survive the baseline file: it is one line, a comment mark does not start
    it and trimming keeps it. *)
Definition key_ok (k : string) : Prop :=
  line_ok k /\ trim k = k /\ baseline_entry k = true.

Lemma contains_char_bytes c s :
  contains_char c s = false <-> Forall (fun a => a <> c) (as_bytes s).
Proof using.
  induction s as [|a s IH]; simpl; [split; [constructor|done]|].
  by rewrite orb_false_iff, IH, Ascii.eqb_neq, Forall_cons.
Qed.

Lemma strip_cr_solid s l a : as_bytes s = (l ++ [a])%list -> a <> CR -> strip_cr s = s.
Proof using.
  intros Hs Ha. apply strip_cr_id. unfold strip_suffix. rewrite Hs, rev_app_distr.
  assert (Ascii.eqb CR a = false) as E by (apply Ascii.eqb_neq; congruence).
  change (of_bytes (rev [a] ++ rev l)) with (String a (of_bytes (rev l))).
  cbn [as_bytes list_ascii_of_string rev app of_bytes string_of_list_ascii strip_prefix].
  by rewrite E.
Qed.

Lemma export_key_ok rel i line item :
  exported_item wide_alphanumeric line = Some item -> contains_char LF rel = false ->
  (exists r, rel = String "c" r) -> key_ok (export_key rel i item).
Proof using wide_not_space.
  intros (l & ch & Hl & Hs & Hlf)%exported_item_solid Hrel [r Hr].
  set (k := export_key rel i item).
  assert (exists p, as_bytes k = ("c"%char :: p ++ l ++ ch)%list) as [p Hk].
  { unfold k, export_key. rewrite Hr. rewrite !as_bytes_app, Hl.
    eexists (as_bytes r ++ as_bytes ":" ++ as_bytes (show_Z (Z.of_nat i + 1)) ++ as_bytes ":")%list.
    cbn [as_bytes list_ascii_of_string]. by rewrite <- !app_assoc. }
  destruct Hs as (Htrim & Hch & l' & a & -> & Ha). split_and!; [split|..].
  - unfold k, export_key. rewrite !contains_char_app, Hrel. simpl.
    apply orb_false_iff. split.
    + by apply show_Z_digits; [lia|].
    + apply contains_char_bytes. rewrite Hl. by apply Forall_app.
  - eapply (strip_cr_solid _ ("c"%char :: p ++ l ++ l')%list a); [|done].
    rewrite Hk. simpl. by rewrite <- !app_assoc.
  - unfold trim. rewrite Hk.
    assert (trim_start_b ("c"%char :: p ++ l ++ l' ++ [a])
            = "c"%char :: (p ++ l ++ l' ++ [a]))%list as ->
      by apply (trim_start_stop "c"%char []), eq_refl.
    rewrite !app_comm_cons, !app_assoc, <- (app_assoc _ l' [a]), Htrim.
    rewrite <- (of_as_bytes k), Hk. f_equal. simpl. by rewrite <- !app_assoc.
  - rewrite <- (of_as_bytes k), Hk. done.
Qed.

End Keys.

(** ** Where keys come from *)

(** Induction on a tree, with the hypothesis for every readable entry of a directory. *)
Section NodeInd.

Variable P : node -> Prop.
Hypothesis P_file : forall c, P (File c).
Hypothesis P_unreadable : forall e, P (Dir (Err e)).
Hypothesis P_dir : forall es,
  Forall (fun r => match r with Ok (_, c) => P c | Err _ => True end) es -> P (Dir (Ok es)).

Fixpoint node_ind_entries (n : node) : P n :=
  match n with
  | File c => P_file c
  | Dir (Err e) => P_unreadable e
  | Dir (Ok es) =>
      P_dir es
        ((fix go (es : list (result (string * node) string))
            : Forall (fun r => match r with Ok (_, c) => P c | Err _ => True end) es :=
            match es with
            | [] => List.Forall_nil _
            | (Ok (_, c) as r) :: es' => List.Forall_cons _ r es' (node_ind_entries c) (go es')
            | (Err _ as r) :: es' => List.Forall_cons _ r es' I (go es')
            end) es)
  end.

End NodeInd.

(** The names of a tree. *)
Fixpoint tree_names (n : node) : list string :=
  match n with
  | Dir (Ok es) =>
      (fix go (es : list (result (string * node) string)) : list string :=
         match es with
         | [] => []
         | Ok (name, c) :: es' => name :: tree_names c ++ go es'
         | Err _ :: es' => go es'
         end) es
  | _ => []
  end.

(** Every path found below [dir] is [dir] followed by names of the tree. *)
Lemma collect_rs_paths root n : forall dir acc files,
  collect_rs root dir n acc = Ok files ->
  forall f, f ∈ files -> f ∈ acc \/
    exists names, f.1 = (dir ++ names)%list /\ names ⊆ tree_names n.
Proof.
  induction n as [c|e|es IH] using node_ind_entries; [done..|].
  intros dir. cbn [collect_rs tree_names]. induction IH as [|[[name child]|e] es Hc _ IH];
    intros acc files; [intros [= ->]; by left| |done].
  assert (Hweak : forall (f : path * result string string) ns m,
            (exists names, f.1 = (dir ++ names)%list /\ names ⊆ m) -> m ⊆ ns ->
            exists names, f.1 = (dir ++ names)%list /\ names ⊆ ns)
    by (intros f ns m (names & ? & ?) ?; exists names; set_solver).
  destruct child as [c|ch].
  - intros Hrest f Hf. destruct (IH _ _ Hrest f Hf) as [Hin|Hex];
      [|right; eapply Hweak; [exact Hex|set_solver]].
    destruct (extension_is_rs name); [|by left]. apply elem_of_app in Hin as [?|Hin]; [by left|].
    apply list_elem_of_singleton in Hin as ->. right. exists [name]. set_solver.
  - destruct (collect_rs root (dir ++ [name]) (Dir ch) acc) as [acc'|e] eqn:E; [|done].
    intros Hrest f Hf. destruct (IH _ _ Hrest f Hf) as [Hin|Hex];
      [|right; eapply Hweak; [exact Hex|set_solver]].
    destruct (Hc _ _ _ E f Hin) as [?|(names & -> & Hs)]; [by left|]. right.
    exists (name :: names). rewrite <- app_assoc. split; [done|]. set_solver.
Qed.

Lemma scan_line_new wide rel ls i raw st k :
  k ∈ out (scan_line wide rel ls i raw st) ->
  k ∈ out st \/
  exists item, exported_item wide (trim raw) = Some item /\ k = export_key rel i item.
Proof.
  unfold scan_line. case_match; simpl; [by left|].
  destruct (exported_item wide (trim raw)) as [item|] eqn:Hi; [|by left].
  destruct (_ && _); [by left|]. destruct (has_annotation ls i); [by left|]. simpl.
  rewrite elem_of_app, list_elem_of_singleton. intros [?| -> ]; [by left|]. right. by exists item.
Qed.

Lemma scan_new wide source rel acc k :
  k ∈ scan wide source rel acc ->
  k ∈ acc \/
  exists i line item, exported_item wide line = Some item /\ k = export_key rel i item.
Proof.
  unfold scan. generalize (lines source) at 1. intros ls.
  assert (forall todo i st, k ∈ out (scan_from wide rel ls i todo st) -> k ∈ out st \/
    exists i line item, exported_item wide line = Some item /\ k = export_key rel i item)
    as Hgen; [|apply Hgen].
  induction todo as [|raw todo IH]; intros i st; simpl; [by left|].
  intros [Hin|?]%IH; [|by right]. apply scan_line_new in Hin as [?|(item & ? & ?)]; [by left|].
  right. by exists i, (trim raw), item.
Qed.

Lemma replace_char_free a b c s :
  contains_char c s = false -> b <> c -> contains_char c (replace_char a b s) = false.
Proof.
  intros Hs Hb. induction s as [|x s IH]; [done|]. simpl in *.
  apply orb_false_iff in Hs as [Hx Hs]. apply orb_false_iff. split; [|auto].
  destruct (Ascii.eqb x a); [by apply Ascii.eqb_neq|done].
Qed.

Lemma join_path_free c p :
  Forall (fun s => contains_char c s = false) p -> "/"%char <> c ->
  contains_char c (join_path p) = false.
Proof.
  intros Hp Hc. unfold join_path. induction Hp as [|s p Hs Hp IH]; [done|].
  destruct p as [|s2 p]; [done|].
  change (String.concat "/" (s :: s2 :: p)) with (s +:+ "/" +:+ String.concat "/" (s2 :: p)).
  rewrite !contains_char_app, Hs, IH. cbn [contains_char].
  by rewrite (proj2 (Ascii.eqb_neq "/" c)) by done.
Qed.

(** File names of the six crates hold no line feed. *)
Definition names_ok (w : Workspace) : Prop :=
  forall krate n name, krate_src w krate = Some n -> name ∈ tree_names n ->
                       contains_char LF name = false.

Section Collected.

Variable wide_alphanumeric : bytes -> bool.
Hypothesis wide_not_space : wide_ok wide_alphanumeric.

Lemma scan_files_keys root files acc keys :
  scan_files wide_alphanumeric root files acc = Ok keys ->
  Forall (fun f => exists r, f.1 = "crates" :: r /\
                   Forall (fun s => contains_char LF s = false) r) files ->
  Forall key_ok acc -> Forall key_ok keys.
Proof using wide_not_space.
  intros Hs Hf. revert acc Hs. induction Hf as [|[p c] files (r & Hp & Hr) _ IH]; intros acc;
    simpl; [by intros [= ->]|].
  destruct c as [source|e]; [|done]. intros Hs Hacc. apply (IH _ Hs).
  apply Forall_forall. intros k Hk. apply scan_new in Hk as [Hk|(i & line & item & Hi & ->)];
    [by eapply Forall_forall in Hacc|].
  simpl in Hp. subst p. eapply export_key_ok; [done|exact Hi|..].
  - apply replace_char_free; [|done]. apply join_path_free; [by constructor|done].
  - destruct r; simpl; eauto.
Qed.

Lemma collect_keys w keys :
  collect wide_alphanumeric w = Ok keys -> names_ok w -> Forall key_ok keys.
Proof using wide_not_space.
  unfold collect. intros Hc Hn.
  assert (Hall : Forall (fun k => contains_char LF k = false) SCOPE) by (repeat constructor).
  assert (forall ks acc found, Forall (fun k => contains_char LF k = false) ks ->
    collect_krates wide_alphanumeric (root w) (krate_src w) ks acc = Ok found -> Forall key_ok acc ->
    Forall key_ok found) as Hgen.
  { intros ks. induction ks as [|k ks IH]; intros acc found Hks; simpl; [by intros [= ->]|].
    apply Forall_cons in Hks as [Hk Hks].
    destruct (krate_src w k) as [n|] eqn:En; [|done]. destruct (is_dir n); [|done].
    destruct (collect_rs (root w) _ n []) as [files|] eqn:Ef; [|done].
    destruct (scan_files _ _ _ _) as [acc'|] eqn:Es; [|done]. intros Hrest Hacc.
    apply (IH _ _ Hks Hrest). eapply scan_files_keys; [exact Es| |done].
    apply Forall_forall. intros f Hf. rewrite (merge_sort_Permutation path_le files) in Hf.
    destruct (collect_rs_paths _ _ _ _ _ Ef f Hf) as [Hnil|(ns & -> & Hs)];
      [by apply not_elem_of_nil in Hnil|].
    exists (k :: "src" :: ns). split; [done|]. repeat (constructor; [done|]).
    apply Forall_forall. intros s Hin. eapply Hn; eauto. }
  destruct (collect_krates _ _ _ SCOPE []) as [found|] eqn:E; [|done]. injection Hc as <-.
  rewrite (merge_sort_Permutation string_le found). eapply Hgen; eauto.
Qed.

(** The baseline file read back holds the keys it was rendered from. *)
Lemma baseline_roundtrip w keys :
  Forall key_ok keys -> baseline_file w = Ok (render_baseline keys) ->
  read_baseline w = btree_of keys.
Proof using.
  intros Hk Hb. unfold read_baseline. rewrite Hb. simpl. rewrite render_unlines.
  destruct (lines_header (foldr (fun l r => l +:+ nl +:+ r) "" keys)) as (hs & -> & Hhs).
  rewrite lines_unlines by (eapply Forall_impl; [exact Hk|intros k [Hl _]; exact Hl]).
  rewrite map_app, filter_app.
  assert (filter (fun l => baseline_entry l = true) (map trim hs) = []) as ->.
  { apply filter_nil_iff. intros x (h & -> & Hh)%list_elem_of_fmap.
    rewrite (proj1 (Forall_forall _ _) Hhs h Hh). done. }
  simpl. f_equal. clear Hb hs Hhs. induction Hk as [|k keys (_ & Ht & He) _ IH]; [done|].
  rewrite map_cons, Ht, filter_cons_True by exact He. by f_equal.
Qed.

End Collected.

(** ** The lint's promises *)


Definition ascii_only (_ : bytes) : bool := false.

Definition sample_source : string :=
  "/// mirrors: `pkg.Real`" +:+ nl +:+ "pub fn real() {}" +:+ nl
  +:+ "#[cfg(test)]" +:+ nl +:+ "mod tests {" +:+ nl +:+ "    pub fn helper() {}" +:+ nl
  +:+ "}" +:+ nl +:+ "impl S {" +:+ nl +:+ "    pub async fn late() {" +:+ nl +:+ "}}" +:+ nl.


(** A [#[cfg(test)]] on an item without braces hides every export after it, up to and with the
    next line that closes a brace at that depth. *)
Lemma test_use_hides_next :
  scan ascii_only ("#[cfg(test)]" +:+ nl +:+ "use std::fmt;" +:+ nl +:+ "pub fn real() {}" +:+ nl)
    "x.rs" [] = [].
Proof. reflexivity. Qed.

(** A [const fn] is keyed by the keyword that follows [const], not by its name. *)
Lemma const_fn_key wide rest :
  exported_item wide ("pub const fn " +:+ rest) = Some "fn".
Proof. reflexivity. Qed.

(** C27: The ratchet: without flags the lint passes exactly when the collection succeeds and the
    unannotated exports are the baseline's entries, neither more nor fewer; and it changes
    nothing. *)
Theorem lint_ratchet wide w :
  let '((code, _), w') := run wide [] w in
  w' = w /\
  (code = SUCCESS <->
   exists found, collect wide w = Ok found /\ forall k, k ∈ found <-> k ∈ read_baseline w).
Proof.
  unfold run. cbn [existsb]. destruct (collect wide w) as [found|err] eqn:Hc;
    [|split; [done|]; split; [done|]; by intros (f & ? & _)].
  assert (Hboth : new_keys found (read_baseline w) = [] /\ stale_keys found (read_baseline w) = []
                  <-> forall k, k ∈ found <-> k ∈ read_baseline w).
  { unfold new_keys, stale_keys. rewrite !filter_nil_iff. split.
    - intros [Hn Hs] k. split; intros Hk.
      + apply btree_contains_spec, not_false_is_true, (Hn k). by apply elem_of_btree_of.
      + apply elem_of_btree_of, btree_contains_spec, not_false_is_true. by apply (Hs k).
    - intros H. split; intros k Hk; apply not_false_iff_true, btree_contains_spec.
      + by apply H, elem_of_btree_of.
      + by apply elem_of_btree_of, H. }
  destruct (new_keys _ _) as [|n ns] eqn:En, (stale_keys _ _) as [|s ss] eqn:Es;
    (split; [done|]; split; [intros Hcode; try discriminate; exists found; tauto|]);
    intros (f & [= <-] & Hf); try done; exfalso; apply Hboth in Hf as [? ?]; done.
Qed.

(** C28: [--update-baseline] then the plain run passes, as long as the write left its text in the
    file and file names hold no line feed: rendering and reading the baseline is a round trip
    on the collected keys, whatever they are. *)
Theorem update_then_lint wide w :
  wide_ok wide -> names_ok w ->
  (forall text, write_baseline w text = (Ok tt, Ok text)) ->
  forall printed w',
    run wide ["--update-baseline"] w = ((SUCCESS, printed), w') ->
    (run wide [] w').1.1 = SUCCESS.
Proof.
  intros Hw Hn Hwrite printed w'. unfold run at 1.
  destruct (collect wide w) as [found|] eqn:Hc; [|done].
  change (existsb (fun a => String.eqb a "--update-baseline") _) with true.
  cbv zeta iota. rewrite Hwrite.
  intros [= <- <-]. pose proof (collect_keys wide Hw w found Hc Hn) as Hk.
  set (w' := mkWorkspace _ _ _ _).
  assert (Hc' : collect wide w' = Ok found) by exact Hc.
  unfold run. cbn [existsb]. rewrite Hc'.
  assert (Hb : read_baseline w' = btree_of found) by exact (baseline_roundtrip w' found Hk eq_refl).
  rewrite Hb.
  unfold new_keys, stale_keys.
  rewrite !(proj2 (filter_nil_iff _ _)); [done|..];
    intros k Hk'; apply not_false_iff_true, btree_contains_spec; done.
Qed.

Definition sample_workspace : Workspace :=
  mkWorkspace "/repo"
    (fun _ => Some (Dir (Ok [Ok ("lib.rs", File (Ok sample_source));
                             Ok ("sub", Dir (Ok [Ok ("a.rs", File (Ok "pub struct Thing;"))]))])))
    (Err "No such file") (fun text => (Ok tt, Ok text)).

Lemma update_then_lint_witness :
  (run ascii_only [] sample_workspace).1.1 = FAILURE /\
  (run ascii_only [] (run ascii_only ["--update-baseline"] sample_workspace).2).1.1 = SUCCESS.
Proof.
  split; [vm_compute; reflexivity|].
  apply (update_then_lint ascii_only sample_workspace) with
    (printed := [Out "lint-mirrors: baseline updated with 12 entries"]).
  - by split.
  - intros krate n name [= <-] Hin.
    change (name ∈ ["lib.rs"; "sub"; "a.rs"]) in Hin. set_solver.
  - done.
  - vm_compute. reflexivity.
Defined.
