(* ===== verification/Logging.v ===== *)
(** The process-wide side of [pc-log]: the emit macros and the state they share ([lib.rs]), the
    keyed limiter ([limiter.rs]) and its twin in [pc-resilience] ([ratelimit.rs]), and the
    timestamp of a line ([timer.rs]).

    [Log] has the pure parts. Here they act on one [Process]: the installed sampler, the window
    limiter, the forwarding hook's mask, the subscriber and what reached the two sinks. The
    [tracing] subscriber decides by [enabled] whether its filter lets a level through; the
    [governor] crate is the interface [Governor] with the law its documentation states. *)
From S2P Require Export Log.
Local Open Scope string_scope.
Local Open Scope Z_scope.

(** ** Timestamps ([timer.rs]) *)

(** The fields of an [OffsetDateTime] the format prints; the year has four digits. *)
Record DateTime := mkDateTime {
  year : Z; month : Z; day : Z; hour : Z; minute : Z; second : Z; nanosecond : Z;
}.

(** Decimal digits padded with zeros to a width. *)
Definition pad (width : nat) (n : Z) : string :=
  let s := show_Z n in zeros (width - String.length s) +:+ s.

(** [GoTimer::format_time]: the local time, or UTC where the local offset is unknown. *)
Definition format_time (now_local : option DateTime) (now_utc : DateTime) : string :=
  let now := default now_utc now_local in
  pad 4 (year now) +:+ "-" +:+ pad 2 (month now) +:+ "-" +:+ pad 2 (day now) +:+ " "
  +:+ pad 2 (hour now) +:+ ":" +:+ pad 2 (minute now) +:+ ":" +:+ pad 2 (second now) +:+ "."
  +:+ pad 3 (nanosecond now / 1000000).

(** ** The process *)

(** [subscriber] is the filter of the installed subscriber, if one is; [stdout] the lines it
    wrote and [forwarded] the calls of the hook, oldest first. *)
Record Process := mkProcess {
  sampler : Sampler;
  windows : gmap string RateLimitEntry;
  forwarding : option Z;
  subscriber : option string;
  stdout : list string;
  forwarded : list (string * string);
}.

Definition Process_initial : Process := mkProcess (sampler_new None) ∅ None None [] [].

Section Emit.

(** [EnvFilter]: whether a filter directive lets a level through. *)
Variable enabled : string -> Level -> bool.

(** One [tracing] event: the subscriber formats it when its filter lets it through. *)
Definition event (timestamp : string) (level : Level) (fields : list (string * string))
  (p : Process) : Process :=
  match subscriber p with
  | Some filter =>
      if enabled filter level then
        mkProcess (sampler p) (windows p) (forwarding p) (subscriber p)
          (stdout p ++ [format_event timestamp level fields])%list (forwarded p)
      else p
  | None => p
  end.

Definition call_hook (level pfx message : string) (p : Process) : Process :=
  match forward (forwarding p) level pfx message with
  | Some call => mkProcess (sampler p) (windows p) (forwarding p) (subscriber p) (stdout p)
                   (forwarded p ++ [call])%list
  | None => p
  end.

(** The levels of the macros; [LFatal] is [fatal]. *)
Inductive LogLevel := LFatal | LError | LWarn | LInfo | LDebug.

Definition level_name (l : LogLevel) : string :=
  match l with
  | LFatal => "fatal" | LError => "error" | LWarn => "warn" | LInfo => "info" | LDebug => "debug"
  end.

Definition tracing_level (l : LogLevel) : Level :=
  match l with
  | LFatal | LError => ERROR | LWarn => WARN | LInfo => INFO | LDebug => DEBUG
  end.

(** [__pc_emit!] *)
Definition pc_emit (timestamp : string) (level : LogLevel) (pfx msg : string) (p : Process)
  : Process :=
  let fields :=
    ((match level with LFatal => [("pc_level", "fatal")] | _ => [] end)
     ++ [("prefix", pfx); ("message", msg)])%list in
  call_hook (level_name level) pfx msg (event timestamp (tracing_level level) fields p).

Definition set_sampler (s : Sampler) (p : Process) : Process :=
  mkProcess s (windows p) (forwarding p) (subscriber p) (stdout p) (forwarded p).
Definition set_windows (w : gmap string RateLimitEntry) (p : Process) : Process :=
  mkProcess (sampler p) w (forwarding p) (subscriber p) (stdout p) (forwarded p).

(** One call of a macro: its clock readings, its format literal and the formatted message. *)
Record Call := mkCall { now : Z; timestamp : string; fmt : string; message : string }.

(** [__pc_log_rated!]: sample by an explicit key. *)
Definition pc_log_rated (level : LogLevel) (key pfx : string) (c : Call) (p : Process)
  : Process :=
  match sample (now c) key (sampler p) with
  | (Some suppressed, s) =>
      pc_emit (timestamp c) level pfx (with_suffix (message c) suppressed) (set_sampler s p)
  | (None, s) => set_sampler s p
  end.

(** [__pc_log!]: sample by the format literal. *)
Definition pc_log (level : LogLevel) (pfx : string) (c : Call) (p : Process) : Process :=
  match sample (now c) (fmt c) (sampler p) with
  | (Some suppressed, s) =>
      pc_emit (timestamp c) level pfx (with_suffix (message c) suppressed) (set_sampler s p)
  | (None, s) => set_sampler s p
  end.

(** [__pc_log_rated_w!]: a time window by an explicit key. *)
Definition pc_log_rated_w (level : LogLevel) (key : string) (window : Z) (pfx : string)
  (c : Call) (p : Process) : Process :=
  match sample_window (now c) key window (windows p) with
  | (Some suppressed, w) =>
      pc_emit (timestamp c) level pfx (with_suffix (message c) suppressed) (set_windows w p)
  | (None, w) => set_windows w p
  end.

Definition log_d : string -> Call -> Process -> Process := pc_log LDebug.
Definition log_i : string -> Call -> Process -> Process := pc_log LInfo.
Definition log_w : string -> Call -> Process -> Process := pc_log LWarn.
Definition log_e : string -> Call -> Process -> Process := pc_log LError.
Definition log_f : string -> Call -> Process -> Process := pc_log LFatal.

Definition log_d_rated : string -> string -> Call -> Process -> Process := pc_log_rated LDebug.
Definition log_i_rated : string -> string -> Call -> Process -> Process := pc_log_rated LInfo.
Definition log_w_rated : string -> string -> Call -> Process -> Process := pc_log_rated LWarn.
Definition log_e_rated : string -> string -> Call -> Process -> Process := pc_log_rated LError.

Definition log_d_rated_w : string -> Z -> string -> Call -> Process -> Process :=
  pc_log_rated_w LDebug.
Definition log_i_rated_w : string -> Z -> string -> Call -> Process -> Process :=
  pc_log_rated_w LInfo.
Definition log_w_rated_w : string -> Z -> string -> Call -> Process -> Process :=
  pc_log_rated_w LWarn.
Definition log_e_rated_w : string -> Z -> string -> Call -> Process -> Process :=
  pc_log_rated_w LError.

End Emit.

(** [configure_log_forwarding] *)
Definition configure_log_forwarding (env : string -> option string) (p : Process) : Process :=
  mkProcess (sampler p) (windows p) (Some (forwarding_levels env)) (subscriber p) (stdout p)
    (forwarded p).

(** [init]: the sampler is installed anew; [try_init] keeps a subscriber that is there. *)
Definition init (env : string -> option string) (id : Identity) (p : Process) : Process :=
  let '(s, filter) := log_init env id in
  mkProcess s (windows p) (forwarding p)
    (match subscriber p with Some f => Some f | None => Some filter end) (stdout p) (forwarded p).

(** ** Keyed limiters ([pc-log/limiter.rs], [pc-resilience/ratelimit.rs]) *)

(** [governor]: quotas and the keyed limiter with its clock reading. *)
Class Governor (K Quota Limiter : Type) `{EqDecision K} := {
  per_second : Z -> Quota;
  allow_burst : Z -> Quota -> Quota;
  keyed : Quota -> Limiter;
  check_key : Z -> K -> Limiter -> bool * Limiter;
  burst_size : Quota -> Z;
  burst_per_second n : burst_size (per_second n) = n;
  burst_allow_burst n q : burst_size (allow_burst n q) = n;
  (** Within one instant a key's bucket holds its burst: the check after [keys] passes as long as
      fewer than that many of them were for the same key. *)
  check_key_burst q t keys key :
    (check_key t key (run_trace (check_key t) keys (keyed q)).2).1 =
    (Z.of_nat (length (filter (fun k => k = key) keys)) <? burst_size q);
}.

Section Limiters.
Context {Quota Limiter : Type} `{Governor string Quota Limiter}.

(** [NonZeroU32::new(n).unwrap_or(NonZeroU32::MIN)] *)
Definition nonzero_or_min (n : Z) : Z := if n =? 0 then 1 else n.

(** [KeyedLimiter::new] *)
Definition keyed_limiter_new (rate_per_sec burst : Z) : Limiter :=
  let rate := nonzero_or_min rate_per_sec in
  let burst := nonzero_or_min burst in
  let quota := allow_burst burst (per_second rate) in
  keyed quota.

(** [KeyedLimiter::allow] *)
Definition keyed_limiter_allow (t : Z) (key : string) (l : Limiter) : bool * Limiter :=
  check_key t key l.

End Limiters.

Section RateLimiters.
Context {K Quota Limiter : Type} `{Governor K Quota Limiter}.

(** [KeyedRateLimiter::new] *)
Definition keyed_rate_limiter_new (quota : Quota) : Limiter := keyed quota.

(** [KeyedRateLimiter::per_second] *)
Definition keyed_rate_limiter_per_second (rate : Z) : Limiter :=
  keyed_rate_limiter_new (per_second rate).

(** [KeyedRateLimiter::allow] *)
Definition keyed_rate_limiter_allow (t : Z) (key : K) (l : Limiter) : bool * Limiter :=
  check_key t key l.

End RateLimiters.

(** ** Two sinks, one stream of lines *)

(** A line that passed its limiter, before either sink sees it. *)
Record Line := mkLine { l_timestamp : string; l_level : LogLevel; l_prefix : string; l_msg : string }.

(** One call of one of the thirteen macros. *)
Inductive LogOp :=
| ByFormat (level : LogLevel) (pfx : string) (c : Call)
| ByKey (level : LogLevel) (key pfx : string) (c : Call)
| ByWindow (level : LogLevel) (key : string) (window : Z) (pfx : string) (c : Call).

Definition log_step (enabled : string -> Level -> bool) (op : LogOp) (p : Process) : Process :=
  match op with
  | ByFormat level pfx c => pc_log enabled level pfx c p
  | ByKey level key pfx c => pc_log_rated enabled level key pfx c p
  | ByWindow level key window pfx c => pc_log_rated_w enabled level key window pfx c p
  end.

Definition log_run (enabled : string -> Level -> bool) (ops : list LogOp) (p : Process)
  : Process := fold_left (fun p op => log_step enabled op p) ops p.

(** The limiters alone: what a call lets through, as a line. *)
Definition Limits : Type := (Sampler * gmap string RateLimitEntry)%type.

Definition line_of (level : LogLevel) (pfx : string) (c : Call) (suppressed : Z) : Line :=
  mkLine (timestamp c) level pfx (with_suffix (message c) suppressed).

Definition limit_step (op : LogOp) (l : Limits) : option Line * Limits :=
  match op with
  | ByFormat level pfx c =>
      let '(o, s) := sample (now c) (fmt c) l.1 in (line_of level pfx c <$> o, (s, l.2))
  | ByKey level key pfx c =>
      let '(o, s) := sample (now c) key l.1 in (line_of level pfx c <$> o, (s, l.2))
  | ByWindow level key window pfx c =>
      let '(o, w) := sample_window (now c) key window l.2 in
      (line_of level pfx c <$> o, (l.1, w))
  end.

Definition lines_of (ops : list LogOp) (l : Limits) : list Line :=
  omap id (run_trace limit_step ops l).1.

(** What the terminal shows of a line, and what the hook is called with. *)
Definition render (enabled : string -> Level -> bool) (sub : option string) (l : Line)
  : option string :=
  match sub with
  | Some filter =>
      if enabled filter (tracing_level (l_level l)) then
        Some (format_event (l_timestamp l) (tracing_level (l_level l))
          ((match l_level l with LFatal => [("pc_level", "fatal")] | _ => [] end)
           ++ [("prefix", l_prefix l); ("message", l_msg l)]))
      else None
  | None => None
  end.

Definition hook_call (mask : option Z) (l : Line) : option (string * string) :=
  forward mask (level_name (l_level l)) (l_prefix l) (l_msg l).

Definition limits (p : Process) : Limits := (sampler p, windows p).

(** [p'] is [p] after the lines [ls] reached the sinks and the limiters moved to [l']. *)
Definition after_lines (enabled : string -> Level -> bool) (p : Process) (ls : list Line)
  (l' : Limits) : Process :=
  mkProcess l'.1 l'.2 (forwarding p) (subscriber p)
    (stdout p ++ omap (render enabled (subscriber p)) ls)
    (forwarded p ++ omap (hook_call (forwarding p)) ls).

Lemma pc_emit_after enabled level pfx c n p l' :
  pc_emit enabled (timestamp c) level pfx (with_suffix (message c) n)
    (mkProcess l'.1 l'.2 (forwarding p) (subscriber p) (stdout p) (forwarded p)) =
  after_lines enabled p [line_of level pfx c n] l'.
Proof.
  unfold pc_emit, call_hook, event, after_lines, hook_call, render. simpl.
  destruct (subscriber p) as [f|]; [destruct (enabled f _)|]; simpl;
    destruct (forward _ _ _ _); simpl; by rewrite ?app_nil_r.
Qed.

Lemma log_step_after enabled op p :
  log_step enabled op p =
  let '(o, l') := limit_step op (limits p) in after_lines enabled p (option_list o) l'.
Proof.
  assert (Hnone : forall l', mkProcess l'.1 l'.2 (forwarding p) (subscriber p) (stdout p) (forwarded p)
                  = after_lines enabled p [] l')
    by (intros l'; unfold after_lines; simpl; by rewrite !app_nil_r).
  destruct op as [level pfx c|level key pfx c|level key window pfx c]; simpl;
    unfold pc_log, pc_log_rated, pc_log_rated_w, set_sampler, set_windows.
  - destruct (sample _ _ _) as [[n|] s]; simpl; [apply (pc_emit_after _ _ _ _ _ _ (s, windows p))
                                                |apply (Hnone (s, windows p))].
  - destruct (sample _ _ _) as [[n|] s]; simpl; [apply (pc_emit_after _ _ _ _ _ _ (s, windows p))
                                                |apply (Hnone (s, windows p))].
  - destruct (sample_window _ _ _ _) as [[n|] w]; simpl;
      [apply (pc_emit_after _ _ _ _ _ _ (sampler p, w))|apply (Hnone (sampler p, w))].
Qed.

Lemma log_run_after enabled ops p :
  log_run enabled ops p =
  after_lines enabled p (lines_of ops (limits p)) (run_trace limit_step ops (limits p)).2.
Proof.
  revert p. induction ops as [|op ops IH]; intros p.
  - unfold after_lines. simpl. rewrite !app_nil_r. by destruct p.
  - unfold log_run. cbn [fold_left]. fold (log_run enabled ops (log_step enabled op p)).
    rewrite IH, log_step_after. unfold lines_of. cbn [run_trace].
    destruct (limit_step op (limits p)) as [o [s w]]. unfold after_lines. simpl.
    unfold limits. simpl. destruct (run_trace limit_step ops (s, w)) as [os l']. simpl.
    rewrite <- !app_assoc, <- !omap_app. by destruct o.
Qed.

(** The limiter's answers to [n] calls of one key in one period. *)
Lemma limit_run_period cfg level pfx key cs s w k t0 :
  config s = Some cfg -> 0 < initial cfg ->
  entries s !! key = Some (mkSamplerEntry k t0) -> 0 <= k ->
  k + Z.of_nat (length cs) <= I64_MAX ->
  Forall (fun c => elapsed (now c) t0 < period cfg /\ fmt c = key) cs ->
  (run_trace limit_step (map (ByFormat level pfx) cs) (s, w)).1 =
  imap (fun i c => let '(ok, n) := sampler_verdict cfg (k + 1 + Z.of_nat i) in
                   if ok : bool then Some (line_of level pfx c n) else None) cs.
Proof.
  intros Hc Hi He Hk Hb Hcs. revert s k Hc He Hk Hb.
  induction Hcs as [|c cs [Ht Hf] Hcs IH]; intros s k Hc He Hk Hb; [done|].
  simpl length in *. cbn [map run_trace limit_step fst snd]. unfold sample. rewrite Hf.
  rewrite (sampler_check_in_period (now c) key s cfg _ Hc Hi He Ht) by (simpl; lia). simpl count.
  specialize (IH (mkSampler (Some cfg) (<[key:=mkSamplerEntry (k + 1) t0]> (entries s))) (k + 1)
                 eq_refl (lookup_insert_eq _ _ _) ltac:(lia) ltac:(lia)).
  rewrite imap_cons. simpl reset. rewrite Z.add_0_r.
  destruct (sampler_verdict cfg (k + 1)) as [[|] n]; simpl;
    destruct (run_trace limit_step _ _) as [os l']; simpl in *; f_equal; rewrite IH;
    apply imap_ext; intros i x _; simpl;
    by replace (k + 1 + 1 + Z.of_nat i) with (k + 1 + Z.of_nat (S i)) by lia.
Qed.

(** A token bucket that satisfies [Governor]: what [governor] promises can be had. *)
Section TokenBucket.
Context {K : Type} `{Countable K}.

Record TokenBuckets := mkTokenBuckets {
  tb_rate : Z;
  tb_burst : Z;
  tb_keys : gmap K (Z * Z);
}.

Definition tb_check (t : Z) (key : K) (b : TokenBuckets) : bool * TokenBuckets :=
  let '(tokens, last) := default (tb_burst b, t) (tb_keys b !! key) in
  let tokens := Z.min (tb_burst b) (tokens + (t - last) * tb_rate b / NANOS) in
  let ok := 0 <? tokens in
  (ok, mkTokenBuckets (tb_rate b) (tb_burst b)
         (<[key := (if ok then tokens - 1 else tokens, t)]> (tb_keys b))).

Definition tb_count (key : K) (keys : list K) : Z :=
  Z.of_nat (length (filter (fun k => k = key) keys)).

Lemma tb_count_cons key k ks :
  tb_count key (k :: ks) = (if decide (k = key) then 1 else 0) + tb_count key ks.
Proof. unfold tb_count. rewrite filter_cons. case_decide; cbn [length]; lia. Qed.

(** After checks at one instant a key holds what its burst has left. *)
Lemma tb_run q t keys : forall b,
  tb_burst b = q ->
  (forall k, exists n, 0 <= n /\ default (q, t) (tb_keys b !! k) = (Z.max (Z.min q 0) (q - n), t)) ->
  let b' := (run_trace (tb_check t) keys b).2 in
  tb_burst b' = q /\
  forall k n, 0 <= n -> default (q, t) (tb_keys b !! k) = (Z.max (Z.min q 0) (q - n), t) ->
    default (q, t) (tb_keys b' !! k) = (Z.max (Z.min q 0) (q - (n + tb_count k keys)), t).
Proof.
  induction keys as [|x keys IH]; intros b Hq Hall; simpl.
  - split; [done|]. intros k n Hn ->. unfold tb_count. simpl. by rewrite Z.add_0_r.
  - destruct (Hall x) as (nx & Hnx & Hx).
    assert (Hstep : (tb_check t x b).2 = mkTokenBuckets (tb_rate b) q
              (<[x := (Z.max (Z.min q 0) (q - (nx + 1)), t)]> (tb_keys b))).
    { unfold tb_check. rewrite Hq, Hx, Z.sub_diag, Z.mul_0_l, Z.div_0_l by (by vm_compute).
      rewrite Z.add_0_r. cbn [snd]. do 3 f_equal.
      destruct (Z.ltb_spec 0 (Z.min q (Z.max (Z.min q 0) (q - nx)))); lia. }
    destruct (tb_check t x b) as [o b1]. simpl in Hstep. subst b1.
    edestruct (IH (mkTokenBuckets (tb_rate b) q
              (<[x := (Z.max (Z.min q 0) (q - (nx + 1)), t)]> (tb_keys b)))) as [Hq' Hk'];
      [done| |].
    { intros k. simpl. destruct (decide (k = x)) as [-> |Hne].
      - rewrite lookup_insert_eq. exists (nx + 1). split; [lia|done].
      - by rewrite lookup_insert_ne. }
    destruct (run_trace _ keys _) as [os b']. simpl in *. split; [done|].
    intros k n Hn Hkn. rewrite tb_count_cons. destruct (decide (x = k)) as [-> |Hne].
    + rewrite (Hk' k (nx + 1)); [|lia|by rewrite lookup_insert_eq].
      rewrite Hx in Hkn. injection Hkn as Hkn. apply (f_equal (fun z => (z, t))).
      assert (0 <= tb_count k keys) by (unfold tb_count; lia). lia.
    + rewrite (Hk' k n); [f_equal; lia|lia|]. by rewrite lookup_insert_ne.
Qed.

#[export] Program Instance token_bucket : Governor K (Z * Z) TokenBuckets := {
  per_second n := (n, n);
  allow_burst n q := (q.1, n);
  keyed q := mkTokenBuckets q.1 q.2 ∅;
  check_key := tb_check;
  burst_size q := q.2;
}.
Next Obligation. done. Qed.
Next Obligation. done. Qed.
Next Obligation.
  intros [r q] t keys key. simpl.
  destruct (tb_run q t keys (mkTokenBuckets r q ∅) eq_refl) as [Hb Hk].
  { intros k. exists 0. split; [lia|]. simpl. rewrite lookup_empty. simpl. f_equal. lia. }
  specialize (Hk key 0 ltac:(lia)). simpl in Hk. rewrite lookup_empty in Hk. simpl in Hk.
  specialize (Hk ltac:(f_equal; lia)). revert Hb Hk.
  generalize (run_trace (tb_check t) keys (mkTokenBuckets r q ∅)).2. intros b Hb Hk.
  unfold tb_check. rewrite Hb, Hk.
  rewrite Z.sub_diag, Z.mul_0_l, Z.div_0_l by (by vm_compute). simpl. unfold tb_count.
  set (n := Z.of_nat _). assert (0 <= n) by lia.
  destruct (Z.ltb_spec n q), (Z.ltb_spec 0 (Z.min q (Z.max (Z.min q 0) (q - (0 + n)) + 0))); try done; lia.
Qed.

End TokenBucket.

(** The lines of a burst: the induction behind [log_burst]. *)
Lemma lines_burst cfg level pfx p c0 cs :
  config (sampler p) = Some cfg -> 0 < initial cfg -> 0 < period cfg ->
  entries (sampler p) !! fmt c0 = None -> 1 + Z.of_nat (length cs) <= I64_MAX ->
  Forall (fun c => elapsed (now c) (now c0) < period cfg /\ fmt c = fmt c0) cs ->
  lines_of (map (ByFormat level pfx) (c0 :: cs)) (limits p) =
  omap id (imap (fun i c =>
    if Z.of_nat i <? initial cfg then Some (line_of level pfx c 0)
    else if thereafter cfg =? 0 then None
    else if Z.rem (Z.of_nat i + 1 - initial cfg) (thereafter cfg) =? 0
         then Some (line_of level pfx c (thereafter cfg - 1))
         else None) (c0 :: cs)).
Proof.
  intros Hc Hi Hp He Hb Hcs. unfold lines_of, limits. f_equal.
  assert (Hv : forall i c, (let '(ok, n) := sampler_verdict cfg (1 + Z.of_nat i) in
                       if ok : bool then Some (line_of level pfx c n) else None) =
    if Z.of_nat i <? initial cfg then Some (line_of level pfx c 0)
    else if thereafter cfg =? 0 then None
    else if Z.rem (Z.of_nat i + 1 - initial cfg) (thereafter cfg) =? 0
         then Some (line_of level pfx c (thereafter cfg - 1)) else None).
  { intros i c. unfold sampler_verdict.
    replace (1 + Z.of_nat i <=? initial cfg) with (Z.of_nat i <? initial cfg)
      by (destruct (Z.ltb_spec (Z.of_nat i) (initial cfg)), (Z.leb_spec (1 + Z.of_nat i) (initial cfg));
          lia || done).
    rewrite (Z.add_comm 1). repeat case_match; simplify_eq; done. }
  rewrite imap_cons. rewrite <- (Hv O). cbn [map run_trace limit_step fst snd].
  unfold sample, sampler_check at 1. rewrite Hc, He. cbn [default from_option].
  rewrite (proj2 (Z.ltb_lt _ _) Hi). unfold elapsed at 1. cbn [reset count].
  rewrite Z.sub_diag, Z.max_id, (proj2 (Z.leb_gt _ _) Hp).
  rewrite i64_add_small by (unfold I64_MAX; lia).
  pose proof (limit_run_period cfg level pfx (fmt c0) cs
    (mkSampler (Some cfg) (<[fmt c0 := mkSamplerEntry 1 (now c0)]> (entries (sampler p))))
    (windows p) 1 (now c0) eq_refl Hi (lookup_insert_eq _ _ _) ltac:(lia) Hb Hcs) as Hrun.
  change (1 + Z.of_nat 0) with (0 + 1).
  destruct (sampler_verdict cfg (0 + 1)) as [[|] n]; simpl;
    destruct (run_trace limit_step _ _) as [os l']; simpl in *; f_equal; rewrite Hrun;
    apply imap_ext; intros i x _; simpl; rewrite <- Hv; 
    by replace (1 + 1 + Z.of_nat i) with (1 + Z.of_nat (S i)) by lia.
Qed.

Lemma init_sinks env id p :
  stdout (init env id p) = stdout p /\ forwarded (init env id p) = forwarded p.
Proof. unfold init. by destruct (log_init env id). Qed.

(** ** Theorems *)

(** C32: Both sinks show the same stream: whatever macros are called, there is one list of lines, cut
    by the limiters alone, of which the terminal shows those its filter lets through and the hook
    receives those its mask selects, each with the same prefix and suffixed message. *)
Theorem sinks_agree enabled ops p :
  let p' := log_run enabled ops p in
  let ls := lines_of ops (limits p) in
  stdout p' = (stdout p ++ omap (render enabled (subscriber p)) ls)%list /\
  forwarded p' = (forwarded p ++ omap (hook_call (forwarding p)) ls)%list /\
  limits p' = (run_trace limit_step ops (limits p)).2.
Proof.
  cbv zeta. rewrite log_run_after. unfold after_lines, limits. simpl.
  by destruct (run_trace _ _ _) as [os [s w]].
Qed.

(** C33: A format literal logged over and over within one period: the first [initial] calls and then
    every [thereafter]-th one become lines, the latter carrying the number they stand for. *)
Theorem log_burst cfg level pfx p c0 cs :
  config (sampler p) = Some cfg -> 0 < initial cfg -> 0 < period cfg ->
  entries (sampler p) !! fmt c0 = None -> 1 + Z.of_nat (length cs) <= I64_MAX ->
  Forall (fun c => elapsed (now c) (now c0) < period cfg /\ fmt c = fmt c0) cs ->
  lines_of (map (ByFormat level pfx) (c0 :: cs)) (limits p) =
  omap id (imap (fun i c =>
    if Z.of_nat i <? initial cfg then Some (line_of level pfx c 0)
    else if thereafter cfg =? 0 then None
    else if Z.rem (Z.of_nat i + 1 - initial cfg) (thereafter cfg) =? 0
         then Some (line_of level pfx c (thereafter cfg - 1))
         else None) (c0 :: cs)).
Proof. apply lines_burst. Qed.

Definition sample_call (t : Z) (m : string) : Call := mkCall t "2025-01-01 00:00:00.000" "tick {}" m.

Definition sample_process : Process :=
  mkProcess (sampler_new (Some (mkSamplerConfig 1 2 (from_secs 1)))) ∅ None None [] [].

Lemma log_burst_witness :
  map l_msg (lines_of (map (ByFormat LInfo "[x]")
    [sample_call 0 "tick 1"; sample_call 5 "tick 2"; sample_call 6 "tick 3";
     sample_call 7 "tick 4"; sample_call 8 "tick 5"]) (limits sample_process)) =
  ["tick 1"; "tick 3 [+1 suppressed]"; "tick 5 [+1 suppressed]"].
Proof.
  rewrite (log_burst (mkSamplerConfig 1 2 (from_secs 1)) LInfo "[x]" sample_process
             (sample_call 0 "tick 1")); [vm_compute; reflexivity|done|done|done|done|done|].
  repeat (apply Forall_cons; split; [by vm_compute|]). by apply Forall_nil.
Defined.

(** [init] is idempotent: a second call finds its own subscriber and installs an equal sampler;
    an earlier subscriber is kept, and a line logged before the second call is forgotten by the
    sampler only. *)
Theorem init_idempotent env id p :
  init env id (init env id p) = init env id p /\
  (forall f, subscriber p = Some f -> subscriber (init env id p) = Some f) /\
  stdout (init env id p) = stdout p.
Proof.
  unfold init. destruct (log_init env id) as [s filter]. split_and!; [|by intros f ->|done].
  by destruct (subscriber p).
Qed.

(** A keyed limiter built for any rate and burst, zero included, lets through within one instant
    exactly the first [max 1 burst] events of each key, whatever other keys do. *)
Theorem keyed_limiter_burst {Quota Limiter : Type} `{Governor string Quota Limiter}
  rate burst t keys key :
  0 <= burst ->
  (keyed_limiter_allow t key
     (run_trace (keyed_limiter_allow t) keys (keyed_limiter_new rate burst)).2).1 =
  (Z.of_nat (length (filter (fun k => k = key) keys)) <? Z.max 1 burst).
Proof.
  intros Hb. unfold keyed_limiter_allow, keyed_limiter_new.
  rewrite check_key_burst, burst_allow_burst. f_equal. unfold nonzero_or_min.
  destruct (Z.eqb_spec burst 0); lia.
Qed.

Lemma keyed_limiter_burst_witness :
  (keyed_limiter_allow (Limiter := TokenBuckets (K := string)) 7 "a"
     (run_trace (keyed_limiter_allow 7) ["a"; "b"; "a"] (keyed_limiter_new 3 2)).2).1 = false.
Proof. rewrite (keyed_limiter_burst 3 2 7 ["a"; "b"; "a"] "a"); [reflexivity|lia]. Defined.

(** The resilience limiter: a burst equal to the rate, per key. *)
Theorem keyed_rate_limiter_burst {K Quota Limiter : Type} `{Governor K Quota Limiter}
  rate t keys key :
  (keyed_rate_limiter_allow t key
     (run_trace (keyed_rate_limiter_allow t) keys (keyed_rate_limiter_per_second rate)).2).1 =
  (Z.of_nat (length (filter (fun k => k = key) keys)) <? rate).
Proof.
  unfold keyed_rate_limiter_allow, keyed_rate_limiter_per_second, keyed_rate_limiter_new.
  by rewrite check_key_burst, burst_per_second.
Qed.

Lemma pad_length width n :
  0 <= n -> (String.length (show_Z n) <= width)%nat -> String.length (pad width n) = width.
Proof.
  intros Hn Hl. unfold pad. rewrite string_length_app.
  assert (forall k, String.length (zeros k) = k) as -> by (induction k; simpl; congruence).
  lia.
Qed.

(** Numbers below a power of ten have no more digits than its exponent. *)
Lemma show_Z_length_lt (width : nat) n :
  (width <= 4)%nat -> (1 <= width)%nat -> 0 <= n < 10 ^ Z.of_nat width ->
  (String.length (show_Z n) <= width)%nat.
Proof.
  intros Hw Hw1 Hn.
  assert (forallb (fun i => Nat.leb (String.length (show_Z (Z.of_nat i)))
            (if Nat.ltb i 10 then 1 else if Nat.ltb i 100 then 2 else if Nat.ltb i 1000 then 3 else 4))
            (seq 0 (Z.to_nat 10000)) = true) as Hall by (vm_compute; reflexivity).
  assert (10 ^ Z.of_nat width <= 10 ^ 4) by (apply Z.pow_le_mono_r; lia).
  change (10 ^ 4) with 10000 in *.
  rewrite forallb_forall in Hall. specialize (Hall (Z.to_nat n)).
  rewrite in_seq, Z2Nat.id, Nat.leb_le in Hall by lia. specialize (Hall ltac:(lia)).
  etransitivity; [exact Hall|].
  destruct width as [|[|[|[|[|w]]]]]; try lia; change (10 ^ Z.of_nat _) with 10 in *
    || change (10 ^ Z.of_nat _) with 100 in * || change (10 ^ Z.of_nat _) with 1000 in * || idtac;
    repeat match goal with |- context [Nat.ltb ?a ?b] => destruct (Nat.ltb_spec a b) end; lia.
Qed.

(** The fields of a time of day are in range. *)
Definition datetime_ok (d : DateTime) : Prop :=
  0 <= year d < 10000 /\ 1 <= month d <= 12 /\ 1 <= day d <= 31 /\
  0 <= hour d < 24 /\ 0 <= minute d < 60 /\ 0 <= second d < 61 /\
  0 <= nanosecond d < NANOS.

(** Every timestamp has the 23 characters of the frozen format. *)
Theorem format_time_length now_local now_utc :
  datetime_ok (default now_utc now_local) ->
  String.length (format_time now_local now_utc) = 23%nat.
Proof.
  unfold datetime_ok, format_time, NANOS. set (d := default now_utc now_local).
  intros (?&?&?&?&?&?&?). repeat (rewrite string_length_app).
  assert (0 <= nanosecond d / 1000000 < 1000)
    by (split; [apply Z.div_pos|apply Z.div_lt_upper_bound]; lia).
  rewrite !pad_length; try (apply show_Z_length_lt; lia); try lia; done.
Qed.

Lemma format_time_length_witness :
  String.length (format_time None (mkDateTime 2025 1 9 8 7 6 5000000)) = 23%nat /\
  format_time None (mkDateTime 2025 1 9 8 7 6 5000000) = "2025-01-09 08:07:06.005".
Proof.
  split; [|vm_compute; reflexivity].
  apply (format_time_length None (mkDateTime 2025 1 9 8 7 6 5000000)).
  unfold datetime_ok, NANOS. simpl. lia.
Defined.
