(* ===== verification/Reports.v ===== *)
(** From a log line to a Sentry issue: [pc-log]'s macros ([Logging]) with [pc-sentry]'s
    [receive_log] ([Sentry]) as their forwarding hook, as [pc_sentry::init] wires them
    ([crates/pc-log/src/lib.rs], [__private::forward]; [crates/pc-sentry/src/lib.rs],
    [receive_log]).

    The hook runs inside the macro call, after the terminal line, and reads and writes nothing of
    [pc-log]; so a call of a macro is its step of [Logging] followed by the hook's calls. *)
From S2P Require Export Logging.
From S2P Require Import Sentry.
Local Open Scope string_scope.
Local Open Scope Z_scope.

Section Reports.
Context {W Dsn Guard : Type} {H : Hub W Dsn Guard} (enabled : string -> Level -> bool).

(** The process's logging state, with Sentry's globals and the world of the SDK. *)
Abbreviation Reporter := (Process * (Sentry.Globals * W))%type.

Definition report_step (op : LogOp) (s : Reporter) : Reporter :=
  let p := log_step enabled op s.1 in
  let made := drop (length (forwarded s.1)) (forwarded p) in
  (p, fold_left (fun st call => (receive_log call.1 call.2 st).2) made s.2).

Definition report_run (ops : list LogOp) (s : Reporter) : Reporter :=
  fold_left (fun s op => report_step op s) ops s.

(** What Sentry records of one forwarded line. *)
Definition record_of (g : Sentry.Globals) (w : W) (call : string * string) : list HubCall :=
  (breadcrumb_of g call.1 call.2 ++ [capture_of g w call.1 call.2])%list.

Context {calls : W -> list HubCall} {laws : HubLaws H calls}.
#[local] Set Default Proof Using "Type*".

Lemma record_of_client g w w' call :
  hub_client w' = hub_client w -> record_of g w' call = record_of g w call.
Proof.
  intros Hc. unfold record_of, capture_of. by rewrite (resolve_env_client (identity g) w w' Hc).
Qed.

(** The hook over a list of lines: one record each, while a client is bound. *)
Lemma receive_all g cs : forall w,
  let '(g', w') := fold_left (fun st call => (receive_log call.1 call.2 st).2) cs (g, w) in
  g' = g /\ hub_client w' = hub_client w /\
  calls w' = (calls w ++ if sentry_enabled w then flat_map (record_of g w) cs else [])%list.
Proof.
  induction cs as [|call cs IH]; intros w; cbn [fold_left].
  { split_and!; [done..|]. simpl. by destruct (sentry_enabled w); rewrite app_nil_r. }
  pose proof (receive_log_calls (laws := laws) g w call.1 call.2) as Hr.
  destruct (receive_log call.1 call.2 (g, w)) as [u [g1 w1]]. destruct Hr as (-> & Hc & Hw1). simpl.
  specialize (IH w1). destruct (fold_left _ cs (g, w1)) as [g2 w2]. destruct IH as (-> & Hc2 & Hw2).
  split_and!; [done|congruence|]. rewrite Hw2, Hw1.
  assert (sentry_enabled w1 = sentry_enabled w) as -> by (unfold sentry_enabled; by rewrite Hc).
  destruct (sentry_enabled w); [|by rewrite !app_nil_r]. cbn [flat_map]. rewrite <- app_assoc.
  f_equal. fold (record_of g w call). f_equal. apply flat_map_ext. intros c. by apply record_of_client.
Qed.

(** A run of macros reaches Sentry exactly as it reaches the hook. *)
Lemma report_run_records ops : forall p g w,
  let '(p', (g', w')) := report_run ops (p, (g, w)) in
  p' = log_run enabled ops p /\ g' = g /\ hub_client w' = hub_client w /\
  calls w' = (calls w ++ if sentry_enabled w
                         then flat_map (record_of g w)
                                (omap (hook_call (Logging.forwarding p)) (lines_of ops (limits p)))
                         else [])%list.
Proof.
  induction ops as [|op ops IH]; intros p g w.
  { simpl. split_and!; [done..|]. by destruct (sentry_enabled w); rewrite app_nil_r. }
  unfold report_run, log_run. cbn [fold_left]. fold (log_run enabled ops (log_step enabled op p)).
  unfold report_step at 2. cbv zeta. cbn [fst snd]. rewrite log_step_after.
  unfold lines_of. cbn [run_trace].
  destruct (limit_step op (limits p)) as [o [sm wd]].
  set (p1 := after_lines enabled p (option_list o) (sm, wd)).
  assert (drop (length (forwarded p)) (forwarded p1) =
          omap (hook_call (Logging.forwarding p)) (option_list o)) as ->
    by (unfold p1, after_lines; simpl; by rewrite drop_app_length).
  pose proof (receive_all g (omap (hook_call (Logging.forwarding p)) (option_list o)) w) as Hr.
  destruct (fold_left _ (omap _ (option_list o)) (g, w)) as [g1 w1]. destruct Hr as (-> & Hc & Hw1).
  specialize (IH p1 g w1). unfold report_run in IH.
  destruct (fold_left _ ops (p1, (g, w1))) as [p2 [g2 w2]]. destruct IH as (-> & -> & Hc2 & Hw2).
  split_and!; [done|done|congruence|]. rewrite Hw2, Hw1.
  assert (sentry_enabled w1 = sentry_enabled w) as -> by (unfold sentry_enabled; by rewrite Hc).
  destruct (sentry_enabled w); [|by rewrite !app_nil_r]. rewrite <- app_assoc. f_equal.
  rewrite (flat_map_ext _ _ (fun c => record_of_client g w w1 c Hc)).
  change (Logging.forwarding p1) with (Logging.forwarding p).
  change (limits p1) with (sm, wd). unfold lines_of.
  destruct (run_trace limit_step ops (sm, wd)) as [os l']. cbn [fst].
  destruct o as [l|]; simpl; [|done]. destruct (hook_call _ l); simpl; [|done]. by rewrite <- app_assoc.
Qed.
End Reports.

(** ** How many calls of a burst become lines *)

(** Of [n] calls of one format literal in one period: the first [initial], then every
    [thereafter]-th. *)
Definition burst_lines (cfg : SamplerConfig) (n : Z) : Z :=
  Z.min n (initial cfg) +
  (if thereafter cfg =? 0 then 0 else Z.max 0 (n - initial cfg) / thereafter cfg).

(** Whether call number [i] of a burst, from 0, becomes a line. *)
Definition burst_passes (cfg : SamplerConfig) (i : Z) : bool :=
  (i <? initial cfg) ||
  negb (thereafter cfg =? 0) && (Z.rem (i + 1 - initial cfg) (thereafter cfg) =? 0).

Lemma div_succ m t : 0 <= m -> 0 < t ->
  (m + 1) / t = m / t + if Z.rem (m + 1) t =? 0 then 1 else 0.
Proof.
  intros Hm Ht. rewrite Z.rem_mod_nonneg by lia.
  pose proof (Z.div_mod m t ltac:(lia)) as E. pose proof (Z.mod_pos_bound m t Ht) as B.
  assert (forall q r, m + 1 = t * q + r -> 0 <= r < t -> (m + 1) / t = q /\ (m + 1) mod t = r) as Hu
    by (intros q r Hq Hr; split; symmetry;
        [apply (Z.div_unique _ _ _ r)|apply (Z.mod_unique _ _ q)]; lia).
  destruct (Z.eq_dec (m mod t) (t - 1)).
  - destruct (Hu (m / t + 1) 0 ltac:(lia) ltac:(lia)) as [-> ->]. done.
  - destruct (Hu (m / t) (m mod t + 1) ltac:(lia) ltac:(lia)) as [-> ->].
    destruct (Z.eqb_spec (m mod t + 1) 0); lia.
Qed.

Lemma burst_lines_succ cfg n :
  0 <= n -> 0 < initial cfg -> 0 <= thereafter cfg ->
  burst_lines cfg (n + 1) = burst_lines cfg n + if burst_passes cfg n then 1 else 0.
Proof.
  intros Hn Hi Ht. unfold burst_lines, burst_passes.
  destruct (Z.ltb_spec n (initial cfg)); cbn [orb].
  - rewrite !(Z.max_l 0) by lia. destruct (Z.eqb_spec (thereafter cfg) 0); [lia|].
    rewrite Z.div_0_l by done. lia.
  - destruct (Z.eqb_spec (thereafter cfg) 0); cbn [negb andb]; [lia|].
    rewrite !(Z.max_r 0) by lia. replace (n + 1 - initial cfg) with (n - initial cfg + 1) by lia.
    rewrite div_succ by lia. destruct (_ =? 0); lia.
Qed.

Lemma burst_count {A B} cfg (f : nat -> A -> B) (l : list A) :
  0 < initial cfg -> 0 <= thereafter cfg ->
  Z.of_nat (length (omap id (imap (fun i c => if burst_passes cfg (Z.of_nat i) then Some (f i c)
                                              else None) l))) =
  burst_lines cfg (Z.of_nat (length l)).
Proof.
  intros Hi Ht. induction l as [|c l IH] using rev_ind.
  { simpl. unfold burst_lines. rewrite (Z.max_l 0) by lia. rewrite Zdiv_0_l.
    destruct (thereafter cfg =? 0); lia. }
  rewrite imap_app, omap_app, !length_app, Nat2Z.inj_add, IH, Nat.add_1_r, Nat2Z.inj_succ. simpl.
  rewrite Nat.add_0_r, <- Z.add_1_r, burst_lines_succ by lia. f_equal. by destruct (burst_passes _ _).
Qed.

(** The errors Sentry shows as issues, among its records. *)
Definition issues (l : list HubCall) : list Event :=
  omap (fun c => match c with CEvent e => Some e | _ => None end) l.

(** The text of a line, as both sinks show it. *)
Definition rendered (pfx msg : string) : string :=
  if is_empty pfx then msg else if is_empty msg then pfx else pfx +:+ " " +:+ msg.

Lemma issues_of_errors {W Dsn Guard} {H : Hub W Dsn Guard} g (w : W) msgs :
  exists es, issues (flat_map (record_of g w) (map (pair "error") msgs)) = es /\
    length es = length msgs /\
    Forall2 (fun e m => e_level e = Sentry.LError /\ e_message e = Some m) es msgs.
Proof.
  eexists. split; [done|]. unfold issues.
  induction msgs as [|m msgs [IHl IHf]]; [done|]. cbn [map flat_map]. rewrite omap_app, length_app.
  assert (omap (fun c => match c with CEvent e => Some e | _ => None end) (record_of g w ("error", m)) =
    [mkEvent Sentry.LError (Some m) [(issue_title (extract_log_prefix m).1 (resolve_env (identity g) w),
       Some (exception_value "error" (extract_log_prefix m).2))]]) as ->.
  { unfold record_of, breadcrumb_of, capture_of. simpl. by destruct (SENTRY_DATA g). }
  split; [simpl; lia|]. simpl. by constructor.
Qed.

(** While the mask selects errors the hook is called for every error line. *)
Lemma errors_hooked mask pfx ls :
  Z.land mask FORWARD_ERROR <> 0 ->
  Forall (fun l => l_level l = Logging.LError /\ l_prefix l = pfx) ls ->
  omap (hook_call (Some mask)) ls = map (pair "error") (map (fun l => rendered pfx (l_msg l)) ls).
Proof.
  intros Herr. induction 1 as [|l ls [Hl Hpx] _ IH]; [done|].
  change (l :: ls) with ([l] ++ ls)%list. rewrite omap_app, !map_app, IH. f_equal.
  simpl. unfold hook_call, forward. rewrite Hl, Hpx.
  change (level_flag (level_name Logging.LError)) with FORWARD_ERROR.
  by rewrite (proj2 (Z.eqb_neq _ _) Herr).
Qed.

(** ** Theorems *)

(** C35: Sentry sees the stream the terminal sees: whatever macros are called, every line the limiters
    let through and the mask selects becomes one record, in order and with the breadcrumb of the
    process, while a client is bound, and nothing else reaches Sentry; reporting changes neither
    the logging state nor Sentry's globals. *)
Theorem reports_follow_lines {W Dsn Guard} (H : Hub W Dsn Guard) (calls : W -> list HubCall)
    (laws : HubLaws H calls) enabled ops p g w :
  let '(p', (g', w')) := report_run enabled ops (p, (g, w)) in
  p' = log_run enabled ops p /\ g' = g /\
  calls w' = (calls w ++ if sentry_enabled w
                         then flat_map (record_of g w)
                                (omap (hook_call (Logging.forwarding p)) (lines_of ops (limits p)))
                         else [])%list.
Proof.
  pose proof (report_run_records enabled ops p g w) as Hr.
  destruct (report_run enabled ops (p, (g, w))) as [p' [g' w']]. by destruct Hr as (? & ? & _ & ?).
Qed.

(** C34: An error storm is a bounded number of issues: of [n] errors logged with one format literal
    within a sampling period, exactly the first [initial] and then every [thereafter]-th become
    Sentry issues, each an error whose message is a line of the storm. *)
Theorem error_storm_issues {W Dsn Guard} (H : Hub W Dsn Guard) (calls : W -> list HubCall)
    (laws : HubLaws H calls) enabled cfg pfx p c0 cs g w mask :
  config (sampler p) = Some cfg -> 0 < initial cfg -> 0 <= thereafter cfg -> 0 < period cfg ->
  entries (sampler p) !! fmt c0 = None -> 1 + Z.of_nat (length cs) <= I64_MAX ->
  Forall (fun c => elapsed (now c) (now c0) < period cfg /\ fmt c = fmt c0) cs ->
  Logging.forwarding p = Some mask -> Z.land mask FORWARD_ERROR <> 0 -> sentry_enabled w = true ->
  let '(_, (_, w')) :=
    report_run enabled (map (ByFormat Logging.LError pfx) (c0 :: cs)) (p, (g, w)) in
  exists added, calls w' = (calls w ++ added)%list /\
    Z.of_nat (length (issues added)) = burst_lines cfg (Z.of_nat (length (c0 :: cs))) /\
    Forall (fun e => e_level e = Sentry.LError /\
      exists c n, In c (c0 :: cs) /\ e_message e = Some (rendered pfx (with_suffix (message c) n)))
      (issues added).
Proof.
  intros Hc Hi Ht Hp He Hb Hcs Hmask Herr Hon.
  pose proof (report_run_records enabled (map (ByFormat Logging.LError pfx) (c0 :: cs)) p g w) as Hr.
  destruct (report_run _ _ _) as [p' [g' w']]. destruct Hr as (_ & _ & _ & Hr).
  eexists. split; [exact Hr|]. rewrite Hon. clear Hr p' g' w'.
  rewrite (lines_burst cfg Logging.LError pfx p c0 cs) by done.
  set (ls := omap id (imap _ (c0 :: cs))).
  assert (ls = omap id (imap (fun i c => if burst_passes cfg (Z.of_nat i)
    then Some (line_of Logging.LError pfx c
                 (if Z.of_nat i <? initial cfg then 0 else thereafter cfg - 1)) else None) (c0 :: cs))) as Els.
  { unfold ls. f_equal. apply imap_ext. intros i c _. unfold burst_passes.
    destruct (Z.of_nat i <? initial cfg); [done|]. cbn [orb].
    destruct (thereafter cfg =? 0); [done|]. by destruct (Z.rem _ _ =? 0). }
  assert (omap (hook_call (Logging.forwarding p)) ls =
          map (pair "error") (map (fun l => rendered pfx (l_msg l)) ls)) as ->.
  { assert (Forall (fun l => l_level l = Logging.LError /\ l_prefix l = pfx) ls) as Hls.
    { rewrite Els. apply Forall_forall. intros l (o & Ho & Hl)%list_elem_of_omap.
      apply elem_of_lookup_imap in Ho as (i & c & -> & _). unfold id in Hl.
      destruct (burst_passes _ _); [|done]. by injection Hl as <-. }
    rewrite Hmask. by apply errors_hooked. }
  destruct (issues_of_errors g w (map (fun l => rendered pfx (l_msg l)) ls)) as (es & -> & Hlen & Hall).
  split.
  - rewrite Hlen, length_map, Els. by apply burst_count.
  - apply Forall_lookup. intros i e Hi'. destruct (Forall2_lookup_l _ _ _ _ _ Hall Hi') as (m & Hm & He1 & He2).
    split; [done|]. rewrite list_lookup_fmap, Els in Hm. apply fmap_Some in Hm as (l & Hl & ->).
    apply list_elem_of_lookup_2, list_elem_of_omap in Hl as (o & Ho & Hl).
    apply elem_of_lookup_imap in Ho as (k & c & -> & Hk). unfold id in Hl.
    destruct (burst_passes _ _); [|done]. injection Hl as <-.
    do 2 eexists. split; [|exact He2]. by apply list_elem_of_In, (list_elem_of_lookup_2 _ k).
Qed.

(** ** Witnesses: five errors of one literal, one then every second one *)

#[local] Existing Instances toy_hub toy_hub_laws.

Definition storm : list Call :=
  [sample_call 0 "tick 1"; sample_call 5 "tick 2"; sample_call 6 "tick 3"; sample_call 7 "tick 4";
   sample_call 8 "tick 5"].

Definition storm_ops : list LogOp := map (ByFormat Logging.LError "[x]") storm.

(** [sample_process] forwarding errors, and a bound client. *)
Definition forwarding_process : Process :=
  mkProcess (sampler sample_process) ∅ (Some FORWARD_ERROR) None [] [].
Definition bound_hub : ToyHub := (Some (client_options (toy_options "staging")), []).

Lemma reports_follow_lines_witness :
  (report_run (fun _ _ => true) storm_ops (forwarding_process, (toy_globals, bound_hub))).1 =
  log_run (fun _ _ => true) storm_ops forwarding_process.
Proof.
  pose proof (reports_follow_lines toy_hub snd toy_hub_laws (fun _ _ => true) storm_ops
    forwarding_process toy_globals bound_hub) as H.
  destruct (report_run _ _ _) as [p' [g' w']]. by destruct H as [-> _].
Defined.

Lemma error_storm_issues_witness :
  omap e_message (issues
    (report_run (fun _ _ => true) storm_ops (forwarding_process, (toy_globals, bound_hub))).2.2.2) =
    ["[x] tick 1"; "[x] tick 3 [+1 suppressed]"; "[x] tick 5 [+1 suppressed]"] /\
  burst_lines (mkSamplerConfig 1 2 (from_secs 1)) 5 = 3.
Proof.
  split; [by vm_compute|].
  pose proof (error_storm_issues toy_hub snd toy_hub_laws (fun _ _ => true)
    (mkSamplerConfig 1 2 (from_secs 1)) "[x]" forwarding_process (sample_call 0 "tick 1")
    [sample_call 5 "tick 2"; sample_call 6 "tick 3"; sample_call 7 "tick 4"; sample_call 8 "tick 5"]
    toy_globals bound_hub FORWARD_ERROR) as H.
  specialize (H eq_refl eq_refl ltac:(by vm_compute) eq_refl eq_refl ltac:(by vm_compute)).
  specialize (H ltac:(repeat (constructor; [split; vm_compute; reflexivity|]); constructor)).
  specialize (H eq_refl ltac:(by vm_compute) eq_refl).
  destruct (report_run _ _ _) as [p' [g' w']] eqn:E. destruct H as (added & Ha & Hn & _).
  etransitivity; [symmetry; exact Hn|]. vm_compute in E. injection E as _ _ <-. simpl in Ha.
  by subst added.
Defined.
