(* ===== verification/Umbrella.v ===== *)
(** The umbrella crate ([crates/paycloudhelper/src/lib.rs]): the explicit start-up that replaces
    Go's import-time initialization, over [pc-config]'s bootstrap and [pc-log]'s installation. *)
From S2P Require Export Config Logging.
Local Open Scope string_scope.
Local Open Scope Z_scope.

(** What start-up acts on: the environment, [pc-core]'s identity and [pc-log]'s process state. *)
Record App := mkApp { app_vars : Env; app_identity : Identity; app_process : Process }.

Section Startup.

(** [dotenvy] and the file system, as in [Config]. *)
Variable load : option string -> Env -> Env.
Variable exists_ : string -> bool.
Variables current_dir exe_dir : option Dir.

(** The crate's features [config] and [log]. *)
Variables feature_config feature_log : bool.

(** [paycloudhelper::init]: the findings of [initialize_app] are dropped. *)
Definition init (a : App) : result unit string * App :=
  let a :=
    if feature_config then
      let '(_, env, id) := initialize_app load exists_ current_dir exe_dir
                             (app_vars a) (app_identity a) in
      mkApp env id (app_process a)
    else a in
  let a :=
    if feature_log then
      mkApp (app_vars a) (app_identity a)
        (Logging.init (app_vars a) (app_identity a) (app_process a))
    else a in
  (Ok tt, a).

End Startup.

(** ** Lemmas *)

(** The identity after the bootstrap depends on three variables of the loaded environment. *)
Definition boot_identity (env : Env) (id : Identity) : Identity :=
  let id := match env "APP_NAME" with
            | Some v => if negb (is_empty v) then set_app_name v id else id
            | None => id
            end in
  let mode id := match env "APP_MODE" with
                 | Some m => if negb (is_empty m) then set_app_env_raw m id else id
                 | None => id
                 end in
  match env "APP_ENV" with
  | Some v => if negb (is_empty v) then set_app_env_raw v id else mode id
  | None => mode id
  end.

(** [init] as one state. *)
Lemma init_eq load exists_ cwd exe fc fl a :
  init load exists_ cwd exe fc fl a =
  (Ok tt,
   let e := if fc then load_dotenv load exists_ cwd exe (app_vars a) else app_vars a in
   let id := if fc then boot_identity e (app_identity a) else app_identity a in
   mkApp e id (if fl then Logging.init e id (app_process a) else app_process a)).
Proof. destruct a as [e id p]. by destruct fc, fl. Qed.

Lemma boot_identity_idem e1 e2 id :
  (forall k, e2 k = e1 k) -> boot_identity e2 (boot_identity e1 id) = boot_identity e1 id.
Proof.
  intros He. unfold boot_identity. rewrite !He.
  destruct (e1 "APP_NAME") as [v|]; [destruct (negb (is_empty v))|];
    (destruct (e1 "APP_ENV") as [u|]; [destruct (negb (is_empty u))|]);
    (destruct (e1 "APP_MODE") as [m|]; [destruct (negb (is_empty m))|]);
    destruct id; done.
Qed.

Lemma log_init_ext e1 e2 id : (forall k, e2 k = e1 k) -> log_init e2 id = log_init e1 id.
Proof. intros He. unfold log_init. by rewrite He. Qed.

(** ** Theorems *)

(** Start-up is total and quiet: it succeeds and prints nothing whatever the configuration is,
    findings included. *)
Theorem init_always_ok load exists_ cwd exe fc fl a :
  let '(r, a') := init load exists_ cwd exe fc fl a in
  r = Ok tt /\ stdout (app_process a') = stdout (app_process a) /\
  forwarded (app_process a') = forwarded (app_process a).
Proof.
  rewrite init_eq. cbn zeta iota. split; [done|]. destruct fl; [|done].
  apply Logging.init_sinks.
Qed.

(** Start-up tunes the sampler to the environment it loads: with both features the installed
    sampler is fresh and configured for [APP_ENV] of the loaded environment, or for [APP_MODE]
    when that is not set. *)
Theorem init_tunes_sampler load exists_ cwd exe a v :
  let a' := (init load exists_ cwd exe true true a).2 in
  (app_vars a' "APP_ENV" = Some v \/
   (env_nonempty (app_vars a') "APP_ENV" = false /\ app_vars a' "APP_MODE" = Some v)) ->
  v <> "" ->
  app_vars a' = load_dotenv load exists_ cwd exe (app_vars a) /\
  sampler (app_process a') = sampler_new (sampler_config_for_env (AppEnv_parse v)).
Proof.
  rewrite init_eq. cbn zeta iota. simpl app_vars.
  set (e := load_dotenv load exists_ cwd exe (app_vars a)). intros Hv Hne. split; [done|].
  assert (app_env_raw (boot_identity e (app_identity a)) = v) as Hraw.
  { apply is_empty_false in Hne. unfold boot_identity, env_nonempty in *.
    destruct Hv as [Hv|[Hv1 Hv2]]; [by rewrite Hv, Hne|].
    rewrite Hv2, Hne. destruct (e "APP_ENV") as [u|]; [rewrite Hv1|]; done. }
  unfold Logging.init, log_init, app_env. simpl. rewrite Hraw.
  unfold initialize_sampler. by destruct (AppEnv_parse v) as [[]|].
Qed.

(** Start-up is repeatable, as long as the loaded file does not redirect the search to another
    file: [dotenvy] adds what is missing, so a second load adds nothing, and the second call
    leaves environment, identity and logging as the first one did. *)
Theorem init_repeatable load exists_ cwd exe fc fl a :
  (forall p e k, load p (load p e) k = load p e k) ->
  find_env_path exists_ (load_dotenv load exists_ cwd exe (app_vars a)) cwd exe =
    find_env_path exists_ (app_vars a) cwd exe ->
  let a1 := (init load exists_ cwd exe fc fl a).2 in
  let a2 := (init load exists_ cwd exe fc fl a1).2 in
  (forall k, app_vars a2 k = app_vars a1 k) /\
  app_identity a2 = app_identity a1 /\ app_process a2 = app_process a1.
Proof.
  intros Hload Hpath. rewrite !init_eq. cbn [snd app_vars app_identity app_process].
  cbv zeta.
  set (e1 := if fc then load_dotenv load exists_ cwd exe (app_vars a) else app_vars a).
  set (e2 := if fc then load_dotenv load exists_ cwd exe e1 else e1).
  assert (He : forall k, e2 k = e1 k).
  { intros k. unfold e2, e1. destruct fc; [|done]. unfold load_dotenv at 1.
    rewrite Hpath. apply Hload. }
  set (i1 := if fc then boot_identity e1 (app_identity a) else app_identity a).
  assert (Hi : (if fc then boot_identity e2 i1 else i1) = i1).
  { unfold i1. destruct fc; [|done]. by apply boot_identity_idem. }
  rewrite init_eq. cbn [snd app_vars app_identity app_process]. cbv zeta. fold e2. rewrite Hi.
  split_and!; [done|done|]. destruct fl; [|done].
  unfold Logging.init. rewrite (log_init_ext e1 e2) by done.
  destruct (log_init e1 i1) as [s f]. simpl. by destruct (subscriber _).
Qed.

(** ** A concrete [dotenvy]: a file adds the variables the environment lacks *)

Definition dotenv_files (files : option string -> Env) (p : option string) (e : Env) : Env :=
  fun k => match e k with Some v => Some v | None => files p k end.

Definition app_files (p : option string) : Env := fun k =>
  match p with
  | Some f => if String.eqb f "/srv/.env" then
                if String.eqb k "APP_ENV" then Some "production"
                else if String.eqb k "ENV_FILE" then Some "/etc/other.env" else None
              else if String.eqb f "/etc/other.env" then
                if String.eqb k "APP_DEBUG_LOG" then Some "true"
                else if String.eqb k "APP_NAME" then Some "svc" else None
              else None
  | None => None
  end.

Definition no_env : Env := fun _ => None.
Definition new_app (e : Env) : App := mkApp e identity_initial Process_initial.

Lemma init_repeatable_witness :
  let a1 := (init (dotenv_files app_files) (fun p => String.eqb p "/srv/.env") (Some ["srv"]) None
               true true (new_app no_env)).2 in
  app_identity (init (dotenv_files app_files) (fun p => String.eqb p "/srv/.env") (Some ["srv"]) None
               true true a1).2 = app_identity a1.
Proof.
  apply (init_repeatable (dotenv_files app_files) (fun p => String.eqb p "/srv/.env")
           (Some ["srv"]) None true true (new_app no_env)).
  - intros p e k. unfold dotenv_files. destruct (e k); [done|]. by destruct (app_files p k).
  - vm_compute. reflexivity.
Defined.

Lemma init_tunes_sampler_witness :
  sampler (app_process (init (dotenv_files app_files) (fun p => String.eqb p "/srv/.env")
    (Some ["srv"]) None true true (new_app no_env)).2) =
  sampler_new (Some (mkSamplerConfig 5 50 (from_secs 1))).
Proof.
  apply (init_tunes_sampler (dotenv_files app_files) (fun p => String.eqb p "/srv/.env")
           (Some ["srv"]) None (new_app no_env) "production"); [left; reflexivity|done].
Defined.

(** A loaded file that names another one makes the second call load that one too. *)
Lemma init_follows_redirect :
  let exists_ p := String.eqb p "/srv/.env" || String.eqb p "/etc/other.env" in
  let step := init (dotenv_files app_files) exists_ (Some ["srv"]) None true true in
  let a1 := (step (new_app no_env)).2 in
  let a2 := (step a1).2 in
  app_name (app_identity a1) = "" /\ app_name (app_identity a2) = "svc".
Proof. vm_compute. done. Qed.
