(* ===== verification/Router.v ===== *)
(** [pc-http]'s hardened router ([base_router]), its handlers, and the shutdown signal
    ([crates/pc-http/src/lib.rs]).

    [axum] and [tower-http] are the interface [Framework]; [FrameworkLaws] states what their
    documentation says of routing, of the order of layers and of each layer used. The content
    type of a JSON payload is implied by its constructor. *)
From S2P Require Export Http.
Local Open Scope string_scope.
Local Open Scope Z_scope.
Local Open Scope rust_scope.

Section Types.
Context {L : HttpLib} (T W : Type).

(** A handler or a stack of them, and a layer around one. *)
Definition Service : Type := Request L -> io W (Response L T).
Definition Layer : Type := Service -> Service.

(** [axum::Router] and the layers of [tower-http] that [base_router] uses. *)
Class Framework : Type := {
  Router : Type;
  router_new : Router;
  route : string -> Service -> Router -> Router;
  layer : Layer -> Router -> Router;
  call : Router -> Service;
  routes : Router -> list string;
  from_static : string -> HeaderValue;
  set_header_if_not_present : string -> HeaderValue -> Layer;
  set_request_id : io W (option HeaderValue) -> Layer;
  propagate_request_id : Layer;
  trace_http : Layer;
  timeout_with_status : Z -> Z -> Layer;
  body_limit : Z -> Layer;
}.
End Types.
Arguments Router {L T W Framework}.
Arguments router_new {L T W Framework}.
Arguments route {L T W Framework}.
Arguments layer {L T W Framework}.
Arguments call {L T W Framework}.
Arguments routes {L T W Framework}.
Arguments from_static {L T W Framework}.
Arguments set_header_if_not_present {L T W Framework}.
Arguments set_request_id {L T W Framework}.
Arguments propagate_request_id {L T W Framework}.
Arguments trace_http {L T W Framework}.
Arguments timeout_with_status {L T W Framework}.
Arguments body_limit {L T W Framework}.

Definition X_REQUEST_ID : string := "x-request-id".

Section RouterDef.
Context {L : HttpLib} {T W : Type} {F : @Framework L T W}.
Context (random16 : io W bytes) (hex_encode : bytes -> string).

(** [health_ok] *)
Definition health_ok : Service (L := L) T W := fun _ => io_ret (mkResponse 200 ∅ (Text "ok")).

(** [metrics] *)
Definition metrics : Service (L := L) T W := fun _ =>
  io_ret (mkResponse 200
    (header_insert "content-type" (from_static "text/plain; version=0.0.4") ∅)
    (Text ("# pc-http metrics placeholder" +:+ String "010" ""))).

Definition secure_headers (name value : string) : Layer (L := L) T W :=
  set_header_if_not_present name (from_static value).

(** [.route(path, get(h))] and [.layer(l)], applied to the router so far. *)
Definition with_route (path : string) (get : Service (L := L) T W) (r : Router) : Router :=
  route path get r.
Definition with_layer (l : Layer (L := L) T W) (r : Router) : Router := layer l r.

#[local] Notation "r |> f" := (f r) (at level 50, left associativity, only parsing).

(** [base_router], call by call. *)
Definition base_router : Router :=
  router_new
    |> with_route "/health" health_ok
    |> with_route "/healthz" health_ok
    |> with_route "/readyz" health_ok
    |> with_route "/livez" health_ok
    |> with_route "/metrics" metrics
    |> with_layer trace_http
    |> with_layer propagate_request_id
    |> with_layer (set_request_id (make_request_id random16 hex_encode))
    |> with_layer (secure_headers "x-content-type-options" "nosniff")
    |> with_layer (secure_headers "x-frame-options" "DENY")
    |> with_layer (secure_headers "x-xss-protection" "1; mode=block")
    |> with_layer (secure_headers "strict-transport-security" "max-age=31536000")
    |> with_layer (secure_headers "content-security-policy" "default-src 'self'")
    |> with_layer (timeout_with_status 408 (from_secs 30))
    |> with_layer (body_limit (2 * 1024 * 1024))
    |> with_layer (fun next request => content_type_guard request next).

End RouterDef.

(** ** Shutdown *)

Inductive Signal := SIGINT | SIGTERM | OtherSignal (number : Z).

(** Whether one signal resolves a future that waits for [wanted]. *)
Definition is_signal (wanted got : Signal) : bool :=
  match wanted, got with
  | SIGINT, SIGINT | SIGTERM, SIGTERM => true
  | OtherSignal n, OtherSignal m => n =? m
  | _, _ => false
  end.

(** The number of signals a future consumes before it resolves, [None] when it stays pending. *)
Fixpoint wait_for (wanted : Signal) (events : list Signal) : option nat :=
  match events with
  | [] => None
  | s :: rest => if is_signal wanted s then Some 1%nat else S <$> wait_for wanted rest
  end.

(** [tokio::select!] on two futures: the first to resolve. *)
Definition select (a b : option nat) : option nat :=
  match a, b with
  | Some n, Some m => Some (Nat.min n m)
  | Some n, None => Some n
  | None, b => b
  end.

(** [shutdown_signal]: a failed registration of Ctrl-C resolves at once, one of SIGTERM never;
    outside Unix only Ctrl-C counts. *)
Definition shutdown_signal (unix ctrl_c_registers sigterm_registers : bool)
  (events : list Signal) : option nat :=
  let ctrl_c := if ctrl_c_registers then wait_for SIGINT events else Some O in
  let terminate := if unix && sigterm_registers then wait_for SIGTERM events else None in
  select ctrl_c terminate.

(** [serve_with_graceful_shutdown]: bind, then serve until the signal; [bind] is the TCP listener
    and [axum_serve] the server, which drains before it answers. The two log lines are left out. *)
Definition serve_with_graceful_shutdown {W Listener R E : Type}
  (bind : string -> io W (result Listener E))
  (axum_serve : Listener -> R -> option nat -> io W (result unit E))
  (unix ctrl_c_registers sigterm_registers : bool) (signals : list Signal)
  (router : R) (addr : string) : io W (result unit E) :=
  let!? listener := bind addr in
  let!? _ := axum_serve listener router
    (shutdown_signal unix ctrl_c_registers sigterm_registers signals) in
  io_ret (Ok tt).

(** ** What the libraries document *)

Section Laws.
Context {L : HttpLib} {T W : Type} (F : @Framework L T W).

(** An answer made by a layer itself: its status, and no header but a content type. *)
Definition bare (status : Z) (r : Response L T) : Prop :=
  r_status r = status /\ forall name, name <> "content-type" -> header_get name (r_headers r) = None.

Definition with_body (b : Body) (req : Request L) : Request L :=
  mkRequest (uri_path req) (method req) (headers req) b.

Definition with_header (name : string) (v : HeaderValue) (req : Request L) : Request L :=
  mkRequest (uri_path req) (method req) (header_insert name v (headers req)) (body req).

Definition add_header (name : string) (v : HeaderValue) (r : Response L T) : Response L T :=
  match header_get name (r_headers r) with
  | Some _ => r
  | None => mkResponse (r_status r) (header_insert name v (r_headers r)) (r_body r)
  end.

Class FrameworkLaws : Prop := mkFrameworkLaws {
  routes_new : routes router_new = [];
  routes_route p h r : routes (route p h r) = p :: routes r;
  routes_layer l r : routes (layer l r) = routes r;
  call_get p h r req w :
    uri_path req = p -> method req = GET -> call (route p h r) req w = h req w;
  call_other p h r req w : uri_path req <> p -> call (route p h r) req w = call r req w;
  (** A layer wraps what was added before it: the last one added runs first. *)
  call_layer l r req w :
    In (uri_path req) (routes r) -> call (layer l r) req w = l (call r) req w;
  from_static_text s : hv_to_str (from_static s) = Some s;
  set_header_spec name v svc req w :
    set_header_if_not_present name v svc req w =
    let '(r, w') := svc req w in (add_header name v r, w');
  set_request_id_spec make svc req w :
    set_request_id make svc req w =
    match header_get X_REQUEST_ID (headers req) with
    | Some _ => svc req w
    | None => let '(id, w1) := make w in
              match id with
              | Some v => svc (with_header X_REQUEST_ID v req) w1
              | None => svc req w1
              end
    end;
  propagate_spec svc req w :
    propagate_request_id svc req w =
    let '(r, w') := svc req w in
    (match header_get X_REQUEST_ID (headers req) with
     | Some v => add_header X_REQUEST_ID v r
     | None => r
     end, w');
  trace_spec svc req w : trace_http svc req w = svc req w;
  timeout_spec st d svc req w :
    timeout_with_status st d svc req w = svc req w \/
    bare st (timeout_with_status st d svc req w).1;
  body_limit_spec n svc req w :
    (exists b, body_limit n svc req w = svc (with_body b req) w) \/
    bare 413 (body_limit n svc req w).1;
}.
End Laws.

(** ** Lemmas *)

Section Facts.
Context {L : HttpLib} {T W : Type} {F : @Framework L T W} {laws : FrameworkLaws F}.
Context (random16 : io W bytes) (hex_encode : bytes -> string).

Lemma header_get_insert name v hs :
  header_get name (header_insert name v hs) = Some v.
Proof. unfold header_get, header_insert. by rewrite lookup_insert_eq. Qed.

Lemma header_get_insert_ne name name' v hs :
  name <> name' -> header_get name' (header_insert name v hs) = header_get name' hs.
Proof. intros H. unfold header_get, header_insert. by rewrite lookup_insert_ne. Qed.

Lemma add_header_present name v (r : Response L T) :
  is_Some (header_get name (r_headers (add_header name v r))).
Proof.
  unfold add_header. destruct (header_get name (r_headers r)) eqn:E; [by rewrite E|].
  simpl. by rewrite header_get_insert.
Qed.

Lemma add_header_keeps name name' v (r : Response L T) :
  is_Some (header_get name' (r_headers r)) ->
  is_Some (header_get name' (r_headers (add_header name v r))).
Proof.
  intros H. unfold add_header. destruct (header_get name (r_headers r)) eqn:E; [done|]. simpl.
  destruct (decide (name = name')) as [-> |Hne]; [by rewrite header_get_insert|].
  by rewrite header_get_insert_ne.
Qed.

Lemma add_header_same name v (r : Response L T) :
  r_status (add_header name v r) = r_status r /\ r_body (add_header name v r) = r_body r.
Proof. unfold add_header. by destruct (header_get name (r_headers r)). Qed.

(** Whether the guard lets a request through. *)
Definition json_request (req : Request L) : bool :=
  negb (match method req with POST | PUT | PATCH => true | _ => false end)
  || match header_get "content-type" (headers req) with
     | Some v => match hv_to_str v with
                 | Some ct => starts_with "application/json" (trim_start ct)
                 | None => false
                 end
     | None => false
     end.

Lemma guard_eq (req : Request L) (next : Service T W) w :
  content_type_guard req next w =
  if json_request req then next req w
  else (into_response (mkResponseApi 415 "unsupported media type"
          "content-type must be application/json" "" None), w).
Proof.
  unfold content_type_guard, json_request.
  destruct (match method req with POST | PUT | PATCH => true | _ => false end); simpl; [|done].
  by destruct (match header_get _ _ with Some _ => _ | None => _ end).
Qed.

(** What a guarded request gets from the inner stack. *)
Definition hardened (r : Response L T) : Prop :=
  Forall (fun name => is_Some (header_get name (r_headers r)))
    ["x-content-type-options"; "x-frame-options"; "x-xss-protection";
     "strict-transport-security"; "content-security-policy"; X_REQUEST_ID].

(** The five security headers around an answer that carries the request id. *)
Definition secured (r : Response L T) : Response L T :=
  add_header "content-security-policy" (from_static "default-src 'self'")
    (add_header "strict-transport-security" (from_static "max-age=31536000")
      (add_header "x-xss-protection" (from_static "1; mode=block")
        (add_header "x-frame-options" (from_static "DENY")
          (add_header "x-content-type-options" (from_static "nosniff") r)))).

Lemma secured_hardened r :
  is_Some (header_get X_REQUEST_ID (r_headers r)) ->
  hardened (secured r) /\ r_status (secured r) = r_status r /\ r_body (secured r) = r_body r.
Proof.
  intros Hid. unfold secured. split.
  - unfold hardened. rewrite !Forall_cons. split_and!; [..|by apply Forall_nil];
      repeat first [apply add_header_present | apply add_header_keeps | done].
  - split; repeat first [rewrite (proj1 (add_header_same _ _ _))
                        |rewrite (proj2 (add_header_same _ _ _))]; done.
Qed.

End Facts.

Section RouterFacts.
Context {L : HttpLib} {T W : Type} {F : @Framework L T W} {laws : FrameworkLaws F}.
Context (random16 : io W bytes) (hex_encode : bytes -> string).
Hypothesis ids_valid : forall b, is_Some (hv_from_str (hex_encode b)).

Definition base_routes : list string := ["/metrics"; "/livez"; "/readyz"; "/healthz"; "/health"].

(** The routes alone. *)
Definition probe_router : Router :=
  route "/metrics" metrics (route "/livez" health_ok (route "/readyz" health_ok
    (route "/healthz" health_ok (route "/health" health_ok router_new)))).

Lemma probe_router_get req w :
  In (uri_path req) base_routes -> method req = GET ->
  exists r, call probe_router req w = (r, w) /\ r_status r = 200 /\
            (uri_path req <> "/metrics" -> r_body r = Text "ok").
Proof using laws.
  intros Hp Hm. unfold probe_router.
  do 4 (destruct Hp as [Hp|Hp]; [rewrite (call_get F) by done; by eexists|];
        rewrite (call_other F) by (intros E; by repeat (destruct Hp as [Hp|Hp]; [congruence|]))).
  destruct Hp as [Hp|[]]. rewrite (call_get F) by done. by eexists.
Qed.

(** Every layer of [base_router] wraps a known route. *)
Lemma call_layer_known l r req w :
  routes r = base_routes -> In (uri_path req) base_routes ->
  call (layer l r) req w = l (call r) req w.
Proof using laws. intros Hr Hp. apply (call_layer F). by rewrite Hr. Qed.

Lemma layer_routes l r : routes r = base_routes -> routes (layer l r) = base_routes.
Proof using laws. intros <-. apply (routes_layer F). Qed.

Lemma probe_routes : routes probe_router = base_routes.
Proof using laws. unfold probe_router. by rewrite !(routes_route F), (routes_new F). Qed.

#[local] Abbreviation base_router := (base_router random16 hex_encode).

(** The request-id pair: set outside, propagated inside. *)
Lemma request_id_layers r req w :
  routes r = base_routes -> In (uri_path req) base_routes ->
  exists v req0 w0,
    uri_path req0 = uri_path req /\ method req0 = method req /\
    (call (layer (set_request_id (make_request_id random16 hex_encode))
            (layer propagate_request_id r)) req w).1 =
    add_header X_REQUEST_ID v (call r req0 w0).1.
Proof using laws ids_valid.
  intros Hr Hp. rewrite call_layer_known, (set_request_id_spec F) by (done || by apply layer_routes).
  destruct (header_get X_REQUEST_ID (headers req)) as [v|] eqn:Hv.
  - exists v, req, w. rewrite call_layer_known, (propagate_spec F), Hv by done.
    by destruct (call r req w).
  - unfold make_request_id, generate_request_id, io_bind, io_ret.
    destruct (random16 w) as [b w1]. destruct (ids_valid b) as [v Hb]. rewrite Hb.
    exists v, (with_header X_REQUEST_ID v req), w1.
    rewrite call_layer_known, (propagate_spec F) by done. simpl headers.
    rewrite header_get_insert. by destruct (call r _ w1).
Qed.

Lemma header_layer name value r req w :
  routes r = base_routes -> In (uri_path req) base_routes ->
  (call (layer (secure_headers name value) r) req w).1 =
  add_header name (from_static value) (call r req w).1.
Proof using laws.
  intros Hr Hp. rewrite call_layer_known by done. unfold secure_headers.
  rewrite (set_header_spec F). by destruct (call r req w).
Qed.

(** The stack under the guard, the limit and the timeout. *)
Definition inner_router : Router :=
  layer (secure_headers "content-security-policy" "default-src 'self'")
    (layer (secure_headers "strict-transport-security" "max-age=31536000")
      (layer (secure_headers "x-xss-protection" "1; mode=block")
        (layer (secure_headers "x-frame-options" "DENY")
          (layer (secure_headers "x-content-type-options" "nosniff")
            (layer (set_request_id (make_request_id random16 hex_encode))
              (layer propagate_request_id (layer trace_http probe_router))))))).

#[local] Hint Resolve layer_routes probe_routes : core.

Lemma inner_router_answer req w :
  In (uri_path req) base_routes ->
  let r := (call inner_router req w).1 in
  hardened r /\
  (method req = GET -> r_status r = 200 /\ (uri_path req <> "/metrics" -> r_body r = Text "ok")).
Proof using laws ids_valid.
  intros Hp. cbv zeta. unfold inner_router. rewrite !header_layer by auto 10.
  destruct (request_id_layers (layer trace_http probe_router) req w) as (v & req0 & w0 & Hq & Hm & ->);
    [auto..|].
  rewrite call_layer_known, (trace_spec F) by (auto || by rewrite Hq).
  destruct (secured_hardened (add_header X_REQUEST_ID v (call probe_router req0 w0).1)) as (H1 & H2 & H3);
    [apply add_header_present|].
  unfold secured in *. split; [done|]. intros Hget. rewrite H2, H3.
  rewrite (proj1 (add_header_same _ _ _)), (proj2 (add_header_same _ _ _)).
  destruct (probe_router_get req0 w0) as (r & Hr & Hs & Hb); [by rewrite Hq|congruence|].
  rewrite Hr. split; [done|]. rewrite <- Hq. done.
Qed.

End RouterFacts.

(** ** Theorems *)

(** C14: What [base_router] answers on its routes. A body that is not declared JSON is refused first,
    with 415 and none of the hardening: the guard, added last, is the outermost layer. Otherwise
    the answer is the size limit's 413, the timeout's 408, both bare, or it carries the five
    security headers and a request id; a GET that is not cut is answered 200, the probes
    with [ok]. *)
Theorem base_router_answers {L : HttpLib} {T W : Type} (F : @Framework L T W)
    (http : HttpLaws L) (laws : FrameworkLaws F) random16 hex_encode req w :
  (forall b, is_Some (hv_from_str (hex_encode b))) ->
  In (uri_path req) base_routes ->
  let '(r, w') := call (base_router random16 hex_encode) req w in
  if json_request req then
    bare 413 r \/ bare 408 r \/
    (hardened r /\
     (method req = GET -> r_status r = 200 /\ (uri_path req <> "/metrics" -> r_body r = Text "ok")))
  else bare 415 r /\ r_headers r = ∅ /\ w' = w.
Proof.
  intros Hid Hp.
  pose proof (probe_routes (F := F)) as Hr.
  assert (Hin : routes (inner_router random16 hex_encode) = base_routes)
    by (unfold inner_router; auto 20 using layer_routes).
  change (base_router random16 hex_encode) with
    (layer (fun next request => content_type_guard request next)
      (layer (body_limit (2 * 1024 * 1024))
        (layer (timeout_with_status 408 (from_secs 30)) (inner_router random16 hex_encode)))).
  rewrite call_layer_known, guard_eq by auto using layer_routes.
  destruct (json_request req); cycle 1.
  { split; [|done]. split; [simpl; by rewrite status_range by lia|]. done. }
  destruct (call (layer (body_limit _) _) req w) as [r w'] eqn:E.
  rewrite call_layer_known in E by auto using layer_routes.
  destruct (body_limit_spec F (2 * 1024 * 1024)
    (call (layer (timeout_with_status 408 (from_secs 30)) (inner_router random16 hex_encode))) req w)
    as [[b Hb]|Hb]; rewrite E in Hb; [|by left]. right.
  rewrite call_layer_known in Hb by auto using layer_routes.
  destruct (timeout_spec F 408 (from_secs 30) (call (inner_router random16 hex_encode))
    (with_body b req) w) as [Ht|Ht]; [right|left].
  - rewrite Ht in Hb. pose proof (inner_router_answer random16 hex_encode Hid (with_body b req) w Hp)
      as Hi. by rewrite <- Hb in Hi.
  - by rewrite <- Hb in Ht.
Qed.

(** Shutdown begins at the first SIGINT, or on Unix at the first SIGINT or SIGTERM, whatever
    other signals arrive, as long as both registrations succeed. *)
Theorem shutdown_signal_first unix events :
  let stops s := is_signal SIGINT s || (unix && is_signal SIGTERM s) in
  match shutdown_signal unix true true events with
  | Some n => exists pre s post, events = (pre ++ s :: post)%list /\ n = S (length pre) /\
                stops s = true /\ Forall (fun s => stops s = false) pre
  | None => Forall (fun s => stops s = false) events
  end.
Proof.
  cbv zeta. unfold shutdown_signal. rewrite andb_true_r.
  induction events as [|s events IH]; [destruct unix; simpl; constructor|].
  destruct (is_signal SIGINT s || (unix && is_signal SIGTERM s)) eqn:Hs.
  - assert (select (wait_for SIGINT (s :: events))
              (if unix then wait_for SIGTERM (s :: events) else None) = Some 1%nat) as ->.
    { simpl. destruct s, unix; simpl in *; try discriminate;
        repeat match goal with |- context [wait_for ?x ?y] => destruct (wait_for x y) end;
        simpl; by rewrite ?Nat.min_0_r. }
    exists [], s, events. done.
  - assert (select (wait_for SIGINT (s :: events))
              (if unix then wait_for SIGTERM (s :: events) else None) =
            S <$> select (wait_for SIGINT events)
                    (if unix then wait_for SIGTERM events else None)) as ->.
    { simpl. destruct s, unix; simpl in *; try discriminate;
        repeat match goal with |- context [wait_for ?x ?y] => destruct (wait_for x y) end;
        simpl; by rewrite ?Nat.min_0_r. }
    destruct (select _ _) as [n|]; simpl.
    + destruct IH as (pre & s' & post & -> & -> & H1 & H2). exists (s :: pre), s', post.
      split_and!; [done|done|done|by constructor].
    + by constructor.
Qed.

(** ** Witnesses *)

(** A framework in memory whose timeout never fires and whose limit is never met. *)
Record MemRouter (T W : Type) : Type := mkMemRouter {
  mem_paths : list string;
  mem_call : Request text_http -> io W (Response text_http T);
}.
Arguments mkMemRouter {T W}.
Arguments mem_paths {T W}.
Arguments mem_call {T W}.

Definition mem_framework {T W : Type} : @Framework text_http T W := {|
  Router := MemRouter T W;
  router_new := mkMemRouter [] (fun _ w => (mkResponse (L := text_http) 404 ∅ Empty, w));
  route p h r := mkMemRouter (p :: mem_paths r) (fun req w =>
    if String.eqb (uri_path req) p then
      match method req with
      | GET => h req w
      | _ => (mkResponse (L := text_http) 405 ∅ Empty, w)
      end
    else mem_call r req w);
  layer l r := mkMemRouter (mem_paths r) (l (mem_call r));
  call := mem_call;
  routes := mem_paths;
  from_static := (fun s => s) : string -> @HeaderValue text_http;
  set_header_if_not_present name v svc req w :=
    let '(r, w') := svc req w in (add_header name v r, w');
  set_request_id make svc req w :=
    match header_get X_REQUEST_ID (headers req) with
    | Some _ => svc req w
    | None => let '(id, w1) := make w in
              match id with
              | Some v => svc (with_header X_REQUEST_ID v req) w1
              | None => svc req w1
              end
    end;
  propagate_request_id svc req w :=
    let '(r, w') := svc req w in
    (match header_get X_REQUEST_ID (headers req) with
     | Some v => add_header X_REQUEST_ID v r
     | None => r
     end, w');
  trace_http svc := svc;
  timeout_with_status _ _ svc := svc;
  body_limit _ svc := svc;
|}.

Lemma mem_framework_laws T W : FrameworkLaws (@mem_framework T W).
Proof.
  constructor; try done.
  - intros p h r req w <- Hm. simpl. by rewrite String.eqb_refl, Hm.
  - intros p h r req w Hp. simpl. by rewrite (proj2 (String.eqb_neq _ _) Hp).
  - intros. by left.
  - intros n svc [p m hs b] w. left. by exists b.
Qed.

Definition probe_request (m : Method) (hs : gmap string (list string)) : Request text_http :=
  mkRequest (L := text_http) "/readyz" m hs [].

Lemma base_router_answers_witness :
  (call (Framework := mem_framework (T := nat) (W := nat))
     (base_router (fun w => ([], S w)) (fun _ => "00ff")) (probe_request POST ∅) 0%nat).1 =
  into_response (L := text_http) (mkResponseApi 415 "unsupported media type"
    "content-type must be application/json" "" None) /\
  let r := (call (Framework := mem_framework (T := nat) (W := nat))
     (base_router (fun w => ([], S w)) (fun _ => "00ff")) (probe_request GET ∅) 0%nat).1 in
  bare (T := nat) 413 r \/ bare 408 r \/
  (hardened r /\ (GET = GET -> r_status r = 200 /\ ("/readyz" <> "/metrics" -> r_body r = Text "ok"))).
Proof.
  split; [vm_compute; reflexivity|].
  pose proof (base_router_answers (mem_framework (T := nat) (W := nat)) text_http_laws
    (mem_framework_laws nat nat) (fun w => ([], S w)) (fun _ => "00ff") (probe_request GET ∅) 0%nat)
    as H.
  destruct (call _ (probe_request GET ∅) 0%nat) as [r w']. cbv zeta. apply H.
  - intros b. by exists "00ff".
  - right. right. by left.
Defined.
