(* ===== verification/UnitTests.v ===== *)
(** The unit tests of [pc-core], [pc-validate], [pc-json], [pc-resilience], [pc-log], [pc-http],
    [pc-config] and the lint, replayed on the model: every [assert] of a test of the repository is
    evaluated on the definitions by the kernel.

    A test is a boolean; instants and sleeps are explicit readings of the clock. In the JSON texts
    of this file a single quote stands for a double one ([js]). Tests whose assertions are about
    third-party code only (runtime scheduling, [serde_json]'s syntax errors) are not here. *)
From S2P Require Import Core Breaker Log Codecs Http Config Lint Logging Router.
Local Open Scope string_scope.
Local Open Scope Z_scope.
Local Open Scope rust_scope.

(** [assert_eq!] *)
Definition same {A : Type} `{EqDecision A} (x y : A) : bool := bool_decide (x = y).

Definition js (s : string) : string := replace_char "'" QUOTE s.

(** ** [pc-core] *)

Module CoreTests.

Definition log_prefix_matches_go : bool :=
  same (build_log_prefix "InitializeApp") "[pchelper.InitializeApp]"
  && same (build_log_prefix "") "[pchelper.Log]"
  && same (build_log_prefix "   ") "[pchelper.Log]"
  && same (build_log_prefix "  Push  ") "[pchelper.Push]".

Definition app_env_parse : bool :=
  same (AppEnv_parse "develop") (Some Develop)
  && same (AppEnv_parse "dev") (Some Develop)
  && same (AppEnv_parse "developement") (Some Develop)
  && same (AppEnv_parse "staging") (Some Staging)
  && same (AppEnv_parse "production") (Some Production)
  && same (AppEnv_parse "prod") (Some Production)
  && same (AppEnv_parse "qa") None
  && same (AppEnv_as_str Production) "production".

Definition parse_bool_go_accepts_exactly_the_go_grammar : bool :=
  forallb (fun truthy => same (parse_bool_go truthy) (Some true))
    ["1"; "t"; "T"; "TRUE"; "true"; "True"]
  && forallb (fun falsy => same (parse_bool_go falsy) (Some false))
    ["0"; "f"; "F"; "FALSE"; "false"; "False"].

Definition parse_bool_go_rejects_everything_else : bool :=
  forallb (fun invalid => same (parse_bool_go invalid) None)
    [""; " "; "yes"; "no"; "on"; "off"; "tRuE"; "2"; "-1"; " true"].

Definition identity_roundtrip : bool :=
  let id := set_app_name "paycloud-be-qoinhubinterface-manager" identity_initial in
  let qa := set_app_env_raw "qa" id in
  let prod := set_app_env Production qa in
  same (app_name id) "paycloud-be-qoinhubinterface-manager"
  && same (app_env_raw qa) "qa"
  && same (app_env qa) None
  && same (app_env_raw prod) "production"
  && same (app_env prod) (Some Production).

(** The texts of these tests are well-formed JSON. *)
Definition minify (s : string) : string :=
  match json_minify (fun _ => Ok tt) (as_bytes (js s)) with
  | Ok out => of_bytes out
  | Err _ => "invalid"
  end.

Definition tab : string := String "009" EmptyString.
Definition cr : string := String CR EmptyString.

Definition elides_insignificant_whitespace : bool :=
  same (minify "{ 'a' : 1 , 'b' : [ 1 , 2 ] }") (js "{'a':1,'b':[1,2]}")
  && same (minify ("[" +:+ nl +:+ "  1," +:+ nl +:+ tab +:+ "2" +:+ cr +:+ nl +:+ "]")) "[1,2]".

Definition preserves_key_order_not_sorted : bool :=
  same (minify "{'b':1,'a':2,'c':3}") (js "{'b':1,'a':2,'c':3}").

Definition preserves_number_formatting_verbatim : bool :=
  same (minify "{ 'n': 1.50, 'e': 1E10, 'z': -0.0 }") (js "{'n':1.50,'e':1E10,'z':-0.0}").

Definition does_not_escape_html_chars : bool :=
  same (minify "{'x':'<b>&</b>'}") (js "{'x':'<b>&</b>'}").

Definition preserves_unicode_escapes_and_raw_utf8 : bool :=
  same (minify "{ 'x': '\u00e9\u2028' }") (js "{'x':'\u00e9\u2028'}")
  && same (minify "{ 'x': 'héllo → 世界' }") (js "{'x':'héllo → 世界'}").

Definition preserves_whitespace_inside_strings : bool :=
  same (minify "{ 'x': 'a  b\tc' }") (js "{'x':'a  b\tc'}").

Definition escaped_quote_does_not_terminate_string : bool :=
  same (minify "{ 'x': 'a\'b', 'y': 1 }") (js "{'x':'a\'b','y':1}")
  && same (minify "{'p':'c:\\tmp'}") (js "{'p':'c:\\tmp'}").

Definition preserves_duplicate_keys : bool :=
  same (minify "{ 'a': 1, 'a': 2 }") (js "{'a':1,'a':2}").

Definition scalars_and_empties : bool :=
  same (minify "  true ") "true"
  && same (minify " 'hi' ") (js "'hi'")
  && same (minify "{ }") "{}"
  && same (minify "[ ]") "[]"
  && same (minify " 42 ") "42".

Lemma core_tests_pass :
  forallb id [log_prefix_matches_go; app_env_parse; parse_bool_go_accepts_exactly_the_go_grammar;
    parse_bool_go_rejects_everything_else; identity_roundtrip; elides_insignificant_whitespace;
    preserves_key_order_not_sorted; preserves_number_formatting_verbatim;
    does_not_escape_html_chars; preserves_unicode_escapes_and_raw_utf8;
    preserves_whitespace_inside_strings; escaped_quote_does_not_terminate_string;
    preserves_duplicate_keys; scalars_and_empties] = true.
Proof. vm_compute. reflexivity. Qed.

End CoreTests.

(** ** [pc-validate] and [pc-json] *)

Module CodecsTests.

#[local] Existing Instance two_patterns.

Definition numeric_null_libs_rules : bool :=
  numeric_null_libs "" && numeric_null_libs "123" && numeric_null_libs "-123"
  && negb (numeric_null_libs "12.3") && negb (numeric_null_libs "12a")
  && negb (numeric_null_libs "+1").

Definition char_libs_rules : bool :=
  char_libs "" && char_libs "abc-DEF_123" && char_libs "---"
  && negb (char_libs "has space") && negb (char_libs "dot.") && negb (char_libs "slash/").

(** The derived [Serialize] of the tests' payload, for texts without characters to escape. *)
Definition payload_to_vec (p : string * Z) : result bytes string :=
  Ok (as_bytes (js ("{'html':'" +:+ p.1 +:+ "','n':" +:+ show_Z p.2 +:+ "}"))).

Definition audit_marshal_no_html_escape_and_trailing_newline : bool :=
  match marshal_audit payload_to_vec ("<b>&</b>", 7) with
  | Ok out => same (of_bytes out) (js "{'html':'<b>&</b>','n':7}" +:+ nl)
  | Err _ => false
  end.

Definition default_marshal_has_no_trailing_newline : bool :=
  match marshal payload_to_vec ("x", 1) with
  | Ok out => same (strip_suffix nl (of_bytes out)) None
              && same (of_bytes out) (js "{'html':'x','n':1}")
  | Err _ => false
  end.

Lemma codecs_tests_pass :
  forallb id [numeric_null_libs_rules; char_libs_rules;
    audit_marshal_no_html_escape_and_trailing_newline;
    default_marshal_has_no_trailing_newline] = true.
Proof. vm_compute. reflexivity. Qed.

End CodecsTests.

(** ** [pc-resilience] *)

Module BreakerTests.

Inductive TestErr := Boom | Cancelled.

Definition is_cancellation (e : TestErr) : bool :=
  match e with Cancelled => true | Boom => false end.

(** The world is the clock, in nanoseconds; an operation takes no time. *)
Abbreviation Op := (io (CircuitBreaker * Z) (result Z TestErr)).
Definition fail : Op := io_ret (Err Boom).
Definition cancel : Op := io_ret (Err Cancelled).
Definition ok : Op := io_ret (Ok 1).

Definition run (f : Op) (w : CircuitBreaker * Z) :=
  Breaker.call (fun t : Z => t) is_cancellation f w.

Definition sleep (ms : Z) (w : CircuitBreaker * Z) : CircuitBreaker * Z :=
  (w.1, w.2 + from_millis ms).

Definition acquire (w : CircuitBreaker * Z) : bool * (CircuitBreaker * Z) :=
  let '(b, cb) := try_acquire w.2 w.2 w.1 in (b, (cb, w.2)).

Definition fail_now (w : CircuitBreaker * Z) : CircuitBreaker * Z := (record_failure w.2 w.1, w.2).

Definition start (th cd : Z) : CircuitBreaker * Z := (Breaker.new th cd, 0).

Definition st (w : CircuitBreaker * Z) : State := Breaker.state (inner w.1).
Definition cf (w : CircuitBreaker * Z) : Z := consecutive_failures (inner w.1).

Definition is_boom (r : result Z (BreakerError TestErr)) : bool :=
  match r with Err (ErrInner Boom) => true | _ => false end.
Definition is_cancelled (r : result Z (BreakerError TestErr)) : bool :=
  match r with Err (ErrInner Cancelled) => true | _ => false end.
Definition is_open_err (r : result Z (BreakerError TestErr)) : bool :=
  match r with Err e => is_open e | _ => false end.
Definition is_one (r : result Z (BreakerError TestErr)) : bool :=
  match r with Ok 1 => true | _ => false end.

(** A loop of the same checked step: [check] holds after each of [n] runs. *)
Fixpoint repeat_check {S : Type} (n : nat) (step : S -> bool * S) (s : S) : bool * S :=
  match n with
  | O => (true, s)
  | Datatypes.S n => let '(b, s1) := step s in
                     let '(bs, s2) := repeat_check n step s1 in (b && bs, s2)
  end.

Definition defaults_match_go : bool :=
  (threshold Breaker.default =? 10) && (cooldown Breaker.default =? from_secs 30).

Definition trips_after_n_consecutive_failures : bool :=
  let '(b, w) := repeat_check 2 (fun w => let '(r, w) := run fail w in
                                          (is_boom r && same (st w) Closed, w))
                   (start 3 (from_secs 30)) in
  let '(r3, w3) := run fail w in
  let '(r4, w4) := run fail w3 in
  b && is_boom r3 && same (st w3) Open && is_open_err r4.

Definition rejects_while_open_then_recovers_after_cooldown : bool :=
  let '(_, w1) := run fail (start 1 (from_millis 60)) in
  let '(r2, w2) := run ok w1 in
  let '(r3, w3) := run ok (sleep 90 w2) in
  same (st w1) Open && is_open_err r2 && is_one r3 && same (st w3) Closed && (cf w3 =? 0).

Definition cancellation_does_not_trip_the_breaker : bool :=
  let '(b, w) := repeat_check 10 (fun w => let '(r, w) := run cancel w in
                    (is_cancelled r && same (st w) Closed && (cf w =? 0), w))
                   (start 3 (from_secs 30)) in
  let '(_, w2) := run fail w in
  b && (cf w2 =? 1) && same (st w2) Closed.

Definition half_open_admits_only_one_probe_at_a_time : bool :=
  let w1 := fail_now (start 1 (from_millis 40)) in
  let '(a, w2) := acquire (sleep 60 w1) in
  let '(rest, _) := repeat_check 20 (fun w => let '(a, w) := acquire w in (negb a, w)) w2 in
  same (st w1) Open && a && same (st w2) HalfOpen && rest.

(** Sixteen callers released together: any order of the lock gives the same sixteen calls. *)
Definition concurrent_callers_yield_exactly_one_probe : bool :=
  let w := sleep 60 (fail_now (start 1 (from_millis 40))) in
  Nat.eqb (admitted (run_trace Breaker.step (acquires (replicate 16 (w.2, w.2))) w.1).1) 1.

Definition a_lost_probe_does_not_wedge_the_breaker : bool :=
  let w1 := fail_now (start 1 (from_millis 40)) in
  let '(a1, w2) := acquire (sleep 60 w1) in
  let '(a2, w3) := acquire w2 in
  let '(a3, _) := acquire (sleep 60 w3) in
  a1 && negb a2 && a3.

Definition cancelling_the_probe_does_not_reopen_the_breaker : bool :=
  let '(_, w1) := run fail (start 1 (from_millis 40)) in
  let '(r, w2) := run cancel (sleep 60 w1) in
  same (st w1) Open && is_cancelled r && same (st w2) HalfOpen && (cf w2 =? 1).

Definition a_successful_probe_closes_the_breaker : bool :=
  let '(_, w1) := run fail (start 1 (from_millis 40)) in
  let '(r, w2) := run ok (sleep 60 w1) in
  is_one r && same (st w2) Closed && (cf w2 =? 0) && (acquire w2).1.

Definition threshold_zero_is_clamped_to_one : bool :=
  let w := start 0 (from_secs 30) in
  (threshold w.1 =? 1) && same (st (fail_now w)) Open.

Definition half_open_failure_reopens_immediately : bool :=
  let '(_, w1) := run fail (start 2 (from_millis 40)) in
  let '(_, w2) := run fail w1 in
  let '(r, w3) := run fail (sleep 60 w2) in
  same (st w2) Open && is_boom r && same (st w3) Open.

(** The limiter, over a token bucket. *)
Definition allows_burst_then_denies : bool :=
  let rl := keyed_rate_limiter_per_second (K := string) (Limiter := TokenBuckets (K := string)) 5 in
  let '(b, rl) := repeat_check 5 (keyed_rate_limiter_allow 0 "a") rl in
  let '(sixth, rl) := keyed_rate_limiter_allow 0 "a" rl in
  let '(other, _) := keyed_rate_limiter_allow 0 "b" rl in
  b && negb sixth && other.

Lemma breaker_tests_pass :
  forallb id [defaults_match_go; trips_after_n_consecutive_failures;
    rejects_while_open_then_recovers_after_cooldown; cancellation_does_not_trip_the_breaker;
    half_open_admits_only_one_probe_at_a_time; concurrent_callers_yield_exactly_one_probe;
    a_lost_probe_does_not_wedge_the_breaker; cancelling_the_probe_does_not_reopen_the_breaker;
    a_successful_probe_closes_the_breaker; threshold_zero_is_clamped_to_one;
    half_open_failure_reopens_immediately; allows_burst_then_denies] = true.
Proof. vm_compute. reflexivity. Qed.

End BreakerTests.

(** ** [pc-log] *)

Module LogTests.

Definition sampler_defaults_production : bool :=
  match sampler_config_for_env (Some Production) with
  | Some cfg => (initial cfg =? 5) && (thereafter cfg =? 50) && (period cfg =? from_secs 1)
  | None => false
  end.

Definition sampler_defaults_staging : bool :=
  match sampler_config_for_env (Some Staging) with
  | Some cfg => (initial cfg =? 10) && (thereafter cfg =? 10) && (period cfg =? from_secs 1)
  | None => false
  end.

Definition sampler_defaults_develop : bool :=
  match sampler_config_for_env (Some Develop) with
  | Some cfg => (initial cfg =? 20) && (thereafter cfg =? 20) && (period cfg =? from_secs 1)
  | None => false
  end.

(** The answers of checks at given instants. *)
Definition checks (s : Sampler) (ts : list (Z * string)) : list (bool * Z) :=
  (run_trace (fun '(t, k) => sampler_check t k) ts s).1.

Definition sampler_defaults_none_is_passthrough : bool :=
  match sampler_config_for_env None with None => true | Some _ => false end
  && forallb (fun o => same o (true, 0)) (checks (sampler_new None) (replicate 100 (0, "k"))).

Definition sampler_initial_burst_then_drop_when_thereafter_zero : bool :=
  same (checks (sampler_new (Some (mkSamplerConfig 3 0 (from_secs 1)))) (replicate 4 (0, "k")))
    [(true, 0); (true, 0); (true, 0); (false, 0)].

Definition sampler_thereafter_sampling_reports_suppressed : bool :=
  same (checks (sampler_new (Some (mkSamplerConfig 2 5 (from_secs 10)))) (replicate 7 (0, "k")))
    [(true, 0); (true, 0); (false, 0); (false, 0); (false, 0); (false, 0); (true, 4)].

Definition sampler_keys_are_independent : bool :=
  same (checks (sampler_new (Some (mkSamplerConfig 1 0 (from_secs 1))))
          [(0, "a"); (0, "b"); (0, "a"); (0, "b")])
    [(true, 0); (true, 0); (false, 0); (false, 0)].

Definition production_storm_emits_initial_five_then_every_fiftieth : bool :=
  let s := sampler_new (sampler_config_for_env (Some Production)) in
  let emitted := omap (fun '(allowed, suppressed) =>
                         if allowed : bool then Some suppressed else None)
                   (checks s (replicate 500 (0, "retry storm"))) in
  Nat.eqb (length emitted) 14
  && same (take 5 emitted) [0; 0; 0; 0; 0]
  && forallb (fun suppressed => suppressed =? 49) (drop 5 emitted).

Definition sampler_period_reset : bool :=
  same (checks (sampler_new (Some (mkSamplerConfig 1 0 (from_millis 50))))
          [(0, "k"); (0, "k"); (from_millis 60, "k")])
    [(true, 0); (false, 0); (true, 0)].

Definition shown (c : LogContext) : string := Log.prefix c.

Definition log_context_prefix_shapes : bool :=
  same (shown (context_new [])) ""
  && same (shown (context_new [("req_id", "abc-123")])) "[req_id=abc-123] "
  && same (shown (context_new [("req_id", "abc"); ("merchant", "M001"); ("user", "U42")]))
       "[req_id=abc merchant=M001 user=U42] ".

Definition log_context_with_merges_and_is_immutable : bool :=
  let parent := context_new [("req_id", "abc")] in
  let child := context_with [("step", "validate")] parent in
  same (shown child) "[req_id=abc step=validate] "
  && same (shown parent) "[req_id=abc] "
  && same (shown (context_with [] parent)) (shown parent)
  && same (shown (context_with [("step", "init")] (context_new []))) "[step=init] "
  && same (shown (context_with [("detail", "x")]
             (context_with [("step", "1")] (context_new [("req_id", "abc")]))))
       "[req_id=abc step=1 detail=x] ".

(** The answers of a keyed limiter at one instant. *)
Definition allows (rate burst : Z) (keys : list string) : list bool :=
  (run_trace (keyed_limiter_allow (Limiter := TokenBuckets (K := string)) 0) keys
     (keyed_limiter_new rate burst)).1.

Definition keyed_limiter_allows_first_and_independent_keys : bool :=
  same (allows 10 1 ["a"; "b"]) [true; true].
Definition keyed_limiter_rate_limits_per_key : bool :=
  same (allows 1 1 ["k"; "k"]) [true; false].
Definition keyed_limiter_burst_allows_multiple : bool :=
  same (allows 1 3 ["k"; "k"; "k"; "k"]) [true; true; true; false].

Definition suppressed_suffix_formatting : bool :=
  same (with_suffix "msg" 0) "msg" && same (with_suffix "msg" 4) "msg [+4 suppressed]".

Definition window_limiter_zero_window_passes_through : bool :=
  same (sample_window 0 "k" 0 ∅).1 (Some 0).

Definition window_limiter_suppresses_within_window_then_reports : bool :=
  let key := "window-test-unique-key" in
  let window := from_millis 50 in
  same (run_trace (fun t => sample_window t key window) [0; 0; 0; from_millis 60] ∅).1
    [Some 0; None; None; Some 2].

Definition macros_smoke : bool :=
  let prefix := build_log_prefix "Smoke" in
  let env (_ : string) : option string := None in
  let at_level (_ : string) (_ : Level) := true in
  let call f m := mkCall 0 "2025-01-01 00:00:00.000" f m in
  let p := Logging.init env identity_initial Process_initial in
  let p := log_d at_level prefix (call "debug {}" "debug 1") p in
  let p := log_i at_level prefix (call "info {}" "info 2") p in
  let p := log_w at_level prefix (call "warn {}" "warn 3") p in
  let p := log_e at_level prefix (call "error {}" "error 4") p in
  let p := log_f at_level prefix (call "fatal {}" "fatal 5") p in
  let p := log_i_rated at_level "k.info" prefix (call "rated {}" "rated 6") p in
  let p := log_e_rated at_level "k.err" prefix (call "rated {}" "rated 7") p in
  let p := log_i_rated_w at_level "k.win" (from_millis 10) prefix
             (call "windowed {}" "windowed 8") p in
  let ctx := context_new [("req", "1")] in
  let p := log_i at_level (shown ctx) (call "with context" "with context") p in
  Nat.eqb (length (stdout p)) 9.

Definition titles_match_golog_fixed_width_contract : bool :=
  same (level_title ERROR) "[ERRO]" && same (level_title WARN) "[WARN]"
  && same (level_title INFO) "[INFO]" && same (level_title DEBUG) "[DBUG]".

Lemma log_tests_pass :
  forallb id [sampler_defaults_production; sampler_defaults_staging; sampler_defaults_develop;
    sampler_defaults_none_is_passthrough; sampler_initial_burst_then_drop_when_thereafter_zero;
    sampler_thereafter_sampling_reports_suppressed; sampler_keys_are_independent;
    production_storm_emits_initial_five_then_every_fiftieth; sampler_period_reset;
    log_context_prefix_shapes; log_context_with_merges_and_is_immutable;
    keyed_limiter_allows_first_and_independent_keys; keyed_limiter_rate_limits_per_key;
    keyed_limiter_burst_allows_multiple; suppressed_suffix_formatting;
    window_limiter_zero_window_passes_through;
    window_limiter_suppresses_within_window_then_reports; macros_smoke;
    titles_match_golog_fixed_width_contract] = true.
Proof. vm_compute. reflexivity. Qed.

End LogTests.

(** ** [pc-config] *)

Module ConfigTests.

Definition config_error_serializes_go_shape : bool :=
  let e := Config.warn "APP_ENV" "bad" in
  same (Config.field e) "APP_ENV" && same (Config.message e) "bad"
  && same (Level_as_str (Config.level e)) "warning".

Definition configured (deployed : list string) : nat :=
  count_configured AUDITTRAIL_KEY_ALIASES (fun k => one_of deployed k).

Definition rq_spelling_counts_as_configured : bool :=
  Nat.eqb (configured ["RQ_HOST"; "RQ_PORT"; "RQ_VHOST"; "RQ_USERNAME"; "RQ_PASSWORD";
                       "RQ_QUEUE_AUDITTRAIL"]) (length AUDITTRAIL_KEY_ALIASES).

Definition legacy_rabbitmq_spelling_still_counts : bool :=
  Nat.eqb (configured ["RABBITMQ_HOST"; "RABBITMQ_PORT"; "RABBITMQ_VIRTUAL_HOST_AUDITTRAIL";
                       "RABBITMQ_USERNAME_AUDITTRAIL"; "RABBITMQ_PASSWORD_AUDITTRAIL";
                       "RABBITMQ_QUEUE_AUDITTRAIL"]) (length AUDITTRAIL_KEY_ALIASES).

Definition nothing_set_is_zero_and_partial_is_partial : bool :=
  Nat.eqb (count_configured AUDITTRAIL_KEY_ALIASES (fun _ => false)) 0
  && Nat.eqb (configured ["RQ_HOST"; "RQ_PORT"]) 2.

Definition mixed_spellings_do_not_double_count : bool :=
  Nat.eqb (configured ["RABBITMQ_HOST"; "RQ_HOST"]) 1.

Lemma config_tests_pass :
  forallb id [config_error_serializes_go_shape; rq_spelling_counts_as_configured;
    legacy_rabbitmq_spelling_still_counts; nothing_set_is_zero_and_partial_is_partial;
    mixed_spellings_do_not_double_count] = true.
Proof. vm_compute. reflexivity. Qed.

End ConfigTests.

(** ** [pc-http] *)

Module HttpTests.

(** The serialized fields by name. *)
Definition field_of {T : Type} (r : ResponseApi T) (name : string) : option (Field T) :=
  snd <$> List.find (fun f => String.eqb f.1 name) (serialize r).

Definition is_str {T : Type} (f : option (Field T)) (s : string) : bool :=
  match f with Some (FStr s') => String.eqb s s' | _ => false end.

Definition absent {T : Type} (f : option (Field T)) : bool :=
  match f with None => true | Some _ => false end.

Definition internal_code_and_data_omitted_when_empty : bool :=
  let v := field_of (unauthorized (T := unit) "nope") in
  absent (v "internal_code") && absent (v "data").

Definition internal_code_and_data_present_when_set : bool :=
  is_str (field_of (bad_request (T := unit) "bad" "ERR-01") "internal_code") "ERR-01"
  && match field_of (success "done" (js "{'a':1}")) "data" with
     | Some (FData d) => same d (js "{'a':1}")
     | _ => false
     end.

Definition success_sets_code_and_status : bool :=
  let r := success "done" 42 in
  (code r =? 200) && same (status r) "success" && same (Http.message r) "done"
  && same (data r) (Some 42).

Definition accepted_sets_exact_message_status_code : bool :=
  let r := accepted (T := unit) in
  (code r =? 202) && same (status r) "accepted" && same (Http.message r) "your request in process".

Definition bad_request_sets_status_and_code : bool :=
  let r := bad_request (T := unit) "oops" "IC-9" in
  (code r =? 400) && same (status r) "bad request" && same (internal_code r) "IC-9".

Definition unauthorized_sets_status_and_code : bool :=
  let r := unauthorized (T := unit) "no" in
  (code r =? 401) && same (status r) "unauthorized".

Definition internal_error_sets_status_and_code : bool :=
  let r := internal_error (T := unit) "boom" in
  (code r =? 500) && same (status r) "internal server error".

Definition hex_digit (n : N) : ascii := if (n <? 10)%N then ascii_of_N (48 + n) else ascii_of_N (87 + n).
Definition hex (b : bytes) : string :=
  of_bytes (flat_map (fun a => let n := N_of_ascii a in [hex_digit (n / 16); hex_digit (n mod 16)]) b).

(** A random source that always answers the same sixteen bytes. *)
Definition random16 : io unit bytes := fun w => (map ascii_of_N (map N.of_nat (seq 200 16)), w).

Definition request_id (header : option string) : string :=
  (get_or_generate_request_id random16 hex header tt).1.

Definition request_id_generated_is_32_lower_hex : bool :=
  let id := request_id None in
  Nat.eqb (String.length id) 32
  && forallb (fun c => in_range 48 57 c || in_range 97 102 c) (as_bytes id)
  && Nat.eqb (String.length (request_id (Some ""))) 32.

Definition request_id_passes_through_when_present : bool := same (request_id (Some "abc")) "abc".

Definition into_response_uses_body_code_as_status : bool :=
  r_status (into_response (L := text_http) (bad_request (T := unit) "x" "y")) =? 400.

(** One request to the router in memory. *)
Definition oneshot (path : string) (m : Method) : Response text_http unit :=
  (call (Framework := mem_framework (T := unit) (W := unit)) (base_router random16 hex)
     (mkRequest (L := text_http) path m ∅ []) tt).1.

Definition health_endpoint_returns_200 : bool := r_status (oneshot "/healthz" GET) =? 200.

Definition health_endpoint_gets_request_id_header : bool :=
  match header_get "x-request-id" (r_headers (oneshot "/health" GET)) with
  | Some id => Nat.eqb (String.length id) 32
  | None => false
  end.

Definition post_without_json_content_type_is_415 : bool :=
  let resp := oneshot "/metrics" POST in
  (r_status resp =? 415)
  && match r_body resp with
     | Json fields => is_str (snd <$> List.find (fun f => String.eqb f.1 "status") fields)
                        "unsupported media type"
     | _ => false
     end.

Lemma http_tests_pass :
  forallb id [internal_code_and_data_omitted_when_empty; internal_code_and_data_present_when_set;
    success_sets_code_and_status; accepted_sets_exact_message_status_code;
    bad_request_sets_status_and_code; unauthorized_sets_status_and_code;
    internal_error_sets_status_and_code; request_id_generated_is_32_lower_hex;
    request_id_passes_through_when_present; into_response_uses_body_code_as_status;
    health_endpoint_returns_200; health_endpoint_gets_request_id_header;
    post_without_json_content_type_is_415] = true.
Proof. vm_compute. reflexivity. Qed.

End HttpTests.

(** ** [xtask] *)

Module LintTests.

Definition item (line : string) : option string := exported_item ascii_only line.

Definition recognises_exported_items : bool :=
  same (item "pub fn thing() {") (Some "thing")
  && same (item "pub async fn thing() {") (Some "thing")
  && same (item "pub struct Thing {") (Some "Thing")
  && same (item "pub const X: u8 = 1;") (Some "X")
  && same (item "pub trait T {") (Some "T").

Definition ignores_non_exports : bool :=
  same (item "fn private() {") None
  && same (item "pub(crate) fn internal() {") None
  && same (item "pub(super) fn internal() {") None
  && same (item "pub use thing::Thing;") None
  && same (item "pub mod thing;") None.

Definition finds_an_annotation_through_docs_and_attributes : bool :=
  has_annotation ["/// mirrors: `pkg.GoThing`"; "#[must_use]"; "#[derive(Debug)]";
                  "pub fn thing() {"] 3.

Definition accepts_the_multi_mirror_and_no_equivalent_forms : bool :=
  has_annotation ["/// mirrors: `a.One` + `a.Two`"; "pub fn thing() {"] 1
  && has_annotation ["/// no-go-equivalent: added by this port"; "pub fn thing() {"] 1.

Definition an_undocumented_item_is_reported : bool :=
  negb (has_annotation ["/// Does a thing."; "pub fn thing() {"] 1).

Definition does_not_borrow_a_previous_items_annotation : bool :=
  negb (has_annotation ["/// mirrors: `pkg.Other`"; "pub fn other() {}"; ""; "pub fn thing() {"] 3).

Definition test_modules_are_skipped : bool :=
  let source := "pub fn real() {}" +:+ nl +:+ nl +:+ "#[cfg(test)]" +:+ nl +:+ "mod tests {" +:+ nl
                +:+ "    pub fn helper() {}" +:+ nl +:+ "}" +:+ nl in
  same (Lint.scan ascii_only source "x.rs" []) ["x.rs:1:real"].

Lemma lint_tests_pass :
  forallb id [recognises_exported_items; ignores_non_exports;
    finds_an_annotation_through_docs_and_attributes;
    accepts_the_multi_mirror_and_no_equivalent_forms; an_undocumented_item_is_reported;
    does_not_borrow_a_previous_items_annotation; test_modules_are_skipped] = true.
Proof. vm_compute. reflexivity. Qed.

End LintTests.
