(* ===== verification/Vectors.v ===== *)
(** The golden vectors of the [tests] directories of [pc-core], [pc-audit] and [pc-snapbi] that need
    no key pair, replayed on the model with the algorithms of [Ciphers.suite]. *)
From S2P Require Import Ciphers Codecs Lint AuditTrail UnitTests CrateTests.
Local Open Scope string_scope.
Local Open Scope Z_scope.
Local Open Scope rust_scope.

(** No vector here depends on the clock. *)
#[local] Instance vector_suite : Crypto := suite.

(** ** [pc-core/tests/golden_vectors.rs] *)

Definition go_json_compact_vectors_are_byte_exact : bool :=
  forallb (fun v => same (of_bytes <$> res_ok (json_minify json_valid (as_bytes (js v.1))))
                      (Some (js v.2)))
    [("{ 'key' : 'value' }", "{'key':'value'}");
     ("{'dup':1, 'dup':2, 'unicode':'雪', 'escaped':'\u96ea'}",
      "{'dup':1,'dup':2,'unicode':'雪','escaped':'\u96ea'}");
     ("{'number':1.2300e+04, 'nested': [ true, null, {'x':'a b'} ]}",
      "{'number':1.2300e+04,'nested':[true,null,{'x':'a b'}]}")].

(** [pc_core::json], with the real parser. *)
Definition rejects_malformed : bool :=
  forallb (fun s => negb (is_ok (json_minify json_valid (as_bytes (js s)))))
    ["{ bad "; ""; "{} trailing"].

(** ** [pc-snapbi/tests] *)

Record Vector : Type := mkVector {
  secret : string;
  method : string;
  url : string;
  token : string;
  vbody : string;
  timestamp : string;
  signature : string;
}.

Definition sign_vector (v : Vector) : string :=
  symmetric_sign (as_bytes (secret v)) (method v) (url v) (token v) (as_bytes (vbody v)) (timestamp v).
Definition verify_vector (v : Vector) : bool :=
  symmetric_verify (as_bytes (secret v)) (method v) (url v) (token v) (as_bytes (vbody v))
    (timestamp v) (signature v).

(** [symmetric_signatures.json]. *)
Definition symmetric_signatures : list Vector := [
  mkVector "super-secret-api-key" "POST" "/v1.0/transfer" "accessTok123"
    (js "{  'b': 2," +:+ nl +:+ js " 'a': 1 }") "2026-07-30T10:00:00+07:00"
    "/LrFn35LmOc5cDL83yhRV6FQoMfVdKuVBFc7jLm/bE8ILZYpS7pCTTTDZ/NHEjwhIYuY/TZgGdfmt4okaNucQA==";
  mkVector "secret" "POST" "/pay" "tok" (js "{'amount':1000,'currency':'IDR'}")
    "2026-01-01T00:00:00Z"
    "yYirLi3BbGFIDTLHo10wKUakgCz8+/eTEKPVpbltUtmm7HwSJgyHuu2lWtbmM0uO/FdbHWlnXbz4yoB0INK+xg==";
  mkVector "secret" "POST" "/pay" "tok" "{invalid}" "2026-01-01T00:00:00Z"
    "0nsL1YL3uA0vabWgBUcuvblzLhaFMUv0B9+p6U1HETlXHYw7ncPGqVVbR5Zi5pC8OoYuQmZln6C+MXMH6NGYbQ=="].

(** [pc-snapbi/src/lib.rs]: the layout rebuilt by hand with the same primitives. *)
Definition symmetric_string_to_sign_layout_is_exact : bool :=
  let secret := as_bytes "super-secret-api-key" in
  let body := as_bytes ("{  " +:+ js "'b': 2," +:+ nl +:+ js "            'a': 1 }") in
  let ts := "2026-07-30T10:00:00+07:00" in
  match json_minify json_valid body with
  | Ok minified =>
      let expected := "POST:/v1.0/transfer:accessTok123:" +:+ hex_encode (sha256 minified) +:+ ":" +:+ ts in
      same expected (symmetric_string_to_sign "POST" "/v1.0/transfer" "accessTok123" body ts)
      && same (b64_encode (hmac_sha512 secret (as_bytes expected)))
           (symmetric_sign secret "POST" "/v1.0/transfer" "accessTok123" body ts)
  | Err _ => false
  end.

Definition go_symmetric_signature_vectors_are_byte_exact : bool :=
  forallb (fun v => same (sign_vector v) (signature v) && verify_vector v) symmetric_signatures.

(** [symmetric_go_vectors.json]: signatures of the Go code, over the raw body. *)
Definition go_vector (body signature : string) : Vector :=
  mkVector "test-secret-key" "POST" "/v1.0/qr/qr-mpm-generate" "access-token-abc" body
    "2026-08-17T10:00:00+07:00" signature.

Definition compact_vector : Vector :=
  go_vector (js "{'partnerReferenceNo':'ORDER-1','amount':{'value':'1000.00','currency':'IDR'}}")
    "swUNJRXghATO8ld5I1tILzUl7OZjRhzAMU/5KQLv25pOiONeXjYWsHApafMFsmJGh4CriWq30Q0A2WyLwx4JEA==".

Definition symmetric_go_vectors : list Vector := [
  compact_vector;
  go_vector ("{" +:+ nl +:+ js "  'partnerReferenceNo': 'ORDER-1'," +:+ nl +:+ js "  'amount': {"
             +:+ nl +:+ js "    'value': '1000.00'" +:+ nl +:+ "  }" +:+ nl +:+ "}")
    "RslG31Wi0aYakSgpjFj3kzN9LOKaVWUbDJEGUqEPEsGr94fzScYw2oniTRsxfoi9q/4vK/Wrq7/rPCD2i8QPfw==";
  go_vector "{invalid}"
    "D50J5DCQKgg87pUGV6PJ9nh9YGsHHMviHdOFe3QpDWsuf3oBKSd/ZssbPbYyhCVWWwGNKPJspR/vIJ5fJ25big==";
  go_vector ""
    "nWCX0MvJy7JTRZvBR488E+z3Dc8ck2ItbPFrU+RpfRGeFkp3mnQkGv+cczCh6u8nSKoeeL9bdt12k4nht7hVyw=="].

Definition rust_and_go_hash_the_same_bytes (body : string) : bool :=
  same (default [] (res_ok (json_minify json_valid (as_bytes body)))) (as_bytes body).

Definition go_symmetric_vectors_pin_agreement_and_divergence : bool :=
  let verdicts := map (fun v => rust_and_go_hash_the_same_bytes (vbody v)) symmetric_go_vectors in
  same verdicts (map (fun v => same (sign_vector v) (signature v)) symmetric_go_vectors)
  && Nat.leb 2 (length (List.filter (fun b => b) verdicts))
  && Nat.leb 2 (length (List.filter negb verdicts)).

Definition compact_body_matches_go_byte_for_byte : bool :=
  rust_and_go_hash_the_same_bytes (vbody compact_vector)
  && same (sign_vector compact_vector) (signature compact_vector).

Definition symmetric_verify_accepts_a_go_produced_signature : bool :=
  forallb verify_vector
    (List.filter (fun v => rust_and_go_hash_the_same_bytes (vbody v)) symmetric_go_vectors).

(** ** [pc-audit/tests/golden_vectors.rs] *)

(** The serializer of the envelope, whose [data] is already a JSON text. *)
Definition envelope_to_vec (p : MessagePayloadAudit string) : result bytes string :=
  Ok (as_bytes (CrateTests.AuditTests.render (JObj
    [("Id", JNum (AuditTrail.id p)); ("Command", JStr (command p)); ("Time", JStr (time p));
     ("ModuleId", JStr (module_id p)); ("Data", JVal (data p))]))).

Definition go_transaction_audit_json_is_byte_exact : bool :=
  let trx := mkAuditTrailTrx "R-1" "O-1" "" "success" "order_created" "done" "svc" "CreateOrder"
               "order persisted" "grpc" "2026-07-30T10:00:00+07:00" 8 "1000" "IDR" "" "" "" "" "" ""
               (Some (js "{'order':'O-1'}")) None [("retryCount", "2")]
               "2026-07-30T10:00:00+07:00" in
  let payload := mkPayload 7 CMD_TRX "2026-07-30 10:00:00" "svc"
                   (CrateTests.AuditTests.render (JObj (json_AuditTrailTrx trx))) in
  same (of_bytes <$> res_ok (marshal_audit envelope_to_vec payload))
    (Some (js (String.concat "" [
      "{'Id':7,'Command':'audit-trail-trx','Time':'2026-07-30 10:00:00','ModuleId':'svc','Data':{";
      "'reffNo':'R-1','orderNo':'O-1','status':'success','state':'order_created',";
      "'message':'done','service':'svc','function':'CreateOrder','description':'order persisted',";
      "'communicationType':'grpc','eventTime':'2026-07-30T10:00:00+07:00','durationMs':8,";
      "'amount':'1000','currency':'IDR','request':{'order':'O-1'},'metadata':{'retryCount':2},";
      "'createdAt':'2026-07-30T10:00:00+07:00'}}"]) +:+ nl)).

Lemma golden_vectors_pass :
  CrateTests.all_pass [go_json_compact_vectors_are_byte_exact; rejects_malformed;
    symmetric_string_to_sign_layout_is_exact;
    go_symmetric_signature_vectors_are_byte_exact;
    go_symmetric_vectors_pin_agreement_and_divergence; compact_body_matches_go_byte_for_byte;
    symmetric_verify_accepts_a_go_produced_signature;
    go_transaction_audit_json_is_byte_exact] = true.
Proof. vm_compute. reflexivity. Qed.
