(* ===== verification/AsyncTests.v ===== *)
(** The unit tests of the parts that take time: the seven tests of [Singleflight] and those of
    [pc-audit]'s worker pool, replayed as schedules of their step relations; the live tests of
    [pc-redis] on the timed server of [RedisClock]; and the claims of [pc-auth], whose dates are
    computed with a calendar.

    Each test is a boolean in the manner of [UnitTests]; what the async runtime decides (who is
    polled, who is cancelled by its deadline) is the schedule. *)
From S2P Require Import RedisClock Umbrella Amqp S3minio AuditPool Auth Vectors UnitTests CrateTests.
From S2P Require Import Singleflight.
Local Open Scope string_scope.
Local Open Scope Z_scope.

(** ** [pc-resilience]: singleflight *)

Module FlightTests.
Section Calls.
Context {K T : Type} `{Countable K}.

(** A shared future is what it yields, [None] for one that stays pending; callers are numbers. *)
Abbreviation G := (Group (K := K) (Fut := option T) (T := T) (C := nat)).
Abbreviation Act := (act (K := K) (Fut := option T) (T := T) (C := nat)).

Definition run (acts : list Act) (s : G) : G := (exec_all acts s).2.

(** Poll caller [c] to completion: its result, when its future is not pending for ever. *)
Definition await (c : nat) (s : G) : option T * G :=
  let work := match guards s !! c with Some g => futures s !! g_future g | None => None end in
  let acts := match work with
              | Some (Some v, None) => [APoll c v; AReturn c]
              | _ => [AReturn c]
              end in
  let '(ls, s') := Singleflight.exec_all acts s in
  (match last ls with Some (LReturn _ _ v) => Some v | _ => None end, s').

Fixpoint await_all (cs : list nat) (s : G) : list (option T) * G :=
  match cs with
  | [] => ([], s)
  | c :: cs =>
      let '(r, s) := await c s in
      let '(rs, s) := await_all cs s in
      (r :: rs, s)
  end.

(** Each registered future is polled at once by the caller that registered it, so the number of
    futures is the number of runs. *)
Definition runs (s : G) : nat := length (futures s).

(** Some entry or caller still holds future [h]. *)
Definition held (h : nat) (s : G) : bool :=
  existsb (fun '(_, fl) => Nat.eqb (f_future fl) h) (map_to_list (calls s)) ||
  existsb (fun '(_, g) => Nat.eqb (g_future g) h) (map_to_list (guards s)).
End Calls.

Definition runs_underlying_future_exactly_once_under_concurrency : bool :=
  let callers := seq 0 32 in
  let s := run (map (fun c => ACall c "shared-key" (Some 42)) callers) new in
  let '(results, s) := await_all callers s in
  same results (repeat (Some 42) 32) && same (runs s) 1%nat.

Definition distinct_keys_run_independently : bool :=
  let s := run [ACall 0%nat 1 (Some 10); ACall 1%nat 2 (Some 20)] new in
  let '(results, s) := await_all [0; 1]%nat s in
  same results [Some 10; Some 20] && same (runs s) 2%nat.

Definition re_runs_after_completion : bool :=
  let call '(ok, s) c :=
    let '(r, s) := await c (run [ACall c "k" (Some 99)] s) in
    (ok && same r (Some 99), s) in
  let '(ok, s) := fold_left call [0; 1; 2]%nat (true, new) in
  ok && same (runs s) 3%nat.

Definition owner_cancelled_mid_flight_next_caller_starts_a_fresh_fetch : bool :=
  let cancelled := run [ACall 0%nat "k" None; ACancel 0%nat] new in
  let '(v, s) := await 1%nat (run [ACall 1%nat "k" (Some 7)] cancelled) in
  same (in_flight cancelled) 0%nat && same v (Some 7) && same (runs s) 2%nat
  && same (in_flight s) 0%nat.

Definition error_finished_by_a_joiner_is_not_served_to_a_later_caller : bool :=
  let failing := Some (Err "vendor timeout" : result Z string) in
  let waiting := run [ACall 0%nat "k" failing; ACall 1%nat "k" (Some (Ok 0)); ACancel 0%nat] new in
  let '(joiner, finished) := await 1%nat waiting in
  let '(later, s) := await 2%nat (run [ACall 2%nat "k" (Some (Ok 1))] finished) in
  same (in_flight waiting) 1%nat
  && match joiner with Some (Err e) => same e "vendor timeout" | _ => false end
  && same (in_flight finished) 0%nat
  && match later with Some (Ok v) => same v 1 | _ => false end
  && same (runs s) 2%nat.

Definition all_callers_cancelled_leaves_no_entry_and_drops_the_work : bool :=
  let both := run [ACall 0%nat "k" None; ACall 1%nat "k" (Some 0)] new in
  let s := run [ACancel 0%nat; ACancel 1%nat] both in
  held 0 both && same (in_flight s) 0%nat && negb (held 0 s).

Definition a_late_waiter_never_removes_a_newer_flight : bool :=
  let polled := run [ACall 0%nat "k" (Some 1); ACall 1%nat "k" (Some 99)] new in
  let '(owner, s) := await 0%nat polled in
  let newer := run [ACall 2%nat "k" None] s in
  let '(joiner, s) := await 1%nat newer in
  same owner (Some 1) && same (in_flight newer) 1%nat && same joiner (Some 1)
  && same (in_flight s) 1%nat.

Lemma flight_tests_pass :
  all_pass [runs_underlying_future_exactly_once_under_concurrency;
    distinct_keys_run_independently; re_runs_after_completion;
    owner_cancelled_mid_flight_next_caller_starts_a_fresh_fetch;
    error_finished_by_a_joiner_is_not_served_to_a_later_caller;
    all_callers_cancelled_leaves_no_entry_and_drops_the_work;
    a_late_waiter_never_removes_a_newer_flight] = true.
Proof. vm_compute. reflexivity. Qed.

End FlightTests.

(** ** [pc-audit]: the worker pool *)

Module PoolTests.

(** The messages it was given, and whether it refuses. *)
Record MockPublisher : Type := mkMock { messages : list bytes; fail : bool }.

#[local] Instance mock_publisher : Publisher MockPublisher string := {
  publish data _ := fun m =>
    if fail m then (Some (Err "offline"), m)
    else (Some (Ok tt), mkMock (messages m ++ [data]) (fail m));
  publisher_ready _ := true;
}.

Abbreviation Pool := (AuditPublisher (MessagePayloadAudit string) MockPublisher).

Definition payload (id : Z) (command data : string) : MessagePayloadAudit string :=
  mkPayload id command "" "" data.

Definition ends_with_newline (b : bytes) : bool := same (last b) (Some (ascii_of_N 10)).

(** Worker 0 takes [n] steps at time [now]. *)
Definition work_off (cfg : AuditPublisherConfig) (now : Z) (n : nat) (s : Pool) : Pool :=
  (AuditPool.exec_all Vectors.envelope_to_vec cfg (repeat (AWorker 0 now) n) s).2.

Definition envelope_json_uses_pascal_case_and_newline : bool :=
  let value := mkPayload 7 CMD_PROCESS "2026-07-30 10:00:00" "svc" (js "{'html':'<tag>'}") in
  match Codecs.marshal_audit Vectors.envelope_to_vec value with
  | Ok encoded =>
      ends_with_newline encoded
      && forallb (fun s => Lint.contains (js s) (of_bytes encoded))
           ["'Id':7"; "'Command':'audit-trail-process'"; "<tag>"]
  | Err _ => false
  end.

Definition workers_publish_audit_profile : bool :=
  let cfg := mkConfig 1 2 "" (circuit_breaker_threshold config_default)
               (circuit_breaker_cooldown config_default) in
  let '(accepted, s) := submit cfg 0 (payload 1 CMD_PROCESS (js "{'ok':true}"))
                          (AuditPool.new cfg (mkMock [] false)) in
  let stopped := work_off cfg 1 2 (with_stopped (work_off cfg 1 4 s)) in
  accepted && forallb (fun w => match w with WExited => true | _ => false end) (workers stopped)
  && match messages (transport stopped) with
     | [m] => ends_with_newline m
     | _ => false
     end.

Definition breaker_opens_at_ten_failures : bool :=
  let cfg := mkConfig 1 16 "" (circuit_breaker_threshold config_default) (from_secs 30) in
  let submit_one '(ok, s) id :=
    let '(accepted, s) := submit cfg 0 (payload id CMD_PROCESS "null") s in (ok && accepted, s) in
  let '(ok, s) := fold_left submit_one [1; 2; 3; 4; 5; 6; 7; 8; 9; 10]
                    (true, AuditPool.new cfg (mkMock [] true)) in
  let s := work_off cfg 1 50 s in
  ok && circuit_open 50 s && same (failures s) 10.

Lemma pool_tests_pass :
  all_pass [envelope_json_uses_pascal_case_and_newline; workers_publish_audit_profile;
    breaker_opens_at_ten_failures] = true.
Proof. vm_compute. reflexivity. Qed.

End PoolTests.

(** ** [pc-redis]: the tests that need a server *)

Module RedisLiveTests.

#[local] Instance KeyTtl_eq_dec : EqDecision KeyTtl.
Proof. solve_decision. Defined.

(** Commands of 2 ms on the timed server; values are JSON strings. *)
Definition exec : Z -> Cmd -> io Timed Outcome := timed_exec 2.
Definition json (s : string) : result string string := Ok (js ("'" +:+ s +:+ "'")).
Definition env : Env := vars [].
Definition empty_server : Timed := (∅, 0).

Definition ttl_reads_back_the_stored_expiry : bool :=
  let key := "pc-redis:test:ttl" in
  let '(missing, w) := Redis.ttl env exec key empty_server in
  let '(_, w) := Redis.store env exec json key "hello" (from_secs 30) w in
  let '(remaining, w) := Redis.ttl env exec key w in
  let '(_, w) := Redis.store env exec json key "hello" 0 w in
  let '(permanent, w) := Redis.ttl env exec key w in
  let '(_, w) := Redis.delete env exec key w in
  let '(gone, w) := Redis.ttl env exec key w in
  same (res_ok missing) (Some Redis.Missing)
  && match remaining with
     | Ok (Expires d) => (d <=? from_secs 30) && (from_secs 25 <? d)
     | _ => false
     end
  && same (res_ok permanent) (Some NoExpiry) && same (res_ok gone) (Some Redis.Missing).

Definition store_get_delete_roundtrip : bool :=
  let key := "pc-redis:test:roundtrip" in
  let '(_, w) := Redis.store env exec json key "hello" (from_secs 30) empty_server in
  let '(found, w) := Redis.get env exec key w in
  let '(_, w) := Redis.delete env exec key w in
  let '(gone, w) := Redis.get env exec key w in
  same (res_ok found) (Some (Some (js "'hello'"))) && same (res_ok gone) (Some None).

(** A lock manager that keeps the set of held keys. *)
Definition lock (_ : unit) (_ : Z) (key : string) (_ : Z)
  : io (gset string) (option (result string LockError)) :=
  fun held => if decide (key ∈ held) then (Some (Err Unavailable), held)
              else (Some (Ok key), {[key]} ∪ held).
Definition unlock (_ : unit) (_ : Z) (key : string) : io (gset string) (option unit) :=
  fun held => (Some tt, held ∖ {[key]}).

Definition lock_acquire_and_release : bool :=
  let key := lock_key (set_app_name "test" identity_initial) "resource" in
  let ttl := trx_lock_timeout env in
  match acquire_lock env lock tt key ttl ∅ with
  | (Some l, held) =>
      let '(second, held) := acquire_lock env lock tt key ttl held in
      let '(_, held) := release env unlock tt l held in
      let '(third, _) := acquire_lock env lock tt key ttl held in
      same second None && same third (Some key)
  | (None, _) => false
  end.

Lemma redis_live_tests_pass :
  all_pass [ttl_reads_back_the_stored_expiry; store_get_delete_roundtrip;
    lock_acquire_and_release] = true.
Proof. vm_compute. reflexivity. Qed.

End RedisLiveTests.

(** ** [pc-auth]: the claims of a token *)

Module ClaimTests.

(** The JSON values of claims, as [serde_json] classifies them. *)
Inductive Claim : Type := CInt (n : Z) | CFloat (x : spec_float) | CStr (s : string).

(** The proleptic Gregorian calendar: days since the epoch of a civil date, and back. *)
Definition days_from_civil (y m d : Z) : Z :=
  let y := if m <=? 2 then y - 1 else y in
  let era := y / 400 in
  let yoe := y - era * 400 in
  let doy := (153 * ((m + 9) mod 12) + 2) / 5 + d - 1 in
  era * 146097 + (yoe * 365 + yoe / 4 - yoe / 100 + doy) - 719468.

Definition year_of (seconds : Z) : Z :=
  let z := seconds / 86400 + 719468 in
  let era := z / 146097 in
  let doe := z - era * 146097 in
  let yoe := (doe - doe / 1460 + doe / 36524 - doe / 146096) / 365 in
  let doy := doe - (365 * yoe + yoe / 4 - yoe / 100) in
  yoe + era * 400 + if 10 <=? (5 * doy + 2) / 153 then 1 else 0.

Definition hour_of (seconds : Z) : Z := seconds mod 86400 / 3600.

(** [PrimitiveDateTime::parse] with the format "[year]-[month]-[day] [hour]:[minute]:[second]",
    as UTC. *)
Definition parse_datetime (s : string) : option Z :=
  let field (width : nat) (t : string) :=
    if Nat.eqb (String.length t) width && Codecs.numeric_text t then parse_i64 t else None in
  match split_char " " s with
  | [date; time] =>
      match split_char "-" date, split_char ":" time with
      | [y; mo; d], [h; mi; sec] =>
          match field 4%nat y, field 2%nat mo, field 2%nat d,
                field 2%nat h, field 2%nat mi, field 2%nat sec with
          | Some y, Some mo, Some d, Some h, Some mi, Some sec =>
              Some (days_from_civil y mo d * 86400 + h * 3600 + mi * 60 + sec)
          | _, _, _, _, _, _ => None
          end
      | _, _ => None
      end
  | _ => None
  end.

#[local] Instance claim_crypto : Crypto := {|
  json_valid := json_valid (Crypto := toy_crypto);
  sha256 := sha256 (Crypto := toy_crypto);
  hex_encode := hex_encode (Crypto := toy_crypto);
  hmac_sha512 := hmac_sha512 (Crypto := toy_crypto);
  ct_eq := ct_eq (Crypto := toy_crypto);
  b64_encode := b64_encode (Crypto := toy_crypto);
  b64_decode := b64_decode (Crypto := toy_crypto);
  PrivateKey := nat; PublicKey := nat; Signature := bytes;
  from_pkcs1_pem := from_pkcs1_pem (Crypto := toy_crypto);
  from_public_key_pem := from_public_key_pem (Crypto := toy_crypto);
  rsa_pkcs1v15_sign := rsa_pkcs1v15_sign (Crypto := toy_crypto);
  signature_to_bytes := signature_to_bytes (Crypto := toy_crypto);
  signature_try_from := signature_try_from (Crypto := toy_crypto);
  rsa_pkcs1v15_verify := rsa_pkcs1v15_verify (Crypto := toy_crypto);
  Cipher := bytes;
  aes_new := aes_new (Crypto := toy_crypto);
  aes_gcm_encrypt := aes_gcm_encrypt (Crypto := toy_crypto);
  aes_gcm_decrypt := aes_gcm_decrypt (Crypto := toy_crypto);
  DecodingKey := nat; JsonValue := Claim;
  from_rsa_pem s := Ok (String.length s);
  jwt_decode _ _ _ _ := Err "invalid token";
|}.

#[local] Instance claim_auth : AuthLib unit (C := claim_crypto) (L := text_http) := {|
  md5 b := b;
  value_from_slice _ := Err "not read";
  value_from_str _ := Err "not read";
  value_string s := CStr s;
  revoke_from_str s := ok_or (parse_i64 s) "not a number";
  as_i64 v := match v with CInt n => try_from I64_MIN I64_MAX n | _ => None end;
  as_u64 v := match v with CInt n => try_from 0 U64_MAX n | _ => None end;
  as_f64 v := match v with CFloat x => Some x | CInt n => Some (f64_of_Z n) | CStr _ => None end;
  as_str v := match v with CStr s => Some s | _ => None end;
  Auth.parse_datetime := parse_datetime;
  now_utc := io_ret 0;
  unix_time := io_ret 0;
  random16 := io_ret (replicate 16 zero);
  to_bytes := fun (b : @Body text_http) _ => io_ret (Ok b);
|}.

Definition parses_custom_expired_claim_as_utc : bool :=
  match parse_go_datetime (A := claim_auth) "2026-07-30 12:34:56" with
  | Some dt => same (year_of dt) 2026 && same (hour_of dt) 12
  | None => false
  end
  && same (parse_go_datetime (A := claim_auth) "2026-07-30T12:34:56Z") None.

Definition merchant_claim_accepts_number_and_string : bool :=
  same (merchant_id (A := claim_auth) {["MerchantId" := CFloat (f64_of_Z 42)]}) (Some 42)
  && same (merchant_id (A := claim_auth) {["MerchantId" := CStr "43"]}) (Some 43).

Lemma claim_tests_pass :
  all_pass [parses_custom_expired_claim_as_utc; merchant_claim_accepts_number_and_string] = true.
Proof. vm_compute. reflexivity. Qed.

End ClaimTests.

(** ** [paycloudhelper] *)

Module UmbrellaTests.

(** No [.env] file anywhere; a process that has not started. *)
Definition started (a : App) : result unit string * App :=
  Umbrella.init (fun _ env => env) (fun _ => false) None None true true a.

Definition init_is_repeatable : bool :=
  let '(first, a) := started (mkApp (vars []) identity_initial Process_initial) in
  let '(second, _) := started a in
  is_ok first && is_ok second.

Definition full_feature_reexports_compile : bool :=
  same Amqp.DEFAULT_MESSAGE_TTL "60000" && same CMD_DATA "audit-trail-data"
  && same S3minio.CODE_OK 0.

Lemma umbrella_tests_pass :
  all_pass [init_is_repeatable; full_feature_reexports_compile] = true.
Proof. vm_compute. reflexivity. Qed.

End UmbrellaTests.
